(** * QA_Agent: the retrieval / generation-validation pipeline, verified

    A shallow embedding of the Python services under
    [backend/services/llm_service] (ranking, prompt_utils, json_utils,
    validation, generate_test_cases), of the verification gate of
    [backend/services/deterministic_selenium_generator] with
    [backend/services/semantic_matcher], and of what feeds them: the
    chunker, the corpus statistics and the fill order of
    [backend/services/html_dependency_analyzer].

    Conventions of the embedding.
    - Text is [string]; a character is a code point below 256, and the
      character classes of Python's [re] and [str] methods are those Python
      uses on that range.
    - Python floats are rationals [Q], and sums and products are exact, but
      for the operations whose rounding a comparison can see: the margins of
      the semantic matcher and the embedding component of the ranker go
      through [nearest_double], the rounding of a rational to a double, which
      is a parameter like [math.log]. Elsewhere a float sum that rounding
      leaves an ulp under a threshold is read at its exact value.
    - A loop that the code does not bound takes fuel and returns [None] when
      it runs out.
    - Dicts with a fixed set of optional keys (chunks, test cases) are records
      of [option] fields: an absent key is [None]. A field that is present
      holds a value of the type the schema names; a test case with a field of
      another type (a number among the steps) is not represented.
    - [json.loads] raises [ValueError], which is not a [JSONDecodeError], on
      an integer literal of more than 4300 digits; the decoder has the three
      outcomes.
    - The embedding model is an external collaborator: the cosine similarity of
      two texts is a parameter of the sections that need it. *)

From Stdlib Require Import Ascii String List ZArith QArith Lia Bool Lqa.
From Stdlib Require Import DecimalString DecimalNat DecimalFacts.
From stdpp Require Import gmap strings list sorting.

(** ** Characters *)

Module Chars.

Definition code (c : ascii) : N := N_of_ascii c.

Definition in_range (lo hi : N) (c : ascii) : bool :=
  ((lo <=? code c) && (code c <=? hi))%N.

Definition is_char (a c : ascii) : bool := Ascii.eqb a c.

Definition any_char (_ : ascii) : bool := true.

(** [\d]: the decimal digits. *)
Definition is_digit : ascii -> bool := in_range 48 57.

(** [[A-Z]] and [[a-z]]. *)
Definition is_upper : ascii -> bool := in_range 65 90.
Definition is_lower : ascii -> bool := in_range 97 122.

(** [\w] of a [str] pattern, on code points below 256. *)
Definition is_word (c : ascii) : bool :=
  is_digit c || is_upper c || is_lower c || is_char "_" c
  || in_range 170 170 c || in_range 178 179 c || in_range 181 181 c
  || in_range 185 186 c || in_range 188 190 c || in_range 192 214 c
  || in_range 216 246 c || in_range 248 255 c.

(** [\s] and [str.isspace], on code points below 256. *)
Definition is_space (c : ascii) : bool :=
  in_range 9 13 c || in_range 28 32 c || in_range 133 133 c
  || in_range 160 160 c.

(** [str.lower] on one character. *)
Definition lower_char (c : ascii) : ascii :=
  if is_upper c || in_range 192 214 c || in_range 216 222 c
  then ascii_of_N (code c + 32) else c.

End Chars.
Import Chars.

(** ** Strings: the [str] methods the services use *)

Module Str.

Definition len : string -> nat := String.length.

Fixpoint lower (s : string) : string :=
  match s with
  | EmptyString => EmptyString
  | String c s' => String (lower_char c) (lower s')
  end.

Fixpoint starts_with (p s : string) : bool :=
  match p, s with
  | EmptyString, _ => true
  | String a p', String b s' => Ascii.eqb a b && starts_with p' s'
  | String _ _, EmptyString => false
  end.

(** [needle in hay]. *)
Fixpoint contains (needle hay : string) : bool :=
  starts_with needle hay
  || match hay with
     | EmptyString => false
     | String _ hay' => contains needle hay'
     end.

Fixpoint take (n : nat) (s : string) : string :=
  match n, s with
  | S n', String c s' => String c (take n' s')
  | _, _ => EmptyString
  end.

Fixpoint drop (n : nat) (s : string) : string :=
  match n, s with
  | S n', String _ s' => drop n' s'
  | _, _ => s
  end.

Definition ends_with (p s : string) : bool :=
  (len p <=? len s) && String.eqb (drop (len s - len p) s) p.

(** [sep.join(parts)]. *)
Fixpoint join (sep : string) (parts : list string) : string :=
  match parts with
  | [] => EmptyString
  | [p] => p
  | p :: rest => p +:+ sep +:+ join sep rest
  end.

Fixpoint lstrip (s : string) : string :=
  match s with
  | String c s' => if is_space c then lstrip s' else s
  | EmptyString => EmptyString
  end.

Fixpoint rstrip (s : string) : string :=
  match s with
  | EmptyString => EmptyString
  | String c s' =>
      match rstrip s' with
      | EmptyString => if is_space c then EmptyString else String c EmptyString
      | t => String c t
      end
  end.

(** [s.strip()]. *)
Definition strip (s : string) : string := rstrip (lstrip s).

(** [s.count(c)] for a one-character needle. *)
Fixpoint count (c : ascii) (s : string) : nat :=
  match s with
  | EmptyString => 0
  | String d s' => (if Ascii.eqb c d then 1 else 0) + count c s'
  end.

(** [c * n]. *)
Fixpoint replicate (n : nat) (c : ascii) : string :=
  match n with
  | 0 => EmptyString
  | S n' => String c (replicate n' c)
  end.

(** [s.split()]: the maximal runs of non-space characters. *)
Fixpoint split_ws_go (cur : string) (s : string) : list string :=
  match s with
  | EmptyString => if String.eqb cur "" then [] else [String.rev cur]
  | String c s' =>
      if is_space c
      then (if String.eqb cur "" then [] else [String.rev cur]) ++ split_ws_go "" s'
      else split_ws_go (String c cur) s'
  end.
Definition split_ws (s : string) : list string := split_ws_go "" s.

End Str.

(** ** Regular expressions: a backtracking matcher in the manner of [re]

    Greedy and lazy repetition, alternation tried left to right, one capture
    group, negative lookahead, [\b], [^] and [$]. A match is attempted at one position with the
    character before it at hand (for [\b] and [^]). *)

Module Re.

Inductive regex : Type :=
| Eps
| Cls (p : ascii -> bool)
| Cat (a b : regex)
| Alt (a b : regex)
| Star (a : regex)
| LazyStar (a : regex)
| Grp (a : regex)
| NegLook (a : regex)
| Wb
| Bol
| Eol.

Definition Chr (c : ascii) : regex := Cls (is_char c).
(** A literal word. *)
Fixpoint Lit (w : string) : regex :=
  match w with
  | EmptyString => Eps
  | String c w' => Cat (Chr c) (Lit w')
  end.
Definition Plus (a : regex) : regex := Cat a (Star a).
Definition Opt (a : regex) : regex := Alt a Eps.
Fixpoint Rep (n : nat) (a : regex) : regex :=
  match n with
  | 0 => Eps
  | S n' => Cat a (Rep n' a)
  end.
Definition AtLeast (n : nat) (a : regex) : regex := Cat (Rep n a) (Star a).

Definition word_before (prev : option ascii) : bool :=
  match prev with Some c => is_word c | None => false end.
Definition word_after (s : string) : bool :=
  match s with String c _ => is_word c | EmptyString => false end.

(** The continuation receives the capture, the last character consumed and
    the rest of the input. *)
Definition kont (A : Type) : Type :=
  option string -> option ascii -> string -> option A.

(** [$]: the end of the text, or the line feed that ends it. *)
Definition at_end (s : string) : bool :=
  match s with
  | EmptyString => true
  | String c EmptyString => is_char (ascii_of_nat 10) c
  | _ => false
  end.

Fixpoint mt (r : regex) (A : Type) (cap : option string) (prev : option ascii)
    (s : string) (k : kont A) {struct r} : option A :=
  match r with
  | Eps => k cap prev s
  | Cls p =>
      match s with
      | String c s' => if p c then k cap (Some c) s' else None
      | EmptyString => None
      end
  | Cat a b => mt a A cap prev s (fun cap' p' s' => mt b A cap' p' s' k)
  | Alt a b =>
      match mt a A cap prev s k with
      | Some x => Some x
      | None => mt b A cap prev s k
      end
  | Star a =>
      (fix loop (n : nat) (cap : option string) (prev : option ascii)
           (s : string) {struct n} : option A :=
         match n with
         | 0 => k cap prev s
         | S n' =>
             match mt a A cap prev s (fun cap' p' s' =>
                     if Str.len s' <? Str.len s then loop n' cap' p' s'
                     else None) with
             | Some x => Some x
             | None => k cap prev s
             end
         end) (Str.len s) cap prev s
  | LazyStar a =>
      (fix loop (n : nat) (cap : option string) (prev : option ascii)
           (s : string) {struct n} : option A :=
         match n with
         | 0 => k cap prev s
         | S n' =>
             match k cap prev s with
             | Some x => Some x
             | None =>
                 mt a A cap prev s (fun cap' p' s' =>
                   if Str.len s' <? Str.len s then loop n' cap' p' s'
                   else None)
             end
         end) (Str.len s) cap prev s
  | Grp a =>
      mt a A cap prev s (fun _ p' s' =>
        k (Some (Str.take (Str.len s - Str.len s') s)) p' s')
  | NegLook a =>
      match mt a unit cap prev s (fun _ _ _ => Some tt) with
      | Some _ => None
      | None => k cap prev s
      end
  | Wb => if xorb (word_before prev) (word_after s) then k cap prev s else None
  | Bol => match prev with None => k cap prev s | Some _ => None end
  | Eol => if at_end s then k cap prev s else None
  end.

(** A match at the current position: its length and its capture. *)
Definition match_at (r : regex) (prev : option ascii) (s : string)
    : option (nat * option string) :=
  mt r _ None prev s (fun cap _ s' => Some (Str.len s - Str.len s', cap)).

(** What [findall] and the template [\1] see of a match. *)
Definition group_or_whole (whole : string) (cap : option string) : string :=
  match cap with Some g => g | None => whole end.

(** [re.findall(r, s)]: the non-overlapping matches, left to right; [skip]
    counts the characters of the current match still to be passed over. *)
Fixpoint findall_from (r : regex) (prev : option ascii) (skip : nat)
    (s : string) : list string :=
  match skip with
  | S k =>
      match s with
      | String c s' => findall_from r (Some c) k s'
      | EmptyString => []
      end
  | 0 =>
      match match_at r prev s with
      | Some (n, cap) =>
          group_or_whole (Str.take n s) cap ::
          match s with
          | String c s' => findall_from r (Some c) (n - 1) s'
          | EmptyString => []
          end
      | None =>
          match s with
          | String c s' => findall_from r (Some c) 0 s'
          | EmptyString => []
          end
      end
  end.
Definition findall (r : regex) (s : string) : list string :=
  findall_from r None 0 s.

(** [re.sub(r, repl, s)], the replacement given as a function of the match
    and its capture. *)
Fixpoint sub_from (r : regex) (repl : string -> option string -> string)
    (prev : option ascii) (skip : nat) (s : string) : string :=
  match skip with
  | S k =>
      match s with
      | String c s' => sub_from r repl (Some c) k s'
      | EmptyString => EmptyString
      end
  | 0 =>
      match match_at r prev s with
      | Some (n, cap) =>
          repl (Str.take n s) cap +:+
          match s with
          | String c s' =>
              (if n =? 0 then String c EmptyString else EmptyString)
              +:+ sub_from r repl (Some c) (n - 1) s'
          | EmptyString => EmptyString
          end
      | None =>
          match s with
          | String c s' => String c (sub_from r repl (Some c) 0 s')
          | EmptyString => EmptyString
          end
      end
  end.
Definition sub (r : regex) (repl : string -> option string -> string)
    (s : string) : string :=
  sub_from r repl None 0 s.

(** [re.search(r, s)]: the leftmost match, as the text it matched. *)
Fixpoint search_from (r : regex) (prev : option ascii) (s : string)
    : option string :=
  match match_at r prev s with
  | Some (n, _) => Some (Str.take n s)
  | None =>
      match s with
      | String c s' => search_from r (Some c) s'
      | EmptyString => None
      end
  end.
Definition search (r : regex) (s : string) : option string :=
  search_from r None s.

(** [re.split(r, s)] for a pattern without groups: the pieces between the
    matches; [cur] is the current piece, reversed. *)
Fixpoint split_from (r : regex) (prev : option ascii) (skip : nat)
    (cur : string) (s : string) : list string :=
  match skip with
  | S k =>
      match s with
      | String c s' => split_from r (Some c) k cur s'
      | EmptyString => [String.rev cur]
      end
  | 0 =>
      match match_at r prev s with
      | Some (S n, _) =>
          String.rev cur ::
          match s with
          | String c s' => split_from r (Some c) n EmptyString s'
          | EmptyString => [EmptyString]
          end
      | _ =>
          match s with
          | String c s' => split_from r (Some c) 0 (String c cur) s'
          | EmptyString => [String.rev cur]
          end
      end
  end.
Definition split (r : regex) (s : string) : list string :=
  split_from r None 0 EmptyString s.

End Re.
Import Re.

(** ** Numbers: comparisons of floats, read on exact rationals *)

Module Num.

Definition Qltb (x y : Q) : bool := negb (Qle_bool y x).
Definition Qmin (x y : Q) : Q := if Qle_bool x y then x else y.
Definition Qmax (x y : Q) : Q := if Qle_bool x y then y else x.
Definition Qsum (l : list Q) : Q := fold_left Qplus l 0%Q.

End Num.
Import Num.

(** ** Data model *)

(** The line feed and the double quote, which a literal cannot hold. *)
Definition nl : string := String (ascii_of_nat 10) EmptyString.

(** A retrieved chunk: a dict with the keys the pipeline reads and writes. *)
Record Chunk : Type := mkChunk {
  text : option string;
  source : option string;
  chunk_id : option string;
  distance : option Q;
  doc_type : option string;
  hybrid_score : option Q;
  bm25_score : option Q
}.

(** [d.get(key, default)]. *)
Definition get {A : Type} (field : option A) (default : A) : A :=
  match field with Some v => v | None => default end.

(** The collaborators outside the repository. *)
Record Externals : Type := mkExternals {
  (** [math.log] *)
  ln : Q -> Q;
  (** the double nearest to a rational: a float literal [x] is
      [nearest_double x], and the float sum of two doubles [a] and [b] is
      [nearest_double (a + b)] *)
  nearest_double : Q -> Q;
  (** cosine similarity of the embeddings of two texts; [None] when the
      embedding model raises *)
  similarity : string -> string -> option Q;
  (** [get_semantic_matcher()] returns a matcher *)
  matcher_available : bool;
  (** the corpus statistics loaded by [load_corpus_statistics] *)
  DF_MAP : gmap string Z;
  TOTAL_DOCS : Z
}.

(** ** prompt_utils.py *)

Module prompt_utils.

(** [[\x00-\x08\x0B\x0C\x0E-\x1F]] *)
Definition control_class (c : ascii) : bool :=
  in_range 0 8 c || in_range 11 12 c || in_range 14 31 c.

Definition sanitize_text (t : string) : string :=
  if String.eqb t EmptyString then EmptyString
  else
    let t1 := Re.sub (Cls control_class) (fun _ _ => " ") t in
    Str.strip (Re.sub (Plus (Cls is_space)) (fun _ _ => " ") t1).

Definition estimate_tokens (t : string) : Z :=
  Z.max 1 (Z.of_nat (Str.len t) / 4).

(** The accept loop: [total] is the running total, the loop breaks at the
    first chunk that would pass the budget. *)
Fixpoint select_chunks (chunks : list Chunk) (total max_tokens : Z)
    : list Chunk :=
  match chunks with
  | [] => []
  | chunk :: rest =>
      let tok := estimate_tokens (get (text chunk) EmptyString) in
      if (total + tok >? max_tokens)%Z then []
      else chunk :: select_chunks rest (total + tok) max_tokens
  end.

Definition context_part (c : Chunk) : string :=
  "[Source: " +:+ get (source c) "unknown" +:+ "]" +:+ nl
  +:+ sanitize_text (get (text c) EmptyString) +:+ nl.

Definition truncate_context_smart (chunks : list Chunk) (max_tokens : Z)
    : string * bool * list Chunk :=
  let selected := select_chunks chunks 0 max_tokens in
  let parts := map context_part selected in
  let context := Str.join nl parts in
  (context, length selected <? length chunks, selected).

(** [deduplicate_chunks]: a chunk is kept when the digest of its text,
    stripped and lowercased, was not seen before. The digest is
    [hashlib.md5(...).hexdigest()] of the encoded text. *)
Section Deduplicate.
Context (md5_hexdigest : string -> string).

Definition digest (c : Chunk) : string :=
  md5_hexdigest (Str.lower (Str.strip (get (text c) EmptyString))).

Fixpoint dedup_loop (seen : gset string) (chunks : list Chunk) : list Chunk :=
  match chunks with
  | [] => []
  | c :: rest =>
      let h := digest c in
      if bool_decide (h ∈ seen) then dedup_loop seen rest
      else c :: dedup_loop ({[h]} ∪ seen) rest
  end.

Definition deduplicate_chunks (chunks : list Chunk) : list Chunk * Z :=
  let out := dedup_loop ∅ chunks in
  (out, (Z.of_nat (length chunks) - Z.of_nat (length out))%Z).

End Deduplicate.

End prompt_utils.

(** ** config_semantic.py *)

Module config_semantic.

Definition threshold_semantic_match : Q := 0.35.
Definition threshold_final_action : Q := 0.35.
Definition threshold_button_action : Q := 0.35.
Definition threshold_select_action : Q := 0.25.
Definition threshold_document_classification : Q := 0.38.

Definition POSITIVE : string := "positive".
Definition NEGATIVE : string := "negative".
Definition EDGE_CASE : string := "edge_case".
Definition HIGH : string := "high".
Definition MEDIUM : string := "medium".
Definition LOW : string := "low".

End config_semantic.

(** ** semantic_matcher.py *)

Module semantic_matcher.

(** [max(a, b)] *)
Definition pymax (a b : Q) : Q := if Qltb a b then b else a.

Section WithExternals.
Context (E : Externals).

(** The loop [max_similarity = max(max_similarity, similarity)] over a list
    of intent phrases, from 0.0; [None] when an embedding raises. *)
Definition max_similarity (t : string) (intents : list string) : option Q :=
  fold_left
    (fun acc intent =>
       match acc with
       | None => None
       | Some m =>
           match similarity E t intent with
           | None => None
           | Some s => Some (pymax m s)
           end
       end)
    intents (Some 0%Q).

Definition verification_intents : list string :=
  [ "verify check assert validate confirm";
    "ensure make sure that if whether";
    "expect should must display show";
    "see observe notice detect";
    "error message warning alert notification";
    "success confirmation completed finished";
    "disabled enabled visible hidden";
    "displayed shown appears rendered";
    "applied correctly successfully properly" ].

Definition action_intents : list string :=
  [ "click press tap submit";
    "fill enter type input";
    "select choose pick opt";
    "open close start stop" ].

Definition literal_checks : list string :=
  [ "check if"; "check that"; "check whether" ].

(** [a + b] on two floats, [b] written as a literal. *)
Definition float_sum (a b : Q) : Q :=
  nearest_double E (a + nearest_double E b).

Definition is_verification_step (step_text : string) : bool * Q :=
  let step_lower := Str.strip (Str.lower step_text) in
  if existsb (fun pattern => Str.contains pattern step_lower) literal_checks
  then (true, 0.95%Q)
  else
    match max_similarity step_lower verification_intents,
          max_similarity step_lower action_intents with
    | Some max_verification_similarity, Some max_action_similarity =>
        (Qltb 0.30 max_verification_similarity
         && Qltb (float_sum max_action_similarity 0.08)
                 max_verification_similarity,
         max_verification_similarity)
    | _, _ => (false, 0.0%Q)
    end.

Definition button_intents : list string :=
  [ "click button press tap";
    "submit form send data";
    "proceed continue next forward";
    "confirm okay accept approve";
    "add insert create new";
    "trigger activate execute run";
    "push hit apply go";
    "launch start begin initiate";
    "process complete finish done";
    "purchase buy checkout pay" ].

Definition match_button_action (step_text : string) : bool * Q :=
  match max_similarity (Str.lower step_text) button_intents with
  | Some m => (Qltb config_semantic.threshold_button_action m, m)
  | None => (false, 0.0%Q)
  end.

Definition select_intents : list string :=
  [ "select choose pick option";
    "dropdown menu list picker";
    "opt for go with use";
    "set to change to switch to";
    "filter by sort by group by" ].

Definition match_select_action (step_text : string) : bool * Q :=
  match max_similarity (Str.lower step_text) select_intents with
  | Some m => (Qltb config_semantic.threshold_select_action m, m)
  | None => (false, 0.0%Q)
  end.

Definition doc_type_intents : list (string * string) :=
  [ ("specification",
     "product requirements features functionality specification guideline standard blueprint architecture schema definition");
    ("validation_rules",
     "validation rules constraints checks policy verify sanitize validate compliance regulation requirement");
    ("api_documentation",
     "api endpoint rest graphql webhook openapi swagger microservice service integration protocol");
    ("ui_guidelines",
     "ui ux design interface mockup wireframe prototype component layout theme style visual brand") ].

(** The loop that keeps the best-scoring label. *)
Definition best_intent (t : string) (intents : list (string * string))
    (init : string * Q) : option (string * Q) :=
  fold_left
    (fun acc item =>
       match acc with
       | None => None
       | Some (best_type, best_score) =>
           match similarity E t (snd item) with
           | None => None
           | Some s =>
               if Qltb best_score s then Some (fst item, s)
               else Some (best_type, best_score)
           end
       end)
    intents (Some init).

Definition classify_document_type (source content_sample : string)
    : string * Q :=
  let t := Str.lower (source +:+ " " +:+ content_sample) in
  match best_intent t doc_type_intents ("general", 0.0%Q) with
  | Some (best_type, best_score) =>
      if Qltb best_score config_semantic.threshold_document_classification
      then ("general", 0.3%Q)
      else (best_type, best_score)
  | None => ("general", 0.3%Q)
  end.

Definition digit : regex := Cls is_digit.
Definition spaces1 : regex := Plus (Cls is_space).

(** [(?:cost|fee|charge|price)(?:s)?\s+(?:is\s+)?\$(?!0(?:\.00)?(?:\s|$))\d+(?:\.\d{2})?] *)
Definition cost_price_pattern : regex :=
  Cat (Alt (Lit "cost") (Alt (Lit "fee") (Alt (Lit "charge") (Lit "price"))))
  (Cat (Opt (Chr "s"))
  (Cat spaces1
  (Cat (Opt (Cat (Lit "is") spaces1))
  (Cat (Chr "$")
  (Cat (NegLook (Cat (Chr "0")
                (Cat (Opt (Lit ".00")) (Alt (Cls is_space) Eol))))
  (Cat (Plus digit) (Opt (Cat (Chr ".") (Rep 2 digit))))))))).

Definition zero_cost_intents : list string :=
  [ "waived fee free of charge discount";
    "complimentary no cost included gift";
    "free service gratis no charge";
    "zero cost no fee included free";
    "free shipping delivery no cost";
    "gift included complimentary bonus" ].

Definition cost_intents : list string :=
  [ "costs price payment"; "charged amount billing"; "cost is price is" ].

Definition is_validation_context_zero_cost (context_text : string)
    : bool * Q :=
  match Re.search cost_price_pattern (Str.lower context_text) with
  | Some _ => (false, 0.0%Q)
  | None =>
      match max_similarity (Str.lower context_text) zero_cost_intents,
            max_similarity (Str.lower context_text) cost_intents with
      | Some max_zero_similarity, Some max_cost_similarity =>
          (Qltb 0.45 max_zero_similarity
           && Qltb (float_sum max_cost_similarity 0.1) max_zero_similarity,
           max_zero_similarity)
      | _, _ => (false, 0.0%Q)
      end
  end.

End WithExternals.
End semantic_matcher.

(** ** The object store: dicts and lists are mutable and shared by reference *)

Module Heap.

Definition loc : Type := positive.

Record Store : Type := mkStore {
  dicts : gmap loc Chunk;
  lists : gmap loc (list loc)
}.

(** A computation over the store; [None] is a reference to nothing, which a
    Python program cannot hold. *)
Definition M (A : Type) : Type := Store -> option (A * Store).

Definition ret {A : Type} (a : A) : M A := fun h => Some (a, h).

Definition bind {A B : Type} (m : M A) (f : A -> M B) : M B :=
  fun h => match m h with
           | Some (a, h') => f a h'
           | None => None
           end.

Definition new_dict (c : Chunk) : M loc :=
  fun h =>
    let l := fresh (dom (dicts h)) in
    Some (l, mkStore (<[l := c]> (dicts h)) (lists h)).

Definition read_dict (l : loc) : M Chunk :=
  fun h => match dicts h !! l with
           | Some c => Some (c, h)
           | None => None
           end.

Definition update_dict (l : loc) (f : Chunk -> Chunk) : M unit :=
  fun h => match dicts h !! l with
           | Some c => Some (tt, mkStore (<[l := f c]> (dicts h)) (lists h))
           | None => None
           end.

Definition new_list (v : list loc) : M loc :=
  fun h =>
    let l := fresh (dom (lists h)) in
    Some (l, mkStore (dicts h) (<[l := v]> (lists h))).

Definition read_list (l : loc) : M (list loc) :=
  fun h => match lists h !! l with
           | Some v => Some (v, h)
           | None => None
           end.

Definition update_list (l : loc) (f : list loc -> list loc) : M unit :=
  fun h => match lists h !! l with
           | Some v => Some (tt, mkStore (dicts h) (<[l := f v]> (lists h)))
           | None => None
           end.

(** [for x in xs: body x] *)
Fixpoint for_each {A : Type} (xs : list A) (body : A -> M unit) : M unit :=
  match xs with
  | [] => ret tt
  | x :: rest => bind (body x) (fun _ => for_each rest body)
  end.

(** [[f x for x in xs]] *)
Fixpoint map_m {A B : Type} (f : A -> M B) (xs : list A) : M (list B) :=
  match xs with
  | [] => ret []
  | x :: rest =>
      bind (f x) (fun y => bind (map_m f rest) (fun ys => ret (y :: ys)))
  end.

End Heap.

Notation "'let!' x ':=' m 'in' k" := (Heap.bind m (fun x => k))
  (at level 10, x name, m at level 100, k at level 200).
Notation "'run!' m 'in' k" := (Heap.bind m (fun _ => k))
  (at level 10, m at level 100, k at level 200).

(** ** ranking.py *)

Module ranking.

Record Weights : Type := mkWeights {
  w_embedding : Q;
  w_bm25 : Q;
  w_metadata : Q;
  w_phrase : Q
}.

Definition default_weights : Weights := mkWeights 0.50 0.30 0.15 0.05.

Definition doc_type_weights (doc_type : string) : Q :=
  if String.eqb doc_type "specification" then 1.5
  else if String.eqb doc_type "validation_rules" then 1.4
  else if String.eqb doc_type "api_documentation" then 1.3
  else if String.eqb doc_type "ui_guidelines" then 1.1
  else 1.0.

(** [\w+] *)
Definition words_re : regex := Plus (Cls is_word).

(** [Counter(doc_terms).get(term, 0)] *)
Definition term_freq (term : string) (doc_terms : list string) : nat :=
  length (filter (String.eqb term) doc_terms).

(** [embedding_score = 1.0 - chunk.get("distance", 1.0)], a float
    difference. *)
Definition embedding_score (E : Externals) (chunk : Chunk) : Q :=
  nearest_double E (1.0 - get (distance chunk) 1.0)%Q.

Definition metadata_score (t : string) : Q :=
  let m := 0.5%Q in
  let m := if 100 <? Str.len t then (m + 0.2)%Q else m in
  let m := if 500 <? Str.len t then (m + 0.1)%Q else m in
  m.

(** The adjacent pairs [query_words[i]], [query_words[i+1]]. *)
Fixpoint bigrams (ws : list string) : list string :=
  match ws with
  | a :: ((b :: _) as rest) => (a +:+ " " +:+ b) :: bigrams rest
  | _ => []
  end.

Definition phrase_score (query t : string) : Q :=
  let query_words := Str.split_ws (Str.lower query) in
  let hits :=
    fold_left
      (fun acc phrase =>
         if Str.contains phrase (Str.lower t) then (acc + 0.25)%Q else acc)
      (bigrams query_words) 0.0%Q in
  Qmin 1.0 hits.

Section WithExternals.
Context (E : Externals).

Definition calculate_bm25_score (query document : string) : Q :=
  let k1 := 1.5%Q in
  let b := 0.75%Q in
  let query_terms := remove_dups (Re.findall words_re (Str.lower query)) in
  let doc_terms := Re.findall words_re (Str.lower document) in
  let doc_length := inject_Z (Z.of_nat (length doc_terms)) in
  let avg_doc_length := 500%Q in
  let total_docs_for_idf := inject_Z (Z.max (TOTAL_DOCS E) 1) in
  fold_left
    (fun score term =>
       let tf := term_freq term doc_terms in
       if 0 <? tf then
         let tfq := inject_Z (Z.of_nat tf) in
         let df := inject_Z (default 0%Z (DF_MAP E !! term)) in
         let idf := (ln E ((1 + total_docs_for_idf) / (1 + df)) + 1.0)%Q in
         let numerator := (tfq * (k1 + 1))%Q in
         let denominator :=
           (tfq + k1 * (1 - b + b * (doc_length / avg_doc_length)))%Q in
         (score + idf * (numerator / denominator))%Q
       else score)
    query_terms 0.0%Q.

Definition keyword_doc_type (source : string) : string :=
  let source_lower := Str.lower source in
  if Str.contains "spec" source_lower || Str.contains "requirement" source_lower
  then "specification"
  else if Str.contains "validation" source_lower
          || Str.contains "rule" source_lower
  then "validation_rules"
  else if Str.contains "api" source_lower then "api_documentation"
  else if Str.contains "ui" source_lower || Str.contains "ux" source_lower
  then "ui_guidelines"
  else "general".

(** The matcher classifies; the keyword fallback runs when no matcher can be
    had. *)
Definition classify_document_type (source : string) : string :=
  if matcher_available E
  then fst (semantic_matcher.classify_document_type E source EmptyString)
  else keyword_doc_type source.

(** The weighted sum of one chunk, before the document-type multiplier. *)
Definition weighted_sum (weights : Weights) (chunk : Chunk) (query : string)
    : Q :=
  let t := get (text chunk) EmptyString in
  let bm25_normalized := Qmin 1.0 (calculate_bm25_score query t / 10.0) in
  (embedding_score E chunk * w_embedding weights
   + bm25_normalized * w_bm25 weights
   + metadata_score t * w_metadata weights
   + phrase_score query t * w_phrase weights)%Q.

Definition hybrid_score_of (weights : Weights) (chunk : Chunk)
    (query : string) : Q :=
  (weighted_sum weights chunk query
   * doc_type_weights (classify_document_type (get (source chunk) EmptyString)))%Q.

(** The three assignments to [new_chunk]. *)
Definition set_doc_type (v : string) (c : Chunk) : Chunk :=
  mkChunk (text c) (source c) (chunk_id c) (distance c) (Some v)
          (hybrid_score c) (bm25_score c).
Definition set_hybrid_score (v : Q) (c : Chunk) : Chunk :=
  mkChunk (text c) (source c) (chunk_id c) (distance c) (doc_type c)
          (Some v) (bm25_score c).
Definition set_bm25_score (v : Q) (c : Chunk) : Chunk :=
  mkChunk (text c) (source c) (chunk_id c) (distance c) (doc_type c)
          (hybrid_score c) (Some v).

(** [list.sort(key=..., reverse=True)]: stable, descending. *)
Fixpoint insert_desc {A : Type} (key : A -> Q) (x : A) (l : list A) : list A :=
  match l with
  | [] => [x]
  | y :: l' =>
      if Qle_bool (key x) (key y) then y :: insert_desc key x l' else x :: l
  end.
Definition sort_desc {A : Type} (key : A -> Q) (l : list A) : list A :=
  fold_left (fun acc x => insert_desc key x acc) l [].

(** The body of the loop over [chunks]: copy, score, annotate the copy,
    append it to [ranked_chunks]. *)
Definition rank_one (weights : Weights) (query : string)
    (ranked_chunks : Heap.loc) (chunk : Heap.loc) : Heap.M unit :=
  let! c := Heap.read_dict chunk in
  let! new_chunk := Heap.new_dict c in
  let t := get (text c) EmptyString in
  let bm25 := calculate_bm25_score query t in
  let doc_type := classify_document_type (get (source c) EmptyString) in
  run! Heap.update_dict new_chunk (set_doc_type doc_type) in
  run! Heap.update_dict new_chunk
         (set_hybrid_score (hybrid_score_of weights c query)) in
  run! Heap.update_dict new_chunk (set_bm25_score bm25) in
  Heap.update_list ranked_chunks (fun v => v ++ [new_chunk]).

(** [ranked_chunks.sort(key=lambda x: x.get("hybrid_score", 0), reverse=True)] *)
Definition sort_ranked (ranked_chunks : Heap.loc) : Heap.M unit :=
  let! v := Heap.read_list ranked_chunks in
  let! keyed := Heap.map_m (fun l => let! c := Heap.read_dict l in
                                     Heap.ret (l, get (hybrid_score c) 0%Q)) v in
  Heap.update_list ranked_chunks
    (fun _ => map fst (sort_desc snd keyed)).

Definition hybrid_rank_chunks (chunks : Heap.loc) (query : string)
    (weights : option Weights) : Heap.M Heap.loc :=
  let weights := get weights default_weights in
  let! ranked_chunks := Heap.new_list [] in
  let! items := Heap.read_list chunks in
  run! Heap.for_each items (rank_one weights query ranked_chunks) in
  run! sort_ranked ranked_chunks in
  Heap.ret ranked_chunks.

(** The value the call computes for one chunk. *)
Definition ranked_copy (weights : Weights) (query : string) (c : Chunk)
    : Chunk :=
  set_bm25_score (calculate_bm25_score query (get (text c) EmptyString))
    (set_hybrid_score (hybrid_score_of weights c query)
      (set_doc_type (classify_document_type (get (source c) EmptyString)) c)).

(** The chunks of the list the call returns, by value: the copies, in the
    stable descending order of their scores. *)
Definition ranked_chunks (weights : option Weights) (query : string)
    (chunks : list Chunk) : list Chunk :=
  sort_desc (fun c => get (hybrid_score c) 0%Q)
    (map (ranked_copy (get weights default_weights) query) chunks).

End WithExternals.
(** The strategy selector. *)

Inductive Recommendation : Type :=
| NoDocumentation
| OutOfDomain (ratio : Q)
| QualityTooLow (confidence ratio : Q)
| LowConfidence
| ModerateConfidence
| HighConfidence.

Record GenerationStrategy : Type := mkStrategy {
  strategy : string;
  confidence : Q;
  recommendation : Recommendation;
  should_proceed : bool;
  domain_relevance : option Q;
  has_specific_values : option bool;
  has_validation_rules : option bool;
  has_examples : option bool
}.

Definition common_words : list string :=
  [ "test"; "case"; "cases"; "generate"; "create"; "make"; "for"; "the";
    "and"; "that"; "this"; "with"; "from"; "will"; "should"; "would";
    "could"; "have"; "been"; "which"; "their"; "what"; "about"; "when";
    "where"; "there"; "some"; "into"; "than"; "them"; "these"; "those";
    "your"; "write"; "using"; "verify"; "check"; "validate"; "ensure";
    "positive"; "negative"; "scenario"; "step"; "steps"; "result";
    "expected"; "outcome"; "feature"; "function"; "system"; "application" ].

(** [\b[a-z0-9]{3,}\b] *)
Definition prompt_term_re : regex :=
  Cat Wb (Cat (AtLeast 3 (Cls (fun c => is_lower c || is_digit c))) Wb).

(** [\$\d+|\d+%|[A-Z]{2,}\d+|P\d{3}] *)
Definition specifics_re : regex :=
  Alt (Cat (Chr "$") (Plus (Cls is_digit)))
  (Alt (Cat (Plus (Cls is_digit)) (Chr "%"))
  (Alt (Cat (AtLeast 2 (Cls is_upper)) (Plus (Cls is_digit)))
       (Cat (Chr "P") (Rep 3 (Cls is_digit))))).

Definition rule_keywords : list string :=
  [ "must be"; "should be"; "required field"; "limit"; "constraint";
    "validation"; "error message"; "minimum"; "maximum" ].

Definition example_keywords : list string :=
  [ "example"; "e.g."; "for instance"; "such as" ].

Definition all_text (chunks : list Chunk) : string :=
  Str.lower (Str.join " " (map (fun chunk => get (text chunk) EmptyString) chunks)).

(** [prompt_terms - common_words], as a list without repeats. *)
Definition prompt_domain_terms (prompt : string) : list string :=
  filter (fun term => negb (existsb (String.eqb term) common_words))
         (remove_dups (Re.findall prompt_term_re (Str.lower prompt))).

Definition matched_terms (chunks : list Chunk) (prompt : string) : nat :=
  length (filter (fun term => Str.contains term (all_text chunks))
                 (prompt_domain_terms prompt)).

Definition domain_overlap_ratio (chunks : list Chunk) (prompt : string) : Q :=
  match prompt_domain_terms prompt with
  | [] => 0%Q
  | terms =>
      (inject_Z (Z.of_nat (matched_terms chunks prompt))
       / inject_Z (Z.of_nat (length terms)))%Q
  end.

Definition adaptive_test_generation_strategy (chunks : list Chunk)
    (prompt : string) : GenerationStrategy :=
  match chunks with
  | [] =>
      mkStrategy "abort" 0.0 NoDocumentation false None None None None
  | _ =>
      let ratio := domain_overlap_ratio chunks prompt in
      if Qltb ratio 0.3 then
        mkStrategy "abort" 0.0 (OutOfDomain ratio) false (Some ratio)
                   None None None
      else
        let total_score :=
          fold_left (fun acc chunk => (acc + get (hybrid_score chunk) 0)%Q)
                    chunks 0%Q in
        let avg_score := (total_score / inject_Z (Z.of_nat (length chunks)))%Q in
        let has_specifics :=
          negb (bool_decide (Re.findall specifics_re (all_text chunks) = [])) in
        let has_rules :=
          existsb (fun kw => Str.contains kw (all_text chunks)) rule_keywords in
        let has_ex :=
          existsb (fun kw => Str.contains kw (all_text chunks)) example_keywords in
        let conf :=
          Qmin 1.0 (ratio * 0.5 + avg_score * 0.25
                    + (if has_specifics then 0.15 else 0)
                    + (if has_rules then 0.08 else 0)
                    + (if has_ex then 0.02 else 0))%Q in
        if Qltb conf 0.4 then
          mkStrategy "abort" conf (QualityTooLow conf ratio) false None
                     (Some has_specifics) (Some has_rules) (Some has_ex)
        else if Qltb conf 0.6 then
          mkStrategy "minimal" conf LowConfidence true None
                     (Some has_specifics) (Some has_rules) (Some has_ex)
        else if Qltb conf 0.8 then
          mkStrategy "standard" conf ModerateConfidence true None
                     (Some has_specifics) (Some has_rules) (Some has_ex)
        else
          mkStrategy "comprehensive" conf HighConfidence true None
                     (Some has_specifics) (Some has_rules) (Some has_ex)
  end.

End ranking.

(** ** JSON: the values, [json.loads] and [json.dumps]

    A number is kept as its literal. An object is kept as the list of its
    members as written; a lookup takes the last member with the key, as the
    construction of a dict does. An escape for a code point above 255 is
    outside the text model and is read as a question mark. *)

Module Json.

#[warnings="-register-all"]
Inductive json : Type :=
| JNull
| JBool (b : bool)
| JNum (literal : string)
| JStr (s : string)
| JArr (items : list json)
| JObj (members : list (string * json)).

Definition quote : ascii := ascii_of_nat 34.
Definition backslash : ascii := ascii_of_nat 92.

(** The whitespace of the decoder: space, tab, line feed, carriage return. *)
Definition is_ws (c : ascii) : bool :=
  is_char " " c || in_range 9 10 c || in_range 13 13 c.

Fixpoint skip_ws (s : string) : string :=
  match s with
  | String c s' => if is_ws c then skip_ws s' else s
  | EmptyString => EmptyString
  end.

Definition hex_value (c : ascii) : option N :=
  if is_digit c then Some (code c - 48)%N
  else if in_range 97 102 c then Some (code c - 87)%N
  else if in_range 65 70 c then Some (code c - 55)%N
  else None.

Definition hex4 (a b c d : ascii) : option N :=
  match hex_value a, hex_value b, hex_value c, hex_value d with
  | Some x, Some y, Some z, Some w => Some (((x * 16 + y) * 16 + z) * 16 + w)%N
  | _, _, _, _ => None
  end.

Definition char_of_code (n : N) : ascii :=
  if (n <? 256)%N then ascii_of_N n else "?"%char.

(** The one-letter escapes. *)
Definition unescape (e : ascii) : option ascii :=
  if is_char quote e then Some quote
  else if is_char backslash e then Some backslash
  else if is_char "/" e then Some "/"%char
  else if is_char "b" e then Some (ascii_of_nat 8)
  else if is_char "f" e then Some (ascii_of_nat 12)
  else if is_char "n" e then Some (ascii_of_nat 10)
  else if is_char "r" e then Some (ascii_of_nat 13)
  else if is_char "t" e then Some (ascii_of_nat 9)
  else None.

Definition cons_to (c : ascii) (r : option (string * string))
    : option (string * string) :=
  match r with
  | Some (str, rest) => Some (String c str, rest)
  | None => None
  end.

(** [scanstring], strict, from after the opening quote: the decoded string
    and what follows the closing quote. *)
Fixpoint scan_string (s : string) : option (string * string) :=
  match s with
  | EmptyString => None
  | String c s' =>
      if is_char quote c then Some (EmptyString, s')
      else if is_char backslash c then
        match s' with
        | String e s'' =>
            if is_char "u" e then
              match s'' with
              | String h1 (String h2 (String h3 (String h4 rest))) =>
                  match hex4 h1 h2 h3 h4 with
                  | Some n => cons_to (char_of_code n) (scan_string rest)
                  | None => None
                  end
              | _ => None
              end
            else
              match unescape e with
              | Some d => cons_to d (scan_string s'')
              | None => None
              end
        | EmptyString => None
        end
      else if (code c <? 32)%N then None
      else cons_to c (scan_string s')
  end.

(** [NUMBER_RE]: an optional minus, then 0 or a non-zero digit followed by
    digits, then optionally a point and digits, then optionally an exponent
    ([e] or [E], an optional sign, digits). *)
Definition number_re : regex :=
  Cat (Opt (Chr "-"))
  (Cat (Alt (Chr "0") (Cat (Cls (in_range 49 57)) (Star (Cls is_digit))))
  (Cat (Opt (Cat (Chr ".") (Plus (Cls is_digit))))
       (Opt (Cat (Cls (fun c => is_char "e" c || is_char "E" c))
            (Cat (Opt (Cls (fun c => is_char "-" c || is_char "+" c)))
                 (Plus (Cls is_digit))))))).

(** A number literal at the head of the text, and what follows it. *)
Definition scan_number (s : string) : option (string * string) :=
  match Re.match_at number_re None s with
  | Some (n, _) => Some (Str.take n s, Str.drop n s)
  | None => None
  end.

(** [int] on a literal without fraction and exponent raises [ValueError]
    when the literal has more than 4300 digits. *)
Definition is_float_literal (literal : string) : bool :=
  Str.contains "." literal || Str.contains "e" literal
  || Str.contains "E" literal.
Fixpoint digit_count (literal : string) : Z :=
  match literal with
  | EmptyString => 0
  | String c l => (if is_digit c then 1 else 0) + digit_count l
  end.
Definition over_digit_limit (literal : string) : bool :=
  negb (is_float_literal literal) && (4300 <? digit_count literal)%Z.

(** What a scan gives: a value and the text after it, or [JSONDecodeError],
    or the [ValueError] of an integer literal over the digit limit. *)
Inductive scanned (A : Type) : Type :=
| Scanned (a : A) (rest : string)
| Malformed
| TooManyDigits.
Arguments Scanned {A} a rest.
Arguments Malformed {A}.
Arguments TooManyDigits {A}.

Definition expect (word : string) (v : json) (s : string) : scanned json :=
  if Str.starts_with word s then Scanned v (Str.drop (Str.len word) s)
  else Malformed.

(** [scan_once], the array loop and the object loop, on [fuel]. *)
Fixpoint parse_value (fuel : nat) (s : string) : scanned json :=
  match fuel with
  | 0 => Malformed
  | S fuel' =>
      match s with
      | EmptyString => Malformed
      | String c r =>
          if is_char quote c then
            match scan_string r with
            | Some (str, rest) => Scanned (JStr str) rest
            | None => Malformed
            end
          else if is_char "{" c then
            match skip_ws r with
            | String d r' =>
                if is_char "}" d then Scanned (JObj []) r'
                else
                  match parse_members fuel' (String d r') with
                  | Scanned ms rest => Scanned (JObj ms) rest
                  | Malformed => Malformed
                  | TooManyDigits => TooManyDigits
                  end
            | EmptyString => Malformed
            end
          else if is_char "[" c then
            match skip_ws r with
            | String d r' =>
                if is_char "]" d then Scanned (JArr []) r'
                else
                  match parse_elements fuel' (String d r') with
                  | Scanned vs rest => Scanned (JArr vs) rest
                  | Malformed => Malformed
                  | TooManyDigits => TooManyDigits
                  end
            | EmptyString => Malformed
            end
          else if is_char "n" c then expect "null" JNull s
          else if is_char "t" c then expect "true" (JBool true) s
          else if is_char "f" c then expect "false" (JBool false) s
          else
            match scan_number s with
            | Some (literal, rest) =>
                if over_digit_limit literal then TooManyDigits
                else Scanned (JNum literal) rest
            | None =>
                if is_char "N" c then expect "NaN" (JNum "NaN") s
                else if is_char "I" c then expect "Infinity" (JNum "Infinity") s
                else if is_char "-" c
                then expect "-Infinity" (JNum "-Infinity") s
                else Malformed
            end
      end
  end
with parse_elements (fuel : nat) (s : string) : scanned (list json) :=
  match fuel with
  | 0 => Malformed
  | S fuel' =>
      match parse_value fuel' s with
      | Scanned v rest =>
          match skip_ws rest with
          | String d r =>
              if is_char "]" d then Scanned [v] r
              else if is_char "," d then
                match parse_elements fuel' (skip_ws r) with
                | Scanned vs rest' => Scanned (v :: vs) rest'
                | Malformed => Malformed
                | TooManyDigits => TooManyDigits
                end
              else Malformed
          | EmptyString => Malformed
          end
      | Malformed => Malformed
      | TooManyDigits => TooManyDigits
      end
  end
with parse_members (fuel : nat) (s : string)
    : scanned (list (string * json)) :=
  match fuel with
  | 0 => Malformed
  | S fuel' =>
      match s with
      | String q r =>
          if is_char quote q then
            match scan_string r with
            | Some (key, rest) =>
                match skip_ws rest with
                | String colon r1 =>
                    if is_char ":" colon then
                      match parse_value fuel' (skip_ws r1) with
                      | Scanned v rest1 =>
                          match skip_ws rest1 with
                          | String d r2 =>
                              if is_char "}" d then Scanned [(key, v)] r2
                              else if is_char "," d then
                                match parse_members fuel' (skip_ws r2) with
                                | Scanned ms rest2 =>
                                    Scanned ((key, v) :: ms) rest2
                                | Malformed => Malformed
                                | TooManyDigits => TooManyDigits
                                end
                              else Malformed
                          | EmptyString => Malformed
                          end
                      | Malformed => Malformed
                      | TooManyDigits => TooManyDigits
                      end
                    else Malformed
                | EmptyString => Malformed
                end
            | None => Malformed
            end
          else Malformed
      | EmptyString => Malformed
      end
  end.

(** [json.loads] as it ends: with the value, with [JSONDecodeError], or
    with the [ValueError] of the digit limit, which is no
    [JSONDecodeError]. One value, whitespace around it, nothing after it. *)
Inductive loaded : Type :=
| Loaded (v : json)
| JSONDecodeError
| DigitLimit.

Definition decode (s : string) : loaded :=
  match parse_value (S (Str.len s)) (skip_ws s) with
  | Scanned v rest =>
      match skip_ws rest with
      | EmptyString => Loaded v
      | String _ _ => JSONDecodeError
      end
  | Malformed => JSONDecodeError
  | TooManyDigits => DigitLimit
  end.

(** [json.loads] under an [except Exception]: [None] when it raises. *)
Definition loads (s : string) : option json :=
  match decode s with
  | Loaded v => Some v
  | _ => None
  end.

Definition hex_digit (n : N) : ascii :=
  if (n <? 10)%N then ascii_of_N (48 + n) else ascii_of_N (87 + n).

(** The encoding of one character by [json.dumps] (ASCII only). *)
Definition encode_char (c : ascii) : string :=
  if is_char quote c then String backslash (String quote EmptyString)
  else if is_char backslash c
  then String backslash (String backslash EmptyString)
  else if in_range 32 126 c then String c EmptyString
  else if is_char (ascii_of_nat 8) c then String backslash "b"
  else if is_char (ascii_of_nat 12) c then String backslash "f"
  else if is_char (ascii_of_nat 10) c then String backslash "n"
  else if is_char (ascii_of_nat 13) c then String backslash "r"
  else if is_char (ascii_of_nat 9) c then String backslash "t"
  else String backslash
         (String "u" (String "0" (String "0"
            (String (hex_digit (code c / 16))
               (String (hex_digit (code c mod 16)) EmptyString))))).

Fixpoint encode_chars (s : string) : string :=
  match s with
  | EmptyString => EmptyString
  | String c s' => encode_char c +:+ encode_chars s'
  end.

Definition encode_string (s : string) : string :=
  String quote (encode_chars s +:+ String quote EmptyString).

(** [json.dumps] with its default separators. *)
Fixpoint dumps (v : json) : string :=
  match v with
  | JNull => "null"
  | JBool true => "true"
  | JBool false => "false"
  | JNum literal => literal
  | JStr s => encode_string s
  | JArr items => "[" +:+ Str.join ", " (map dumps items) +:+ "]"
  | JObj members =>
      "{" +:+
      Str.join ", "
        (map (fun m => encode_string (fst m) +:+ ": " +:+ dumps (snd m))
             members)
      +:+ "}"
  end.

Definition is_dict (v : json) : bool :=
  match v with JObj _ => true | _ => false end.

(** [key in d] and [d[key]]. *)
Fixpoint lookup (key : string) (members : list (string * json)) : option json :=
  match members with
  | [] => None
  | (k, v) :: rest =>
      match lookup key rest with
      | Some later => Some later
      | None => if String.eqb k key then Some v else None
      end
  end.

(** [d[key] = v]: the value is replaced where the key stands, or added at
    the end. *)
Fixpoint assign (key : string) (v : json) (members : list (string * json))
    : list (string * json) :=
  match members with
  | [] => [(key, v)]
  | (k, x) :: rest =>
      if String.eqb k key
      then (k, v) :: filter (fun m => negb (String.eqb (fst m) key)) rest
      else (k, x) :: assign key v rest
  end.

End Json.

(** ** json_utils.py *)

Module json_utils.

(** The trailing comma: a comma, whitespace, and a closing bracket or brace,
    which is kept. *)
Definition is_closing (c : ascii) : bool := is_char "}" c || is_char "]" c.
Definition trailing_comma_re : regex :=
  Cat (Chr ",") (Cat (Star (Cls is_space)) (Grp (Cls is_closing))).

(** Two objects with only whitespace between them. *)
Definition brace_gap_re : regex :=
  Cat (Chr "}") (Cat (Star (Cls is_space)) (Chr "{")).

(** The replacement [\1]. *)
Definition group1 (whole : string) (cap : option string) : string :=
  match cap with Some g => g | None => EmptyString end.

Definition repair_json (t : string) : string :=
  let t := Re.sub trailing_comma_re group1 t in
  let t := Re.sub brace_gap_re (fun _ _ => "},{") t in
  let open_braces := Str.count "{" t in
  let close_braces := Str.count "}" t in
  let t :=
    if close_braces <? open_braces
    then t +:+ Str.replicate (open_braces - close_braces) "}" else t in
  let open_brackets := Str.count "[" t in
  let close_brackets := Str.count "]" t in
  let t :=
    if close_brackets <? open_brackets
    then t +:+ Str.replicate (open_brackets - close_brackets) "]" else t in
  let cleaned := Str.strip t in
  if Str.starts_with "{" cleaned && Str.ends_with "}" cleaned
     && negb (Str.starts_with "[" cleaned)
  then "[" +:+ cleaned +:+ "]"
  else cleaned.

Definition STOP_TOKEN : string := "</END_JSON>".

(** A bracket, anything, a bracket: the widest such span. *)
Definition array_span_re : regex :=
  Cat (Chr "[") (Cat (Star (Cls any_char)) (Chr "]")).
Definition object_span_re : regex :=
  Cat (Chr "{") (Cat (Star (Cls any_char)) (Chr "}")).

Definition extract_json_from_response (t : string) : string :=
  let t := Re.sub (Lit STOP_TOKEN) (fun _ _ => EmptyString) t in
  match Re.search array_span_re t with
  | Some m => m
  | None =>
      match Re.search object_span_re t with
      | Some m => m
      | None => t
      end
  end.

(** [s.find(c)] and [s.rfind(c)] for a one-character needle. *)
Fixpoint find (c : ascii) (s : string) : option nat :=
  match s with
  | EmptyString => None
  | String d s' =>
      if Ascii.eqb c d then Some 0
      else match find c s' with Some i => Some (S i) | None => None end
  end.
Fixpoint rfind (c : ascii) (s : string) : option nat :=
  match s with
  | EmptyString => None
  | String d s' =>
      match rfind c s' with
      | Some i => Some (S i)
      | None => if Ascii.eqb c d then Some 0 else None
      end
  end.

(** [s[start:stop]] *)
Definition slice (start stop : nat) (s : string) : string :=
  Str.take (stop - start) (Str.drop start s).

Definition between (opening closing : ascii) (raw_text : string)
    : option string :=
  match find opening raw_text, rfind closing raw_text with
  | Some start, Some stop =>
      if start <? stop then Some (slice start (stop + 1) raw_text) else None
  | _, _ => None
  end.

Definition aggressive_json_extraction (raw_text : string) : string :=
  match between "[" "]" raw_text with
  | Some candidate => repair_json candidate
  | None =>
      match between "{" "}" raw_text with
      | Some candidate => repair_json candidate
      | None => "[]"
      end
  end.

(** An opening brace, as little as possible, a closing brace. *)
Definition object_lazy_re : regex :=
  Cat (Chr "{") (Cat (LazyStar (Cls any_char)) (Chr "}")).

(** The loop over the candidate spans: it stops when 10 objects are in. *)
Fixpoint collect_objects (candidates : list string) (objects : list Json.json)
    : list Json.json :=
  match candidates with
  | [] => objects
  | candidate :: rest =>
      match Json.loads (repair_json candidate) with
      | Some parsed =>
          let objects :=
            match parsed with
            | Json.JObj _ => objects ++ [parsed]
            | Json.JArr items => objects ++ filter (fun o => Json.is_dict o) items
            | _ => objects
            end in
          if 10 <=? length objects then objects
          else collect_objects rest objects
      | None => collect_objects rest objects
      end
  end.

Definition secondary_json_format_pass (raw_text : string) : list Json.json :=
  collect_objects (Re.findall object_lazy_re raw_text) [].

End json_utils.

(** ** Results of fallible calls *)

Inductive exn : Type :=
| MatcherUnavailable   (** [get_semantic_matcher()] raised *)
| AttributeError       (** a method looked up on an object that lacks it *)
| TypeError            (** an operation on a value of the wrong type *)
| ValueError           (** an integer literal of more than 4300 digits *)
| Wrapped (e : exn).   (** [Exception("Test case generation failed: ...")] *)

Inductive result (A : Type) : Type :=
| Ok (a : A)
| Raise (e : exn).
Arguments Ok {A} a.
Arguments Raise {A} e.

Definition rbind {A B : Type} (m : result A) (f : A -> result B) : result B :=
  match m with
  | Ok a => f a
  | Raise e => Raise e
  end.

Notation "'try!' x ':=' m 'in' k" := (rbind m (fun x => k))
  (at level 10, x name, m at level 100, k at level 200).

(** A generated test case: a dict with the keys the pipeline reads and
    writes, each holding, when present, a value of the type the schema
    names. [test_steps] arrives as a list of texts or as one delimited
    string. *)
Inductive Steps : Type :=
| StepsText (s : string)
| StepsList (l : list string).

Record TestCase : Type := mkTestCase {
  test_id : option string;
  feature : option string;
  test_scenario : option string;
  test_steps : option Steps;
  expected_result : option string;
  test_type : option string;
  priority : option string;
  grounded_in : option string;
  needs_review : option bool;
  _action : option string;
  _hallucination_warning : option string;
  _review_reason : option string
}.

(** ** config.py: the validation patterns *)

Module config.

Record ValidationPattern : Type := mkPattern {
  name : string;
  pattern : regex;
  enabled : bool;
  blacklist : list string
}.

(** [\$\d+(?:\.\d{2})?] *)
Definition price_re : regex :=
  Cat (Chr "$") (Cat (Plus (Cls is_digit))
                     (Opt (Cat (Chr ".") (Rep 2 (Cls is_digit))))).

(** [\d+%] *)
Definition percentage_re : regex := Cat (Plus (Cls is_digit)) (Chr "%").

(** [\b[A-Z][A-Z0-9]{3,}\b] *)
Definition code_re : regex :=
  Cat Wb (Cat (Cls is_upper)
         (Cat (AtLeast 3 (Cls (fun c => is_upper c || is_digit c))) Wb)).

Definition code_blacklist : list string :=
  [ "STEP"; "TEST"; "HTTP"; "JSON"; "NOTE"; "TODO"; "FAIL"; "PASS";
    "MISSING"; "POST"; "GET"; "PUT"; "DELETE"; "TRUE"; "FALSE"; "NULL" ].

Definition VALIDATION_PATTERNS : list ValidationPattern :=
  [ mkPattern "price" price_re true [];
    mkPattern "percentage" percentage_re true [];
    mkPattern "code" code_re true code_blacklist ].

End config.

(** ** validation.py *)

Module validation.

(** The truth value of a field: absent, empty text and the empty list are
    false. *)
Definition truthy_text (f : option string) : bool :=
  match f with
  | Some s => negb (String.eqb s EmptyString)
  | None => false
  end.
Definition truthy_steps (f : option Steps) : bool :=
  match f with
  | Some (StepsText s) => negb (String.eqb s EmptyString)
  | Some (StepsList l) => negb (bool_decide (l = []))
  | None => false
  end.

Definition missing (f : string) : string := "[MISSING: " +:+ f +:+ "]".

(** The first loop: every required field that is absent or empty gets its
    placeholder and an issue. *)
Definition fill_text (f : string) (v : option string)
    : option string * list string :=
  if truthy_text v then (v, []) else (Some (missing f), ["missing:" +:+ f]).
Definition fill_steps (v : option Steps) : option Steps * list string :=
  if truthy_steps v then (v, [])
  else (Some (StepsText (missing "test_steps")), ["missing:test_steps"]).

Definition fill_required (tc : TestCase) : TestCase * list string :=
  let '(v_id, i1) := fill_text "test_id" (test_id tc) in
  let '(v_feature, i2) := fill_text "feature" (feature tc) in
  let '(v_scenario, i3) := fill_text "test_scenario" (test_scenario tc) in
  let '(v_steps, i4) := fill_steps (test_steps tc) in
  let '(v_expected, i5) := fill_text "expected_result" (expected_result tc) in
  let '(v_type, i6) := fill_text "test_type" (test_type tc) in
  let '(v_priority, i7) := fill_text "priority" (priority tc) in
  (mkTestCase v_id v_feature v_scenario v_steps v_expected v_type v_priority
     (grounded_in tc) (needs_review tc) (_action tc)
     (_hallucination_warning tc) (_review_reason tc),
   i1 ++ i2 ++ i3 ++ i4 ++ i5 ++ i6 ++ i7).

(** [[\n;]+] *)
Definition step_separator : regex :=
  Plus (Cls (fun c => is_char (ascii_of_nat 10) c || is_char ";" c)).

(** [[s.strip() for s in re.split(r'[\n;]+', raw) if s.strip()][:6] or
    ["Step 1", "Step 2"]] *)
Definition split_steps (raw : string) : list string :=
  let parts :=
    take 6 (map Str.strip
              (filter (fun s => negb (String.eqb (Str.strip s) EmptyString))
                      (Re.split step_separator raw))) in
  match parts with
  | [] => ["Step 1"; "Step 2"]
  | _ => parts
  end.

Definition coerce_steps (v : option Steps) : list string :=
  match v with
  | Some (StepsList l) => l
  | Some (StepsText raw) => split_steps raw
  | None => split_steps EmptyString
  end.

Definition coerce_test_type (v : option string) : string :=
  match v with
  | Some t =>
      if existsb (String.eqb t)
           [config_semantic.POSITIVE; config_semantic.NEGATIVE;
            "boundary"; "edge_case"]
      then t else config_semantic.POSITIVE
  | None => config_semantic.POSITIVE
  end.

Definition coerce_priority (v : option string) : string :=
  match v with
  | Some p =>
      if existsb (String.eqb p)
           [config_semantic.HIGH; config_semantic.MEDIUM; config_semantic.LOW]
      then p else config_semantic.MEDIUM
  | None => config_semantic.MEDIUM
  end.

Definition default_grounding (retrieved_chunks : list Chunk) : string :=
  match map (fun c => get (source c) "unknown") retrieved_chunks with
  | s :: _ => s
  | [] => "document.txt"
  end.

(** Schema enforcement: the state of the test case when the hallucination
    check starts. *)
Definition enforce_schema (tc : TestCase) (retrieved_chunks : list Chunk)
    : TestCase * list string :=
  let '(tc1, issues) := fill_required tc in
  (mkTestCase (test_id tc1) (feature tc1) (test_scenario tc1)
     (Some (StepsList (coerce_steps (test_steps tc1))))
     (expected_result tc1)
     (Some (coerce_test_type (test_type tc1)))
     (Some (coerce_priority (priority tc1)))
     (if truthy_text (grounded_in tc1) then grounded_in tc1
      else Some (default_grounding retrieved_chunks))
     (needs_review tc1) (_action tc1) (_hallucination_warning tc1)
     (_review_reason tc1),
   issues).

(** Iterating over [test_steps]: a list gives its items, a string its
    characters. *)
Fixpoint chars (s : string) : list string :=
  match s with
  | EmptyString => []
  | String c s' => String c EmptyString :: chars s'
  end.
Definition steps_items (v : option Steps) : list string :=
  match v with
  | Some (StepsList l) => l
  | Some (StepsText s) => chars s
  | None => []
  end.

Definition context_text (retrieved_chunks : list Chunk) : string :=
  Str.lower (Str.join " " (map (fun c => get (text c) EmptyString)
                               retrieved_chunks)).

Definition content_text (tc : TestCase) : string :=
  get (test_scenario tc) EmptyString +:+ " "
  +:+ get (expected_result tc) EmptyString +:+ " "
  +:+ Str.join " " (steps_items (test_steps tc)).

(** [check_val]: lowercased, and for a price a final [.00] cut off. *)
Definition check_value (ptype val : string) : string :=
  let check_val := Str.lower val in
  if String.eqb ptype "price" && Str.ends_with ".00" check_val
  then Str.take (Str.len check_val - 3) check_val
  else check_val.

Section WithExternals.
Context (E : Externals).

(** The matcher call of the zero-cost exception. *)
Definition zero_cost (context : string) : result bool :=
  if matcher_available E
  then Ok (fst (semantic_matcher.is_validation_context_zero_cost E context))
  else Raise MatcherUnavailable.

(** The body of the inner loop for one extracted value: is it appended to
    [fabricated]? *)
Definition is_fabricated (tc : TestCase) (context : string)
    (p : config.ValidationPattern) (val : string) : result bool :=
  if existsb (String.eqb val) (config.blacklist p) then Ok false
  else if String.eqb (config.name p) "code"
          && bool_decide (test_type tc = Some config_semantic.NEGATIVE)
  then Ok false
  else
    let check_val := check_value (config.name p) val in
    try! exempt :=
      (if String.eqb (config.name p) "price" && String.eqb check_val "$0"
       then zero_cost context else Ok false) in
    if exempt then Ok false
    else Ok (negb (Str.contains check_val context)).

(** The values one pattern contributes to [fabricated]. *)
Fixpoint fabricated_of (tc : TestCase) (context : string)
    (p : config.ValidationPattern) (vals : list string)
    : result (list string) :=
  match vals with
  | [] => Ok []
  | val :: rest =>
      try! bad := is_fabricated tc context p val in
      try! more := fabricated_of tc context p rest in
      Ok (if bad then val :: more else more)
  end.

Fixpoint fabricated_all (tc : TestCase) (context : string)
    (patterns : list config.ValidationPattern) : result (list string) :=
  match patterns with
  | [] => Ok []
  | p :: rest =>
      try! here :=
        fabricated_of tc context p
          (Re.findall (config.pattern p) (content_text tc)) in
      try! more := fabricated_all tc context rest in
      Ok (here ++ more)
  end.

Definition validate_test_case_schema (test_case : TestCase)
    (retrieved_chunks : list Chunk) : result (TestCase * list string) :=
  let '(tc, issues) := enforce_schema test_case retrieved_chunks in
  let context := context_text retrieved_chunks in
  let patterns := filter (fun p => config.enabled p) config.VALIDATION_PATTERNS in
  try! fabricated := fabricated_all tc context patterns in
  match fabricated with
  | [] => Ok (tc, issues)
  | _ =>
      Ok (mkTestCase (test_id tc) (feature tc) (test_scenario tc)
            (test_steps tc) (expected_result tc) (test_type tc) (priority tc)
            (grounded_in tc) (needs_review tc) (Some "drop")
            (Some ("fabricated: " +:+ Str.join ", " (take 5 fabricated)))
            (_review_reason tc),
          issues ++ ["hallucination"])
  end.

End WithExternals.

(** [\w+] *)
Definition word_re : regex := Plus (Cls is_word).

(** The signature of a test case: the first 25, in sorted order, of its
    distinct lowercased words longer than 4. *)
Definition signature (tc : TestCase) : list string :=
  let sig_words :=
    remove_dups
      (Re.findall word_re
         (Str.lower (get (test_scenario tc) EmptyString +:+ " "
                     +:+ Str.join " " (steps_items (test_steps tc))))) in
  take 25 (merge_sort String.le (filter (fun w => 4 <? Str.len w) sig_words)).

(** The loop of [detect_semantic_duplicates], from index [i] with the
    signatures seen so far. *)
Fixpoint detect_from (i : nat) (seen_signatures : list (list string))
    (test_cases : list TestCase) : list nat :=
  match test_cases with
  | [] => []
  | tc :: rest =>
      let sig := signature tc in
      if bool_decide (sig ∈ seen_signatures)
      then i :: detect_from (S i) seen_signatures rest
      else detect_from (S i) (sig :: seen_signatures) rest
  end.

Definition detect_semantic_duplicates (test_cases : list TestCase) : list nat :=
  detect_from 0 [] test_cases.

(** [f'{i:03d}'] *)
Definition format_03d (i : nat) : string :=
  let d := NilEmpty.string_of_uint (Nat.to_uint i) in
  Str.replicate (3 - Str.len d) "0" +:+ d.

Definition set_test_id (v : string) (tc : TestCase) : TestCase :=
  mkTestCase (Some v) (feature tc) (test_scenario tc) (test_steps tc)
    (expected_result tc) (test_type tc) (priority tc) (grounded_in tc)
    (needs_review tc) (_action tc) (_hallucination_warning tc)
    (_review_reason tc).

(** The loop of [ensure_unique_test_ids], counting from [i]. *)
Fixpoint renumber_from (i : nat) (test_cases : list TestCase) : list TestCase :=
  match test_cases with
  | [] => []
  | tc :: rest =>
      set_test_id ("TC-" +:+ format_03d i) tc :: renumber_from (S i) rest
  end.

Definition ensure_unique_test_ids (test_cases : list TestCase) : list TestCase :=
  renumber_from 1 test_cases.

(** [(\$\d+(?:\.\d{2})?|\d+%|\b[A-Z][A-Z0-9]{4,}\b)] *)
Definition evidence_re : regex :=
  Grp (Alt config.price_re
      (Alt config.percentage_re
           (Cat Wb (Cat (Cls is_upper)
                   (Cat (AtLeast 4 (Cls (fun c => is_upper c || is_digit c)))
                        Wb))))).

Section Evidence.
Context (E : Externals).
(** [json.dumps] of the test case dict *)
Context (json_dumps : TestCase -> string).

(** The loop over the token set, in the order of first occurrence. *)
Fixpoint evidence_loop (context : string) (tokens : list string)
    : result bool :=
  match tokens with
  | [] => Ok false
  | t :: rest =>
      let t_lower := Str.lower t in
      if Str.contains t_lower context then Ok true
      else if String.eqb t_lower "$0" || String.eqb t_lower "$0.00" then
        try! is_zero_cost := zero_cost E context in
        if is_zero_cost then Ok true else evidence_loop context rest
      else evidence_loop context rest
  end.

Definition has_verbatim_evidence (tc : TestCase) (used_chunks : list Chunk)
    : result bool :=
  let context :=
    Str.join " " (map (fun c => Str.lower (get (text c) EmptyString))
                      used_chunks) in
  match remove_dups (Re.findall evidence_re (json_dumps tc)) with
  | [] => Ok true
  | tokens => evidence_loop context tokens
  end.

End Evidence.

End validation.

(** ** generate_test_cases.py *)

Module generate_test_cases.

(** *** The response normalizer: from the raw text of the backend to the
    test-case dicts *)

(** What the cascade hands on: the response returned at once with an empty
    list, or the test cases that go on to validation, which are the first
    [MAX_TEST_CASES] of those found. *)
Inductive Normalized : Type :=
| ReturnedEmpty
| Cases (test_cases : list Json.json).

Definition MAX_TEST_CASES : nat := 10.

(** [if len(test_cases) > MAX_TEST_CASES:
      test_cases = test_cases[:MAX_TEST_CASES]] *)
Definition enforce_limit (test_cases : list Json.json) : list Json.json :=
  if MAX_TEST_CASES <? length test_cases then take MAX_TEST_CASES test_cases
  else test_cases.

(** The objects on which [.lower()] is called in the synthesis path. *)
Inductive pyobj : Type :=
| PStr (s : string)
| PTuple (label : string) (score : Q).

(** [o.lower()]: a method of [str], not of a tuple. *)
Definition py_lower (o : pyobj) : result string :=
  match o with
  | PStr s => Ok (Str.lower s)
  | PTuple _ _ => Raise AttributeError
  end.

(** [len(v)] and the iteration over [v]. *)
Definition iterate (v : Json.json) : result (list Json.json) :=
  match v with
  | Json.JArr items => Ok items
  | Json.JStr s => Ok (map Json.JStr (validation.chars s))
  | Json.JObj members => Ok (map Json.JStr (remove_dups (map fst members)))
  | _ => Raise TypeError
  end.

Definition bracketed (s : string) : bool :=
  (Str.starts_with "[" s && Str.ends_with "]" s)
  || (Str.starts_with "{" s && Str.ends_with "}" s).

(** The first two stages: extract and repair, then the aggressive
    extraction; [None] when both fail to parse. The two handlers are
    [except json.JSONDecodeError], which lets the [ValueError] of the digit
    limit through. *)
Definition parse_response (raw_response : string)
    : result (option Json.json) :=
  match Json.decode (json_utils.repair_json
                       (json_utils.extract_json_from_response raw_response))
  with
  | Json.Loaded response_json => Ok (Some response_json)
  | Json.DigitLimit => Raise ValueError
  | Json.JSONDecodeError =>
      match Json.decode (json_utils.aggressive_json_extraction raw_response)
      with
      | Json.Loaded response_json => Ok (Some response_json)
      | Json.DigitLimit => Raise ValueError
      | Json.JSONDecodeError => Ok None
      end
  end.

Definition cases_of_response (response_json : Json.json)
    : result (list Json.json) :=
  match response_json with
  | Json.JArr items => Ok items
  | Json.JObj members =>
      match Json.lookup "test_cases" members with
      | Some v => iterate v
      | None =>
          match members with
          | [] => Ok []
          | _ => Ok [response_json]
          end
      end
  | Json.JStr s =>
      let stripped := Str.strip s in
      if bracketed stripped then
        match Json.loads stripped with
        | Some (Json.JArr parsed) => Ok parsed
        | Some (Json.JObj parsed) => Ok [Json.JObj parsed]
        | _ => Ok []
        end
      else Ok []
  | _ => Ok []
  end.

(** One item of the list: a dict is kept; a string that holds an object is
    repaired and parsed, and kept when the result is a dict. *)
Definition normalize_item (tc : Json.json) : option Json.json :=
  match tc with
  | Json.JObj _ => Some tc
  | Json.JStr s =>
      let candidate := Str.strip s in
      if Str.starts_with "{" candidate && Str.ends_with "}" candidate then
        match Json.loads (json_utils.repair_json candidate) with
        | Some (Json.JObj parsed) => Some (Json.JObj parsed)
        | _ => None
        end
      else None
  | _ => None
  end.

(** The separators of a step text: line feed, semicolon, greater-than, bar. *)
Definition step_text_separator : regex :=
  Plus (Cls (fun c => is_char (ascii_of_nat 10) c || is_char ";" c
                      || is_char ">" c || is_char "|" c)).

Definition split_step_text (tc : Json.json) : Json.json :=
  match tc with
  | Json.JObj members =>
      match Json.lookup "test_steps" members with
      | Some (Json.JStr raw_steps) =>
          let steps :=
            map Str.strip
              (filter (fun s => negb (String.eqb (Str.strip s) EmptyString))
                      (Re.split step_text_separator raw_steps)) in
          let steps :=
            match steps with
            | [] => ["Step 1"; "Step 2"]
            | _ => take 6 steps
            end in
          Json.JObj (Json.assign "test_steps"
                       (Json.JArr (map Json.JStr steps)) members)
      | _ => tc
      end
  | _ => tc
  end.

(** The retry of the aggressive extraction. *)
Definition aggressive_fallback (raw_response : string) : list Json.json :=
  match Json.loads (json_utils.aggressive_json_extraction raw_response) with
  | Some (Json.JArr items) => filter (fun obj => Json.is_dict obj) items
  | Some (Json.JObj members) => [Json.JObj members]
  | _ => []
  end.

(** [s.splitlines()] *)
Definition line_boundary (c : ascii) : bool :=
  in_range 10 13 c || in_range 28 30 c || in_range 133 133 c.
Fixpoint splitlines_go (cur : string) (s : string) : list string :=
  match s with
  | EmptyString =>
      if String.eqb cur EmptyString then [] else [String.rev cur]
  | String c s' =>
      if line_boundary c then
        String.rev cur ::
        match s' with
        | String d s'' =>
            if is_char (ascii_of_nat 13) c && is_char (ascii_of_nat 10) d
            then splitlines_go EmptyString s''
            else splitlines_go EmptyString s'
        | EmptyString => []
        end
      else splitlines_go (String c cur) s'
  end.
Definition splitlines (s : string) : list string :=
  splitlines_go EmptyString s.

(** [s.replace(old, new)] *)
Definition replace (old new s : string) : string :=
  Re.sub (Lit old) (fun _ _ => new) s.

(** [s.split('/')[-1]] *)
Fixpoint last_component (cur : string) (s : string) : string :=
  match s with
  | EmptyString => String.rev cur
  | String c s' =>
      if is_char "/" c then last_component EmptyString s'
      else last_component (String c cur) s'
  end.

(** [s.title()]. The cased characters are the letters with the feminine and
    masculine ordinal indicators and the micro sign; the title case of the
    sharp s is [Ss]. The capitals of the micro sign and of the y with
    diaeresis lie above 255: on them the text leaves the range of the
    embedding, and they are left as they are. *)
Definition is_cased (c : ascii) : bool :=
  is_upper c || is_lower c || in_range 192 214 c || in_range 216 246 c
  || in_range 248 255 c
  || in_range 170 170 c || in_range 181 181 c || in_range 186 186 c.
Definition upper_char (c : ascii) : ascii :=
  if is_lower c || in_range 224 246 c || in_range 248 254 c
  then ascii_of_N (code c - 32) else c.
Definition title_char (c : ascii) : string :=
  if in_range 223 223 c then "Ss" else String (upper_char c) EmptyString.
Fixpoint title_go (previous_cased : bool) (s : string) : string :=
  match s with
  | EmptyString => EmptyString
  | String c s' =>
      (if previous_cased then String (lower_char c) EmptyString
       else title_char c)
      +:+ title_go (is_cased c) s'
  end.
Definition title (s : string) : string := title_go false s.

(** A final ellipsis, and a leading [User], in any case, with the spaces
    after it. *)
Definition ellipsis_re : regex := Cat (Lit "...") Eol.
Definition either (lo up : ascii) : regex :=
  Cls (fun c => is_char lo c || is_char up c).
Definition user_prefix_re : regex :=
  Cat Bol (Grp (Cat (either "u" "U") (Cat (either "s" "S")
               (Cat (either "e" "E") (Cat (either "r" "R")
                    (Plus (Cls is_space))))))).

(** A boolean read as a number. *)
Definition truth_value (b : bool) : Q := if b then 1%Q else 0%Q.

Section Normalizer.
Context (E : Externals).
(** the import of the document intelligence and the semantic matcher
    succeeded when the module was loaded *)
Context (AIML_AVAILABLE : bool).

(** The lines of the raw response that read as a verification or as an
    action, cleaned. *)
Definition semantic_step_lines (raw_response : string) : list string :=
  let raw_lines :=
    map Str.strip
      (filter (fun ln => negb (String.eqb (Str.strip ln) EmptyString))
              (splitlines raw_response)) in
  let keep ln :=
    let '(is_verification, _) := semantic_matcher.is_verification_step E ln in
    (* the first component of each pair, the verdict, is what is bound *)
    let '(button_sim, _) := semantic_matcher.match_button_action E ln in
    let '(select_sim, _) := semantic_matcher.match_select_action E ln in
    is_verification
    || Qltb 0.25 (semantic_matcher.pymax (truth_value button_sim)
                                         (truth_value select_sim)) in
  let clean_line ln :=
    Re.sub user_prefix_re (fun _ _ => EmptyString)
      (Re.sub ellipsis_re (fun _ _ => EmptyString) ln) in
  take 8 (map clean_line (filter (fun ln => keep ln) raw_lines)).

(** The feature name of the synthesized case. *)
Definition synthesized_feature (used_chunks : list Chunk) : result string :=
  match used_chunks with
  | [] => Ok "Form Validation"
  | chunk :: _ =>
      let first_doc := get (source chunk) EmptyString in
      (* doc_type is bound to what classify_document_type returns, the pair *)
      let doc_type :=
        let '(label, score) :=
          semantic_matcher.classify_document_type E first_doc EmptyString in
        PTuple label score in
      try! lowered := py_lower doc_type in
      if Str.contains "api" lowered then Ok "API Integration Testing"
      else
        try! lowered := py_lower doc_type in
        if Str.contains "ui" lowered || Str.contains "html" lowered
        then Ok "UI Validation"
        else
          try! lowered := py_lower doc_type in
          if Str.contains "spec" lowered || Str.contains "product" lowered
          then Ok "Product Feature Validation"
          else
            let doc_name :=
              replace ".json" EmptyString
                (replace ".html" EmptyString
                   (replace ".txt" EmptyString
                      (replace ".md" EmptyString
                         (last_component EmptyString first_doc)))) in
            Ok (title (replace "_" " " doc_name) +:+ " Validation")
  end.

(** The semantic synthesis path. *)
Definition synthesize (prompt raw_response : string) (used_chunks : list Chunk)
    : result Normalized :=
  if negb AIML_AVAILABLE then Ok ReturnedEmpty
  else if negb (matcher_available E) then Raise MatcherUnavailable
  else
    let step_lines :=
      match semantic_step_lines raw_response with
      | [] => [ "Navigate to the application page";
                "Complete the required form fields" ]
      | lines => lines
      end in
    try! feature_name := synthesized_feature used_chunks in
    let grounding_source :=
      match used_chunks with
      | chunk :: _ => get (source chunk) "unknown"
      | [] => "unknown"
      end in
    Ok (Cases
          [ Json.JObj
              [ ("test_id", Json.JStr "TC-001");
                ("feature", Json.JStr feature_name);
                ("test_scenario", Json.JStr (Str.take 160 (Str.strip prompt)));
                ("test_steps", Json.JArr (map Json.JStr step_lines));
                ("expected_result",
                 Json.JStr "Form submission completes successfully with expected behavior");
                ("test_type", Json.JStr "positive");
                ("priority", Json.JStr "high");
                ("grounded_in", Json.JStr grounding_source);
                ("_fallback_synthesized", Json.JBool true);
                ("_aiml_semantic_extraction", Json.JBool true);
                ("_review_reason",
                 Json.JStr "Synthesized using AI/ML semantic extraction due to unparseable LLM output");
                ("needs_review", Json.JBool true) ] ]).

(** The cascade inside the [try] of [generate_test_cases]. *)
Definition normalize_response (prompt raw_response : string)
    (used_chunks : list Chunk) : result Normalized :=
  try! parsed := parse_response raw_response in
  match parsed with
  | None => Ok ReturnedEmpty
  | Some response_json =>
      try! test_cases := cases_of_response response_json in
      let test_cases := map split_step_text (omap normalize_item test_cases) in
      let test_cases :=
        match test_cases with
        | [] => aggressive_fallback raw_response
        | _ => test_cases
        end in
      let test_cases :=
        match test_cases with
        | [] => json_utils.secondary_json_format_pass raw_response
        | _ => test_cases
        end in
      try! found :=
        match test_cases with
        | [] => synthesize prompt raw_response used_chunks
        | _ => Ok (Cases test_cases)
        end in
      match found with
      | ReturnedEmpty => Ok ReturnedEmpty
      | Cases test_cases => Ok (Cases (enforce_limit test_cases))
      end
  end.

(** The [except Exception] around it: whatever is raised is raised again,
    wrapped. *)
Definition response_normalizer (prompt raw_response : string)
    (used_chunks : list Chunk) : result Normalized :=
  match normalize_response prompt raw_response used_chunks with
  | Ok r => Ok r
  | Raise e => Raise (Wrapped e)
  end.

End Normalizer.

(** What the validation loop accumulates. *)
Record Validation : Type := mkValidation {
  validated_cases : list TestCase;
  all_validation_issues : list string;
  dropped_cases : list string;
  dropped_details : list (string * string)
}.

Definition flag_no_evidence (tc : TestCase) : TestCase :=
  mkTestCase (test_id tc) (feature tc) (test_scenario tc) (test_steps tc)
    (expected_result tc) (test_type tc) (priority tc) (grounded_in tc)
    (Some true) (_action tc) (_hallucination_warning tc)
    (Some "No verbatim evidence found in documentation").

Section Validate.
Context (E : Externals).
Context (json_dumps : TestCase -> string).

(** [for tc in test_cases: ...]: validate, drop what is marked, flag what
    has no verbatim evidence, keep the rest. *)
Fixpoint validation_loop (test_cases : list TestCase)
    (used_chunks : list Chunk) (st : Validation) : result Validation :=
  match test_cases with
  | [] => Ok st
  | tc :: rest =>
      try! v := validation.validate_test_case_schema E tc used_chunks in
      let '(validated_tc, issues) := v in
      if bool_decide (_action validated_tc = Some "drop") then
        let id := get (test_id validated_tc) "unknown" in
        let reason := get (_hallucination_warning validated_tc)
                          "Critical hallucination detected" in
        validation_loop rest used_chunks
          (mkValidation (validated_cases st) (all_validation_issues st)
             (dropped_cases st ++ [id])
             (dropped_details st ++ [(id, reason)]))
      else
        try! evidence :=
          validation.has_verbatim_evidence E json_dumps validated_tc
            used_chunks in
        let kept :=
          if evidence then validated_tc else flag_no_evidence validated_tc in
        validation_loop rest used_chunks
          (mkValidation (validated_cases st ++ [kept])
             (all_validation_issues st ++ issues)
             (dropped_cases st) (dropped_details st))
  end.

Definition validate_all (test_cases : list TestCase)
    (used_chunks : list Chunk) : result Validation :=
  validation_loop test_cases used_chunks (mkValidation [] [] [] []).

End Validate.

(** *** The quality filter *)

Definition generic_phrases : list string :=
  [ "as expected"; "check result"; "verify"; "execute"; "step 1" ].
Definition ungrounded : list string :=
  [ "inference"; "general"; "document.txt"; "n/a"; "" ].
Definition generic_features : list string :=
  [ "general"; "n/a"; "feature"; "test"; "" ].

(** [\$\d+] and [\b[A-Z]{4,}\b] *)
Definition dollar_re : regex := Cat (Chr "$") (Plus (Cls is_digit)).
Definition capitals_re : regex := Cat Wb (Cat (AtLeast 4 (Cls is_upper)) Wb).

(** [if re.search(r, s)] *)
Definition found (r : regex) (s : string) : bool :=
  match Re.search r s with Some _ => true | None => false end.

(** [sum(len(str(s)) for s in steps) / len(steps)] *)
Definition avg_step_length (steps : list string) : Q :=
  (inject_Z (Z.of_nat (list_sum (map Str.len steps)))
   / inject_Z (Z.of_nat (length steps)))%Q.

Definition step_score (tc : TestCase) : Q :=
  match test_steps tc with
  | Some (StepsList (s :: l)) =>
      let avg := avg_step_length (s :: l) in
      if Qltb 30 avg then 1.0%Q else if Qltb 15 avg then 0.75%Q else 0.5%Q
  | _ => 0.5%Q
  end.

(** The five scores, in the order of the weights. *)
Definition quality_scores (tc : TestCase) : list Q :=
  let scenario := get (test_scenario tc) EmptyString in
  let expected := get (expected_result tc) EmptyString in
  let length_score := 1.0%Q in
  let length_score :=
    if (Str.len scenario <? 30)%nat then (length_score - 0.3)%Q
    else length_score in
  let length_score :=
    if (Str.len expected <? 20)%nat then (length_score - 0.2)%Q
    else length_score in
  let combined_text := scenario +:+ expected in
  let specificity_score := 0.5%Q in
  let specificity_score :=
    if found dollar_re combined_text then (specificity_score + 0.2)%Q
    else specificity_score in
  let specificity_score :=
    if found config.percentage_re combined_text
    then (specificity_score + 0.1)%Q else specificity_score in
  let specificity_score :=
    if found capitals_re combined_text then (specificity_score + 0.2)%Q
    else specificity_score in
  let penalty_count :=
    length (filter (fun phrase => Str.contains phrase (Str.lower expected))
                   generic_phrases) in
  let generic_score :=
    (1.0 - inject_Z (Z.of_nat penalty_count) * 0.15)%Q in
  let grounding_score :=
    if bool_decide
         (Str.lower (get (grounded_in tc) EmptyString) ∈ ungrounded)
    then 0.3%Q else 1.0%Q in
  [ Qmax 0.0 length_score; Qmin 1.0 specificity_score;
    Qmax 0.0 generic_score; step_score tc; grounding_score ].

Definition quality_weights : list Q := [0.2; 0.25; 0.2; 0.15; 0.2]%Q.

Definition calculate_quality_score (tc : TestCase) : Q :=
  let ensemble_score :=
    Qsum (zip_with Qmult (quality_scores tc) quality_weights) in
  Qmax 0.0 (Qmin 1.0 ensemble_score).

Definition set_review (reason : string) (tc : TestCase) : TestCase :=
  mkTestCase (test_id tc) (feature tc) (test_scenario tc) (test_steps tc)
    (expected_result tc) (test_type tc) (priority tc) (grounded_in tc)
    (Some true) (_action tc) (_hallucination_warning tc) (Some reason).
Definition set_grounded_in (v : string) (tc : TestCase) : TestCase :=
  mkTestCase (test_id tc) (feature tc) (test_scenario tc) (test_steps tc)
    (expected_result tc) (test_type tc) (priority tc) (Some v)
    (needs_review tc) (_action tc) (_hallucination_warning tc)
    (_review_reason tc).
Definition set_feature (v : string) (tc : TestCase) : TestCase :=
  mkTestCase (test_id tc) (Some v) (test_scenario tc) (test_steps tc)
    (expected_result tc) (test_type tc) (priority tc) (grounded_in tc)
    (needs_review tc) (_action tc) (_hallucination_warning tc)
    (_review_reason tc).

(** The name of the document a case is grounded in, without its directory
    and its extension. *)
Definition doc_name_of (tc : TestCase) : string :=
  replace ".json" EmptyString
    (replace ".html" EmptyString
      (replace ".txt" EmptyString
        (replace ".md" EmptyString
          (last_component EmptyString
             (get (grounded_in tc) EmptyString))))).

Section Quality.
(** [f"{quality_score:.2f}"] *)
Context (format_2f : Q -> string).

(** What the loop does to a case it keeps: the review flag, the grounding
    and the feature name. *)
Definition refine (used_chunks : list Chunk) (quality_score : Q)
    (tc : TestCase) : TestCase :=
  let tc :=
    if Qltb quality_score 0.65
    then set_review ("Borderline quality score: " +:+ format_2f quality_score)
                    tc
    else tc in
  let grounded :=
    Str.lower (Str.strip (get (grounded_in tc) EmptyString)) in
  let tc :=
    if bool_decide (grounded ∈ ungrounded) then
      match used_chunks with
      | c :: _ => set_grounded_in (get (source c) "unknown_source.md") tc
      | [] => tc
      end
    else tc in
  let feature_text := Str.strip (get (feature tc) EmptyString) in
  if bool_decide (Str.lower feature_text ∈ generic_features) then
    let doc_name := doc_name_of tc in
    if negb (String.eqb doc_name EmptyString)
       && negb (String.eqb (Str.lower doc_name) "inference")
    then set_feature (title (replace "_" " " doc_name) +:+ " Validation") tc
    else set_feature "General Validation" tc
  else tc.

(** [for tc in validated_cases: ...]: a kept case is paired with its
    [_quality_score]; the identifier of a dropped one goes to
    [generic_dropped] and to the lists of the validation loop. *)
Fixpoint quality_loop (used_chunks : list Chunk) (cases : list TestCase)
    (quality_filtered : list (TestCase * Q)) (generic_dropped : list string)
    (st : Validation) : list (TestCase * Q) * list string * Validation :=
  match cases with
  | [] => (quality_filtered, generic_dropped, st)
  | tc :: rest =>
      let id := get (test_id tc) "unknown" in
      let quality_score := calculate_quality_score tc in
      if Qltb quality_score 0.5 then
        quality_loop used_chunks rest quality_filtered
          (generic_dropped ++ [id])
          (mkValidation (validated_cases st) (all_validation_issues st)
             (dropped_cases st ++ [id])
             (dropped_details st
                ++ [(id, "Low quality score: " +:+ format_2f quality_score)]))
      else
        quality_loop used_chunks rest
          (quality_filtered
             ++ [(refine used_chunks quality_score tc, quality_score)])
          generic_dropped st
  end.

(** The filter, ending in [validated_cases = quality_filtered]. *)
Definition quality_filter (used_chunks : list Chunk) (st : Validation)
    : list (TestCase * Q) * list string * Validation :=
  let '(quality_filtered, generic_dropped, st') :=
    quality_loop used_chunks (validated_cases st) [] [] st in
  (quality_filtered, generic_dropped,
   mkValidation (map fst quality_filtered) (all_validation_issues st')
     (dropped_cases st') (dropped_details st')).

End Quality.

(** *** Token accounting: the response budget [num_predict] *)

Definition num_predict (MODEL_WINDOW requested_count prompt_tokens : Z) : Z :=
  let tokens_per_test := 250%Z in
  let num_predict :=
    Z.min (tokens_per_test * requested_count + 100)
          (MODEL_WINDOW - prompt_tokens - 100) in
  if (num_predict <? 200)%Z then 200%Z else num_predict.

(** [[tc for i, tc in enumerate(cases) if i not in indices]], from index [i]. *)
Fixpoint without_indices (i : nat) (indices : list nat)
    (cases : list TestCase) : list TestCase :=
  match cases with
  | [] => []
  | tc :: rest =>
      if bool_decide (i ∈ indices) then without_indices (S i) indices rest
      else tc :: without_indices (S i) indices rest
  end.

(** Semantic duplicate removal. *)
Definition remove_semantic_duplicates (validated_cases : list TestCase)
    : list TestCase :=
  match validation.detect_semantic_duplicates validated_cases with
  | [] => validated_cases
  | duplicate_indices => without_indices 0 duplicate_indices validated_cases
  end.

(** The last two stages: duplicate removal and renumbering. *)
Definition finish (validated_cases : list TestCase) : list TestCase :=
  validation.ensure_unique_test_ids
    (remove_semantic_duplicates validated_cases).

(** *** From the validation loop to the response *)

Section Returned.
Context (format_2f : Q -> string).
(** [multi_pass_verification] of [verification.py] *)
Context (multi_pass_verification :
           list TestCase -> list Chunk -> list TestCase).

(** The [test_cases] of the response: what is left of the validated cases
    after the multi-pass verification, the removal of what it marked, the
    quality filter, the duplicate removal and the renumbering. *)
Definition returned_test_cases (used_chunks : list Chunk) (st : Validation)
    : list TestCase :=
  let verified := multi_pass_verification (validated_cases st) used_chunks in
  let verified :=
    filter (fun tc => negb (bool_decide (_action tc = Some "drop")))
           verified in
  let '(quality_filtered, _, _) :=
    quality_filter format_2f used_chunks
      (mkValidation verified (all_validation_issues st) (dropped_cases st)
                    (dropped_details st)) in
  finish (map fst quality_filtered).

End Returned.

(** *** The pipeline, from the request to the cases that go on to validation *)

(** [(\d+)\s+test] *)
Definition count_re : regex :=
  Cat (Grp (Plus (Cls is_digit))) (Cat (Plus (Cls is_space)) (Lit "test")).

(** [re.search(r, s).group(1)] *)
Fixpoint search_group (r : regex) (prev : option ascii) (s : string)
    : option string :=
  match match_at r prev s with
  | Some (n, cap) => Some (group_or_whole (Str.take n s) cap)
  | None =>
      match s with
      | String c s' => search_group r (Some c) s'
      | EmptyString => None
      end
  end.

(** [int(s)] on a text of decimal digits: [ValueError] above 4300 digits. *)
Fixpoint decimal_value (n : Z) (digits : string) : Z :=
  match digits with
  | EmptyString => n
  | String c digits' =>
      decimal_value (10 * n + (Z.of_N (code c) - 48)) digits'
  end.
Definition py_int (digits : string) : result Z :=
  if 4300 <? Str.len digits then Raise ValueError
  else Ok (decimal_value 0 digits).

(** The count the prompt asks for, read before the [try]. *)
Definition requested_count (prompt : string) : result Z :=
  match search_group count_re None (Str.lower prompt) with
  | Some digits => py_int digits
  | None => Ok 1%Z
  end.

Section Pipeline.
Context (E : Externals).
Context (AIML_AVAILABLE : bool).
Context (md5_hexdigest : string -> string).
(** [AVAILABLE_CONTEXT_TOKENS] and [MODEL_WINDOW] of [config.py], which the
    environment fixes *)
Context (AVAILABLE_CONTEXT_TOKENS MODEL_WINDOW : Z).
(** [build_dynamic_prompt] for a request without HTML: the template filled
    in with the prompt, the context and the count, or what the call raises *)
Context (build_dynamic_prompt : string -> string -> Z -> result string).
(** [generate_test_cases_with_ollama]: what the generation backend answers
    to the full prompt under the response budget, or what the call raises *)
Context (generate_test_cases_with_ollama : string -> Z -> result string).

(** The body of the [try] for a request without HTML, up to the validation
    loop: the test cases that go on, with the chunks used. The log entries
    are left out. *)
Definition generate (prompt : string) (retrieved_docs : list Chunk)
    (count : Z) : result (Normalized * list Chunk) :=
  let '(unique_docs, removed) :=
    prompt_utils.deduplicate_chunks md5_hexdigest retrieved_docs in
  let ranked_docs := ranking.ranked_chunks E None prompt unique_docs in
  let strategy :=
    ranking.adaptive_test_generation_strategy ranked_docs prompt in
  if negb (ranking.should_proceed strategy) then Ok (ReturnedEmpty, [])
  else
    let '(final_context, was_truncated, used_chunks) :=
      prompt_utils.truncate_context_smart ranked_docs
        AVAILABLE_CONTEXT_TOKENS in
    try! full_prompt := build_dynamic_prompt prompt final_context count in
    let prompt_tokens := prompt_utils.estimate_tokens full_prompt in
    try! raw_response :=
      generate_test_cases_with_ollama full_prompt
        (num_predict MODEL_WINDOW count prompt_tokens) in
    try! normalized :=
      normalize_response E AIML_AVAILABLE prompt raw_response used_chunks in
    Ok (normalized, used_chunks).

(** [generate_test_cases] up to the validation loop: the handler of the
    [try] raises again, wrapped, whatever is raised inside. *)
Definition generate_test_cases (prompt : string)
    (retrieved_docs : list Chunk) : result (Normalized * list Chunk) :=
  try! count := requested_count prompt in
  match generate prompt retrieved_docs count with
  | Ok r => Ok r
  | Raise e => Raise (Wrapped e)
  end.

End Pipeline.

End generate_test_cases.

(** ** deterministic_selenium_generator.py: the per-step fallback mapper *)

Module deterministic_selenium_generator.

(** [^\d+\.?\s*] *)
Definition numbering_re : regex :=
  Cat Bol (Cat (Plus (Cls is_digit))
          (Cat (Opt (Chr ".")) (Star (Cls is_space)))).

(** [clean_step = re.sub(r'^\d+\.?\s*', '', step)] *)
Definition clean (step : string) : string :=
  Re.sub numbering_re (fun _ _ => EmptyString) step.

(** The three lines appended for a verification step. *)
Definition verification_lines (clean_step : string) : list string :=
  [ "    # VERIFICATION: " +:+ clean_step;
    "    # TODO: Implement assertion for this verification step";
    EmptyString ].

(** ["\n".join(test)] of [_generate_pytest_test]: the text of the test. *)
Definition test_text (test : list string) : string := Str.join nl test.

Section Fallback.
Context (E : Externals).

(** The action rules that follow the verification gate in the loop body
    (select, checkbox, text input, radio, button, semantic match, final
    action): given the body so far, the fields already filled and the step,
    they return the lines they append and the fields filled afterwards. They
    draw on the element inventory, generated test data and the support
    documents. *)
Context (action_rules :
           list string -> list string -> string -> list string * list string).

(** One turn of the loop over the steps: the lines appended to [body] and
    the filled fields afterwards. *)
Definition map_step (body filled_fields : list string) (step : string)
    : list string * list string :=
  let clean_step := clean step in
  let '(is_verification, verification_confidence) :=
    semantic_matcher.is_verification_step E clean_step in
  if is_verification && Qltb 0.30 verification_confidence
  then (verification_lines clean_step, filled_fields)
  else action_rules body filled_fields step.

Fixpoint fallback_loop (steps : list string) (body filled_fields : list string)
    : list string :=
  match steps with
  | [] => body
  | step :: rest =>
      let '(lines, filled) := map_step body filled_fields step in
      fallback_loop rest (body ++ lines) filled
  end.

Definition _generate_generic_fallback (steps : list string) : list string :=
  fallback_loop steps [] [].

End Fallback.
End deterministic_selenium_generator.

(** ** chunker.py *)

Module chunker.

Definition crlf : string := String (ascii_of_nat 13) nl.

(** An index of a slice: a negative one counts from the end, and every one
    is clamped to the text. *)
Definition clamp (n i : Z) : Z :=
  (if i <? 0 then Z.max (i + n) 0 else Z.min i n)%Z.

(** [s[start:stop]] *)
Definition slice (s : string) (start stop : Z) : string :=
  let n := Z.of_nat (Str.len s) in
  let a := clamp n start in
  let b := clamp n stop in
  Str.take (Z.to_nat (b - a)) (Str.drop (Z.to_nat a) s).

(** The text the chunks are cut from: truncated to [max_size], its line
    ends normalized. *)
Definition prepared (text : string) (max_size : Z) : string :=
  let text :=
    if (max_size <? Z.of_nat (Str.len text))%Z then slice text 0 max_size
    else text in
  generate_test_cases.replace crlf nl text.

(** [while start < total: ...]; [None] when the fuel runs out. *)
Fixpoint chunk_loop (fuel : nat) (text : string)
    (chunk_size chunk_overlap total start : Z) (chunks : list string)
    : option (list string) :=
  match fuel with
  | 0 => None
  | S fuel' =>
      if (start <? total)%Z then
        let end_ := Z.min (start + chunk_size) total in
        let chunks := chunks ++ [slice text start end_] in
        if (total <=? end_)%Z then Some chunks
        else
          let start := (end_ - chunk_overlap)%Z in
          let start := if (start <=? 0)%Z then 1%Z else start in
          chunk_loop fuel' text chunk_size chunk_overlap total start chunks
      else Some chunks
  end.

Definition chunk_text (fuel : nat) (text : string)
    (chunk_size chunk_overlap max_size : Z) : option (list string) :=
  if String.eqb text EmptyString then Some []
  else
    let text := prepared text max_size in
    if (Z.of_nat (Str.len text) <=? chunk_size)%Z then Some [text]
    else
      chunk_loop fuel text chunk_size chunk_overlap
                 (Z.of_nat (Str.len text)) 0 [].

(** [f"{i}"] *)
Definition decimal (i : nat) : string :=
  NilEmpty.string_of_uint (Nat.to_uint i).

Definition chunks_with_metadata (fuel : nat) (text source : string)
    (chunk_size chunk_overlap : Z) : option (list Chunk) :=
  match chunk_text fuel text chunk_size chunk_overlap 5000000 with
  | Some chunks =>
      Some (imap (fun i chunk =>
                    mkChunk (Some chunk) (Some source)
                            (Some (source +:+ "__" +:+ decimal (S i)))
                            None None None None)
                 chunks)
  | None => None
  end.

End chunker.

(** ** corpus_stats_builder.py *)

Module corpus_stats_builder.

(** [for term in terms: df_map[term] += 1] on a [Counter]. *)
Definition count_terms (df_map : gmap string Z) (terms : list string)
    : gmap string Z :=
  fold_left (fun m term => <[term := (get (m !! term) 0 + 1)%Z]> m)
            terms df_map.

(** [set(re.findall(r'\w+', text))] of one chunk. *)
Definition terms_of (chunk : Chunk) : list string :=
  remove_dups
    (Re.findall ranking.words_re
                (Str.lower (get (text chunk) EmptyString))).

Definition build_df_map (chunks : list Chunk) : gmap string Z :=
  fold_left (fun m chunk => count_terms m (terms_of chunk)) chunks ∅.

(** The [total_docs] and the [df_map] of the statistics written out. *)
Definition build_corpus_statistics (chunks : list Chunk)
    : Z * gmap string Z :=
  (Z.of_nat (length chunks), build_df_map chunks).

End corpus_stats_builder.

(** ** html_dependency_analyzer.py: the dependency graph of a form *)

Module html_dependency_analyzer.

Record Edge : Type := mkEdge {
  from : string;
  to : string;
  condition : option string
}.

(** A dict in insertion order. *)
Fixpoint dict_get {V : Type} (k : string) (d : list (string * V))
    : option V :=
  match d with
  | [] => None
  | (k', v) :: rest => if String.eqb k k' then Some v else dict_get k rest
  end.
Fixpoint dict_set {V : Type} (k : string) (v : V) (d : list (string * V))
    : list (string * V) :=
  match d with
  | [] => [(k, v)]
  | (k', v') :: rest =>
      if String.eqb k k' then (k, v) :: rest
      else (k', v') :: dict_set k v rest
  end.

(** The graph: [nodes] maps an element id to its type. *)
Record FormDependencyGraph : Type := mkGraph {
  nodes : list (string * string);
  edges : list Edge;
  submit_dependencies : gset string
}.

Definition add_node (element_id element_type : string)
    (g : FormDependencyGraph) : FormDependencyGraph :=
  mkGraph (dict_set element_id element_type (nodes g)) (edges g)
          (submit_dependencies g).
Definition add_edge (from_id to_id : string) (cond : option string)
    (g : FormDependencyGraph) : FormDependencyGraph :=
  mkGraph (nodes g) (edges g ++ [mkEdge from_id to_id cond])
          (submit_dependencies g).

(** [in_degree = {node_id: 0 for node_id in self.nodes}] and the count of
    the edges into each node. *)
Definition zero_degrees (g : FormDependencyGraph) : list (string * Z) :=
  fold_left (fun d node_id => dict_set node_id 0%Z d) (map fst (nodes g)) [].
Definition count_edge (in_degree : list (string * Z)) (edge : Edge)
    : list (string * Z) :=
  match dict_get (to edge) in_degree with
  | Some d => dict_set (to edge) (d + 1)%Z in_degree
  | None => in_degree
  end.
Definition in_degrees (g : FormDependencyGraph) : list (string * Z) :=
  fold_left count_edge (edges g) (zero_degrees g).

(** The inner loop over the edges, for the node taken off the queue. *)
Fixpoint release (node_id : string) (es : list Edge)
    (in_degree : list (string * Z)) (queue : list string)
    : list (string * Z) * list string :=
  match es with
  | [] => (in_degree, queue)
  | edge :: rest =>
      if String.eqb (from edge) node_id then
        match dict_get (to edge) in_degree with
        | Some d =>
            let in_degree := dict_set (to edge) (d - 1)%Z in_degree in
            if (d - 1 =? 0)%Z
            then release node_id rest in_degree (queue ++ [to edge])
            else release node_id rest in_degree queue
        | None => release node_id rest in_degree queue
        end
      else release node_id rest in_degree queue
  end.

(** [while queue: ...]; [None] when the fuel runs out. *)
Fixpoint sort_loop (fuel : nat) (es : list Edge)
    (in_degree : list (string * Z)) (queue result : list string)
    : option (list string) :=
  match queue with
  | [] => Some result
  | node_id :: queue' =>
      match fuel with
      | 0 => None
      | S fuel' =>
          let '(in_degree', queue'') :=
            release node_id es in_degree queue' in
          sort_loop fuel' es in_degree' queue'' (result ++ [node_id])
      end
  end.

Definition topological_sort (fuel : nat) (g : FormDependencyGraph)
    : option (list string) :=
  let in_degree := in_degrees g in
  let queue :=
    map fst (filter (fun item => (snd item =? 0)%Z) in_degree) in
  sort_loop fuel (edges g) in_degree queue [].

End html_dependency_analyzer.

(** * Properties *)

(** ** Numbers *)

Lemma Qltb_lt (x y : Q) : Qltb x y = true <-> (x < y)%Q.
Proof.
  unfold Qltb. rewrite negb_true_iff. split.
  - intros H. apply Qnot_le_lt. intros Hle.
    apply Qle_bool_iff in Hle. congruence.
  - intros H. destruct (Qle_bool y x) eqn:Hb; [|reflexivity].
    apply Qle_bool_iff in Hb. exfalso. exact (Qlt_not_le _ _ H Hb).
Qed.

(** ** The context builder *)

Section ContextBuilder.
Import prompt_utils.

Definition tokens_of (c : Chunk) : Z :=
  estimate_tokens (get (text c) EmptyString).

Definition total_tokens (cs : list Chunk) : Z :=
  fold_right (fun c acc => (tokens_of c + acc)%Z) 0%Z cs.

Lemma estimate_tokens_pos (t : string) : (1 <= estimate_tokens t)%Z.
Proof. unfold estimate_tokens. lia. Qed.

Lemma total_tokens_nonneg (cs : list Chunk) : (0 <= total_tokens cs)%Z.
Proof.
  induction cs as [|c cs IH]; simpl; [lia|].
  pose proof (estimate_tokens_pos (get (text c) EmptyString)).
  unfold tokens_of. lia.
Qed.

(** The loop invariant: what is accepted on top of [total] stays within the
    budget. *)
Lemma select_chunks_within (chunks : list Chunk) (total max_tokens : Z) :
  select_chunks chunks total max_tokens = []
  \/ (total + total_tokens (select_chunks chunks total max_tokens)
      <= max_tokens)%Z.
Proof.
  revert total. induction chunks as [|c cs IH]; intros total; simpl.
  - left; reflexivity.
  - destruct (Z.gtb_spec (total + estimate_tokens (get (text c) EmptyString))
                         max_tokens) as [Hgt|Hle].
    + left; reflexivity.
    + right. simpl. fold (tokens_of c).
      destruct (IH (total + tokens_of c)%Z) as [Hnil|Hok].
      * unfold tokens_of in Hnil |- *. rewrite Hnil. simpl. lia.
      * unfold tokens_of in Hok |- *. lia.
Qed.

Lemma select_chunks_prefix (chunks : list Chunk) (total max_tokens : Z) :
  exists rest, chunks = select_chunks chunks total max_tokens ++ rest.
Proof.
  revert total. induction chunks as [|c cs IH]; intros total; simpl.
  - exists []. reflexivity.
  - destruct (total + estimate_tokens (get (text c) EmptyString)
              >? max_tokens)%Z.
    + exists (c :: cs). reflexivity.
    + destruct (IH (total + estimate_tokens (get (text c) EmptyString))%Z)
        as [rest Hrest].
      exists rest. simpl. congruence.
Qed.

(** C4, as amended. The chunks that [truncate_context_smart] accepts are a
    prefix of the ranked chunks, and the estimated token counts of their texts
    (len(text)//4, at least 1, each on the raw chunk text) sum to at most
    [max_tokens], or to 0 when the budget is negative. *)
Theorem truncate_context_smart_budget (chunks : list Chunk) (max_tokens : Z) :
  let '(_, _, used_chunks) := truncate_context_smart chunks max_tokens in
  (exists rest, chunks = used_chunks ++ rest)
  /\ (total_tokens used_chunks <= Z.max 0 max_tokens)%Z.
Proof.
  unfold truncate_context_smart. simpl. split.
  - apply select_chunks_prefix.
  - destruct (select_chunks_within chunks 0 max_tokens) as [Hnil|Hok].
    + rewrite Hnil. simpl. lia.
    + lia.
Qed.

Definition promo_chunk : Chunk :=
  mkChunk (Some "Discount code SAVE10 gives 10% off") (Some "promo.md")
          None None None None None.

(** C4, as stated, fails: one chunk of 8 estimated tokens fits a budget of 8,
    and the context built from it, with its source header, is estimated at 13
    tokens. *)
Lemma truncate_context_smart_context_exceeds :
  let '(context, _, used_chunks) := truncate_context_smart [promo_chunk] 8 in
  used_chunks = [promo_chunk] /\ ~ (estimate_tokens context <= 8)%Z.
Proof. vm_compute. split; [reflexivity|]. intros H. apply H. reflexivity. Qed.

End ContextBuilder.

(** ** The strategy selector *)

Section StrategySelector.
Import ranking.

(** C3. Whenever the computed [domain_overlap_ratio] is below 0.3, the
    strategy selector returns strategy [abort] with [should_proceed] false. *)
Theorem out_of_domain_aborts (chunks : list Chunk) (prompt : string) :
  (domain_overlap_ratio chunks prompt < 0.3)%Q ->
  let decision := adaptive_test_generation_strategy chunks prompt in
  should_proceed decision = false /\ strategy decision = "abort".
Proof.
  intros Hlow. unfold adaptive_test_generation_strategy.
  destruct chunks as [|c cs]; [split; reflexivity|].
  apply Qltb_lt in Hlow. rewrite Hlow. split; reflexivity.
Qed.

Lemma out_of_domain_aborts_witness :
  let decision :=
    adaptive_test_generation_strategy [promo_chunk]
      "Generate tests for login password reset" in
  should_proceed decision = false /\ strategy decision = "abort".
Proof.
  apply (out_of_domain_aborts [promo_chunk]
           "Generate tests for login password reset").
  vm_compute. reflexivity.
Defined.

End StrategySelector.

(** ** The hybrid ranker *)

Section HybridRanker.
Import ranking Heap.
Context (E : Externals).

(** *** The call leaves what it was given untouched *)

Lemma rank_one_run (weights : Weights) (query : string) (r chunk : loc)
    (h : Store) (c : Chunk) (v : list loc) :
  dicts h !! chunk = Some c ->
  lists h !! r = Some v ->
  rank_one E weights query r chunk h
  = Some (tt, mkStore
                (<[fresh (dom (dicts h)) := ranked_copy E weights query c]>
                   (dicts h))
                (<[r := v ++ [fresh (dom (dicts h))]]> (lists h))).
Proof.
  intros Hc Hv. unfold rank_one, bind, read_dict, new_dict, update_dict,
    update_list. rewrite Hc. simpl.
  rewrite !lookup_insert_eq. simpl. rewrite !lookup_insert_eq. simpl.
  rewrite !lookup_insert_eq. simpl. rewrite Hv.
  rewrite !insert_insert_eq. reflexivity.
Qed.

(** A copy is a dict that did not exist before the call and holds the
    annotated chunk. *)
Definition fresh_copy (weights : Weights) (query : string) (h h' : Store)
    (c : Chunk) (l_copy : loc) : Prop :=
  dicts h !! l_copy = None
  /\ dicts h' !! l_copy = Some (ranked_copy E weights query c).

Lemma for_each_rank_one (weights : Weights) (query : string) (r : loc)
    (items : list loc) :
  forall (h : Store) (v : list loc) (cs : list Chunk),
  Forall2 (fun l c => dicts h !! l = Some c) items cs ->
  lists h !! r = Some v ->
  exists h' copies,
    for_each items (rank_one E weights query r) h = Some (tt, h')
    /\ dicts h ⊆ dicts h'
    /\ (forall l, l <> r -> lists h' !! l = lists h !! l)
    /\ lists h' !! r = Some (v ++ copies)
    /\ Forall2 (fresh_copy weights query h h') cs copies.
Proof.
  induction items as [|chunk items IH]; intros h v cs Halloc Hv.
  - apply Forall2_nil_inv_l in Halloc as ->.
    exists h, []. simpl. rewrite app_nil_r.
    repeat split; auto.
  - apply Forall2_cons_inv_l in Halloc as (c & cs' & Hc & Halloc & ->).
    pose proof (rank_one_run weights query r chunk h c v Hc Hv) as Hrun.
    set (l := fresh (dom (dicts h))) in *.
    assert (Hfresh : dicts h !! l = None).
    { apply not_elem_of_dom. apply is_fresh. }
    set (h1 := mkStore (<[l := ranked_copy E weights query c]> (dicts h))
                       (<[r := v ++ [l]]> (lists h))) in *.
    assert (Hsub : dicts h ⊆ dicts h1).
    { simpl. apply insert_subseteq. exact Hfresh. }
    destruct (IH h1 (v ++ [l]) cs')
      as (h' & copies & Hloop & Hsub' & Hlists & Hr & Hcopies).
    { eapply Forall2_impl; [exact Halloc|]. intros l' c' Hc'.
      exact (lookup_weaken _ _ _ _ Hc' Hsub). }
    { simpl. apply lookup_insert_eq. }
    exists h', (l :: copies). simpl. unfold bind at 1. rewrite Hrun.
    split; [exact Hloop|]. split; [etrans; eauto|]. split.
    { intros l' Hne. rewrite Hlists by exact Hne. simpl.
      apply lookup_insert_ne. congruence. }
    split.
    { rewrite Hr. rewrite <- app_assoc. reflexivity. }
    constructor.
    + split; [exact Hfresh|].
      eapply lookup_weaken; [|exact Hsub']. simpl. apply lookup_insert_eq.
    + eapply Forall2_impl; [exact Hcopies|].
      intros c' l_copy (Hnone & Hout). split; [|exact Hout].
      destruct (dicts h !! l_copy) as [c0|] eqn:H0; [|reflexivity].
      eapply lookup_weaken in H0; [|exact Hsub]. congruence.
Qed.

(** Reading the sort keys changes nothing. *)
Lemma read_keys_run (h : Store) (v : list loc) :
  (forall l, l ∈ v -> is_Some (dicts h !! l)) ->
  exists keyed,
    map_m (fun l => let! c := read_dict l in
                    ret (l, get (hybrid_score c) 0%Q)) v h
    = Some (keyed, h)
    /\ map fst keyed = v.
Proof.
  induction v as [|l v IH]; intros Halloc.
  - exists []. split; reflexivity.
  - destruct (Halloc l) as [c Hc]; [left|].
    destruct IH as (keyed & Hrun & Hfst).
    { intros l' Hl'. apply Halloc. right. exact Hl'. }
    exists ((l, get (hybrid_score c) 0%Q) :: keyed). split.
    + simpl. unfold bind at 1. unfold bind at 1. unfold read_dict at 1.
      rewrite Hc. simpl. unfold bind at 1. rewrite Hrun. reflexivity.
    + simpl. congruence.
Qed.

Lemma insert_desc_perm {A : Type} (key : A -> Q) (x : A) (l : list A) :
  Permutation (insert_desc key x l) (x :: l).
Proof.
  induction l as [|y l IH]; simpl; [reflexivity|].
  destruct (Qle_bool (key x) (key y)); [|reflexivity].
  rewrite IH. apply perm_swap.
Qed.

Lemma sort_desc_perm {A : Type} (key : A -> Q) (l : list A) :
  Permutation (sort_desc key l) l.
Proof.
  unfold sort_desc.
  enough (forall acc, Permutation (fold_left (fun acc x => insert_desc key x acc) l acc) (acc ++ l)) as H.
  { rewrite H. reflexivity. }
  induction l as [|x l IH]; intros acc; simpl.
  - rewrite app_nil_r. reflexivity.
  - rewrite IH, insert_desc_perm. simpl. apply Permutation_middle.
Qed.

(** C10. [hybrid_rank_chunks] runs to its end on every list of allocated
    chunks and mutates nothing it was given: every dict and every list of the
    store before the call, the list passed in and the chunks in it among them,
    is the same after it. The returned list is a new list of new dicts, one
    copy per input chunk, and the [doc_type], [hybrid_score] and [bm25_score]
    annotations are on the copies. *)
Theorem hybrid_rank_chunks_leaves_input (h : Store) (chunks : loc)
    (items : list loc) (cs : list Chunk) (query : string)
    (weights : option Weights) :
  lists h !! chunks = Some items ->
  Forall2 (fun l c => dicts h !! l = Some c) items cs ->
  exists ranked h' out copies,
    hybrid_rank_chunks E chunks query weights h = Some (ranked, h')
    /\ (forall l c, dicts h !! l = Some c -> dicts h' !! l = Some c)
    /\ (forall l v, lists h !! l = Some v -> lists h' !! l = Some v)
    /\ lists h !! ranked = None
    /\ lists h' !! ranked = Some out
    /\ Permutation out copies
    /\ Forall2 (fresh_copy (get weights default_weights) query h h') cs copies.
Proof.
  intros Hitems Halloc. unfold hybrid_rank_chunks.
  set (w := get weights default_weights).
  set (r := fresh (dom (lists h))).
  assert (Hr : lists h !! r = None).
  { apply not_elem_of_dom. apply is_fresh. }
  set (h1 := mkStore (dicts h) (<[r := []]> (lists h))).
  assert (Hne : chunks <> r) by congruence.
  destruct (for_each_rank_one w query r items h1 [] cs)
    as (h2 & copies & Hloop & Hsub & Hlists & Hr2 & Hcopies).
  { exact Halloc. }
  { simpl. apply lookup_insert_eq. }
  simpl in Hr2.
  destruct (read_keys_run h2 copies) as (keyed & Hkeys & Hfst).
  { intros l Hl. apply list_elem_of_lookup in Hl as [i Hi].
    destruct (Forall2_lookup_r _ _ _ _ _ Hcopies Hi) as (c & _ & _ & Hc).
    eauto. }
  exists r,
    (mkStore (dicts h2) (<[r := map fst (sort_desc snd keyed)]> (lists h2))),
    (map fst (sort_desc snd keyed)), copies.
  split.
  { unfold bind at 1. unfold new_list. fold r. fold h1. simpl.
    unfold bind at 1. unfold read_list at 1. simpl.
    rewrite lookup_insert_ne by congruence. rewrite Hitems. simpl.
    unfold bind at 1. rewrite Hloop. simpl.
    unfold bind at 1. unfold sort_ranked. unfold bind at 1.
    unfold read_list at 1. rewrite Hr2. simpl.
    unfold bind at 1. rewrite Hkeys. simpl.
    unfold update_list. rewrite Hr2. reflexivity. }
  split.
  { intros l c Hl. simpl. eapply lookup_weaken; [exact Hl|exact Hsub]. }
  split.
  { intros l v Hl. simpl.
    assert (l <> r) by congruence.
    rewrite lookup_insert_ne by congruence. rewrite Hlists by assumption.
    simpl. rewrite lookup_insert_ne by congruence. exact Hl. }
  split; [exact Hr|]. split; [simpl; apply lookup_insert_eq|]. split.
  { rewrite <- Hfst. apply Permutation_map, sort_desc_perm. }
  exact Hcopies.
Qed.

End HybridRanker.

Definition example_externals : Externals :=
  mkExternals (fun _ => 0%Q) (fun q => q) (fun _ _ => Some 0%Q) true ∅ 0.

Definition far_chunk : Chunk :=
  mkChunk (Some "Shipping is free above $50") (Some "shipping.md") None
          (Some 1.5%Q) None None None.

(** C6, as stated, fails: a chunk supplied with distance 1.5 enters the
    weighted sum with the component -0.5, outside [0,1]. *)
Lemma embedding_component_outside_unit_interval :
  ~ (0 <= ranking.embedding_score example_externals far_chunk <= 1)%Q.
Proof. intros [H _]. vm_compute in H. apply H. reflexivity. Qed.

Definition example_store : Heap.Store :=
  Heap.mkStore {[ 1%positive := promo_chunk; 2%positive := far_chunk ]}
               {[ 1%positive := [1%positive; 2%positive] ]}.

Lemma hybrid_rank_chunks_leaves_input_witness :
  exists ranked h' out copies,
    ranking.hybrid_rank_chunks example_externals 1%positive "discount code"
      None example_store = Some (ranked, h')
    /\ (forall l c, Heap.dicts example_store !! l = Some c ->
                    Heap.dicts h' !! l = Some c)
    /\ (forall l v, Heap.lists example_store !! l = Some v ->
                    Heap.lists h' !! l = Some v)
    /\ Heap.lists example_store !! ranked = None
    /\ Heap.lists h' !! ranked = Some out
    /\ Permutation out copies
    /\ Forall2 (fresh_copy example_externals
                  (get None ranking.default_weights) "discount code"
                  example_store h')
               [promo_chunk; far_chunk] copies.
Proof.
  apply (hybrid_rank_chunks_leaves_input example_externals example_store
           1%positive [1%positive; 2%positive] [promo_chunk; far_chunk]
           "discount code" None).
  - reflexivity.
  - repeat constructor.
Defined.

(** ** Semantic duplicates *)

Section SemanticDuplicates.
Import validation generate_test_cases.

(** The text a signature is drawn from. *)
Definition signature_text (tc : TestCase) : string :=
  Str.lower (get (test_scenario tc) EmptyString +:+ " "
             +:+ Str.join " " (steps_items (test_steps tc))).

(** The words a signature is drawn from: the distinct words of the text that
    are longer than 4. *)
Definition long_word (tc : TestCase) (w : string) : Prop :=
  w ∈ Re.findall word_re (signature_text tc) /\ 4 < Str.len w.

(** The case at index [i] has the signature of an earlier case. *)
Definition repeats_earlier (cases : list TestCase) (i : nat) : Prop :=
  exists j tc' tc,
    j < i /\ cases !! j = Some tc' /\ cases !! i = Some tc
    /\ signature tc' = signature tc.

Lemma detect_from_spec (cases : list TestCase) :
  forall (i : nat) (seen : list (list string)) (k : nat),
  k ∈ detect_from i seen cases
  <-> exists n tc,
        k = i + n /\ cases !! n = Some tc
        /\ (signature tc ∈ seen
            \/ exists m tc', m < n /\ cases !! m = Some tc'
                             /\ signature tc' = signature tc).
Proof.
  induction cases as [|tc0 cases IH]; intros i seen k; simpl.
  - split.
    + intros H. inversion H.
    + intros (n & tc & _ & H & _). destruct n; discriminate.
  - case_bool_decide as Hseen.
    + rewrite elem_of_cons, IH. split.
      * intros [->|(n & tc & -> & Hn & Hcol)].
        -- exists 0, tc0. split; [lia|]. split; [reflexivity|]. left. exact Hseen.
        -- exists (S n), tc. split; [lia|]. split; [exact Hn|].
           destruct Hcol as [Hs|(m & tc' & Hm & Htc' & Heq)]; [left; exact Hs|].
           right. exists (S m), tc'. split; [lia|]. split; assumption.
      * intros (n & tc & -> & Hn & Hcol). destruct n as [|n].
        -- left. lia.
        -- right. exists n, tc. split; [lia|]. split; [exact Hn|].
           destruct Hcol as [Hs|(m & tc' & Hm & Htc' & Heq)]; [left; exact Hs|].
           destruct m as [|m].
           ++ left. simpl in Htc'. injection Htc' as ->. rewrite <- Heq. exact Hseen.
           ++ right. exists m, tc'. split; [lia|]. split; assumption.
    + rewrite IH. split.
      * intros (n & tc & -> & Hn & Hcol).
        exists (S n), tc. split; [lia|]. split; [exact Hn|].
        destruct Hcol as [Hs|(m & tc' & Hm & Htc' & Heq)].
        -- apply elem_of_cons in Hs as [Hs|Hs]; [|left; exact Hs].
           right. exists 0, tc0. split; [lia|]. split; [reflexivity|]. congruence.
        -- right. exists (S m), tc'. split; [lia|]. split; assumption.
      * intros (n & tc & -> & Hn & Hcol). destruct n as [|n].
        -- exfalso. simpl in Hn. injection Hn as ->.
           destruct Hcol as [Hs|(m & tc' & Hm & _)]; [contradiction|lia].
        -- exists n, tc. split; [lia|]. split; [exact Hn|].
           destruct Hcol as [Hs|(m & tc' & Hm & Htc' & Heq)].
           ++ left. apply elem_of_cons. right. exact Hs.
           ++ destruct m as [|m].
              ** left. apply elem_of_cons. left. simpl in Htc'. congruence.
              ** right. exists m, tc'. split; [lia|]. split; assumption.
Qed.

Lemma detect_semantic_duplicates_spec (cases : list TestCase) (i : nat) :
  i ∈ detect_semantic_duplicates cases <-> repeats_earlier cases i.
Proof.
  unfold detect_semantic_duplicates, repeats_earlier.
  rewrite detect_from_spec. split.
  - intros (n & tc & -> & Hn & [Hs|(m & tc' & Hm & Htc' & Heq)]).
    + inversion Hs.
    + exists m, tc', tc. simpl. auto.
  - intros (j & tc' & tc & Hj & Htc' & Htc & Heq).
    exists i, tc. split; [reflexivity|]. split; [exact Htc|].
    right. exists j, tc'. auto.
Qed.

(** The comprehension [[tc for i, tc in enumerate(cases) if i not in
    indices]]. *)
Lemma without_indices_lookup (indices : list nat) (cases : list TestCase) :
  forall (i : nat) (tc : TestCase),
  tc ∈ without_indices i indices cases
  <-> exists n, cases !! n = Some tc /\ i + n ∉ indices.
Proof.
  induction cases as [|tc0 cases IH]; intros i tc; simpl.
  - split; [intros H; inversion H|intros (n & H & _); destruct n; discriminate].
  - case_bool_decide as Hin.
    + rewrite IH. split.
      * intros (n & Hn & Hout). exists (S n). split; [exact Hn|].
        replace (i + S n) with (S i + n) by lia. exact Hout.
      * intros (n & Hn & Hout). destruct n as [|n].
        -- exfalso. apply Hout. replace (i + 0) with i by lia. exact Hin.
        -- exists n. split; [exact Hn|].
           replace (S i + n) with (i + S n) by lia. exact Hout.
    + rewrite elem_of_cons, IH. split.
      * intros [->|(n & Hn & Hout)].
        -- exists 0. split; [reflexivity|]. replace (i + 0) with i by lia. exact Hin.
        -- exists (S n). split; [exact Hn|].
           replace (i + S n) with (S i + n) by lia. exact Hout.
      * intros (n & Hn & Hout). destruct n as [|n].
        -- left. simpl in Hn. congruence.
        -- right. exists n. split; [exact Hn|].
           replace (S i + n) with (i + S n) by lia. exact Hout.
Qed.


(** What the signature is: the first 25, in ascending order of the strings,
    of the long words of the case. *)
Definition first_25_sorted (tc : TestCase) (sig : list string) : Prop :=
  StronglySorted String.le sig
  /\ NoDup sig
  /\ length sig <= 25
  /\ (forall w, w ∈ sig -> long_word tc w)
  /\ (forall w, long_word tc w ->
        w ∈ sig \/ (length sig = 25 /\ forall s, s ∈ sig -> String.le s w)).

Lemma signature_first_25_sorted (tc : TestCase) :
  first_25_sorted tc (signature tc).
Proof.
  unfold first_25_sorted, signature. fold (signature_text tc).
  set (ws := filter (fun w => 4 <? Str.len w)
               (remove_dups (Re.findall word_re (signature_text tc)))).
  set (sorted := merge_sort String.le ws).
  assert (Hsorted : StronglySorted String.le sorted).
  { apply StronglySorted_merge_sort; apply _. }
  assert (Hperm : sorted ≡ₚ ws) by apply merge_sort_Permutation.
  assert (Hws : forall w, w ∈ ws <-> long_word tc w).
  { intros w. unfold ws, long_word.
    rewrite list_elem_of_filter, elem_of_remove_dups.
    rewrite Is_true_true, Nat.ltb_lt. tauto. }
  assert (Hsplit : take 25 sorted ++ drop 25 sorted = sorted)
    by apply take_drop.
  split; [|split; [|split; [|split]]].
  - rewrite <- Hsplit in Hsorted.
    apply StronglySorted_app_1_l in Hsorted. exact Hsorted.
  - apply (sublist_NoDup _ sorted); [|apply sublist_take].
    rewrite Hperm. apply NoDup_filter, NoDup_remove_dups.
  - rewrite length_take. lia.
  - intros w Hw. apply Hws. rewrite <- Hperm.
    eapply subseteq_take. exact Hw.
  - intros w Hw. apply Hws in Hw. rewrite <- Hperm in Hw.
    rewrite <- Hsplit in Hw. apply elem_of_app in Hw as [Hw|Hw].
    + left. exact Hw.
    + right. split.
      * rewrite length_take. apply Nat.min_l.
        destruct (Nat.le_gt_cases 25 (length sorted)) as [Hle|Hgt]; [exact Hle|].
        rewrite drop_ge in Hw by lia. inversion Hw.
      * intros s Hs. rewrite <- Hsplit in Hsorted.
        exact (StronglySorted_app_1_elem_of _ _ _ _ _ Hsorted Hs Hw).
Qed.

Lemma signature_same_text (a b : TestCase) :
  test_scenario a = test_scenario b -> test_steps a = test_steps b ->
  signature a = signature b.
Proof. intros H1 H2. unfold signature. rewrite H1, H2. reflexivity. Qed.

(** C5, as amended. The semantic-duplicate filter builds each case's
    signature from the first 25, in ascending string order, of the distinct
    lowercased words longer than 4 of its scenario plus steps; it flags
    exactly the cases whose signature equals that of an earlier case, and the
    cases kept are the others, in order, so the first occurrence stays. Of two
    cases with the same scenario and steps the later one is flagged. *)
Theorem semantic_duplicates_removed (cases : list TestCase) :
  (forall tc, first_25_sorted tc (signature tc))
  /\ (forall i, i ∈ detect_semantic_duplicates cases
                <-> repeats_earlier cases i)
  /\ remove_semantic_duplicates cases
     = without_indices 0 (detect_semantic_duplicates cases) cases
  /\ (forall tc, tc ∈ remove_semantic_duplicates cases
                 <-> exists n, cases !! n = Some tc
                               /\ ~ repeats_earlier cases n)
  /\ (forall i j a b,
        i < j -> cases !! i = Some a -> cases !! j = Some b ->
        test_scenario a = test_scenario b -> test_steps a = test_steps b ->
        j ∈ detect_semantic_duplicates cases).
Proof.
  assert (Hcomp : remove_semantic_duplicates cases
                  = without_indices 0 (detect_semantic_duplicates cases) cases).
  { unfold remove_semantic_duplicates.
    destruct (detect_semantic_duplicates cases) as [|i l] eqn:Hd; [|reflexivity].
    clear Hd. generalize 0. induction cases as [|tc cases IH]; intros n; simpl.
    - reflexivity.
    - f_equal. apply IH. }
  split; [exact signature_first_25_sorted|].
  split; [exact (detect_semantic_duplicates_spec cases)|].
  split; [exact Hcomp|]. split.
  - intros tc. rewrite Hcomp, without_indices_lookup. simpl.
    split.
    + intros (n & Hn & Hout). exists n. split; [exact Hn|].
      intros Hr. apply Hout. apply detect_semantic_duplicates_spec. exact Hr.
    + intros (n & Hn & Hout). exists n. split; [exact Hn|].
      intros Hr. apply Hout. apply detect_semantic_duplicates_spec. exact Hr.
  - intros i j a b Hij Ha Hb Hs Ht. apply detect_semantic_duplicates_spec.
    exists i, a, b. repeat split; auto. apply signature_same_text; assumption.
Qed.


(** The signature the claim describes: the 25 longest of the long words. *)
Definition longer (a b : string) : Prop := Str.len b <= Str.len a.

#[local] Instance longer_dec : RelDecision longer.
Proof. intros a b. unfold longer. apply _. Defined.

Definition longest_25 (tc : TestCase) : list string :=
  take 25
    (merge_sort longer
       (filter (fun w => 4 <? Str.len w)
          (remove_dups (Re.findall word_re (signature_text tc))))).

Definition long_steps : list string :=
  [ "longword01 longword02 longword03 longword04 longword05";
    "longword06 longword07 longword08 longword09 longword10";
    "longword11 longword12 longword13 longword14 longword15";
    "longword16 longword17 longword18 longword19 longword20";
    "longword21 longword22 longword23 longword24 longword25" ].

Definition case_alpha : TestCase :=
  mkTestCase (Some "TC-001") (Some "Checkout") (Some "alpha")
    (Some (StepsList long_steps)) (Some "The order is placed")
    (Some "positive") (Some "high") (Some "promo.md") None None None None.

Definition case_bravo : TestCase :=
  mkTestCase (Some "TC-002") (Some "Checkout") (Some "bravo")
    (Some (StepsList long_steps)) (Some "The order is placed")
    (Some "positive") (Some "high") (Some "promo.md") None None None None.

(** C5, as stated, fails: two cases share their 25 longest words and differ
    in one shorter word; their signatures differ and the later case stays. *)
Lemma longest_words_do_not_decide :
  longest_25 case_alpha = longest_25 case_bravo
  /\ length (longest_25 case_alpha) = 25
  /\ detect_semantic_duplicates [case_alpha; case_bravo] = []
  /\ remove_semantic_duplicates [case_alpha; case_bravo]
     = [case_alpha; case_bravo].
Proof. vm_compute. repeat split. Qed.

End SemanticDuplicates.

(** ** Renumbering *)

Section Renumbering.
Import validation generate_test_cases.






Definition id_of (i : nat) : option string := Some ("TC-" +:+ format_03d i).



Lemma renumber_from_length (i : nat) (cases : list TestCase) :
  length (renumber_from i cases) = length cases.
Proof.
  revert i. induction cases as [|tc cases IH]; intros i; simpl; auto.
Qed.



(** Ten accepted cases, the most the pipeline hands on, get the ids TC-001
    to TC-010. *)
Example ids_of_ten_cases :
  map id_of (seq 1 10)
  = map Some [ "TC-001"; "TC-002"; "TC-003"; "TC-004"; "TC-005"; "TC-006";
               "TC-007"; "TC-008"; "TC-009"; "TC-010" ].
Proof. reflexivity. Qed.

(** The ids of a batch of up to 999 cases have three digits. *)
Lemma format_03d_three_digits :
  forallb (fun i => Str.len (format_03d i) =? 3) (seq 0 1000) = true.
Proof. vm_compute. reflexivity. Qed.

Example format_03d_examples :
  format_03d 1 = "001" /\ format_03d 10 = "010" /\ format_03d 1000 = "1000".
Proof. repeat split. Qed.

End Renumbering.

(** ** Strings *)

Section Strings.

Lemma str_app_empty_r (s : string) : s +:+ EmptyString = s.
Proof.
  induction s as [|c s IH]; [reflexivity|].
  change (String c s +:+ EmptyString) with (String c (s +:+ EmptyString)).
  f_equal. exact IH.
Qed.

Lemma str_app_cons (c : ascii) (s t : string) :
  String c s +:+ t = String c (s +:+ t).
Proof. reflexivity. Qed.

Lemma str_app_assoc (s t u : string) : (s +:+ t) +:+ u = s +:+ (t +:+ u).
Proof.
  induction s as [|c s IH]; [reflexivity|].
  rewrite !str_app_cons. f_equal. exact IH.
Qed.

Lemma str_len_app (s t : string) : Str.len (s +:+ t) = Str.len s + Str.len t.
Proof.
  induction s as [|c s IH]; [reflexivity|].
  rewrite str_app_cons. simpl. f_equal. exact IH.
Qed.

Lemma str_take_drop (n : nat) (s : string) : Str.take n s +:+ Str.drop n s = s.
Proof.
  revert s. induction n as [|n IH]; intros [|c s]; try reflexivity.
  simpl. rewrite str_app_cons. f_equal. apply IH.
Qed.

Lemma starts_with_take (n : nat) (p s : string) :
  Str.starts_with p s = true -> Str.starts_with (Str.take n p) s = true.
Proof.
  revert p s. induction n as [|n IH]; intros [|a p] [|b s]; simpl; auto.
  rewrite !andb_true_iff. intros [Hab H]. auto.
Qed.

Lemma contains_take (n : nat) (p s : string) :
  Str.contains p s = true -> Str.contains (Str.take n p) s = true.
Proof.
  induction s as [|b s IH]; simpl; rewrite !orb_true_iff.
  - intros [H|H]; [|discriminate]. left. apply starts_with_take. exact H.
  - intros [H|H]; [left; apply starts_with_take; exact H|right; auto].
Qed.

Lemma ends_with_split (p s : string) :
  Str.ends_with p s = true -> s = Str.take (Str.len s - Str.len p) s +:+ p.
Proof.
  unfold Str.ends_with. rewrite andb_true_iff, String.eqb_eq.
  intros [_ H]. set (n := Str.len s - Str.len p) in *.
  rewrite <- H. symmetry. apply str_take_drop.
Qed.

End Strings.

(** ** Hallucination detection *)

Section Hallucination.
Import validation generate_test_cases.
Context (E : Externals).
Context (json_dumps : TestCase -> string).

(** The case's text yields [val] for the pattern [p]. *)
Definition extracted (tc : TestCase) (p : config.ValidationPattern)
    (val : string) : Prop :=
  p ∈ config.VALIDATION_PATTERNS
  /\ val ∈ Re.findall (config.pattern p) (content_text tc).

(** The three exceptions: a blacklisted code, a code in a negative test, a
    zero price in a context that reads as free of charge. *)
Definition exempt (tc : TestCase) (context : string)
    (p : config.ValidationPattern) (val : string) : Prop :=
  val ∈ config.blacklist p
  \/ (config.name p = "code" /\ test_type tc = Some config_semantic.NEGATIVE)
  \/ (config.name p = "price" /\ check_value "price" val = "$0"
      /\ fst (semantic_matcher.is_validation_context_zero_cost E context)
         = true).

(** A fabricated value: extracted, not exempt, and its check value (the
    lowercased value, a price without its final [.00]) is nowhere in the
    chunk text. *)
Definition unsupported (tc : TestCase) (context : string)
    (p : config.ValidationPattern) (val : string) : Prop :=
  extracted tc p val
  /\ ~ exempt tc context p val
  /\ Str.contains (check_value (config.name p) val) context = false.

Definition fabricated_b (tc : TestCase) (context : string)
    (p : config.ValidationPattern) (val : string) : bool :=
  negb (existsb (String.eqb val) (config.blacklist p))
  && negb (String.eqb (config.name p) "code"
           && bool_decide (test_type tc = Some config_semantic.NEGATIVE))
  && negb (String.eqb (config.name p) "price"
           && String.eqb (check_value (config.name p) val) "$0"
           && fst (semantic_matcher.is_validation_context_zero_cost E context))
  && negb (Str.contains (check_value (config.name p) val) context).

(** When the body of the inner loop returns, it returns this verdict: the
    matcher is consulted for a zero price only, and was there if it was. *)
Lemma is_fabricated_returns tc context p val (b : bool) :
  is_fabricated E tc context p val = Ok b ->
  b = fabricated_b tc context p val.
Proof.
  unfold is_fabricated, fabricated_b, zero_cost.
  destruct (existsb _ _); [intros [= <-]; reflexivity|].
  destruct (_ && bool_decide _); [intros [= <-]; reflexivity|].
  destruct (String.eqb (config.name p) "price"); cbn [andb negb].
  - destruct (String.eqb _ "$0"); cbn [andb negb rbind].
    + destruct (matcher_available E); [|discriminate]. cbn [rbind].
      destruct (fst _); intros [= <-]; reflexivity.
    + intros [= <-]. reflexivity.
  - cbn [rbind]. intros [= <-]. reflexivity.
Qed.

Lemma fabricated_of_returns tc context p vals (l : list string) :
  fabricated_of E tc context p vals = Ok l ->
  l = filter (fun val => fabricated_b tc context p val) vals.
Proof.
  revert l. induction vals as [|val vals IH]; intros l; cbn [fabricated_of].
  - intros [= <-]. reflexivity.
  - destruct (is_fabricated E tc context p val) as [b|e] eqn:Hb;
      [|discriminate].
    apply is_fabricated_returns in Hb. cbn [rbind].
    destruct (fabricated_of E tc context p vals) as [more|e]; [|discriminate].
    cbn [rbind]. intros [= <-]. rewrite (IH more eq_refl), filter_cons.
    rewrite <- Hb. destruct b; reflexivity.
Qed.

Lemma fabricated_all_returns tc context ps (l : list string) :
  fabricated_all E tc context ps = Ok l ->
  l = flat_map (fun p => filter (fun val => fabricated_b tc context p val)
                           (Re.findall (config.pattern p) (content_text tc)))
               ps.
Proof.
  revert l. induction ps as [|p ps IH]; intros l; cbn [fabricated_all].
  - intros [= <-]. reflexivity.
  - destruct (fabricated_of E tc context p _) as [here|e] eqn:Hhere;
      [|discriminate].
    apply fabricated_of_returns in Hhere. cbn [rbind].
    destruct (fabricated_all E tc context ps) as [more|e]; [|discriminate].
    cbn [rbind]. intros [= <-]. rewrite (IH more eq_refl), Hhere.
    reflexivity.
Qed.

Lemma eqb_elem_of (val : string) (l : list string) :
  existsb (String.eqb val) l = true <-> val ∈ l.
Proof.
  rewrite existsb_exists. split.
  - intros (x & Hx & Heq). apply String.eqb_eq in Heq as ->.
    apply list_elem_of_In. exact Hx.
  - intros H. exists val. split; [apply list_elem_of_In; exact H|].
    apply String.eqb_refl.
Qed.

Lemma fabricated_b_spec tc context p val :
  p ∈ config.VALIDATION_PATTERNS ->
  fabricated_b tc context p val = true
  <-> ~ exempt tc context p val
      /\ Str.contains (check_value (config.name p) val) context = false.
Proof.
  intros Hp. unfold fabricated_b, exempt.
  rewrite !andb_true_iff, !negb_true_iff.
  rewrite <- !not_true_iff_false, !andb_true_iff, eqb_elem_of.
  rewrite bool_decide_eq_true, !String.eqb_eq.
  split.
  - intros [[[H1 H2] H3] H4]. split; [|exact H4].
    intros [Hb|[[Hn Ht]|(Hn & Hv & Hz)]].
    + exact (H1 Hb).
    + apply H2. auto.
    + apply H3. rewrite Hn. auto.
  - intros [Hex H4]. repeat split; [| | |exact H4].
    + intros Hb. apply Hex. left. exact Hb.
    + intros [Hn Ht]. apply Hex. right. left. auto.
    + intros [[Hn Hv] Hz]. apply Hex. right. right. rewrite Hn in Hv. auto.
Qed.

(** The values appended to [fabricated]. *)
Definition fabricated_values (tc : TestCase) (context : string) : list string :=
  flat_map (fun p => filter (fun val => fabricated_b tc context p val)
                       (Re.findall (config.pattern p) (content_text tc)))
           config.VALIDATION_PATTERNS.

Lemma fabricated_values_spec tc context :
  fabricated_values tc context <> []
  <-> exists p val, unsupported tc context p val.
Proof.
  unfold fabricated_values, unsupported, extracted. split.
  - intros Hne.
    destruct (flat_map _ _) as [|val l] eqn:Hl; [congruence|].
    assert (Hin : In val (val :: l)) by (left; reflexivity).
    rewrite <- Hl in Hin. apply in_flat_map in Hin as (p & Hp & Hval).
    apply list_elem_of_In in Hp, Hval.
    apply list_elem_of_filter in Hval as [Hfab Hval].
    apply Is_true_true in Hfab.
    apply fabricated_b_spec in Hfab as [Hex Hc]; [|exact Hp].
    exists p, val. auto.
  - intros (p & val & [Hp Hval] & Hex & Hc) Hnil.
    assert (Hin : In val (flat_map
              (fun p => filter (fun val => fabricated_b tc context p val)
                          (Re.findall (config.pattern p) (content_text tc)))
              config.VALIDATION_PATTERNS)).
    { apply in_flat_map. exists p. split; [apply list_elem_of_In; exact Hp|].
      apply list_elem_of_In, list_elem_of_filter. split; [|exact Hval].
      apply Is_true_true, fabricated_b_spec; auto. }
    rewrite Hnil in Hin. exact Hin.
Qed.

(** The case as it is when the hallucination check starts. *)
Definition enforced (tc : TestCase) (chunks : list Chunk) : TestCase :=
  fst (enforce_schema tc chunks).

Lemma enforced_action tc chunks : _action (enforced tc chunks) = _action tc.
Proof.
  unfold enforced, enforce_schema, fill_required.
  repeat match goal with
         | |- context [fill_text ?f ?v] => destruct (fill_text f v)
         end.
  destruct (fill_steps _). reflexivity.
Qed.

Definition mark_dropped (tc : TestCase) (fabricated : list string) : TestCase :=
  mkTestCase (test_id tc) (feature tc) (test_scenario tc)
    (test_steps tc) (expected_result tc) (test_type tc) (priority tc)
    (grounded_in tc) (needs_review tc) (Some "drop")
    (Some ("fabricated: " +:+ Str.join ", " (take 5 fabricated)))
    (_review_reason tc).

(** What [validate_test_case_schema] returns, when it returns: the enforced
    case as it is when nothing is fabricated, and otherwise the enforced case
    marked, with the issue [hallucination] after the issues of the schema. *)
Lemma validate_test_case_schema_returns tc chunks tc' issues :
  validate_test_case_schema E tc chunks = Ok (tc', issues) ->
  match fabricated_values (enforced tc chunks) (context_text chunks) with
  | [] => (tc', issues) = enforce_schema tc chunks
  | fabricated =>
      tc' = mark_dropped (enforced tc chunks) fabricated
      /\ issues = snd (enforce_schema tc chunks) ++ ["hallucination"]
  end.
Proof.
  unfold validate_test_case_schema, enforced.
  destruct (enforce_schema tc chunks) as [en issues0]. cbv beta iota zeta.
  change (filter (fun p => config.enabled p) config.VALIDATION_PATTERNS)
    with config.VALIDATION_PATTERNS.
  destruct (fabricated_all E en (context_text chunks) _) as [l|e] eqn:Hl;
    [|discriminate].
  apply fabricated_all_returns in Hl. cbn [rbind fst snd].
  fold (fabricated_values en (context_text chunks)) in Hl. rewrite <- Hl.
  destruct l; intros [= <- <-]; [reflexivity|split; reflexivity].
Qed.

(** The loop on a list in two parts. *)
Lemma validation_loop_app chunks (l1 l2 : list TestCase) :
  forall st,
  validation_loop E json_dumps (l1 ++ l2) chunks st
  = try! st1 := validation_loop E json_dumps l1 chunks st in
    validation_loop E json_dumps l2 chunks st1.
Proof.
  induction l1 as [|tc l1 IH]; intros st; [reflexivity|].
  cbn [app validation_loop].
  destruct (validate_test_case_schema E tc chunks) as [[tc' issues]|e];
    [|reflexivity].
  cbn [rbind]. case_bool_decide; [apply IH|].
  destruct (has_verbatim_evidence E json_dumps tc' chunks) as [b|e];
    [|reflexivity].
  cbn [rbind]. apply IH.
Qed.

(** What the loop appends does not depend on what was there: from another
    state it runs the same way and appends the same cases. *)
Lemma validation_loop_appends chunks (l : list TestCase) :
  forall st st',
  validation_loop E json_dumps l chunks st = Ok st' ->
  exists kept dropped,
    validated_cases st' = validated_cases st ++ kept
    /\ dropped_cases st' = dropped_cases st ++ dropped
    /\ forall st2, exists st2',
         validation_loop E json_dumps l chunks st2 = Ok st2'
         /\ validated_cases st2' = validated_cases st2 ++ kept
         /\ dropped_cases st2' = dropped_cases st2 ++ dropped.
Proof.
  induction l as [|tc l IH]; intros st st'; cbn [validation_loop].
  - intros [= <-]. exists [], []. rewrite !app_nil_r.
    split; [reflexivity|]. split; [reflexivity|].
    intros st2. exists st2. rewrite !app_nil_r. auto.
  - destruct (validate_test_case_schema E tc chunks) as [[tc' issues]|e];
      [|discriminate].
    cbn [rbind]. case_bool_decide as Hact.
    + intros Hrun. apply IH in Hrun as (kept & dropped & Hv & Hd & Hany).
      cbn [validated_cases dropped_cases] in Hv, Hd.
      exists kept, (get (test_id tc') "unknown" :: dropped).
      split; [exact Hv|]. split.
      { rewrite Hd, <- app_assoc. reflexivity. }
      intros st2.
      destruct (Hany (mkValidation (validated_cases st2)
                        (all_validation_issues st2)
                        (dropped_cases st2 ++ [get (test_id tc') "unknown"])
                        (dropped_details st2
                           ++ [(get (test_id tc') "unknown",
                                get (_hallucination_warning tc')
                                    "Critical hallucination detected")])))
        as (st2' & Hrun2 & Hv2 & Hd2).
      cbn [validated_cases dropped_cases] in Hv2, Hd2.
      exists st2'. split; [exact Hrun2|]. split; [exact Hv2|].
      rewrite Hd2, <- app_assoc. reflexivity.
    + destruct (has_verbatim_evidence E json_dumps tc' chunks) as [b|e];
        [|discriminate].
      cbn [rbind]. intros Hrun.
      apply IH in Hrun as (kept & dropped & Hv & Hd & Hany).
      cbn [validated_cases dropped_cases] in Hv, Hd.
      exists ((if b then tc' else flag_no_evidence tc') :: kept), dropped.
      split.
      { rewrite Hv, <- app_assoc. reflexivity. }
      split; [exact Hd|].
      intros st2.
      destruct (Hany (mkValidation
                        (validated_cases st2
                           ++ [if b then tc' else flag_no_evidence tc'])
                        (all_validation_issues st2 ++ issues)
                        (dropped_cases st2) (dropped_details st2)))
        as (st2' & Hrun2 & Hv2 & Hd2).
      cbn [validated_cases dropped_cases] in Hv2, Hd2.
      exists st2'. split; [exact Hrun2|]. split; [|exact Hd2].
      rewrite Hv2, <- app_assoc. reflexivity.
Qed.

(** The cases that the quality filter keeps are a matter of the validated
    cases only, not of the lists of what was dropped before. *)
Lemma quality_loop_kept (format_2f : Q -> string) (used_chunks : list Chunk)
    (cases : list TestCase) :
  forall quality_filtered generic_dropped st generic_dropped' st',
  (quality_loop format_2f used_chunks cases quality_filtered generic_dropped
     st).1.1
  = (quality_loop format_2f used_chunks cases quality_filtered generic_dropped'
       st').1.1.
Proof.
  induction cases as [|tc cases IH]; intros qf gd st gd' st';
    cbn [quality_loop]; [reflexivity|].
  destruct (Qltb (calculate_quality_score tc) 0.5); apply IH.
Qed.

Lemma returned_test_cases_of_validated (format_2f : Q -> string)
    (multi_pass_verification : list TestCase -> list Chunk -> list TestCase)
    (used_chunks : list Chunk) (st st' : Validation) :
  validated_cases st' = validated_cases st ->
  returned_test_cases format_2f multi_pass_verification used_chunks st'
  = returned_test_cases format_2f multi_pass_verification used_chunks st.
Proof.
  intros Hv. unfold returned_test_cases, quality_filter. rewrite Hv.
  cbn [validated_cases].
  match goal with
  | |- context [quality_loop ?f ?u ?c ?qf ?gd ?s] =>
      pose proof (quality_loop_kept f u c qf gd s gd
                    (mkValidation c (all_validation_issues st)
                       (dropped_cases st) (dropped_details st))) as Hk
  end.
  repeat match goal with
         | H : context [quality_loop ?f ?u ?c ?qf ?gd ?s] |- _ =>
             destruct (quality_loop f u c qf gd s) as [[? ?] ?]
         end.
  cbn [fst] in Hk. subst. reflexivity.
Qed.

Lemma check_value_contains (ptype val context : string) :
  Str.contains (Str.lower val) context = true ->
  Str.contains (check_value ptype val) context = true.
Proof.
  intros H. unfold check_value.
  destruct (_ && _); [apply contains_take|]; exact H.
Qed.

(** The zero prices are $0 and $0.00. *)
Lemma zero_price_values (val : string) :
  check_value "price" val = "$0"
  <-> Str.lower val = "$0" \/ Str.lower val = "$0.00".
Proof.
  unfold check_value. change (String.eqb "price" "price") with true.
  cbv beta iota zeta. rewrite andb_true_l.
  destruct (Str.ends_with ".00" (Str.lower val)) eqn:He.
  - split.
    + intros H. right. apply ends_with_split in He.
      change (Str.len ".00") with 3 in He. rewrite H in He. exact He.
    + intros [H|H]; rewrite H in He |- *; [discriminate|reflexivity].
  - split; [auto|]. intros [H|H]; [exact H|].
    rewrite H in He. discriminate.
Qed.

(** C1, as amended. Take a batch that the validation loop has gone through
    and a case of it whose scenario, expected result or steps, as the schema
    step leaves them, yield a currency amount, percentage or uppercase code
    that is not exempt (blacklisted code, code in a negative test, zero price
    in a zero-cost context) and whose check value is not in the lowercased
    chunk text; the check value is the lowercased value, and for a currency
    amount that ends in [.00] the amount without it. Validation returns the
    case marked [_action = drop], with the issue [hallucination]; the loop
    puts its identifier among the dropped cases and leaves it out of the
    validated cases, which are those of the batch without it, and so are the
    test cases of the response, which the later stages take from the
    validated cases. A case all of whose extracted values are in the chunk
    text, case-insensitively, comes back from validation as the schema step
    left it: this check neither marks it nor reports it. *)
Theorem hallucinated_cases_dropped (chunks : list Chunk) :
  (forall (before after : list TestCase) (tc : TestCase) (st : Validation),
     validate_all E json_dumps (before ++ tc :: after) chunks = Ok st ->
     (exists p val,
        unsupported (enforced tc chunks) (context_text chunks) p val) ->
     (exists tc' issues,
        validate_test_case_schema E tc chunks = Ok (tc', issues)
        /\ _action tc' = Some "drop"
        /\ "hallucination" ∈ issues
        /\ get (test_id tc') "unknown" ∈ dropped_cases st)
     /\ exists st',
          validate_all E json_dumps (before ++ after) chunks = Ok st'
          /\ validated_cases st = validated_cases st'
          /\ forall format_2f multi_pass_verification,
               returned_test_cases format_2f multi_pass_verification chunks st
               = returned_test_cases format_2f multi_pass_verification chunks
                   st')
  /\ (forall (tc tc' : TestCase) (issues : list string),
        validate_test_case_schema E tc chunks = Ok (tc', issues) ->
        (forall p val,
           extracted (enforced tc chunks) p val ->
           Str.contains (Str.lower val) (context_text chunks) = true) ->
        (tc', issues) = enforce_schema tc chunks
        /\ _action tc' = _action tc).
Proof.
  split.
  - intros before after tc st Hrun Hfab.
    unfold validate_all in Hrun. rewrite validation_loop_app in Hrun.
    destruct (validation_loop E json_dumps before chunks _) as [st1|e]
      eqn:Hbefore; [|discriminate].
    cbn [rbind validation_loop] in Hrun.
    destruct (validate_test_case_schema E tc chunks) as [[tc' issues]|e]
      eqn:Hval; [|discriminate].
    pose proof (validate_test_case_schema_returns _ _ _ _ Hval) as Hret.
    apply fabricated_values_spec in Hfab.
    destruct (fabricated_values (enforced tc chunks) (context_text chunks))
      as [|v fab]; [congruence|].
    destruct Hret as [-> ->]. cbn [rbind mark_dropped _action] in Hrun.
    rewrite bool_decide_true in Hrun by reflexivity.
    apply validation_loop_appends in Hrun
      as (kept & dropped & Hv & Hd & Hany).
    cbn [validated_cases dropped_cases] in Hv, Hd.
    split.
    + eexists _, _. split; [reflexivity|]. split; [reflexivity|].
      split; [apply elem_of_app; right; left|].
      rewrite Hd. apply elem_of_app. left. apply elem_of_app. right. left.
    + destruct (Hany st1) as (st' & Hrun' & Hv' & _).
      exists st'. split.
      { unfold validate_all. rewrite validation_loop_app, Hbefore.
        exact Hrun'. }
      assert (Hsame : validated_cases st = validated_cases st')
        by congruence.
      split; [exact Hsame|]. intros format_2f multi_pass_verification.
      apply returned_test_cases_of_validated. exact Hsame.
  - intros tc tc' issues Hval Hall.
    pose proof (validate_test_case_schema_returns _ _ _ _ Hval) as Hret.
    destruct (fabricated_values (enforced tc chunks) (context_text chunks))
      as [|v fab] eqn:Hfab.
    + split; [exact Hret|].
      assert (tc' = enforced tc chunks) as ->
        by (unfold enforced; rewrite <- Hret; reflexivity).
      apply enforced_action.
    + exfalso.
      assert (Hne : fabricated_values (enforced tc chunks)
                      (context_text chunks) <> []) by congruence.
      apply fabricated_values_spec in Hne as (p & val & Hext & _ & Hmiss).
      apply Hall, (check_value_contains (config.name p)) in Hext.
      congruence.
Qed.

(** With the matcher at hand the check of a case returns. *)
Lemma validate_test_case_schema_ok tc chunks :
  matcher_available E = true ->
  exists tc' issues,
    validate_test_case_schema E tc chunks = Ok (tc', issues).
Proof.
  intros Hm. unfold validate_test_case_schema.
  destruct (enforce_schema tc chunks) as [en issues0]. cbv beta iota zeta.
  assert (Hone : forall p val,
            exists b, is_fabricated E en (context_text chunks) p val = Ok b).
  { intros p val. unfold is_fabricated, zero_cost. rewrite Hm.
    destruct (existsb _ _); [eauto|].
    destruct (_ && bool_decide _); [eauto|].
    destruct (_ && _); cbn [rbind]; [destruct (fst _)|]; eauto. }
  assert (Hof : forall p vals,
            exists l, fabricated_of E en (context_text chunks) p vals = Ok l).
  { intros p vals. induction vals as [|val vals [l IH]];
      cbn [fabricated_of]; [eauto|].
    destruct (Hone p val) as [b ->]. rewrite IH. cbn [rbind]. eauto. }
  assert (Hall : forall ps,
            exists l, fabricated_all E en (context_text chunks) ps = Ok l).
  { intros ps. induction ps as [|p ps [l IH]]; cbn [fabricated_all]; [eauto|].
    destruct (Hof p (Re.findall (config.pattern p) (content_text en)))
      as [here ->].
    rewrite IH. cbn [rbind]. eauto. }
  destruct (Hall (filter (fun p => config.enabled p)
                         config.VALIDATION_PATTERNS)) as [l ->].
  cbn [rbind]. destruct l; eauto.
Qed.

End Hallucination.

(** *** The scenario of the specification, and the claim as stated *)

Section HallucinationExamples.
Import validation generate_test_cases.

(** A stand-in for [json.dumps] in the examples: the text fields one after
    the other. *)
Definition example_dumps (tc : TestCase) : string :=
  content_text tc.

Definition cites_save10 : TestCase :=
  mkTestCase (Some "TC-001") (Some "Discount codes")
    (Some "Apply a valid discount code at checkout")
    (Some (StepsList ["Enter the code in the discount field"; "Click Apply"]))
    (Some "SAVE10 gives 10% off the order total")
    (Some "positive") (Some "high") (Some "promo.md") None None None None.

Definition cites_save20 : TestCase :=
  mkTestCase (Some "TC-002") (Some "Discount codes")
    (Some "Apply a valid discount code at checkout")
    (Some (StepsList ["Enter the code in the discount field"; "Click Apply"]))
    (Some "SAVE20 gives 10% off the order total")
    (Some "positive") (Some "high") (Some "promo.md") None None None None.

(** The case that cites SAVE10 and 10% passes, the one that cites SAVE20 is
    dropped. *)
Example save10_passes_save20_dropped :
  exists st,
    validate_all example_externals example_dumps [cites_save10; cites_save20]
      [promo_chunk] = Ok st
    /\ validated_cases st = [cites_save10]
    /\ dropped_cases st = ["TC-002"].
Proof. eexists. vm_compute. repeat split. Qed.

Definition code_pattern : config.ValidationPattern :=
  config.mkPattern "code" config.code_re true config.code_blacklist.

(** The state in which the loop leaves the batch of the two cases. *)
Definition save_batch : Validation :=
  mkValidation [cites_save10] [] ["TC-002"]
    [("TC-002", "fabricated: SAVE20")].

Lemma hallucinated_cases_dropped_witness :
  (exists tc' issues,
     validate_test_case_schema example_externals cites_save20 [promo_chunk]
     = Ok (tc', issues)
     /\ _action tc' = Some "drop"
     /\ "hallucination" ∈ issues
     /\ get (test_id tc') "unknown" ∈ dropped_cases save_batch)
  /\ exists st',
       validate_all example_externals example_dumps ([cites_save10] ++ [])
         [promo_chunk] = Ok st'
       /\ validated_cases save_batch = validated_cases st'
       /\ forall format_2f multi_pass_verification,
            returned_test_cases format_2f multi_pass_verification
              [promo_chunk] save_batch
            = returned_test_cases format_2f multi_pass_verification
                [promo_chunk] st'.
Proof.
  destruct (hallucinated_cases_dropped example_externals example_dumps
              [promo_chunk]) as [Hdrop _].
  apply (Hdrop [cites_save10] [] cites_save20 save_batch).
  - vm_compute. reflexivity.
  - exists code_pattern, "SAVE20". split.
    + split; apply list_elem_of_In; vm_compute; tauto.
    + apply fabricated_b_spec.
      * apply list_elem_of_In. vm_compute. tauto.
      * vm_compute. reflexivity.
Defined.

Definition shipping_chunk : Chunk :=
  mkChunk (Some "Standard shipping costs $10 per order") (Some "shipping.md")
          None None None None None.

Definition cites_ten_dollars : TestCase :=
  mkTestCase (Some "TC-001") (Some "Shipping")
    (Some "Standard shipping fee is added at checkout")
    (Some (StepsList ["Add an item to the cart"; "Choose standard shipping"]))
    (Some "The order total includes a shipping fee of $10.00")
    (Some "positive") (Some "high") (Some "shipping.md") None None None None.

Definition price_pattern : config.ValidationPattern :=
  config.mkPattern "price" config.price_re true [].

(** C1, as stated, fails: the currency amount $10.00 is extracted from the
    expected result, is under none of the exceptions and is nowhere in the
    chunk text, and the case is kept (flagged for review, not dropped),
    because the chunk text has $10. *)
Lemma amount_with_zero_cents_not_dropped :
  (extracted cites_ten_dollars price_pattern "$10.00"
   /\ ("$10.00" ∉ config.blacklist price_pattern)
   /\ (config.name price_pattern <> "code")
   /\ ("$10.00" <> "$0") /\ ("$10.00" <> "$0.00")
   /\ Str.contains (Str.lower "$10.00") (context_text [shipping_chunk]) = false)
  /\ exists st,
       validate_all example_externals example_dumps [cites_ten_dollars]
         [shipping_chunk] = Ok st
       /\ validated_cases st = [flag_no_evidence cites_ten_dollars]
       /\ dropped_cases st = [].
Proof.
  split.
  - split.
    { split; apply list_elem_of_In; vm_compute; tauto. }
    split; [intros H; inversion H|].
    split; [discriminate|]. split; [discriminate|]. split; [discriminate|].
    vm_compute. reflexivity.
  - eexists. vm_compute. repeat split.
Qed.

End HallucinationExamples.

(** ** Verification steps *)

Section VerificationSteps.
Import semantic_matcher deterministic_selenium_generator.
Context (E : Externals).
Context (action_rules :
           list string -> list string -> string -> list string * list string).

(** The step reads as a verification: it has one of the literal checks, or
    its similarity to the verification intents is above 0.30 and above its
    similarity to the action intents plus 0.08, the sum being the float sum
    the code compares with. *)
Definition reads_as_verification (step_text : string) : Prop :=
  let step_lower := Str.strip (Str.lower step_text) in
  (exists pattern, pattern ∈ literal_checks
                   /\ Str.contains pattern step_lower = true)
  \/ (exists v a,
        max_similarity E step_lower verification_intents = Some v
        /\ max_similarity E step_lower action_intents = Some a
        /\ (0.30 < v)%Q /\ (float_sum E a 0.08 < v)%Q).

Lemma is_verification_step_spec (step_text : string) :
  fst (is_verification_step E step_text) = true
  <-> reads_as_verification step_text.
Proof.
  unfold is_verification_step, reads_as_verification.
  set (step_lower := Str.strip (Str.lower step_text)).
  destruct (existsb _ literal_checks) eqn:Hlit.
  - simpl. split; [intros _|reflexivity]. left.
    apply existsb_exists in Hlit as (pattern & Hin & Hc).
    exists pattern. split; [apply list_elem_of_In; exact Hin|exact Hc].
  - assert (Hno : ~ exists pattern, pattern ∈ literal_checks
                      /\ Str.contains pattern step_lower = true).
    { intros (pattern & Hin & Hc).
      assert (existsb (fun pattern => Str.contains pattern step_lower)
                      literal_checks = true) as Ht.
      { apply existsb_exists. exists pattern.
        split; [apply list_elem_of_In; exact Hin|exact Hc]. }
      congruence. }
    destruct (max_similarity E step_lower verification_intents) as [v|];
      [destruct (max_similarity E step_lower action_intents) as [a|]|];
      simpl.
    + rewrite andb_true_iff, !Qltb_lt. split.
      * intros [H1 H2]. right. exists v, a. auto.
      * intros [H|(v' & a' & [= <-] & [= <-] & H1 & H2)]; [contradiction|auto].
    + split; [discriminate|].
      intros [H|(v' & a' & _ & H & _)]; [contradiction|discriminate].
    + split; [discriminate|].
      intros [H|(v' & a' & H & _)]; [contradiction|discriminate].
Qed.

(** The confidence returned with a positive verdict is above 0.30. *)
Lemma verification_confidence_above (step_text : string) :
  fst (is_verification_step E step_text) = true ->
  Qltb 0.30 (snd (is_verification_step E step_text)) = true.
Proof.
  unfold is_verification_step.
  destruct (existsb _ literal_checks); [intros _; reflexivity|].
  destruct (max_similarity E _ verification_intents) as [v|];
    [destruct (max_similarity E _ action_intents) as [a|]|];
    simpl; try discriminate.
  rewrite andb_true_iff. tauto.
Qed.

Definition line_feed : ascii := ascii_of_nat 10.
Definition carriage_return : ascii := ascii_of_nat 13.

(** The text stays on its line. *)
Fixpoint single_line (s : string) : bool :=
  match s with
  | EmptyString => true
  | String c s' =>
      negb (Ascii.eqb c line_feed) && negb (Ascii.eqb c carriage_return)
      && single_line s'
  end.

(** The lines of the text of a test, as Python reads a source text: a line
    ends at a line feed, at a carriage return, or at a carriage return with
    the line feed after it. *)
Fixpoint script_lines (s : string) : list string :=
  match s with
  | EmptyString => [EmptyString]
  | String c s' =>
      if Ascii.eqb c line_feed then EmptyString :: script_lines s'
      else if Ascii.eqb c carriage_return then
        EmptyString ::
        match s' with
        | String d s'' =>
            if Ascii.eqb d line_feed then script_lines s''
            else script_lines s'
        | EmptyString => script_lines s'
        end
      else match script_lines s' with
           | line :: rest => String c line :: rest
           | [] => [String c EmptyString]
           end
  end.

(** A line of the script that performs nothing: blank, or one line that
    starts, after its indentation, with the comment sign. *)
Definition comment_or_blank (line : string) : Prop :=
  line = EmptyString
  \/ (single_line line = true
      /\ exists rest, Str.lstrip line = String "#" rest).

Lemma single_line_app (s t : string) :
  single_line (s +:+ t) = single_line s && single_line t.
Proof.
  induction s as [|c s IH]; [reflexivity|].
  rewrite str_app_cons. simpl. rewrite IH, andb_assoc. reflexivity.
Qed.

Lemma script_lines_single (line rest : string) :
  single_line line = true ->
  script_lines (line +:+ String line_feed rest) = line :: script_lines rest.
Proof.
  induction line as [|c line IH]; intros Hline.
  - reflexivity.
  - rewrite str_app_cons. simpl in Hline.
    apply andb_true_iff in Hline as [Hc Hline].
    apply andb_true_iff in Hc as [Hc Hc']. apply negb_true_iff in Hc, Hc'.
    cbn [script_lines]. rewrite Hc, Hc', (IH Hline). reflexivity.
Qed.

(** The text of a test made of lines that each stay on their line has these
    lines. *)
Lemma script_lines_join (lines : list string) :
  lines <> [] ->
  Forall (fun line => single_line line = true) lines ->
  script_lines (test_text lines) = lines.
Proof.
  intros Hne Hall. unfold test_text.
  induction Hall as [|line lines Hline Hall IH]; [congruence|].
  destruct lines as [|line' lines].
  - cbn [Str.join]. clear IH Hne Hall.
    induction line as [|c line IH]; [reflexivity|].
    simpl in Hline. apply andb_true_iff in Hline as [Hc Hline].
    apply andb_true_iff in Hc as [Hc Hc']. apply negb_true_iff in Hc, Hc'.
    cbn [script_lines]. rewrite Hc, Hc', (IH Hline). reflexivity.
  - change (Str.join nl (line :: line' :: lines))
      with (line +:+ nl +:+ Str.join nl (line' :: lines)).
    change (nl +:+ Str.join nl (line' :: lines))
      with (String line_feed (Str.join nl (line' :: lines))).
    rewrite (script_lines_single _ _ Hline), IH by congruence. reflexivity.
Qed.

(** The mapper on one verification step: the three entries, and the fields
    filled as they were. *)
Lemma map_step_of_verification (body filled_fields : list string)
    (step : string) :
  reads_as_verification (clean step) ->
  map_step E action_rules body filled_fields step
  = ([ "    # VERIFICATION: " +:+ clean step;
       "    # TODO: Implement assertion for this verification step";
       EmptyString ], filled_fields).
Proof.
  intros Hver. apply is_verification_step_spec in Hver.
  pose proof (verification_confidence_above _ Hver) as Hconf.
  unfold map_step.
  destruct (is_verification_step E (clean step)) as [b conf].
  simpl in Hver, Hconf. rewrite Hver, Hconf. reflexivity.
Qed.

(** C8, as amended. For a step that the semantic matcher reads as a
    verification, on the step text with its leading numbering removed (which
    is the text the mapper hands to the matcher), the deterministic step
    mapper appends three entries, whatever the action rules are: the comment
    [# VERIFICATION:] with the step text, the comment [# TODO: ...] and an
    empty entry; the action rules are not consulted and no field is marked as
    filled. When the step text holds no line feed and no carriage return,
    the lines these entries make in the text of the test are the three
    entries, each a comment or blank: no click, fill, select or check call
    is emitted. *)
Theorem verification_step_emits_placeholder
    (body filled_fields : list string) (step : string) :
  reads_as_verification (clean step) ->
  map_step E action_rules body filled_fields step
  = ([ "    # VERIFICATION: " +:+ clean step;
       "    # TODO: Implement assertion for this verification step";
       EmptyString ], filled_fields)
  /\ (single_line (clean step) = true ->
      script_lines
        (test_text (fst (map_step E action_rules body filled_fields step)))
      = [ "    # VERIFICATION: " +:+ clean step;
          "    # TODO: Implement assertion for this verification step";
          EmptyString ]
      /\ Forall comment_or_blank
           (script_lines
              (test_text
                 (fst (map_step E action_rules body filled_fields step))))).
Proof.
  intros Hver.
  rewrite (map_step_of_verification body filled_fields step Hver).
  split; [reflexivity|]. intros Hline. cbn [fst].
  assert (Hlines :
    script_lines
      (test_text
         [ "    # VERIFICATION: " +:+ clean step;
           "    # TODO: Implement assertion for this verification step";
           EmptyString ])
    = [ "    # VERIFICATION: " +:+ clean step;
        "    # TODO: Implement assertion for this verification step";
        EmptyString ]).
  { apply script_lines_join; [discriminate|].
    repeat constructor. rewrite single_line_app, Hline. reflexivity. }
  rewrite Hlines. split; [reflexivity|].
  apply Forall_cons. split.
  { right. split; [|eexists; reflexivity].
    rewrite single_line_app, Hline. reflexivity. }
  apply Forall_cons. split.
  { right. split; [reflexivity|eexists; reflexivity]. }
  apply Forall_cons. split; [left; reflexivity|constructor].
Qed.

(** The whole fallback, on a list of verification steps only, is the
    placeholders one after the other. *)
Lemma fallback_of_verification_steps (steps : list string) :
  Forall (fun step => reads_as_verification (clean step)) steps ->
  forall body filled_fields,
  fallback_loop E action_rules steps body filled_fields
  = body ++ flat_map (fun step => verification_lines (clean step)) steps.
Proof.
  induction 1 as [|step steps Hstep _ IH]; intros body filled_fields.
  - simpl. rewrite app_nil_r. reflexivity.
  - cbn [fallback_loop flat_map].
    rewrite (map_step_of_verification body filled_fields step Hstep).
    rewrite IH, <- app_assoc. reflexivity.
Qed.

End VerificationSteps.

Definition no_action_rules (body filled_fields : list string) (step : string)
    : list string * list string :=
  ([], filled_fields).

Lemma verification_step_emits_placeholder_witness :
  deterministic_selenium_generator.map_step example_externals no_action_rules
    [] [] "3. Check if the discount is applied"
  = ([ "    # VERIFICATION: Check if the discount is applied";
       "    # TODO: Implement assertion for this verification step";
       EmptyString ], [])
  /\ script_lines
       (deterministic_selenium_generator.test_text
          (fst (deterministic_selenium_generator.map_step example_externals
                  no_action_rules [] []
                  "3. Check if the discount is applied")))
     = [ "    # VERIFICATION: Check if the discount is applied";
         "    # TODO: Implement assertion for this verification step";
         EmptyString ]
  /\ Forall comment_or_blank
       (script_lines
          (deterministic_selenium_generator.test_text
             (fst (deterministic_selenium_generator.map_step
                     example_externals no_action_rules [] []
                     "3. Check if the discount is applied")))).
Proof.
  destruct (verification_step_emits_placeholder example_externals
              no_action_rules [] [] "3. Check if the discount is applied")
    as [Hmap Hlines].
  - left. exists "check if". split.
    + apply list_elem_of_In. simpl. tauto.
    + vm_compute. reflexivity.
  - split; [exact Hmap|]. apply Hlines. vm_compute. reflexivity.
Defined.

Example clean_removes_numbering :
  deterministic_selenium_generator.clean "3. Check if the discount is applied"
  = "Check if the discount is applied".
Proof. vm_compute. reflexivity. Qed.

(** A step text with a line feed in it, as a list of steps from the backend
    can hold: a check, and below it a call. *)
Definition step_with_line_feed : string :=
  "Check that the total is shown" +:+ nl +:+ "    page.click_button('pay')".

(** C8, as stated, fails: the step reads as a verification, for it has the
    literal [check that], and the text the mapper emits for it has the line
    [page.click_button('pay')], which is no comment and no blank line but a
    click. *)
Lemma verification_step_with_line_feed :
  reads_as_verification example_externals
    (deterministic_selenium_generator.clean step_with_line_feed)
  /\ fst (semantic_matcher.is_verification_step example_externals
            (deterministic_selenium_generator.clean step_with_line_feed))
     = true
  /\ script_lines
       (deterministic_selenium_generator.test_text
          (fst (deterministic_selenium_generator.map_step example_externals
                  no_action_rules [] [] step_with_line_feed)))
     = [ "    # VERIFICATION: Check that the total is shown";
         "    page.click_button('pay')";
         "    # TODO: Implement assertion for this verification step";
         EmptyString ]
  /\ ~ comment_or_blank "    page.click_button('pay')".
Proof.
  split.
  { left. exists "check that". split.
    - apply list_elem_of_In. simpl. tauto.
    - vm_compute. reflexivity. }
  split; [vm_compute; reflexivity|].
  split; [vm_compute; reflexivity|].
  intros [H|[_ [rest H]]]; [discriminate|].
  vm_compute in H. discriminate.
Qed.

(** The same with a carriage return in place of the line feed. *)
Example verification_step_with_carriage_return :
  let step :=
    "Check that the total is shown"
    +:+ String carriage_return "    page.click_button('pay')" in
  fst (semantic_matcher.is_verification_step example_externals
         (deterministic_selenium_generator.clean step)) = true
  /\ script_lines
       (deterministic_selenium_generator.test_text
          (fst (deterministic_selenium_generator.map_step example_externals
                  no_action_rules [] [] step)))
     = [ "    # VERIFICATION: Check that the total is shown";
         "    page.click_button('pay')";
         "    # TODO: Implement assertion for this verification step";
         EmptyString ].
Proof. vm_compute. split; reflexivity. Qed.

(** ** The response normalizer *)

(** Stand-ins for the collaborators of the pipeline in the examples: the
    text itself for its digest, the request above the context for the
    filled-in template, and a backend that answers with a given text. *)
Definition text_digest (t : string) : string := t.
Definition plain_prompt (prompt context : string) (count : Z)
    : result string :=
  Ok (prompt +:+ nl +:+ context).
Definition answers (raw_response : string) (full_prompt : string)
    (num_predict : Z) : result string :=
  Ok raw_response.

Section ResponseNormalizer.
Import generate_test_cases.

(** On a text with no JSON in it the first stages find nothing. *)
Example not_json_at_all_parses_to_empty :
  parse_response "not json at all" = Ok (Some (Json.JArr []))
  /\ aggressive_fallback "not json at all" = []
  /\ json_utils.secondary_json_format_pass "not json at all" = [].
Proof. vm_compute. repeat split. Qed.

(** The synthesis path raises as soon as a chunk was used: the pair that
    [classify_document_type] returns is asked for [.lower()]. *)
Lemma synthesized_feature_raises (E : Externals) (chunk : Chunk)
    (chunks : list Chunk) :
  synthesized_feature E (chunk :: chunks) = Raise AttributeError.
Proof.
  unfold synthesized_feature.
  destruct (semantic_matcher.classify_document_type E _ _). reflexivity.
Qed.

Lemma not_json_at_all_reaches_synthesis (E : Externals) (available : bool)
    (prompt : string) (used_chunks : list Chunk) :
  normalize_response E available prompt "not json at all" used_chunks
  = try! found := synthesize E available prompt "not json at all"
                    used_chunks in
    match found with
    | ReturnedEmpty => Ok ReturnedEmpty
    | Cases test_cases => Ok (Cases (enforce_limit test_cases))
    end.
Proof. reflexivity. Qed.

Lemma not_json_at_all_normalizer_raises (E : Externals) (prompt : string)
    (chunk : Chunk) (chunks : list Chunk) :
  matcher_available E = true ->
  normalize_response E true prompt "not json at all" (chunk :: chunks)
  = Raise AttributeError.
Proof.
  intros Hm. rewrite not_json_at_all_reaches_synthesis. unfold synthesize.
  rewrite Hm. cbn [negb]. rewrite synthesized_feature_raises. reflexivity.
Qed.

(** The request of the failing input passes the out-of-domain gate, and its
    chunk is used: both terms of the prompt that are no stop words,
    [discount] and [code], are in the chunk. *)
Example discount_request_proceeds :
  let ranked_docs :=
    ranking.ranked_chunks example_externals None
      "Generate 1 test case for the discount code" [promo_chunk] in
  ranking.prompt_domain_terms "Generate 1 test case for the discount code"
  = ["discount"; "code"]
  /\ ranking.should_proceed
       (ranking.adaptive_test_generation_strategy ranked_docs
          "Generate 1 test case for the discount code") = true
  /\ map text
       (prompt_utils.truncate_context_smart ranked_docs 6992).2
     = [text promo_chunk].
Proof. vm_compute. repeat split. Qed.

(** C2, at the failing input. The request passes the out-of-domain gate of
    the strategy selector, the backend answers "not json at all", no parsing
    stage finds a test case, and with the matcher at hand and the chunk used
    the synthesis raises: the pipeline raises
    [Exception("Test case generation failed: ...")]. *)
Theorem not_json_at_all_raises :
  generate_test_cases example_externals true text_digest 6992 8192
    plain_prompt (answers "not json at all")
    "Generate 1 test case for the discount code" [promo_chunk]
  = Raise (Wrapped AttributeError).
Proof. vm_compute. reflexivity. Qed.

(** The same for every request that the strategy selector lets proceed and
    that has a chunk in its context, whatever the embedding model, the corpus
    statistics, the digest and the template are. *)
Lemma not_json_at_all_raises_for_all (E : Externals)
    (md5_hexdigest : string -> string)
    (AVAILABLE_CONTEXT_TOKENS MODEL_WINDOW : Z)
    (build_dynamic_prompt : string -> string -> Z -> result string)
    (backend : string -> Z -> result string)
    (prompt : string) (retrieved_docs : list Chunk) (count : Z)
    (final_context full_prompt : string) (was_truncated : bool)
    (chunk : Chunk) (chunks : list Chunk) :
  let ranked_docs :=
    ranking.ranked_chunks E None prompt
      (prompt_utils.deduplicate_chunks md5_hexdigest retrieved_docs).1 in
  matcher_available E = true ->
  requested_count prompt = Ok count ->
  ranking.should_proceed
    (ranking.adaptive_test_generation_strategy ranked_docs prompt) = true ->
  prompt_utils.truncate_context_smart ranked_docs AVAILABLE_CONTEXT_TOKENS
  = (final_context, was_truncated, chunk :: chunks) ->
  build_dynamic_prompt prompt final_context count = Ok full_prompt ->
  backend full_prompt
    (num_predict MODEL_WINDOW count (prompt_utils.estimate_tokens full_prompt))
  = Ok "not json at all" ->
  generate_test_cases E true md5_hexdigest AVAILABLE_CONTEXT_TOKENS
    MODEL_WINDOW build_dynamic_prompt backend prompt retrieved_docs
  = Raise (Wrapped AttributeError).
Proof.
  intros ranked_docs Hm Hcount Hgate Hused Hbuild Hanswer.
  unfold generate_test_cases. rewrite Hcount. cbn [rbind].
  unfold generate.
  destruct (prompt_utils.deduplicate_chunks md5_hexdigest retrieved_docs)
    as [unique_docs removed] eqn:Hd.
  cbn [fst] in ranked_docs. fold ranked_docs.
  rewrite Hgate. cbn [negb]. rewrite Hused, Hbuild. cbn [rbind].
  rewrite Hanswer. cbn [rbind].
  rewrite (not_json_at_all_normalizer_raises E prompt chunk chunks Hm).
  reflexivity.
Qed.

(** A request whose terms are all stop words does not reach the backend:
    the strategy selector aborts, and the empty response is returned. *)
Example request_of_stop_words_is_aborted :
  generate_test_cases example_externals true text_digest 6992 8192
    plain_prompt (answers "not json at all") "Generate 1 test case"
    [promo_chunk]
  = Ok (ReturnedEmpty, []).
Proof. vm_compute. reflexivity. Qed.

(** Where the claim holds: without the AI/ML services the result is the
    empty list, and with them and no chunk used it is one synthesized case
    marked for review. *)
Lemma not_json_at_all_without_services (E : Externals) (prompt : string)
    (used_chunks : list Chunk) :
  response_normalizer E false prompt "not json at all" used_chunks
  = Ok ReturnedEmpty.
Proof. reflexivity. Qed.

Lemma not_json_at_all_without_chunks (E : Externals) (prompt : string) :
  matcher_available E = true ->
  exists members,
    response_normalizer E true prompt "not json at all" []
    = Ok (Cases [Json.JObj members])
    /\ Json.lookup "needs_review" members = Some (Json.JBool true).
Proof.
  intros Hm. unfold response_normalizer.
  rewrite not_json_at_all_reaches_synthesis. unfold synthesize.
  rewrite Hm. cbn [negb synthesized_feature rbind].
  eexists. split; [reflexivity|]. reflexivity.
Qed.

End ResponseNormalizer.

(** ** The matcher *)

Section MatcherFacts.
Import Re.

(** The loop of a greedy repetition, by name. *)
Definition star_loop {A : Type} (a : regex) (k : kont A)
    : nat -> option string -> option ascii -> string -> option A :=
  fix loop (n : nat) (cap : option string) (prev : option ascii) (s : string)
      {struct n} : option A :=
    match n with
    | 0 => k cap prev s
    | S n' =>
        match mt a A cap prev s (fun cap' p' s' =>
                if Str.len s' <? Str.len s then loop n' cap' p' s'
                else None) with
        | Some x => Some x
        | None => k cap prev s
        end
    end.

Lemma mt_cat {A : Type} (a b : regex) (k : kont A) cap prev s :
  mt (Cat a b) A cap prev s k
  = mt a A cap prev s (fun cap' p' s' => mt b A cap' p' s' k).
Proof. reflexivity. Qed.

Lemma mt_cls {A : Type} (p : ascii -> bool) (k : kont A) cap prev s :
  mt (Cls p) A cap prev s k
  = match s with
    | String c s' => if p c then k cap (Some c) s' else None
    | EmptyString => None
    end.
Proof. reflexivity. Qed.

Lemma mt_grp {A : Type} (a : regex) (k : kont A) cap prev s :
  mt (Grp a) A cap prev s k
  = mt a A cap prev s (fun _ p' s' =>
      k (Some (Str.take (Str.len s - Str.len s') s)) p' s').
Proof. reflexivity. Qed.

Lemma mt_star {A : Type} (a : regex) (k : kont A) cap prev s :
  mt (Star a) A cap prev s k = star_loop a k (Str.len s) cap prev s.
Proof. reflexivity. Qed.

(** The length of the leading run of characters of a class. *)
Fixpoint run_of (p : ascii -> bool) (s : string) : nat :=
  match s with
  | String c s' => if p c then S (run_of p s') else 0
  | EmptyString => 0
  end.

Lemma run_of_le (p : ascii -> bool) (s : string) : run_of p s <= Str.len s.
Proof.
  induction s as [|c s IH]; simpl; [lia|]. destruct (p c); lia.
Qed.

(** A greedy run of a class, before a continuation that cannot start on a
    character of the class and does not look behind: the whole run is taken. *)
Lemma star_loop_class {A : Type} (p : ascii -> bool) (k : kont A) :
  (forall cap prev c s, p c = true -> k cap prev (String c s) = None) ->
  (forall cap prev prev' s, k cap prev s = k cap prev' s) ->
  forall n s cap prev,
  run_of p s <= n ->
  star_loop (Cls p) k n cap prev s = k cap prev (Str.drop (run_of p s) s).
Proof.
  intros Hk Hprev. induction n as [|n IH]; intros s cap prev Hn.
  - assert (run_of p s = 0) as -> by lia. destruct s; reflexivity.
  - cbn [star_loop mt]. destruct s as [|c s]; [reflexivity|].
    cbn [run_of] in *. destruct (p c) eqn:Hc; [|reflexivity].
    assert ((Str.len s <? Str.len (String c s)) = true) as ->.
    { apply Nat.ltb_lt. simpl. lia. }
    rewrite IH by lia. cbn [Str.drop].
    rewrite (Hprev cap (Some c) prev).
    destruct (k cap prev (Str.drop (run_of p s) s)) eqn:Hres; [reflexivity|].
    apply Hk. exact Hc.
Qed.

Lemma mt_star_class {A : Type} (p : ascii -> bool) (k : kont A) cap prev s :
  (forall cap prev c s, p c = true -> k cap prev (String c s) = None) ->
  (forall cap prev prev' s, k cap prev s = k cap prev' s) ->
  mt (Star (Cls p)) A cap prev s k = k cap prev (Str.drop (run_of p s) s).
Proof.
  intros Hk Hprev. rewrite mt_star. apply star_loop_class; auto.
  apply run_of_le.
Qed.

(** *** A character, spaces, a character *)

(** The match of [a \s* b]: its length. *)
Definition gap_match (a b : ascii -> bool) (s : string) : option nat :=
  match s with
  | String c s' =>
      if a c then
        match Str.drop (run_of is_space s') s' with
        | String d _ => if b d then Some (run_of is_space s' + 2) else None
        | EmptyString => None
        end
      else None
  | EmptyString => None
  end.

Lemma len_drop (n : nat) (s : string) :
  Str.len (Str.drop n s) = Str.len s - n.
Proof.
  revert s. induction n as [|n IH]; intros [|c s]; simpl; auto.
Qed.

Lemma drop_run_len (s : string) (d : ascii) (rest : string) :
  Str.drop (run_of is_space s) s = String d rest ->
  Str.len s = run_of is_space s + S (Str.len rest).
Proof.
  intros H. pose proof (len_drop (run_of is_space s) s) as Hl.
  rewrite H in Hl. simpl in Hl. pose proof (run_of_le is_space s). lia.
Qed.

Lemma trailing_comma_match (prev : option ascii) (s : string) :
  match_at json_utils.trailing_comma_re prev s
  = match gap_match (is_char ",") json_utils.is_closing s with
    | Some n =>
        Some (n, Some (Str.take 1 (Str.drop (n - 1) s)))
    | None => None
    end.
Proof.
  unfold match_at, json_utils.trailing_comma_re, Chr, gap_match.
  rewrite mt_cat, mt_cls. destruct s as [|c s]; [reflexivity|].
  destruct (is_char "," c); [|reflexivity].
  rewrite mt_cat, mt_star_class.
  - rewrite mt_grp, mt_cls.
    destruct (Str.drop (run_of is_space s) s) as [|d rest] eqn:Hd; [reflexivity|].
    destruct (json_utils.is_closing d) eqn:Hcl; [|reflexivity].
    pose proof (drop_run_len s d rest Hd) as Hlen.
    f_equal. f_equal.
    + simpl. lia.
    + f_equal. replace (run_of is_space s + 2 - 1) with (S (run_of is_space s)) by lia.
      cbn [Str.drop]. rewrite Hd.
      replace (Str.len (String d rest) - Str.len rest) with 1 by (simpl; lia).
      reflexivity.
  - intros cap' prev' c' s' Hsp. rewrite mt_grp, mt_cls.
    assert (json_utils.is_closing c' = false) as ->; [|reflexivity].
    revert Hsp. unfold json_utils.is_closing, is_space, is_char, in_range, code.
    destruct c' as [[] [] [] [] [] [] [] []]; vm_compute; congruence.
  - reflexivity.
Qed.

Lemma brace_gap_match (prev : option ascii) (s : string) :
  match_at json_utils.brace_gap_re prev s
  = match gap_match (is_char "}") (is_char "{") s with
    | Some n => Some (n, None)
    | None => None
    end.
Proof.
  unfold match_at, json_utils.brace_gap_re, Chr, gap_match.
  rewrite mt_cat, mt_cls. destruct s as [|c s]; [reflexivity|].
  destruct (is_char "}" c); [|reflexivity].
  rewrite mt_cat, mt_star_class.
  - rewrite mt_cls.
    destruct (Str.drop (run_of is_space s) s) as [|d rest] eqn:Hd; [reflexivity|].
    destruct (is_char "{" d) eqn:Hcl; [|reflexivity].
    pose proof (drop_run_len s d rest Hd) as Hlen.
    f_equal. f_equal. simpl. lia.
  - intros cap' prev' c' s' Hsp. rewrite mt_cls.
    assert (is_char "{" c' = false) as ->; [|reflexivity].
    revert Hsp. unfold is_space, is_char, in_range, code.
    destruct c' as [[] [] [] [] [] [] [] []]; vm_compute; congruence.
  - reflexivity.
Qed.

End MatcherFacts.

(** ** Substitution where the pattern is [a \s* b] *)

Section GapSubstitution.
Import Re.
Context (a b : ascii -> bool).

(** The first character that is no space. *)
Fixpoint first_non_space (s : string) : option ascii :=
  match s with
  | String c s' => if is_space c then first_non_space s' else Some c
  | EmptyString => None
  end.

Lemma drop_run_first (s : string) :
  first_non_space s
  = match Str.drop (run_of is_space s) s with
    | String d _ => Some d
    | EmptyString => None
    end.
Proof.
  induction s as [|c s IH]; [reflexivity|].
  simpl. destruct (is_space c) eqn:Hc; [exact IH|reflexivity].
Qed.

(** A match starts here. *)
Definition gap_here (s : string) : bool :=
  match s with
  | String c s' =>
      a c && match first_non_space s' with Some d => b d | None => false end
  | EmptyString => false
  end.

Lemma gap_match_here (s : string) :
  gap_match a b s = None <-> gap_here s = false.
Proof.
  destruct s as [|c s]; [tauto|]. unfold gap_match, gap_here.
  rewrite drop_run_first. destruct (a c); [|tauto].
  destruct (Str.drop _ s) as [|d rest]; [tauto|].
  simpl. destruct (b d); split; congruence.
Qed.

(** No match starts in [pre], read in front of [y]. *)
Fixpoint quiet_in (pre y : string) : Prop :=
  match pre with
  | EmptyString => True
  | String c pre' => gap_here (pre +:+ y) = false /\ quiet_in pre' y
  end.

(** The scan: [pending] says that a character of [a] was read and only
    spaces since; the scan stops with [None] at a character of [b] that
    completes a match. *)
Fixpoint scan (pending : bool) (s : string) : option bool :=
  match s with
  | EmptyString => Some pending
  | String c s' =>
      if pending && b c then None
      else scan (a c || (pending && is_space c)) s'
  end.

Lemma scan_app (p : bool) (x y : string) :
  scan p (x +:+ y)
  = match scan p x with Some p' => scan p' y | None => None end.
Proof.
  revert p. induction x as [|c x IH]; intros p; [reflexivity|].
  rewrite str_app_cons. simpl. destruct (p && b c); [reflexivity|]. apply IH.
Qed.

Lemma scan_prefix (p : bool) (x y : string) (q : bool) :
  scan p (x +:+ y) = Some q -> exists p', scan p x = Some p' /\ scan p' y = Some q.
Proof.
  rewrite scan_app. destruct (scan p x) as [p'|]; [eauto|discriminate].
Qed.


(** With a match pending, the first character that is no space is not
    of [b]. *)
Lemma scan_pending (s : string) (q : bool) :
  scan true s = Some q ->
  match first_non_space s with Some d => b d = false | None => True end.
Proof.
  induction s as [|c s IH]; [intros _; exact I|]. simpl.
  destruct (b c) eqn:Hb; [discriminate|].
  destruct (is_space c) eqn:Hc.
  - rewrite orb_true_r. exact IH.
  - intros _. exact Hb.
Qed.

Lemma scan_gap_here (p : bool) (s : string) (q : bool) :
  scan p s = Some q -> gap_here s = false.
Proof.
  destruct s as [|c s]; [reflexivity|]. simpl.
  destruct (p && b c); [discriminate|].
  destruct (a c) eqn:Ha; [|reflexivity]. simpl.
  intros H. apply scan_pending in H.
  destruct (first_non_space s) as [d|]; auto.
Qed.

Lemma scan_tail (p : bool) (c : ascii) (s : string) (q : bool) :
  scan p (String c s) = Some q -> exists p', scan p' s = Some q.
Proof. simpl. destruct (p && b c); [discriminate|eauto]. Qed.

(** A text that scans through has no match in it. *)
Lemma scan_quiet (s : string) :
  forall p q, scan p s = Some q -> quiet_in s EmptyString.
Proof.
  induction s as [|c s IH]; intros p q H; [exact I|]. split.
  - rewrite str_app_empty_r. eapply scan_gap_here. exact H.
  - apply scan_tail in H as [p' H]. eapply IH. exact H.
Qed.


Context (r : regex) (repl : string -> option string -> string).
Hypothesis no_match :
  forall prev s, gap_here s = false -> match_at r prev s = None.

Lemma sub_from_quiet_in (pre y : string) :
  quiet_in pre y ->
  forall prev, exists prev',
    sub_from r repl prev 0 (pre +:+ y) = pre +:+ sub_from r repl prev' 0 y.
Proof.
  induction pre as [|c pre IH]; intros Hq prev.
  - exists prev. reflexivity.
  - destruct Hq as [Hhere Hq]. destruct (IH Hq (Some c)) as [prev' Hsub].
    exists prev'. rewrite str_app_cons in *. cbn [sub_from].
    rewrite (no_match prev _ Hhere). rewrite Hsub. reflexivity.
Qed.

Lemma sub_from_quiet (s : string) (prev : option ascii) :
  quiet_in s EmptyString -> sub_from r repl prev 0 s = s.
Proof.
  intros Hq. destruct (sub_from_quiet_in s EmptyString Hq prev) as [prev' H].
  rewrite str_app_empty_r in H. rewrite H. cbn [sub_from].
  rewrite (no_match prev' EmptyString eq_refl). apply str_app_empty_r.
Qed.

End GapSubstitution.

(** ** A match does not depend on what follows a character it cannot take *)

Section MatchBeforeDelimiter.
Import Re.

(** The pattern is built from classes, sequence, alternative and greedy
    repetition, and no class of it has the character [d]. *)
Fixpoint stops_at (d : ascii) (r : regex) : bool :=
  match r with
  | Eps => true
  | Cls p => negb (p d)
  | Cat a b | Alt a b => stops_at d a && stops_at d b
  | Star a => stops_at d a
  | _ => false
  end.

Lemma mt_alt {A : Type} (a b : regex) (k : kont A) cap prev s :
  mt (Alt a b) A cap prev s k
  = match mt a A cap prev s k with
    | Some x => Some x
    | None => mt b A cap prev s k
    end.
Proof. reflexivity. Qed.

Lemma star_loop_fail {A : Type} (a : regex) (k : kont A) :
  (forall (k0 : kont A), (forall cap p s, k0 cap p s = None) ->
     forall cap prev s, mt a A cap prev s k0 = None) ->
  (forall cap p s, k cap p s = None) ->
  forall n cap prev s, star_loop a k n cap prev s = None.
Proof.
  intros IHa Hk. induction n as [|n IH]; intros cap prev s; cbn [star_loop].
  - apply Hk.
  - rewrite IHa; [apply Hk|].
    intros cap' p' s'. destruct (_ <? _); [apply IH|reflexivity].
Qed.

Lemma mt_fail (d : ascii) (r : regex) :
  stops_at d r = true ->
  forall (A : Type) (k : kont A),
  (forall cap p s, k cap p s = None) ->
  forall cap prev s, mt r A cap prev s k = None.
Proof.
  induction r as [|p|a IHa b IHb|a IHa b IHb|a IHa| | | | | |];
    intros Hr A k Hk cap prev s; try discriminate.
  - apply Hk.
  - rewrite mt_cls. destruct s as [|c s]; [reflexivity|].
    destruct (p c); [apply Hk|reflexivity].
  - cbn [stops_at] in Hr. apply andb_true_iff in Hr as [Ha Hb].
    rewrite mt_cat. apply IHa; [exact Ha|].
    intros cap' p' s'. apply IHb; assumption.
  - cbn [stops_at] in Hr. apply andb_true_iff in Hr as [Ha Hb].
    rewrite mt_alt, IHa by assumption. apply IHb; assumption.
  - cbn [stops_at] in Hr. rewrite mt_star. apply star_loop_fail; [|exact Hk].
    intros k0 Hk0 cap' prev' s'. apply IHa; assumption.
Qed.

Lemma ltb_app (x s t : string) :
  (Str.len (x +:+ t) <? Str.len (s +:+ t)) = (Str.len x <? Str.len s).
Proof.
  rewrite !str_len_app.
  destruct (Nat.ltb_spec (Str.len x) (Str.len s));
    [apply Nat.ltb_lt|apply Nat.ltb_ge]; lia.
Qed.

Lemma mt_suffix (d : ascii) (rest : string) (r : regex) :
  stops_at d r = true ->
  forall (A : Type) (k k' : kont A),
  (forall cap p x, k' cap p (x +:+ String d rest) = k cap p x) ->
  forall cap prev s,
  mt r A cap prev (s +:+ String d rest) k' = mt r A cap prev s k.
Proof.
  induction r as [|p|a IHa b IHb|a IHa b IHb|a IHa| | | | | |];
    intros Hr A k k' Hk cap prev s; try discriminate.
  - apply Hk.
  - rewrite !mt_cls. cbn [stops_at] in Hr. apply negb_true_iff in Hr.
    destruct s as [|c s].
    + simpl. rewrite Hr. reflexivity.
    + rewrite str_app_cons. destruct (p c); [apply Hk|reflexivity].
  - cbn [stops_at] in Hr. apply andb_true_iff in Hr as [Ha Hb].
    rewrite !mt_cat. apply IHa; [exact Ha|].
    intros cap' p' x. apply IHb; assumption.
  - cbn [stops_at] in Hr. apply andb_true_iff in Hr as [Ha Hb].
    rewrite !mt_alt.
    rewrite (IHa Ha A k k' Hk), (IHb Hb A k k' Hk). reflexivity.
  - cbn [stops_at] in Hr. rewrite !mt_star.
    assert (Hloop : forall n m s cap prev,
               Str.len s <= n -> Str.len (s +:+ String d rest) <= m ->
               star_loop a k' m cap prev (s +:+ String d rest)
               = star_loop a k n cap prev s).
    { clear cap prev s. induction n as [|n IHn]; intros m s cap prev Hn Hm.
      - destruct s as [|c s]; [|unfold Str.len in Hn; simpl in Hn; lia].
        destruct m as [|m]; [unfold Str.len in Hm; simpl in Hm; lia|].
        cbn [star_loop].
        rewrite (IHa Hr A (fun _ _ _ => None)).
        + rewrite (mt_fail d a Hr) by reflexivity. apply Hk.
        + intros cap' p' x.
          assert ((Str.len (x +:+ String d rest)
                   <? Str.len (EmptyString +:+ String d rest)) = false) as ->.
          { apply Nat.ltb_ge. rewrite !str_len_app. unfold Str.len. simpl. lia. }
          reflexivity.
      - destruct m as [|m]; [rewrite str_len_app in Hm; unfold Str.len in Hm; simpl in Hm; lia|].
        cbn [star_loop].
        rewrite (IHa Hr A
                   (fun cap' p' s' =>
                      if Str.len s' <? Str.len s
                      then star_loop a k n cap' p' s' else None)).
        + rewrite Hk. reflexivity.
        + intros cap' p' x. rewrite ltb_app.
          destruct (Nat.ltb_spec (Str.len x) (Str.len s)); [|reflexivity].
          apply IHn; [lia|]. rewrite str_len_app in *. lia. }
    apply Hloop; lia.
Qed.

(** The same match in front of the delimiter. *)
Lemma match_at_suffix (d : ascii) (rest : string) (r : regex)
    (prev : option ascii) (s : string) :
  stops_at d r = true ->
  match_at r prev (s +:+ String d rest) = match_at r prev s.
Proof.
  intros Hr. unfold match_at. apply mt_suffix; [exact Hr|].
  intros cap p x. rewrite !str_len_app. f_equal. f_equal. lia.
Qed.

End MatchBeforeDelimiter.

(** ** The text that [json.dumps] writes *)

Section JsonInduction.
Import Re.
Import Json.
Context (P : json -> Prop).
Hypothesis on_null : P JNull.
Hypothesis on_bool : forall b, P (JBool b).
Hypothesis on_num : forall literal, P (JNum literal).
Hypothesis on_str : forall s, P (JStr s).
Hypothesis on_arr : forall items, Forall P items -> P (JArr items).
Hypothesis on_obj :
  forall members, Forall (fun m => P (snd m)) members -> P (JObj members).

Fixpoint json_nested_ind (v : json) : P v :=
  match v with
  | JNull => on_null
  | JBool b => on_bool b
  | JNum literal => on_num literal
  | JStr s => on_str s
  | JArr items =>
      on_arr items
        ((fix all (l : list json) : Forall P l :=
            match l with
            | [] => List.Forall_nil P
            | x :: r => @List.Forall_cons _ P x r (json_nested_ind x) (all r)
            end) items)
  | JObj members =>
      on_obj members
        ((fix all (l : list (string * json)) : Forall (fun m => P (snd m)) l :=
            match l with
            | [] => List.Forall_nil _
            | m :: r =>
                @List.Forall_cons _ (fun m => P (snd m)) m r
                  (json_nested_ind (snd m)) (all r)
            end) members)
  end.

End JsonInduction.

Section DumpedText.
Import Re.
Import Json.

Fixpoint all_chars (p : ascii -> bool) (s : string) : bool :=
  match s with
  | EmptyString => true
  | String c s' => p c && all_chars p s'
  end.

(** A character that is no bracket and no brace. *)
Definition text_char (c : ascii) : bool :=
  negb (is_char "{" c || is_char "}" c || is_char "[" c || is_char "]" c).

Definition number_char (c : ascii) : bool :=
  is_digit c || is_char "-" c || is_char "+" c || is_char "." c
  || is_char "e" c || is_char "E" c.

(** A literal that [json.dumps] can write and the decoder reads whole as one
    number (an integer within the digit limit, or a float), and the three
    names that [json.dumps] writes for the floats that are no numbers. *)
Definition number_literal (literal : string) : bool :=
  (all_chars number_char literal
   && match match_at number_re None literal with
      | Some (n, _) => n =? Str.len literal
      | None => false
      end
   && negb (over_digit_limit literal))
  || String.eqb literal "NaN" || String.eqb literal "Infinity"
  || String.eqb literal "-Infinity".

(** The values whose strings, keys included, have no bracket and no brace
    in them, and whose numbers are number literals. *)
Fixpoint bracket_free (v : json) : bool :=
  match v with
  | JNull | JBool _ => true
  | JNum literal => number_literal literal
  | JStr s => all_chars text_char s
  | JArr items => forallb bracket_free items
  | JObj members =>
      forallb (fun m => all_chars text_char (fst m) && bracket_free (snd m))
        members
  end.

Lemma all_chars_app (p : ascii -> bool) (s t : string) :
  all_chars p (s +:+ t) = all_chars p s && all_chars p t.
Proof.
  induction s as [|c s IH]; [reflexivity|].
  rewrite str_app_cons. simpl. rewrite IH. apply andb_assoc.
Qed.

Lemma all_chars_impl (p q : ascii -> bool) (s : string) :
  (forall c, p c = true -> q c = true) ->
  all_chars p s = true -> all_chars q s = true.
Proof.
  intros Hpq. induction s as [|c s IH]; [reflexivity|]. simpl.
  intros [Hc Hs]%andb_true_iff. rewrite (Hpq c Hc). exact (IH Hs).
Qed.

Lemma encode_char_text (c : ascii) :
  text_char c = true -> all_chars text_char (encode_char c) = true.
Proof.
  destruct c as [[] [] [] [] [] [] [] []]; intros H; vm_compute in H |- *;
    congruence.
Qed.

Lemma encode_chars_text (s : string) :
  all_chars text_char s = true -> all_chars text_char (encode_chars s) = true.
Proof.
  induction s as [|c s IH]; [reflexivity|]. simpl.
  intros [Hc Hs]%andb_true_iff.
  rewrite all_chars_app, (encode_char_text c Hc). exact (IH Hs).
Qed.

Lemma encode_string_text (s : string) :
  all_chars text_char s = true -> all_chars text_char (encode_string s) = true.
Proof.
  intros Hs. unfold encode_string.
  change (all_chars text_char (String quote (encode_chars s +:+ String quote EmptyString)))
    with (text_char quote
          && all_chars text_char (encode_chars s +:+ String quote EmptyString)).
  rewrite all_chars_app, (encode_chars_text s Hs). reflexivity.
Qed.

Lemma number_char_text (c : ascii) :
  number_char c = true ->
  text_char c = true /\ is_char "," c = false /\ is_space c = false
  /\ is_ws c = false /\ is_char quote c = false /\ is_char "n" c = false
  /\ is_char "t" c = false /\ is_char "f" c = false.
Proof.
  destruct c as [[] [] [] [] [] [] [] []]; intros H; vm_compute in H |- *;
    try discriminate; repeat split.
Qed.

End DumpedText.

Section ScanOfText.
Import Re.
Context (a b : ascii -> bool).

Lemma scan_no_b (t : string) :
  all_chars (fun c => negb (b c)) t = true ->
  forall p, exists q, scan a b p t = Some q.
Proof.
  induction t as [|c t IH]; intros H p; [eexists; reflexivity|].
  simpl in H. apply andb_true_iff in H as [Hc Ht].
  apply negb_true_iff in Hc. simpl. rewrite Hc, andb_false_r. apply (IH Ht).
Qed.

Lemma scan_inert (t : string) :
  all_chars (fun c => negb (a c) && negb (b c)) t = true ->
  scan a b false t = Some false.
Proof.
  induction t as [|c t IH]; intros H; [reflexivity|].
  simpl in H. apply andb_true_iff in H as [Hc Ht].
  apply andb_true_iff in Hc as [Ha Hb]. apply negb_true_iff in Ha.
  simpl. rewrite Ha. exact (IH Ht).
Qed.

Lemma scan_solid (t : string) :
  all_chars (fun c => negb (a c) && negb (b c) && negb (is_space c)) t = true ->
  t <> EmptyString ->
  forall p, scan a b p t = Some false.
Proof.
  destruct t as [|c t]; [congruence|]. intros H _ p.
  simpl in H. apply andb_true_iff in H as [Hc Ht].
  apply andb_true_iff in Hc as [Hc Hs]. apply andb_true_iff in Hc as [Ha Hb].
  apply negb_true_iff in Ha, Hb, Hs.
  simpl. rewrite Ha, Hb, Hs, !andb_false_r. simpl.
  apply scan_inert. revert Ht. apply all_chars_impl.
  intros d Hd. apply andb_true_iff in Hd as [Hd _]. exact Hd.
Qed.

End ScanOfText.

Section DumpedScans.
Import Re.
Import Json.

Lemma number_char_solid (c : ascii) :
  number_char c = true ->
  negb (is_char "," c) && negb (json_utils.is_closing c) && negb (is_space c)
  = true.
Proof.
  destruct c as [[] [] [] [] [] [] [] []]; intros H; vm_compute in H |- *;
    congruence.
Qed.

Lemma text_char_not_closing (c : ascii) :
  text_char c = true -> negb (json_utils.is_closing c) = true.
Proof.
  destruct c as [[] [] [] [] [] [] [] []]; intros H; vm_compute in H |- *;
    congruence.
Qed.

Lemma text_char_no_brace (c : ascii) :
  text_char c = true -> negb (is_char "}" c) && negb (is_char "{" c) = true.
Proof.
  destruct c as [[] [] [] [] [] [] [] []]; intros H; vm_compute in H |- *;
    congruence.
Qed.

Lemma number_literal_cases (literal : string) :
  number_literal literal = true ->
  (all_chars number_char literal = true /\ literal <> EmptyString
   /\ exists cap,
        match_at number_re None literal = Some (Str.len literal, cap)
        /\ over_digit_limit literal = false)
  \/ literal = "NaN" \/ literal = "Infinity" \/ literal = "-Infinity".
Proof.
  unfold number_literal. intros H.
  apply orb_true_iff in H as [H|H]; [|right; right; right; apply String.eqb_eq, H].
  apply orb_true_iff in H as [H|H]; [|right; right; left; apply String.eqb_eq, H].
  apply orb_true_iff in H as [H|H]; [|right; left; apply String.eqb_eq, H].
  left. apply andb_true_iff in H as [H Hlim].
  apply negb_true_iff in Hlim.
  apply andb_true_iff in H as [Hc Hm]. split; [exact Hc|]. split.
  - intros ->. vm_compute in Hm. discriminate.
  - destruct (match_at number_re None literal) as [[n cap]|]; [|discriminate].
    apply Nat.eqb_eq in Hm. subst n. eauto.
Qed.

(** *** No trailing comma in it *)

Definition comma_scan : bool -> string -> option bool :=
  scan (is_char ",") json_utils.is_closing.

Definition calm (t : string) : Prop := forall p, comma_scan p t = Some false.

Lemma calm_app (x y : string) : calm x -> calm y -> calm (x +:+ y).
Proof.
  unfold calm, comma_scan. intros Hx Hy p. rewrite scan_app.
  rewrite (Hx p). apply Hy.
Qed.

Lemma calm_join (parts : list string) :
  Forall calm parts -> parts <> [] -> calm (Str.join ", " parts).
Proof.
  induction 1 as [|x r Hx Hr IH]; [congruence|]. intros _.
  destruct r as [|y r]; [exact Hx|].
  change (Str.join ", " (x :: y :: r))
    with (x +:+ ", " +:+ Str.join ", " (y :: r)).
  apply calm_app; [exact Hx|].
  intros p. destruct p; apply IH; congruence.
Qed.

Lemma comma_scan_join (parts : list string) :
  Forall calm parts -> comma_scan false (Str.join ", " parts) = Some false.
Proof.
  intros H. destruct parts as [|x r]; [reflexivity|].
  apply calm_join; [exact H|congruence].
Qed.

Lemma calm_encode_string (s : string) :
  all_chars text_char s = true -> calm (encode_string s).
Proof.
  intros Hs p. unfold encode_string, comma_scan.
  assert (scan (is_char ",") json_utils.is_closing p
            (String quote (encode_chars s +:+ String quote EmptyString))
          = scan (is_char ",") json_utils.is_closing false
              (encode_chars s +:+ String quote EmptyString)) as ->.
  { destruct p; reflexivity. }
  rewrite scan_app.
  destruct (scan_no_b (is_char ",") json_utils.is_closing (encode_chars s))
    with (p := false) as [q ->].
  - apply encode_chars_text in Hs. revert Hs. apply all_chars_impl.
    apply text_char_not_closing.
  - destruct q; reflexivity.
Qed.

Lemma calm_number (literal : string) :
  number_literal literal = true -> calm literal.
Proof.
  intros H. apply number_literal_cases in H as [(Hc & Hne & _)|[->|[->| ->]]];
    try (intros []; reflexivity).
  intros p. apply scan_solid; [|exact Hne].
  revert Hc. apply all_chars_impl, number_char_solid.
Qed.

Lemma calm_dumps (v : json) : bracket_free v = true -> calm (dumps v).
Proof.
  induction v as [|[]|literal|s|items IH|members IH] using json_nested_ind;
    intros Hv.
  - intros []; reflexivity.
  - intros []; reflexivity.
  - intros []; reflexivity.
  - apply calm_number, Hv.
  - apply calm_encode_string, Hv.
  - assert (Hparts : Forall calm (map dumps items)).
    { simpl in Hv. apply Forall_map. rewrite forallb_forall in Hv.
      rewrite Forall_forall in IH |- *. intros x Hx.
      apply IH; [exact Hx|]. apply Hv. apply list_elem_of_In, Hx. }
    intros p. cbn [dumps].
    assert (comma_scan p ("[" +:+ Str.join ", " (map dumps items) +:+ "]")
            = comma_scan false (Str.join ", " (map dumps items) +:+ "]")) as ->.
    { destruct p; reflexivity. }
    unfold comma_scan. rewrite scan_app.
    fold comma_scan. rewrite (comma_scan_join _ Hparts). reflexivity.
  - set (member := fun m : string * json =>
                     encode_string (fst m) +:+ ": " +:+ dumps (snd m)).
    assert (Hparts : Forall calm (map member members)).
    { simpl in Hv. apply Forall_map. rewrite forallb_forall in Hv.
      rewrite Forall_forall in IH |- *. intros x Hx.
      specialize (Hv x (proj1 (list_elem_of_In _ _) Hx)).
      apply andb_true_iff in Hv as [Hk Hx'].
      apply calm_app; [apply calm_encode_string, Hk|].
      intros p. specialize (IH x Hx Hx' false). destruct p; exact IH. }
    intros p. cbn [dumps]. fold member.
    assert (comma_scan p ("{" +:+ Str.join ", " (map member members) +:+ "}")
            = comma_scan false (Str.join ", " (map member members) +:+ "}")) as ->.
    { destruct p; reflexivity. }
    unfold comma_scan. rewrite scan_app.
    fold comma_scan. rewrite (comma_scan_join _ Hparts). reflexivity.
Qed.

(** *** No two objects with only spaces between them *)

Definition brace_scan : bool -> string -> option bool :=
  scan (is_char "}") (is_char "{").

Definition apart (t : string) : Prop := exists q, brace_scan false t = Some q.

Lemma apart_text (t : string) : all_chars text_char t = true -> apart t.
Proof.
  intros H. exists false. apply scan_inert. revert H.
  apply all_chars_impl, text_char_no_brace.
Qed.

Lemma apart_join (parts : list string) :
  Forall apart parts -> apart (Str.join ", " parts).
Proof.
  induction 1 as [|x r Hx Hr IH]; [exists false; reflexivity|].
  destruct r as [|y r]; [exact Hx|].
  change (Str.join ", " (x :: y :: r))
    with (x +:+ ", " +:+ Str.join ", " (y :: r)).
  destruct Hx as [q Hx], IH as [q' IH]. exists q'.
  unfold brace_scan in *. rewrite scan_app, Hx.
  destruct q; exact IH.
Qed.

Lemma number_char_is_text (c : ascii) :
  number_char c = true -> text_char c = true.
Proof. intros H. apply number_char_text in H. tauto. Qed.

Lemma apart_number (literal : string) :
  number_literal literal = true -> apart literal.
Proof.
  intros H. apply number_literal_cases in H as [(Hc & _ & _)|[->|[->| ->]]];
    try (exists false; reflexivity).
  apply apart_text. revert Hc. apply all_chars_impl, number_char_is_text.
Qed.

Lemma apart_dumps (v : json) : bracket_free v = true -> apart (dumps v).
Proof.
  induction v as [|[]|literal|s|items IH|members IH] using json_nested_ind;
    intros Hv.
  - exists false; reflexivity.
  - exists false; reflexivity.
  - exists false; reflexivity.
  - apply apart_number, Hv.
  - apply apart_text, encode_string_text, Hv.
  - assert (Hparts : Forall apart (map dumps items)).
    { simpl in Hv. apply Forall_map. rewrite forallb_forall in Hv.
      rewrite Forall_forall in IH |- *. intros x Hx.
      apply IH; [exact Hx|]. apply Hv. apply list_elem_of_In, Hx. }
    apply apart_join in Hparts as [q Hq]. exists false.
    cbn [dumps]. unfold brace_scan in *.
    change (scan (is_char "}") (is_char "{") false
              ("[" +:+ Str.join ", " (map dumps items) +:+ "]"))
      with (scan (is_char "}") (is_char "{") false
              (Str.join ", " (map dumps items) +:+ "]")).
    rewrite scan_app, Hq. destruct q; reflexivity.
  - set (member := fun m : string * json =>
                     encode_string (fst m) +:+ ": " +:+ dumps (snd m)).
    assert (Hparts : Forall apart (map member members)).
    { simpl in Hv. apply Forall_map. rewrite forallb_forall in Hv.
      rewrite Forall_forall in IH |- *. intros x Hx.
      specialize (Hv x (proj1 (list_elem_of_In _ _) Hx)).
      apply andb_true_iff in Hv as [Hk Hx'].
      destruct (IH x Hx Hx') as [q Hq]. exists q.
      unfold member, brace_scan in *. rewrite scan_app.
      rewrite (scan_inert (is_char "}") (is_char "{") (encode_string x.1)).
      - exact Hq.
      - apply encode_string_text in Hk. revert Hk.
        apply all_chars_impl, text_char_no_brace. }
    apply apart_join in Hparts as [q Hq]. exists true.
    cbn [dumps]. fold member. unfold brace_scan in *.
    change (scan (is_char "}") (is_char "{") false
              ("{" +:+ Str.join ", " (map member members) +:+ "}"))
      with (scan (is_char "}") (is_char "{") false
              (Str.join ", " (map member members) +:+ "}")).
    rewrite scan_app, Hq. destruct q; reflexivity.
Qed.

End DumpedScans.

Section DumpedCounts.
Import Re.
Import Json.

Lemma count_app (c : ascii) (s t : string) :
  Str.count c (s +:+ t) = Str.count c s + Str.count c t.
Proof.
  induction s as [|d s IH]; [reflexivity|].
  rewrite str_app_cons. simpl. rewrite IH. lia.
Qed.

Lemma count_text (c : ascii) (t : string) :
  text_char c = false -> all_chars text_char t = true -> Str.count c t = 0.
Proof.
  intros Hc. induction t as [|d t IH]; [reflexivity|]. simpl.
  intros [Hd Ht]%andb_true_iff. rewrite (IH Ht).
  destruct (Ascii.eqb_spec c d) as [->|_]; [congruence|reflexivity].
Qed.

(** As many opening as closing braces, and brackets. *)
Definition balanced (t : string) : Prop :=
  Str.count "{" t = Str.count "}" t /\ Str.count "[" t = Str.count "]" t.

Lemma balanced_text (t : string) : all_chars text_char t = true -> balanced t.
Proof.
  intros H. split; rewrite !(count_text _ t) by (exact H || reflexivity);
    reflexivity.
Qed.

Lemma balanced_app (x y : string) : balanced x -> balanced y -> balanced (x +:+ y).
Proof.
  intros [Hx1 Hx2] [Hy1 Hy2]. split; rewrite !count_app; lia.
Qed.

Lemma balanced_join (parts : list string) :
  Forall balanced parts -> balanced (Str.join ", " parts).
Proof.
  induction 1 as [|x r Hx Hr IH]; [split; reflexivity|].
  destruct r as [|y r]; [exact Hx|].
  change (Str.join ", " (x :: y :: r))
    with (x +:+ ", " +:+ Str.join ", " (y :: r)).
  apply balanced_app; [exact Hx|].
  apply (balanced_app ", "); [split; reflexivity|exact IH].
Qed.

Lemma balanced_dumps (v : json) : bracket_free v = true -> balanced (dumps v).
Proof.
  induction v as [|[]|literal|s|items IH|members IH] using json_nested_ind;
    intros Hv.
  - split; reflexivity.
  - split; reflexivity.
  - split; reflexivity.
  - apply number_literal_cases in Hv as [(Hc & _ & _)|[->|[->| ->]]];
      try (split; reflexivity).
    apply balanced_text. revert Hc. apply all_chars_impl, number_char_is_text.
  - apply balanced_text, encode_string_text, Hv.
  - assert (Hparts : Forall balanced (map dumps items)).
    { simpl in Hv. apply Forall_map. rewrite forallb_forall in Hv.
      rewrite Forall_forall in IH |- *. intros x Hx.
      apply IH; [exact Hx|]. apply Hv. apply list_elem_of_In, Hx. }
    apply balanced_join in Hparts as [H1 H2]. cbn [dumps].
    split; rewrite !count_app; simpl; lia.
  - set (member := fun m : string * json =>
                     encode_string (fst m) +:+ ": " +:+ dumps (snd m)).
    assert (Hparts : Forall balanced (map member members)).
    { simpl in Hv. apply Forall_map. rewrite forallb_forall in Hv.
      rewrite Forall_forall in IH |- *. intros x Hx.
      specialize (Hv x (proj1 (list_elem_of_In _ _) Hx)).
      apply andb_true_iff in Hv as [Hk Hx'].
      apply balanced_app; [apply balanced_text, encode_string_text, Hk|].
      apply (balanced_app ": "); [split; reflexivity|exact (IH x Hx Hx')]. }
    apply balanced_join in Hparts as [H1 H2]. cbn [dumps]. fold member.
    split; rewrite !count_app; simpl; lia.
Qed.

Lemma rstrip_last (t : string) (c : ascii) :
  is_space c = false ->
  Str.rstrip (t +:+ String c EmptyString) = t +:+ String c EmptyString.
Proof.
  intros Hc. induction t as [|d t IH].
  - simpl. rewrite Hc. reflexivity.
  - rewrite str_app_cons. cbn [Str.rstrip]. rewrite IH.
    destruct t; reflexivity.
Qed.

End DumpedCounts.

(** ** [repair_json] on a dumped array that lost its last bracket and
    gained a comma *)

Section Repair.
Import Re.
Import Json.

Lemma no_trailing_comma (prev : option ascii) (s : string) :
  gap_here (is_char ",") json_utils.is_closing s = false ->
  match_at json_utils.trailing_comma_re prev s = None.
Proof.
  intros H. rewrite trailing_comma_match.
  apply gap_match_here in H. rewrite H. reflexivity.
Qed.

Lemma no_brace_gap (prev : option ascii) (s : string) :
  gap_here (is_char "}") (is_char "{") s = false ->
  match_at json_utils.brace_gap_re prev s = None.
Proof.
  intros H. rewrite brace_gap_match.
  apply gap_match_here in H. rewrite H. reflexivity.
Qed.


(** The second substitution changes nothing. *)
Lemma brace_gap_absent (body last : string) :
  apart (body +:+ last) ->
  Re.sub json_utils.brace_gap_re (fun _ _ => "},{") body = body.
Proof.
  intros [q Hq]. unfold brace_scan in Hq.
  apply scan_prefix in Hq as (p & Hbody & _).
  unfold Re.sub. apply (sub_from_quiet _ _ _ _ no_brace_gap).
  eapply scan_quiet. exact Hbody.
Qed.


End Repair.

(** ** [json.loads] reads back what [json.dumps] wrote *)

Section ReadBack.
Import Re.
Import Json.

(** What follows a value inside an array or an object. *)
Definition is_delimiter (d : ascii) : bool :=
  is_char "," d || is_char "]" d || is_char "}" d.

(** The fuel that reading a value takes. *)
Fixpoint weight (v : json) : nat :=
  match v with
  | JArr items => S (fold_right (fun x n => S (weight x + n)) 0 items)
  | JObj members => S (fold_right (fun m n => S (weight (snd m) + n)) 0 members)
  | _ => 1
  end.

Definition elements_weight (items : list json) : nat :=
  fold_right (fun x n => S (weight x + n)) 0 items.
Definition members_weight (members : list (string * json)) : nat :=
  fold_right (fun m n => S (weight (snd m) + n)) 0 members.

Lemma take_app_len (s t : string) : Str.take (Str.len s) (s +:+ t) = s.
Proof.
  induction s as [|c s IH]; [destruct t; reflexivity|].
  rewrite str_app_cons. simpl. f_equal. exact IH.
Qed.

Lemma drop_app_len (s t : string) : Str.drop (Str.len s) (s +:+ t) = t.
Proof.
  induction s as [|c s IH]; [destruct t; reflexivity|].
  rewrite str_app_cons. simpl. exact IH.
Qed.

Lemma scan_string_encode_char (c : ascii) (t : string) :
  scan_string (encode_char c +:+ t) = cons_to c (scan_string t).
Proof.
  destruct c as [[] [] [] [] [] [] [] []]; reflexivity.
Qed.

Lemma scan_string_encode (s rest : string) :
  scan_string (encode_chars s +:+ String quote rest) = Some (s, rest).
Proof.
  induction s as [|c s IH]; [reflexivity|]. simpl.
  rewrite str_app_assoc, scan_string_encode_char, IH. reflexivity.
Qed.

Lemma number_char_head (c : ascii) :
  number_char c = true ->
  is_ws c = false /\ is_char quote c = false /\ is_char "{" c = false
  /\ is_char "[" c = false /\ is_char "]" c = false /\ is_char "n" c = false
  /\ is_char "t" c = false /\ is_char "f" c = false.
Proof.
  destruct c as [[] [] [] [] [] [] [] []]; intros H; vm_compute in H |- *;
    try discriminate; repeat split.
Qed.

Lemma delimiter_stops_number (d : ascii) :
  is_delimiter d = true -> stops_at d number_re = true.
Proof.
  destruct d as [[] [] [] [] [] [] [] []]; intros H; vm_compute in H |- *;
    congruence.
Qed.

Lemma scan_number_literal (literal : string) (cap : option string)
    (d : ascii) (rest : string) :
  match_at number_re None literal = Some (Str.len literal, cap) ->
  is_delimiter d = true ->
  scan_number (literal +:+ String d rest) = Some (literal, String d rest).
Proof.
  intros Hm Hd. unfold scan_number.
  rewrite (match_at_suffix d rest number_re None literal
             (delimiter_stops_number d Hd)), Hm.
  rewrite take_app_len, drop_app_len. reflexivity.
Qed.

Lemma parse_value_number (fuel : nat) (literal : string) (d : ascii)
    (rest : string) :
  number_literal literal = true ->
  is_delimiter d = true ->
  parse_value (S fuel) (literal +:+ String d rest)
  = Scanned (JNum literal) (String d rest).
Proof.
  intros H Hd.
  apply number_literal_cases in H
    as [(Hc & Hne & cap & Hm & Hlim)|[->|[->| ->]]];
    try reflexivity.
  pose proof (scan_number_literal literal cap d rest Hm Hd) as Hscan.
  destruct literal as [|c literal]; [congruence|].
  pose proof Hc as Hc'.
  simpl in Hc. apply andb_true_iff in Hc as [Hc _].
  apply number_char_head in Hc as (_ & Hq & Ho & Ha & _ & Hn & Ht & Hf).
  rewrite str_app_cons in *. cbn [parse_value].
  rewrite Hq, Ho, Ha, Hn, Ht, Hf, Hscan, Hlim. reflexivity.
Qed.

(** A dumped value begins with a character that is no whitespace and no
    closing bracket. *)
Lemma dumps_head (v : json) :
  bracket_free v = true ->
  exists c t, dumps v = String c t /\ is_ws c = false /\ is_char "]" c = false.
Proof.
  destruct v as [|[]|literal|s|items|members]; intros Hv;
    try (eexists _, _; repeat split; reflexivity).
  apply number_literal_cases in Hv as [(Hc & Hne & _)|[->|[->| ->]]];
    try (eexists _, _; repeat split; reflexivity).
  destruct literal as [|c literal]; [congruence|].
  simpl in Hc. apply andb_true_iff in Hc as [Hc _].
  apply number_char_head in Hc as (Hw & _ & _ & _ & Hb & _).
  exists c, literal. auto.
Qed.

Lemma skip_ws_dumps (v : json) (rest : string) :
  bracket_free v = true -> skip_ws (dumps v +:+ rest) = dumps v +:+ rest.
Proof.
  intros Hv. destruct (dumps_head v Hv) as (c & t & -> & Hw & _).
  rewrite str_app_cons. simpl. rewrite Hw. reflexivity.
Qed.

Definition reads_back (v : json) : Prop :=
  bracket_free v = true ->
  forall fuel d rest, weight v <= fuel -> is_delimiter d = true ->
  parse_value fuel (dumps v +:+ String d rest) = Scanned v (String d rest).

Lemma parse_elements_eq (fuel : nat) (s : string) :
  parse_elements (S fuel) s
  = match parse_value fuel s with
    | Scanned v rest =>
        match skip_ws rest with
        | String d r =>
            if is_char "]" d then Scanned [v] r
            else if is_char "," d then
              match parse_elements fuel (skip_ws r) with
              | Scanned vs rest' => Scanned (v :: vs) rest'
              | Malformed => Malformed
              | TooManyDigits => TooManyDigits
              end
            else Malformed
        | EmptyString => Malformed
        end
    | Malformed => Malformed
    | TooManyDigits => TooManyDigits
    end.
Proof. reflexivity. Qed.

Lemma parse_members_eq (fuel : nat) (r : string) :
  parse_members (S fuel) (String quote r)
  = match scan_string r with
    | Some (key, rest) =>
        match skip_ws rest with
        | String colon r1 =>
            if is_char ":" colon then
              match parse_value fuel (skip_ws r1) with
              | Scanned v rest1 =>
                  match skip_ws rest1 with
                  | String d r2 =>
                      if is_char "}" d then Scanned [(key, v)] r2
                      else if is_char "," d then
                        match parse_members fuel (skip_ws r2) with
                        | Scanned ms rest2 => Scanned ((key, v) :: ms) rest2
                        | Malformed => Malformed
                        | TooManyDigits => TooManyDigits
                        end
                      else Malformed
                  | EmptyString => Malformed
                  end
              | Malformed => Malformed
              | TooManyDigits => TooManyDigits
              end
            else Malformed
        | EmptyString => Malformed
        end
    | None => Malformed
    end.
Proof. reflexivity. Qed.

Lemma parse_value_array (fuel : nat) (r : string) :
  parse_value (S fuel) (String "[" r)
  = match skip_ws r with
    | String d r' =>
        if is_char "]" d then Scanned (JArr []) r'
        else
          match parse_elements fuel (String d r') with
          | Scanned vs rest => Scanned (JArr vs) rest
          | Malformed => Malformed
          | TooManyDigits => TooManyDigits
          end
    | EmptyString => Malformed
    end.
Proof. reflexivity. Qed.

Lemma parse_value_object (fuel : nat) (r : string) :
  parse_value (S fuel) (String "{" r)
  = match skip_ws r with
    | String d r' =>
        if is_char "}" d then Scanned (JObj []) r'
        else
          match parse_members fuel (String d r') with
          | Scanned ms rest => Scanned (JObj ms) rest
          | Malformed => Malformed
          | TooManyDigits => TooManyDigits
          end
    | EmptyString => Malformed
    end.
Proof. reflexivity. Qed.

Lemma parse_value_string (fuel : nat) (r : string) :
  parse_value (S fuel) (String quote r)
  = match scan_string r with
    | Some (str, rest) => Scanned (JStr str) rest
    | None => Malformed
    end.
Proof. reflexivity. Qed.

Lemma parse_elements_dumps (items : list json) :
  Forall reads_back items ->
  forallb bracket_free items = true ->
  items <> [] ->
  forall fuel rest, elements_weight items <= fuel ->
  parse_elements fuel (Str.join ", " (map dumps items) +:+ "]" +:+ rest)
  = Scanned items rest.
Proof.
  induction 1 as [|x r Hx Hr IH]; [congruence|]. intros Hv _ fuel rest Hw.
  simpl in Hv. apply andb_true_iff in Hv as [Hvx Hvr].
  unfold elements_weight in Hw. cbn [fold_right] in Hw.
  fold (elements_weight r) in Hw.
  destruct fuel as [|fuel]; [lia|]. rewrite parse_elements_eq.
  destruct r as [|y r].
  - cbn [map Str.join].
    change ("]" +:+ rest) with (String "]" rest).
    rewrite (Hx Hvx fuel "]"%char rest) by (lia || reflexivity).
    reflexivity.
  - change (Str.join ", " (map dumps (x :: y :: r)))
      with (dumps x +:+ ", " +:+ Str.join ", " (map dumps (y :: r))).
    rewrite !str_app_assoc.
    change (", " +:+ Str.join ", " (map dumps (y :: r)) +:+ "]" +:+ rest)
      with (String "," (String " "
              (Str.join ", " (map dumps (y :: r)) +:+ "]" +:+ rest))).
    rewrite (Hx Hvx fuel ","%char) by (lia || reflexivity).
    assert (Hskip :
      skip_ws (String " " (Str.join ", " (map dumps (y :: r)) +:+ "]" +:+ rest))
      = Str.join ", " (map dumps (y :: r)) +:+ "]" +:+ rest).
    { change (skip_ws (String " " ?t)) with (skip_ws t).
      simpl in Hvr. apply andb_true_iff in Hvr as [Hvy _].
      destruct (dumps_head y Hvy) as (c & t & Hy & Hc & _).
      cbn [map]. destruct r as [|z r].
      - cbn [Str.join map]. rewrite Hy, str_app_cons. simpl. rewrite Hc.
        reflexivity.
      - change (Str.join ", " (dumps y :: map dumps (z :: r)))
          with (dumps y +:+ ", " +:+ Str.join ", " (map dumps (z :: r))).
        rewrite Hy, !str_app_cons. simpl. rewrite Hc. reflexivity. }
    change (skip_ws (String "," ?t)) with (String "," t).
    cbv beta iota.
    change (is_char "]" ",") with false. change (is_char "," ",") with true.
    cbv beta iota. rewrite Hskip.
    rewrite (IH Hvr) by (congruence || lia). reflexivity.
Qed.

Definition member_text (m : string * json) : string :=
  encode_string (fst m) +:+ ": " +:+ dumps (snd m).

Lemma member_text_eq (key : string) (v : json) (rest : string) :
  member_text (key, v) +:+ rest
  = String quote
      (encode_chars key +:+
       String quote (String ":" (String " " (dumps v +:+ rest)))).
Proof.
  unfold member_text, encode_string. cbn [fst snd].
  rewrite !str_app_cons. f_equal. rewrite !str_app_assoc. reflexivity.
Qed.

Lemma parse_member (key : string) (v : json) (fuel : nat) (d : ascii)
    (rest : string) :
  reads_back v -> bracket_free v = true -> weight v <= fuel ->
  is_delimiter d = true ->
  parse_members (S fuel) (member_text (key, v) +:+ String d rest)
  = if is_char "}" d then Scanned [(key, v)] rest
    else if is_char "," d then
      match parse_members fuel (skip_ws rest) with
      | Scanned ms rest2 => Scanned ((key, v) :: ms) rest2
      | Malformed => Malformed
      | TooManyDigits => TooManyDigits
      end
    else Malformed.
Proof.
  intros Hv Hb Hw Hd.
  rewrite member_text_eq, parse_members_eq, scan_string_encode.
  change (skip_ws (String ":" ?t)) with (String ":" t). cbv beta iota.
  change (is_char ":" ":") with true. cbv beta iota.
  change (skip_ws (String " " ?t)) with (skip_ws t).
  rewrite (skip_ws_dumps v _ Hb), (Hv Hb fuel d rest Hw Hd).
  assert (skip_ws (String d rest) = String d rest) as ->.
  { destruct d as [[] [] [] [] [] [] [] []]; try discriminate; reflexivity. }
  reflexivity.
Qed.

Lemma parse_members_dumps (members : list (string * json)) :
  Forall (fun m => reads_back (snd m)) members ->
  forallb (fun m => all_chars text_char (fst m) && bracket_free (snd m))
    members = true ->
  members <> [] ->
  forall fuel rest, members_weight members <= fuel ->
  parse_members fuel (Str.join ", " (map member_text members) +:+ "}" +:+ rest)
  = Scanned members rest.
Proof.
  induction 1 as [|[key v] r Hx Hr IH]; [congruence|]. intros Hv _ fuel rest Hw.
  simpl in Hv. apply andb_true_iff in Hv as [Hvx Hvr].
  apply andb_true_iff in Hvx as [_ Hvx]. cbn [snd] in Hx.
  unfold members_weight in Hw. cbn [fold_right snd] in Hw.
  fold (members_weight r) in Hw.
  destruct fuel as [|fuel]; [lia|].
  destruct r as [|[key' v'] r].
  - cbn [map Str.join].
    change ("}" +:+ rest) with (String "}" rest).
    rewrite (parse_member key v fuel "}"%char rest Hx Hvx)
      by (lia || reflexivity).
    reflexivity.
  - change (Str.join ", " (map member_text ((key, v) :: (key', v') :: r)))
      with (member_text (key, v) +:+ ", " +:+
            Str.join ", " (map member_text ((key', v') :: r))).
    rewrite !str_app_assoc.
    change (", " +:+ Str.join ", " (map member_text ((key', v') :: r))
            +:+ "}" +:+ rest)
      with (String "," (String " "
              (Str.join ", " (map member_text ((key', v') :: r))
               +:+ "}" +:+ rest))).
    rewrite (parse_member key v fuel ","%char _ Hx Hvx)
      by (lia || reflexivity).
    change (is_char "}" ",") with false. change (is_char "," ",") with true.
    cbv beta iota.
    change (skip_ws (String " " ?t)) with (skip_ws t).
    assert (Hskip :
      skip_ws (Str.join ", " (map member_text ((key', v') :: r))
               +:+ "}" +:+ rest)
      = Str.join ", " (map member_text ((key', v') :: r)) +:+ "}" +:+ rest).
    { cbn [map]. destruct r as [|z r].
      - cbn [Str.join map]. rewrite member_text_eq. reflexivity.
      - change (Str.join ", " (member_text (key', v') :: map member_text (z :: r)))
          with (member_text (key', v') +:+ ", " +:+
                Str.join ", " (map member_text (z :: r))).
        rewrite str_app_assoc, member_text_eq. reflexivity. }
    rewrite Hskip, (IH Hvr) by (congruence || lia). reflexivity.
Qed.

Lemma parse_array (items : list json) (fuel : nat) (rest : string) :
  Forall reads_back items ->
  forallb bracket_free items = true ->
  weight (JArr items) <= fuel ->
  parse_value fuel (dumps (JArr items) +:+ rest) = Scanned (JArr items) rest.
Proof.
  intros Hitems Hv Hw. cbn [weight] in Hw. fold (elements_weight items) in Hw.
  destruct fuel as [|fuel]; [lia|]. cbn [dumps].
  rewrite !str_app_assoc. change ("[" +:+ ?t) with (String "[" t).
  rewrite parse_value_array.
  destruct items as [|x r]; [reflexivity|].
  pose proof Hv as Hvx. simpl in Hvx. apply andb_true_iff in Hvx as [Hvx _].
  destruct (dumps_head x Hvx) as (c & t & Hx & Hc & Hb).
  assert (Hhead : exists t',
             Str.join ", " (map dumps (x :: r)) +:+ "]" +:+ rest = String c t').
  { cbn [map]. destruct r as [|y r].
    - cbn [Str.join]. rewrite Hx, str_app_cons. eauto.
    - change (Str.join ", " (dumps x :: map dumps (y :: r)))
        with (dumps x +:+ ", " +:+ Str.join ", " (map dumps (y :: r))).
      rewrite Hx, !str_app_cons. eauto. }
  destruct Hhead as [t' Hhead].
  pose proof (parse_elements_dumps (x :: r) Hitems Hv ltac:(congruence)
                fuel rest ltac:(lia)) as Hparse.
  rewrite Hhead in *. cbn [skip_ws]. rewrite Hc, Hb, Hparse. reflexivity.
Qed.

Lemma parse_object (members : list (string * json)) (fuel : nat)
    (rest : string) :
  Forall (fun m => reads_back (snd m)) members ->
  bracket_free (JObj members) = true ->
  weight (JObj members) <= fuel ->
  parse_value fuel (dumps (JObj members) +:+ rest)
  = Scanned (JObj members) rest.
Proof.
  intros Hmembers Hv Hw. cbn [weight] in Hw.
  fold (members_weight members) in Hw. cbn [bracket_free] in Hv.
  destruct fuel as [|fuel]; [lia|]. cbn [dumps]. fold member_text.
  rewrite !str_app_assoc. change ("{" +:+ ?t) with (String "{" t).
  rewrite parse_value_object.
  destruct members as [|[key v] r]; [reflexivity|].
  assert (Hhead : exists t',
             Str.join ", " (map member_text ((key, v) :: r)) +:+ "}" +:+ rest
             = String quote t').
  { cbn [map]. destruct r as [|y r].
    - cbn [Str.join]. rewrite member_text_eq. eauto.
    - change (Str.join ", " (member_text (key, v) :: map member_text (y :: r)))
        with (member_text (key, v) +:+ ", " +:+
              Str.join ", " (map member_text (y :: r))).
      rewrite str_app_assoc, member_text_eq. eauto. }
  destruct Hhead as [t' Hhead].
  pose proof (parse_members_dumps ((key, v) :: r) Hmembers Hv ltac:(congruence)
                fuel rest ltac:(lia)) as Hparse.
  rewrite Hhead in *.
  change (skip_ws (String quote t')) with (String quote t'). cbv beta iota.
  change (is_char "}" quote) with false. cbv beta iota.
  rewrite Hparse. reflexivity.
Qed.

Lemma dumps_reads_back (v : json) : reads_back v.
Proof.
  induction v as [|[]|literal|s|items IH|members IH] using json_nested_ind;
    intros Hv fuel d rest Hw Hd.
  - destruct fuel as [|fuel]; [simpl in Hw; lia|]. reflexivity.
  - destruct fuel as [|fuel]; [simpl in Hw; lia|]. reflexivity.
  - destruct fuel as [|fuel]; [simpl in Hw; lia|]. reflexivity.
  - destruct fuel as [|fuel]; [simpl in Hw; lia|].
    apply parse_value_number; assumption.
  - destruct fuel as [|fuel]; [simpl in Hw; lia|].
    cbn [dumps]. unfold encode_string.
    rewrite str_app_cons, str_app_assoc, parse_value_string.
    change (String quote EmptyString +:+ String d rest)
      with (String quote (String d rest)).
    rewrite scan_string_encode. reflexivity.
  - apply parse_array; assumption.
  - apply parse_object; assumption.
Qed.

Lemma len_join_elements (items : list json) :
  Forall (fun x => weight x <= Str.len (dumps x)) items ->
  elements_weight items <= Str.len (Str.join ", " (map dumps items)) + 1.
Proof.
  induction 1 as [|x r Hx Hr IH]; [simpl; lia|].
  unfold elements_weight in *. cbn [fold_right].
  destruct r as [|y r]; [simpl in *; lia|].
  change (Str.join ", " (map dumps (x :: y :: r)))
    with (dumps x +:+ ", " +:+ Str.join ", " (map dumps (y :: r))).
  rewrite !str_len_app. change (Str.len ", ") with 2. lia.
Qed.

Lemma len_encode_string (s : string) : 2 <= Str.len (encode_string s).
Proof.
  unfold encode_string. change (Str.len (String ?c ?t)) with (S (Str.len t)).
  rewrite str_len_app. change (Str.len (String quote EmptyString)) with 1. lia.
Qed.

Lemma len_join_members (members : list (string * json)) :
  Forall (fun m => weight (snd m) <= Str.len (dumps (snd m))) members ->
  members_weight members
  <= Str.len (Str.join ", " (map member_text members)) + 1.
Proof.
  induction 1 as [|x r Hx Hr IH]; [simpl; lia|].
  unfold members_weight in *. cbn [fold_right].
  assert (Hm : S (weight (snd x)) <= Str.len (member_text x)).
  { unfold member_text. rewrite !str_len_app.
    pose proof (len_encode_string (fst x)). lia. }
  destruct r as [|y r]; [cbn [map Str.join fold_right] in *; lia|].
  change (Str.join ", " (map member_text (x :: y :: r)))
    with (member_text x +:+ ", " +:+ Str.join ", " (map member_text (y :: r))).
  rewrite !str_len_app. change (Str.len ", ") with 2. lia.
Qed.

Lemma weight_le_len (v : json) :
  bracket_free v = true -> weight v <= Str.len (dumps v).
Proof.
  induction v as [|[]|literal|s|items IH|members IH] using json_nested_ind;
    intros Hv; try (simpl; lia).
  - apply number_literal_cases in Hv as [(_ & Hne & _)|[->|[->| ->]]];
      try (simpl; lia).
    destruct literal; [congruence|]. simpl. lia.
  - assert (H : Forall (fun x => weight x <= Str.len (dumps x)) items).
    { simpl in Hv. rewrite forallb_forall in Hv.
      rewrite Forall_forall in IH |- *. intros x Hx.
      apply IH; [exact Hx|]. apply Hv, list_elem_of_In, Hx. }
    apply len_join_elements in H. cbn [weight dumps].
    fold (elements_weight items). rewrite !str_len_app.
    change (Str.len "[") with 1. change (Str.len "]") with 1. lia.
  - assert (H : Forall (fun m => weight (snd m) <= Str.len (dumps (snd m)))
                  members).
    { simpl in Hv. rewrite forallb_forall in Hv.
      rewrite Forall_forall in IH |- *. intros x Hx.
      apply IH; [exact Hx|].
      specialize (Hv x (proj1 (list_elem_of_In _ _) Hx)).
      apply andb_true_iff in Hv. tauto. }
    apply len_join_members in H. cbn [weight dumps]. fold member_text.
    fold (members_weight members). rewrite !str_len_app.
    change (Str.len "{") with 1. change (Str.len "}") with 1. lia.
Qed.

(** A dumped array of values without brackets in their strings is read
    back as it was. *)
Lemma decode_dumps_array (items : list json) :
  bracket_free (JArr items) = true ->
  decode (dumps (JArr items)) = Loaded (JArr items).
Proof.
  intros Hv. unfold decode.
  pose proof (weight_le_len _ Hv) as Hw.
  assert (Hskip : skip_ws (dumps (JArr items)) = dumps (JArr items))
    by reflexivity.
  rewrite Hskip. rewrite <- (str_app_empty_r (dumps (JArr items))) at 2.
  rewrite parse_array; [reflexivity| |exact Hv|lia].
  apply Forall_forall. intros x _. apply dumps_reads_back.
Qed.

Lemma loads_dumps_array (items : list json) :
  bracket_free (JArr items) = true ->
  loads (dumps (JArr items)) = Some (JArr items).
Proof.
  intros Hv. unfold loads. now rewrite decode_dumps_array.
Qed.

End ReadBack.

(** ** The repair round trip *)

Section RepairRoundTrip.
Import Re.
Import Json.


Definition two_cases : list (list (string * json)) :=
  [ [("id", JStr "TC-001"); ("steps", JArr [JStr "Open the cart"; JNum "2"])];
    [("id", JStr "TC-002"); ("price", JNum "1.5e+2"); ("ok", JBool true)] ].







End RepairRoundTrip.

(** ** The parse cascade on a well-formed response *)

Section ParseCascade.
Import Re Json.

(** *** [repair_json] on text that needs no repair *)

Lemma trailing_comma_absent (t : string) :
  calm t ->
  Re.sub json_utils.trailing_comma_re json_utils.group1 t = t.
Proof.
  intros Hcalm. unfold Re.sub.
  apply (sub_from_quiet _ _ _ _ no_trailing_comma).
  eapply scan_quiet. exact (Hcalm false).
Qed.

Lemma ends_with_last (x : string) (c : ascii) :
  Str.ends_with (String c EmptyString) (x +:+ String c EmptyString) = true.
Proof.
  unfold Str.ends_with. rewrite str_len_app.
  change (Str.len (String c EmptyString)) with 1.
  replace (Str.len x + 1 - 1) with (Str.len x) by lia.
  rewrite drop_app_len, String.eqb_refl, andb_true_r.
  apply Nat.leb_le. lia.
Qed.

(** The text after the two substitutions and the two counts. *)
Lemma repair_json_of_dumped (v : json) :
  bracket_free v = true ->
  json_utils.repair_json (dumps v)
  = let cleaned := Str.strip (dumps v) in
    if Str.starts_with "{" cleaned && Str.ends_with "}" cleaned
       && negb (Str.starts_with "[" cleaned)
    then "[" +:+ cleaned +:+ "]" else cleaned.
Proof.
  intros Hv. unfold json_utils.repair_json.
  rewrite (trailing_comma_absent _ (calm_dumps _ Hv)).
  rewrite (brace_gap_absent (dumps v) EmptyString)
    by (rewrite str_app_empty_r; apply apart_dumps, Hv).
  destruct (balanced_dumps _ Hv) as [Hbrace Hbracket].
  cbv zeta.
  assert ((Str.count "}" (dumps v) <? Str.count "{" (dumps v)) = false) as ->
    by (apply Nat.ltb_ge; lia).
  assert ((Str.count "]" (dumps v) <? Str.count "[" (dumps v)) = false) as ->
    by (apply Nat.ltb_ge; lia).
  reflexivity.
Qed.

Lemma strip_enclosed (a b : ascii) (inner : string) :
  is_space a = false -> is_space b = false ->
  Str.strip (String a (inner +:+ String b EmptyString))
  = String a (inner +:+ String b EmptyString).
Proof.
  intros Ha Hb. unfold Str.strip. cbn [Str.lstrip]. rewrite Ha.
  change (String a (inner +:+ String b EmptyString))
    with (String a inner +:+ String b EmptyString).
  apply rstrip_last, Hb.
Qed.

(** X1. A dumped array that needs no repair comes back as it is. *)
Theorem repair_json_keeps_dumped_array (items : list json) :
  bracket_free (JArr items) = true ->
  json_utils.repair_json (dumps (JArr items)) = dumps (JArr items)
  /\ loads (json_utils.repair_json (dumps (JArr items))) = Some (JArr items).
Proof.
  intros Hv. rewrite (repair_json_of_dumped _ Hv). cbn [dumps].
  change ("[" +:+ Str.join ", " (map dumps items) +:+ "]")
    with (String "[" (Str.join ", " (map dumps items) +:+ String "]" EmptyString)).
  rewrite strip_enclosed by reflexivity. cbv zeta.
  change (Str.starts_with "{" (String "[" ?t)) with false. cbn [andb].
  split; [reflexivity|]. apply (loads_dumps_array items Hv).
Qed.

(** X2. One dumped object comes back wrapped in a list. *)
Theorem repair_json_wraps_dumped_object (members : list (string * json)) :
  bracket_free (JObj members) = true ->
  json_utils.repair_json (dumps (JObj members))
  = "[" +:+ dumps (JObj members) +:+ "]"
  /\ loads (json_utils.repair_json (dumps (JObj members)))
     = Some (JArr [JObj members]).
Proof.
  intros Hv. rewrite (repair_json_of_dumped _ Hv).
  assert (Hshape : exists inner,
             dumps (JObj members) = String "{" (inner +:+ String "}" EmptyString)).
  { eexists. cbn [dumps]. reflexivity. }
  destruct Hshape as [inner Hshape].
  assert (Hwrapped :
    (let cleaned := Str.strip (dumps (JObj members)) in
     if Str.starts_with "{" cleaned && Str.ends_with "}" cleaned
        && negb (Str.starts_with "[" cleaned)
     then "[" +:+ cleaned +:+ "]" else cleaned)
    = "[" +:+ dumps (JObj members) +:+ "]").
  { rewrite Hshape. rewrite strip_enclosed by reflexivity. cbv zeta.
    change (Str.starts_with "{" (String "{" ?t)) with true.
    change (Str.starts_with "[" (String "{" ?t)) with false.
    change (String "{" (inner +:+ String "}" EmptyString))
      with (String "{" inner +:+ String "}" EmptyString) at 1.
    rewrite ends_with_last. reflexivity. }
  rewrite Hwrapped. split; [reflexivity|].
  apply (loads_dumps_array [JObj members]).
  simpl. simpl in Hv. rewrite Hv. reflexivity.
Qed.

End ParseCascade.

Section SpanSearch.
Import Re Json.

(** *** An opening character, anything, a closing character *)

Definition span_re (opening closing : ascii) : regex :=
  Cat (Chr opening) (Cat (Star (Cls any_char)) (Chr closing)).

(** The repetition of any character, before a class: nothing matches where
    the class has no character left. *)
Lemma star_any_none {A : Type} (q : ascii -> bool) (k : kont A) (y : string) :
  all_chars (fun c => negb (q c)) y = true ->
  forall n cap prev,
  star_loop (Cls any_char)
    (fun cap' p' s' => mt (Cls q) A cap' p' s' k) n cap prev y = None.
Proof.
  intros Hy n. revert y Hy. induction n as [|n IH]; intros y Hy cap prev.
  - cbn [star_loop]. rewrite mt_cls. destruct y as [|c y]; [reflexivity|].
    simpl in Hy. apply andb_true_iff in Hy as [Hc _].
    apply negb_true_iff in Hc. rewrite Hc. reflexivity.
  - cbn [star_loop]. rewrite !mt_cls. destruct y as [|c y]; [reflexivity|].
    simpl in Hy. apply andb_true_iff in Hy as [Hc Hy].
    apply negb_true_iff in Hc. rewrite Hc. cbn [any_char].
    assert ((Str.len y <? Str.len (String c y)) = true) as ->.
    { apply Nat.ltb_lt. unfold Str.len. simpl. lia. }
    rewrite (IH y Hy). reflexivity.
Qed.

(** It gives back as little as it must: the match ends at the last
    character of the class. *)
Lemma star_any_last {A : Type} (q : ascii -> bool) (k : kont A)
    (c : ascii) (y : string) (r : A) :
  q c = true ->
  all_chars (fun c => negb (q c)) y = true ->
  forall cap, k cap (Some c) y = Some r ->
  forall x n prev,
  Str.len (x +:+ String c y) <= n ->
  star_loop (Cls any_char)
    (fun cap' p' s' => mt (Cls q) A cap' p' s' k) n cap prev
    (x +:+ String c y)
  = Some r.
Proof.
  intros Hc Hy cap Hk. induction x as [|d x IH]; intros n prev Hn.
  - change (EmptyString +:+ String c y) with (String c y) in *.
    destruct n as [|n]; [unfold Str.len in Hn; simpl in Hn; lia|].
    cbn [star_loop]. rewrite !mt_cls. cbn [any_char].
    assert ((Str.len y <? Str.len (String c y)) = true) as ->.
    { apply Nat.ltb_lt. unfold Str.len. simpl. lia. }
    rewrite (star_any_none q k y Hy), Hc. exact Hk.
  - rewrite str_app_cons in *.
    destruct n as [|n]; [unfold Str.len in Hn; simpl in Hn; lia|].
    cbn [star_loop]. rewrite mt_cls. cbn [any_char].
    assert ((Str.len (x +:+ String c y)
             <? Str.len (String d (x +:+ String c y))) = true) as ->.
    { apply Nat.ltb_lt. unfold Str.len. simpl. lia. }
    rewrite IH; [reflexivity|]. unfold Str.len in *. simpl in Hn. lia.
Qed.

Lemma match_span (opening closing : ascii) (prev : option ascii)
    (x y : string) :
  all_chars (fun c => negb (is_char closing c)) y = true ->
  match_at (span_re opening closing) prev
    (String opening (x +:+ String closing y))
  = Some (Str.len x + 2, None).
Proof.
  intros Hy. unfold match_at, span_re, Chr.
  rewrite mt_cat, mt_cls.
  assert (is_char opening opening = true) as ->
    by (unfold is_char; apply Ascii.eqb_refl).
  rewrite mt_cat, mt_star.
  rewrite (star_any_last (is_char closing) _ closing y
             (Str.len x + 2, None)); [reflexivity| |exact Hy| |lia].
  - unfold is_char. apply Ascii.eqb_refl.
  - f_equal. f_equal.
    change (Str.len (String opening (x +:+ String closing y)))
      with (S (Str.len (x +:+ String closing y))).
    rewrite str_len_app.
    change (Str.len (String closing y)) with (S (Str.len y)). lia.
Qed.

Lemma match_span_elsewhere (opening closing : ascii) (prev : option ascii)
    (c : ascii) (s : string) :
  is_char opening c = false ->
  match_at (span_re opening closing) prev (String c s) = None.
Proof.
  intros Hc. unfold match_at, span_re, Chr. rewrite mt_cat, mt_cls, Hc.
  reflexivity.
Qed.

(** The search finds the span from the first opening character to the last
    closing character. *)
Lemma search_span (opening closing : ascii) (pre x y : string) :
  all_chars (fun c => negb (is_char opening c)) pre = true ->
  all_chars (fun c => negb (is_char closing c)) y = true ->
  Re.search (span_re opening closing)
    (pre +:+ String opening (x +:+ String closing y))
  = Some (String opening (x +:+ String closing EmptyString)).
Proof.
  intros Hpre Hy. unfold Re.search. generalize (@None ascii) as prev.
  induction pre as [|c pre IH]; intros prev.
  - change (EmptyString +:+ ?t) with t. cbn [search_from].
    rewrite (match_span opening closing prev x y Hy).
    f_equal. replace (Str.len x + 2) with (S (Str.len x + 1)) by lia.
    cbn [Str.take]. f_equal.
    replace (Str.len x + 1)
      with (Str.len (x +:+ String closing EmptyString))
      by (rewrite str_len_app; reflexivity).
    change (x +:+ String closing y)
      with (x +:+ (String closing EmptyString +:+ y)).
    rewrite <- str_app_assoc. apply take_app_len.
  - simpl in Hpre. apply andb_true_iff in Hpre as [Hc Hpre].
    apply negb_true_iff in Hc. rewrite str_app_cons. cbn [search_from].
    rewrite (match_span_elsewhere opening closing prev c _ Hc).
    apply IH, Hpre.
Qed.

Lemma search_span_none (opening closing : ascii) (t : string) :
  all_chars (fun c => negb (is_char opening c)) t = true ->
  Re.search (span_re opening closing) t = None.
Proof.
  unfold Re.search. generalize (@None ascii) as prev.
  induction t as [|c t IH]; intros prev Ht.
  - reflexivity.
  - simpl in Ht. apply andb_true_iff in Ht as [Hc Ht].
    apply negb_true_iff in Hc. cbn [search_from].
    rewrite (match_span_elsewhere opening closing prev c t Hc).
    apply IH, Ht.
Qed.

(** X3. What the extraction returns. With the stop token taken out, it is the
    span from the first opening bracket to the last closing bracket; in a text
    without an opening bracket, the span from the first opening brace to the
    last closing brace; in a text with neither, the text. *)
Theorem extract_json_from_response_spans (raw : string) :
  let t := generate_test_cases.replace json_utils.STOP_TOKEN EmptyString raw in
  (forall pre x y,
     t = pre +:+ String "[" (x +:+ String "]" y) ->
     all_chars (fun c => negb (is_char "[" c)) pre = true ->
     all_chars (fun c => negb (is_char "]" c)) y = true ->
     json_utils.extract_json_from_response raw
     = String "[" (x +:+ String "]" EmptyString))
  /\ (all_chars (fun c => negb (is_char "[" c)) t = true ->
      forall pre x y,
      t = pre +:+ String "{" (x +:+ String "}" y) ->
      all_chars (fun c => negb (is_char "{" c)) pre = true ->
      all_chars (fun c => negb (is_char "}" c)) y = true ->
      json_utils.extract_json_from_response raw
      = String "{" (x +:+ String "}" EmptyString))
  /\ (all_chars (fun c => negb (is_char "[" c)) t = true ->
      all_chars (fun c => negb (is_char "{" c)) t = true ->
      json_utils.extract_json_from_response raw = t).
Proof.
  intros t. unfold json_utils.extract_json_from_response.
  change (Re.sub (Lit json_utils.STOP_TOKEN) (fun _ _ => EmptyString) raw)
    with t.
  change json_utils.array_span_re with (span_re "[" "]").
  change json_utils.object_span_re with (span_re "{" "}").
  split; [|split].
  - intros pre x y -> Hpre Hy.
    rewrite (search_span "[" "]" pre x y Hpre Hy). reflexivity.
  - intros Hnone pre x y Ht Hpre Hy.
    rewrite (search_span_none "[" "]" t Hnone), Ht.
    rewrite (search_span "{" "}" pre x y Hpre Hy). reflexivity.
  - intros Hbracket Hbrace.
    rewrite (search_span_none "[" "]" t Hbracket).
    rewrite (search_span_none "{" "}" t Hbrace). reflexivity.
Qed.

End SpanSearch.

Section NormalizedCases.
Import Re Json generate_test_cases.

Definition is_dict_item (v : json) : Prop := is_dict v = true.

Lemma collect_objects_dicts (candidates : list string) :
  forall objects,
  Forall is_dict_item objects ->
  Forall is_dict_item (json_utils.collect_objects candidates objects).
Proof.
  induction candidates as [|candidate rest IH]; intros objects Hobjects;
    [exact Hobjects|].
  cbn [json_utils.collect_objects].
  destruct (loads (json_utils.repair_json candidate)) as [parsed|];
    [|apply IH, Hobjects].
  set (objects' := match parsed with
                   | JObj _ => objects ++ [parsed]
                   | JArr items => objects ++ filter (fun o => is_dict o) items
                   | _ => objects
                   end).
  assert (Hobjects' : Forall is_dict_item objects').
  { unfold objects'. destruct parsed; try exact Hobjects.
    - apply Forall_app. split; [exact Hobjects|].
      apply Forall_forall. intros o Ho.
      apply list_elem_of_filter in Ho as [Ho _].
      apply Is_true_true in Ho. exact Ho.
    - apply Forall_app. split; [exact Hobjects|].
      constructor; [reflexivity|constructor]. }
  destruct (10 <=? length objects'); [exact Hobjects'|apply IH, Hobjects'].
Qed.

(** X4. The secondary pass hands on dicts only. *)
Theorem secondary_json_format_pass_dicts (raw_text : string) :
  Forall (fun o => is_dict o = true)
    (json_utils.secondary_json_format_pass raw_text).
Proof.
  unfold json_utils.secondary_json_format_pass.
  apply (collect_objects_dicts _ []). constructor.
Qed.

Lemma normalize_item_dict (tc parsed : json) :
  normalize_item tc = Some parsed -> is_dict_item parsed.
Proof.
  unfold normalize_item. destruct tc as [| | |s| |members]; try discriminate.
  - destruct (_ && _); [|discriminate].
    destruct (loads _) as [[| | | | |ms]|]; try discriminate.
    intros [= <-]. reflexivity.
  - intros [= <-]. reflexivity.
Qed.

Lemma split_step_text_dict (tc : json) :
  is_dict_item tc -> is_dict_item (split_step_text tc).
Proof.
  destruct tc as [| | | | |members]; try discriminate. intros _.
  unfold split_step_text.
  destruct (lookup "test_steps" members) as [[| | |raw| |]|]; reflexivity.
Qed.

Lemma aggressive_fallback_dicts (raw_response : string) :
  Forall is_dict_item (aggressive_fallback raw_response).
Proof.
  unfold aggressive_fallback.
  destruct (loads _) as [[| | | |items|members]|]; try constructor.
  - apply Forall_forall. intros o Ho.
    apply list_elem_of_filter in Ho as [Ho _].
    apply Is_true_true in Ho. exact Ho.
  - reflexivity.
  - constructor.
Qed.

Lemma first_pass_dicts (test_cases : list json) :
  Forall is_dict_item (map split_step_text (omap normalize_item test_cases)).
Proof.
  apply Forall_forall. intros tc Htc.
  apply list_elem_of_fmap in Htc as (tc0 & -> & Htc0).
  apply split_step_text_dict.
  apply list_elem_of_omap in Htc0 as (tc1 & _ & Htc1).
  eapply normalize_item_dict. exact Htc1.
Qed.

Lemma enforce_limit_take (test_cases : list json) :
  enforce_limit test_cases = take MAX_TEST_CASES test_cases.
Proof.
  unfold enforce_limit. destruct (Nat.ltb_spec MAX_TEST_CASES (length test_cases));
    [reflexivity|].
  symmetry. apply take_ge. assumption.
Qed.

Lemma enforce_limit_dicts (test_cases : list json) :
  test_cases <> [] -> Forall is_dict_item test_cases ->
  enforce_limit test_cases <> [] /\ Forall is_dict_item (enforce_limit test_cases).
Proof.
  intros Hne Hall. rewrite enforce_limit_take. split.
  - destruct test_cases; [congruence|discriminate].
  - apply Forall_take, Hall.
Qed.

Context (E : Externals) (AIML_AVAILABLE : bool).

(** X5. What the normalizer hands on to validation is a list of dicts that is
    not empty. *)
Theorem normalized_cases_are_dicts (prompt raw_response : string)
    (used_chunks : list Chunk) (test_cases : list json) :
  response_normalizer E AIML_AVAILABLE prompt raw_response used_chunks
  = Ok (Cases test_cases) ->
  test_cases <> [] /\ Forall (fun tc => is_dict tc = true) test_cases.
Proof.
  unfold response_normalizer, normalize_response.
  destruct (parse_response raw_response) as [[response_json|]|e];
    cbn [rbind]; try discriminate.
  destruct (cases_of_response response_json) as [items|e]; [|discriminate].
  cbn [rbind].
  pose proof (first_pass_dicts items) as Hfirst.
  destruct (map split_step_text (omap normalize_item items)) as [|tc1 first].
  2: { cbn [rbind]. intros [= <-].
       apply enforce_limit_dicts; [discriminate|exact Hfirst]. }
  pose proof (aggressive_fallback_dicts raw_response) as Hsecond.
  destruct (aggressive_fallback raw_response) as [|tc2 second].
  2: { cbn [rbind]. intros [= <-].
       apply enforce_limit_dicts; [discriminate|exact Hsecond]. }
  pose proof (collect_objects_dicts
                (Re.findall json_utils.object_lazy_re raw_response) []
                (Forall_nil_2 _)) as Hthird.
  fold (json_utils.secondary_json_format_pass raw_response) in Hthird.
  destruct (json_utils.secondary_json_format_pass raw_response)
    as [|tc3 third].
  2: { cbn [rbind]. intros [= <-].
       apply enforce_limit_dicts; [discriminate|exact Hthird]. }
  unfold synthesize.
  destruct (negb AIML_AVAILABLE); [discriminate|].
  destruct (negb (matcher_available E)); [discriminate|].
  destruct (synthesized_feature E used_chunks) as [feature_name|e];
    [|discriminate].
  cbn [rbind]. intros [= <-]. split; [discriminate|].
  constructor; [reflexivity|constructor].
Qed.

End NormalizedCases.

Section WellFormedResponse.
Import Re Json generate_test_cases.
Context (E : Externals) (AIML_AVAILABLE : bool).

Lemma normalize_item_objects (objects : list (list (string * json))) :
  omap normalize_item (map JObj objects) = map JObj objects.
Proof.
  induction objects as [|members objects IH]; [reflexivity|].
  cbn. f_equal. exact IH.
Qed.

(** X6. A response that holds a dumped array of objects, with text around it
    that has no bracket on the array's side, goes through the first stage of the
    cascade: the cases handed on are the first ten objects of the array (all
    of them when the array has at most ten), a step text split into its
    steps. *)
Theorem response_with_array_is_parsed (prompt raw pre suffix : string)
    (objects : list (list (string * json))) (used_chunks : list Chunk) :
  replace json_utils.STOP_TOKEN EmptyString raw
  = pre +:+ dumps (JArr (map JObj objects)) +:+ suffix ->
  all_chars (fun c => negb (is_char "[" c)) pre = true ->
  all_chars (fun c => negb (is_char "]" c)) suffix = true ->
  bracket_free (JArr (map JObj objects)) = true ->
  objects <> [] ->
  response_normalizer E AIML_AVAILABLE prompt raw used_chunks
  = Ok (Cases (take 10 (map split_step_text (map JObj objects)))).
Proof.
  intros Hraw Hpre Hsuffix Hv Hne.
  assert (Hextract : json_utils.extract_json_from_response raw
                     = dumps (JArr (map JObj objects))).
  { unfold json_utils.extract_json_from_response.
    unfold replace in Hraw. rewrite Hraw. cbn [dumps].
    set (inner := Str.join ", " (map dumps (map JObj objects))).
    change (("[" +:+ inner +:+ "]") +:+ suffix)
      with (String "[" ((inner +:+ "]") +:+ suffix)).
    rewrite str_app_assoc. change ("]" +:+ suffix) with (String "]" suffix).
    change json_utils.array_span_re with (span_re "[" "]").
    rewrite (search_span "[" "]" pre inner suffix Hpre Hsuffix).
    reflexivity. }
  assert (Hrepair : json_utils.repair_json (dumps (JArr (map JObj objects)))
                    = dumps (JArr (map JObj objects))).
  { rewrite (repair_json_of_dumped _ Hv). cbn [dumps].
    set (inner := Str.join ", " (map dumps (map JObj objects))).
    change ("[" +:+ inner +:+ "]")
      with (String "[" (inner +:+ String "]" EmptyString)).
    rewrite strip_enclosed by reflexivity. reflexivity. }
  unfold response_normalizer, normalize_response, parse_response.
  rewrite Hextract, Hrepair, (decode_dumps_array _ Hv).
  cbn [cases_of_response rbind]. rewrite normalize_item_objects.
  destruct objects as [|members objects]; [congruence|].
  cbn [map rbind]. rewrite enforce_limit_take. reflexivity.
Qed.

End WellFormedResponse.

Definition chatty_response : string :=
  "Here are the test cases: "
  +:+ Json.dumps (Json.JArr (map Json.JObj two_cases))
  +:+ " Let me know if more are needed.</END_JSON>".

Lemma response_with_array_is_parsed_witness :
  generate_test_cases.response_normalizer example_externals true
    "Generate 2 test cases" chatty_response [promo_chunk]
  = Ok (generate_test_cases.Cases
          (take 10 (map generate_test_cases.split_step_text
                        (map Json.JObj two_cases)))).
Proof.
  apply (response_with_array_is_parsed example_externals true
           "Generate 2 test cases" chatty_response
           "Here are the test cases: " " Let me know if more are needed."
           two_cases [promo_chunk]).
  - vm_compute. reflexivity.
  - reflexivity.
  - reflexivity.
  - reflexivity.
  - discriminate.
Defined.

Lemma normalized_cases_are_dicts_witness :
  map generate_test_cases.split_step_text (map Json.JObj two_cases) <> []
  /\ Forall (fun tc => Json.is_dict tc = true)
       (map generate_test_cases.split_step_text (map Json.JObj two_cases)).
Proof.
  apply (normalized_cases_are_dicts example_externals true
           "Generate 2 test cases" chatty_response [promo_chunk]).
  vm_compute. reflexivity.
Defined.

Lemma repair_json_keeps_dumped_array_witness :
  json_utils.repair_json (Json.dumps (Json.JArr (map Json.JObj two_cases)))
  = Json.dumps (Json.JArr (map Json.JObj two_cases))
  /\ Json.loads
       (json_utils.repair_json
          (Json.dumps (Json.JArr (map Json.JObj two_cases))))
     = Some (Json.JArr (map Json.JObj two_cases)).
Proof.
  apply (repair_json_keeps_dumped_array (map Json.JObj two_cases)).
  reflexivity.
Defined.

Definition one_case : list (string * Json.json) :=
  [("id", Json.JStr "TC-001"); ("steps", Json.JArr [Json.JStr "Open the cart"])].

Lemma repair_json_wraps_dumped_object_witness :
  json_utils.repair_json (Json.dumps (Json.JObj one_case))
  = "[" +:+ Json.dumps (Json.JObj one_case) +:+ "]"
  /\ Json.loads (json_utils.repair_json (Json.dumps (Json.JObj one_case)))
     = Some (Json.JArr [Json.JObj one_case]).
Proof.
  apply (repair_json_wraps_dumped_object one_case). reflexivity.
Defined.

(** ** A response without any structure *)

Section UnstructuredResponse.
Import Re Json generate_test_cases.

(** No bracket, no brace and no backslash. *)
Definition prose_char (c : ascii) : bool :=
  text_char c && negb (is_char backslash c).

Lemma all_chars_drop (p : ascii -> bool) (n : nat) (s : string) :
  all_chars p s = true -> all_chars p (Str.drop n s) = true.
Proof.
  revert s. induction n as [|n IH]; intros [|c s] H; auto.
  simpl in H. apply andb_true_iff in H as [_ H]. simpl. auto.
Qed.

Lemma all_chars_lstrip (p : ascii -> bool) (s : string) :
  all_chars p s = true -> all_chars p (Str.lstrip s) = true.
Proof.
  induction s as [|c s IH]; [reflexivity|]. intros H. simpl.
  destruct (is_space c); [|exact H].
  simpl in H. apply andb_true_iff in H as [_ H]. auto.
Qed.

Lemma all_chars_rstrip (p : ascii -> bool) (s : string) :
  all_chars p s = true -> all_chars p (Str.rstrip s) = true.
Proof.
  induction s as [|c s IH]; [reflexivity|]. intros H.
  simpl in H. apply andb_true_iff in H as [Hc H]. specialize (IH H).
  cbn [Str.rstrip]. destruct (Str.rstrip s) as [|d t].
  - destruct (is_space c); [reflexivity|]. simpl. rewrite Hc. reflexivity.
  - cbn [all_chars]. rewrite Hc. exact IH.
Qed.

Lemma all_chars_strip (p : ascii -> bool) (s : string) :
  all_chars p s = true -> all_chars p (Str.strip s) = true.
Proof. intros H. apply all_chars_rstrip, all_chars_lstrip, H. Qed.

Lemma all_chars_skip_ws (p : ascii -> bool) (s : string) :
  all_chars p s = true -> all_chars p (skip_ws s) = true.
Proof.
  induction s as [|c s IH]; [reflexivity|]. intros H. simpl.
  destruct (is_ws c); [|exact H].
  simpl in H. apply andb_true_iff in H as [_ H]. auto.
Qed.

(** A substitution by the empty text brings in no character. *)
Lemma all_chars_sub_from (p : ascii -> bool) (r : regex) (s : string) :
  all_chars p s = true ->
  forall prev skip,
  all_chars p (sub_from r (fun _ _ => EmptyString) prev skip s) = true.
Proof.
  induction s as [|c s IH]; intros H prev skip.
  - destruct skip; cbn [sub_from]; [|reflexivity].
    destruct (match_at r prev EmptyString) as [[n cap]|]; reflexivity.
  - simpl in H. apply andb_true_iff in H as [Hc H].
    destruct skip as [|skip]; cbn [sub_from]; [|apply IH, H].
    destruct (match_at r prev (String c s)) as [[n cap]|].
    + change (EmptyString +:+ ?t) with t.
      rewrite all_chars_app, (IH H).
      destruct (n =? 0); simpl; [rewrite Hc|]; reflexivity.
    + simpl. rewrite Hc. apply IH, H.
Qed.

Lemma prose_is_text (c : ascii) : prose_char c = true -> text_char c = true.
Proof. unfold prose_char. intros H. apply andb_true_iff in H. tauto. Qed.

Lemma text_char_not (o : ascii) (c : ascii) :
  text_char o = false -> text_char c = true -> negb (is_char o c) = true.
Proof.
  intros Ho Hc. unfold is_char. destruct (Ascii.eqb_spec o c) as [->|_];
    [congruence|reflexivity].
Qed.

Lemma text_without (o : ascii) (t : string) :
  text_char o = false -> all_chars text_char t = true ->
  all_chars (fun c => negb (is_char o c)) t = true.
Proof.
  intros Ho. apply all_chars_impl. intros c. apply text_char_not, Ho.
Qed.

Lemma starts_with_text (o : ascii) (t : string) :
  text_char o = false -> all_chars text_char t = true ->
  Str.starts_with (String o EmptyString) t = false.
Proof.
  intros Ho Ht. destruct t as [|c t]; [reflexivity|].
  simpl in Ht. apply andb_true_iff in Ht as [Hc _].
  cbn [Str.starts_with].
  destruct (Ascii.eqb_spec o c) as [->|_]; [congruence|reflexivity].
Qed.

(** [repair_json] on a text without bracket or brace only strips it. *)
Lemma repair_json_of_text (t : string) :
  all_chars text_char t = true -> json_utils.repair_json t = Str.strip t.
Proof.
  intros Ht. unfold json_utils.repair_json.
  assert (Hsub1 : Re.sub json_utils.trailing_comma_re json_utils.group1 t = t).
  { unfold Re.sub.
    destruct (scan_no_b (is_char ",") json_utils.is_closing t) with (p := false)
      as [q Hq].
    { revert Ht. apply all_chars_impl, text_char_not_closing. }
    apply (sub_from_quiet _ _ _ _ no_trailing_comma).
    eapply scan_quiet. exact Hq. }
  rewrite Hsub1.
  assert (Hsub2 : Re.sub json_utils.brace_gap_re (fun _ _ => "},{") t = t).
  { apply (brace_gap_absent t EmptyString). rewrite str_app_empty_r.
    apply apart_text, Ht. }
  rewrite Hsub2. cbv zeta.
  rewrite !(count_text _ t) by (exact Ht || reflexivity).
  cbn [Nat.ltb Nat.leb].
  rewrite (starts_with_text "{" _ eq_refl (all_chars_strip _ _ Ht)).
  reflexivity.
Qed.

(** The values read from such a text: no list, no dict, and no string with
    a bracket in it. *)
Definition flat (v : json) : Prop :=
  match v with
  | JArr _ | JObj _ => False
  | JStr s => all_chars text_char s = true
  | _ => True
  end.

Lemma scan_string_prose (s str rest : string) :
  all_chars prose_char s = true ->
  scan_string s = Some (str, rest) -> all_chars text_char str = true.
Proof.
  revert str rest. induction s as [|c s IH]; intros str rest Hs;
    [discriminate|].
  simpl in Hs. apply andb_true_iff in Hs as [Hc Hs].
  cbn [scan_string]. destruct (is_char quote c).
  { intros [= <- _]. reflexivity. }
  unfold prose_char in Hc. apply andb_true_iff in Hc as [Ht Hb].
  apply negb_true_iff in Hb. rewrite Hb.
  destruct (code c <? 32)%N; [discriminate|].
  destruct (scan_string s) as [[str' rest']|]; [|discriminate].
  intros [= <- _]. simpl. rewrite Ht. exact (IH str' rest' Hs eq_refl).
Qed.

Lemma expect_flat (word : string) (v v' : json) (s rest : string) :
  flat v -> expect word v s = Scanned v' rest -> flat v'.
Proof.
  unfold expect. destruct (Str.starts_with word s); [|discriminate].
  intros Hv [= <- _]. exact Hv.
Qed.

Lemma parse_value_flat (fuel : nat) (s : string) (v : json) (rest : string) :
  all_chars prose_char s = true ->
  parse_value fuel s = Scanned v rest -> flat v.
Proof.
  destruct fuel as [|fuel]; [discriminate|].
  destruct s as [|c r]; [discriminate|]. intros Hs.
  simpl in Hs. apply andb_true_iff in Hs as [Hc Hr].
  pose proof (prose_is_text _ Hc) as Ht.
  cbn [parse_value]. destruct (is_char quote c).
  { destruct (scan_string r) as [[str rest']|] eqn:Hscan; [|discriminate].
    intros [= <- _]. exact (scan_string_prose _ _ _ Hr Hscan). }
  assert (is_char "{" c = false) as ->
    by (apply negb_true_iff, text_char_not; [reflexivity|exact Ht]).
  assert (is_char "[" c = false) as ->
    by (apply negb_true_iff, text_char_not; [reflexivity|exact Ht]).
  destruct (is_char "n" c); [apply expect_flat; exact I|].
  destruct (is_char "t" c); [apply expect_flat; exact I|].
  destruct (is_char "f" c); [apply expect_flat; exact I|].
  destruct (scan_number (String c r)) as [[literal rest']|].
  { destruct (over_digit_limit literal); [discriminate|].
    intros [= <- _]. exact I. }
  destruct (is_char "N" c); [apply expect_flat; exact I|].
  destruct (is_char "I" c); [apply expect_flat; exact I|].
  destruct (is_char "-" c); [apply expect_flat; exact I|discriminate].
Qed.

Lemma decode_flat (s : string) (v : json) :
  all_chars prose_char s = true -> decode s = Loaded v -> flat v.
Proof.
  intros Hs. unfold decode.
  destruct (parse_value _ _) as [v' rest| |] eqn:Hparse; try discriminate.
  destruct (skip_ws rest); [|discriminate]. intros [= <-].
  eapply parse_value_flat; [|exact Hparse]. apply all_chars_skip_ws, Hs.
Qed.

(** The digits of a text, and what the stages before the decoder leave of
    them. *)
Lemma digit_count_nonneg (s : string) : (0 <= digit_count s)%Z.
Proof.
  induction s as [|c s IH]; cbn [digit_count]; [lia|].
  destruct (is_digit c); lia.
Qed.

Lemma digit_count_app (s t : string) :
  digit_count (s +:+ t) = (digit_count s + digit_count t)%Z.
Proof.
  induction s as [|c s IH]; [reflexivity|].
  rewrite str_app_cons. cbn [digit_count]. rewrite IH. lia.
Qed.

Lemma digit_count_take (n : nat) (s : string) :
  (digit_count (Str.take n s) <= digit_count s)%Z.
Proof.
  revert s. induction n as [|n IH]; intros [|c s]; cbn [Str.take digit_count];
    try lia.
  - pose proof (digit_count_nonneg s). destruct (is_digit c); lia.
  - specialize (IH s). lia.
Qed.

Lemma digit_count_skip_ws (s : string) :
  (digit_count (skip_ws s) <= digit_count s)%Z.
Proof.
  induction s as [|c s IH]; [reflexivity|]. cbn [skip_ws].
  destruct (is_ws c); [|lia].
  cbn [digit_count]. destruct (is_digit c); lia.
Qed.

Lemma digit_count_lstrip (s : string) :
  (digit_count (Str.lstrip s) <= digit_count s)%Z.
Proof.
  induction s as [|c s IH]; [reflexivity|]. cbn [Str.lstrip].
  destruct (is_space c); [|lia].
  cbn [digit_count]. destruct (is_digit c); lia.
Qed.

Lemma digit_count_rstrip (s : string) :
  (digit_count (Str.rstrip s) <= digit_count s)%Z.
Proof.
  induction s as [|c s IH]; [reflexivity|]. cbn [Str.rstrip].
  destruct (Str.rstrip s) as [|d t].
  - pose proof (digit_count_nonneg s).
    destruct (is_space c); cbn [digit_count]; destruct (is_digit c); lia.
  - cbn [digit_count] in *. lia.
Qed.

Lemma digit_count_strip (s : string) :
  (digit_count (Str.strip s) <= digit_count s)%Z.
Proof.
  unfold Str.strip. pose proof (digit_count_rstrip (Str.lstrip s)).
  pose proof (digit_count_lstrip s). lia.
Qed.

Lemma digit_count_sub_from (r : regex) (s : string) :
  forall prev skip,
  (digit_count (sub_from r (fun _ _ => EmptyString) prev skip s)
   <= digit_count s)%Z.
Proof.
  induction s as [|c s IH]; intros prev skip.
  - destruct skip; cbn [sub_from]; [|reflexivity].
    destruct (match_at r prev EmptyString) as [[n cap]|]; reflexivity.
  - destruct skip as [|skip]; cbn [sub_from].
    + destruct (match_at r prev (String c s)) as [[n cap]|].
      * change (EmptyString +:+ ?t) with t.
        rewrite digit_count_app.
        specialize (IH (Some c) (n - 0 - 1)%nat).
        replace (n - 0 - 1)%nat with (n - 1)%nat in IH by lia.
        cbn [digit_count].
        destruct (n =? 0); cbn [digit_count]; destruct (is_digit c); lia.
      * cbn [digit_count]. specialize (IH (Some c) 0%nat). lia.
    + cbn [digit_count]. specialize (IH (Some c) skip).
      destruct (is_digit c); lia.
Qed.

(** On a text without bracket or brace the decoder meets the digit limit
    only on a text of more than 4300 digits. *)
Lemma decode_prose_limit (s : string) :
  all_chars prose_char s = true -> decode s = DigitLimit ->
  (4300 < digit_count s)%Z.
Proof.
  intros Hs. unfold decode.
  pose proof (all_chars_skip_ws _ _ Hs) as Hw.
  pose proof (digit_count_skip_ws s) as Hle.
  destruct (skip_ws s) as [|c r]; [discriminate|].
  simpl in Hw. apply andb_true_iff in Hw as [Hc Hr].
  pose proof (prose_is_text _ Hc) as Ht.
  cbn [parse_value]. destruct (is_char quote c).
  { destruct (scan_string r) as [[str rest']|]; [|discriminate].
    destruct (skip_ws rest'); discriminate. }
  assert (is_char "{" c = false) as ->
    by (apply negb_true_iff, text_char_not; [reflexivity|exact Ht]).
  assert (is_char "[" c = false) as ->
    by (apply negb_true_iff, text_char_not; [reflexivity|exact Ht]).
  assert (Hexpect : forall word v,
            match expect word v (String c r) with
            | Scanned v rest =>
                match skip_ws rest with
                | EmptyString => Loaded v
                | String _ _ => JSONDecodeError
                end
            | Malformed => JSONDecodeError
            | TooManyDigits => DigitLimit
            end = DigitLimit -> (4300 < digit_count s)%Z).
  { intros word v. unfold expect.
    destruct (Str.starts_with word (String c r)); [|discriminate].
    destruct (skip_ws _); discriminate. }
  destruct (is_char "n" c); [apply Hexpect|].
  destruct (is_char "t" c); [apply Hexpect|].
  destruct (is_char "f" c); [apply Hexpect|].
  unfold scan_number.
  destruct (match_at number_re None (String c r)) as [[n cap]|].
  { destruct (over_digit_limit (Str.take n (String c r))) eqn:Hlim.
    - intros _. unfold over_digit_limit in Hlim.
      apply andb_true_iff in Hlim as [_ Hlim]. apply Z.ltb_lt in Hlim.
      pose proof (digit_count_take n (String c r)). lia.
    - destruct (skip_ws _); discriminate. }
  destruct (is_char "N" c); [apply Hexpect|].
  destruct (is_char "I" c); [apply Hexpect|].
  destruct (is_char "-" c); [apply Hexpect|discriminate].
Qed.

Lemma cases_of_flat (v : json) : flat v -> cases_of_response v = Ok [].
Proof.
  destruct v as [| | |s| |]; try reflexivity; try contradiction.
  intros Hs. cbn [flat] in Hs. unfold cases_of_response.
  pose proof (all_chars_strip _ _ Hs) as Hstrip.
  unfold bracketed.
  rewrite (starts_with_text "{" _ eq_refl Hstrip).
  rewrite (starts_with_text "[" _ eq_refl Hstrip). reflexivity.
Qed.

Lemma find_none (o : ascii) (t : string) :
  all_chars (fun c => negb (is_char o c)) t = true ->
  json_utils.find o t = None.
Proof.
  induction t as [|c t IH]; [reflexivity|]. intros H.
  simpl in H. apply andb_true_iff in H as [Hc H].
  apply negb_true_iff in Hc. unfold is_char in Hc.
  cbn [json_utils.find]. rewrite Hc, (IH H). reflexivity.
Qed.

Lemma aggressive_json_extraction_of_text (t : string) :
  all_chars text_char t = true ->
  json_utils.aggressive_json_extraction t = "[]".
Proof.
  intros Ht. unfold json_utils.aggressive_json_extraction, json_utils.between.
  rewrite (find_none "[" t (text_without "[" t eq_refl Ht)).
  rewrite (find_none "{" t (text_without "{" t eq_refl Ht)).
  reflexivity.
Qed.

Lemma findall_object_none (t : string) :
  all_chars (fun c => negb (is_char "{" c)) t = true ->
  Re.findall json_utils.object_lazy_re t = [].
Proof.
  unfold Re.findall. generalize (@None ascii) as prev.
  induction t as [|c t IH]; intros prev Ht.
  - reflexivity.
  - cbn [all_chars] in Ht. apply andb_true_iff in Ht as [Hc Ht].
    apply negb_true_iff in Hc. cbn [findall_from].
    assert (match_at json_utils.object_lazy_re prev (String c t) = None) as ->.
    { unfold match_at, json_utils.object_lazy_re, Chr.
      rewrite mt_cat, mt_cls, Hc. reflexivity. }
    apply IH, Ht.
Qed.

Context (E : Externals) (AIML_AVAILABLE : bool).

(** The synthesis path hands on one case at most, which the limit leaves. *)
Lemma synthesize_within_limit (prompt raw_response : string)
    (used_chunks : list Chunk) :
  (try! found := synthesize E AIML_AVAILABLE prompt raw_response
                   used_chunks in
   match found with
   | ReturnedEmpty => Ok ReturnedEmpty
   | Cases test_cases => Ok (Cases (enforce_limit test_cases))
   end)
  = synthesize E AIML_AVAILABLE prompt raw_response used_chunks.
Proof.
  unfold synthesize.
  destruct (negb AIML_AVAILABLE); [reflexivity|].
  destruct (negb (matcher_available E)); [reflexivity|].
  destruct (synthesized_feature E used_chunks); reflexivity.
Qed.

(** X7. A response without bracket, brace or backslash, and with no more
    than 4300 digits in it, yields no test case in any parsing stage: what
    the normalizer returns is what the synthesis path returns. *)
Theorem unstructured_response_is_synthesized (prompt raw_response : string)
    (used_chunks : list Chunk) :
  all_chars prose_char raw_response = true ->
  (digit_count raw_response <= 4300)%Z ->
  normalize_response E AIML_AVAILABLE prompt raw_response used_chunks
  = synthesize E AIML_AVAILABLE prompt raw_response used_chunks.
Proof.
  intros Hraw Hdigits.
  assert (Htext : all_chars text_char raw_response = true).
  { revert Hraw. apply all_chars_impl, prose_is_text. }
  set (t := Re.sub (Lit json_utils.STOP_TOKEN) (fun _ _ => EmptyString)
              raw_response).
  assert (Ht : all_chars prose_char t = true)
    by apply all_chars_sub_from, Hraw.
  assert (Ht' : all_chars text_char t = true).
  { revert Ht. apply all_chars_impl, prose_is_text. }
  assert (Hextract : json_utils.extract_json_from_response raw_response = t).
  { unfold json_utils.extract_json_from_response. fold t.
    change json_utils.array_span_re with (span_re "[" "]").
    change json_utils.object_span_re with (span_re "{" "}").
    rewrite (search_span_none "[" "]" t (text_without "[" t eq_refl Ht')).
    rewrite (search_span_none "{" "}" t (text_without "{" t eq_refl Ht')).
    reflexivity. }
  assert (Hfallback : aggressive_fallback raw_response = []).
  { unfold aggressive_fallback.
    rewrite (aggressive_json_extraction_of_text _ Htext). reflexivity. }
  assert (Hsecond : json_utils.secondary_json_format_pass raw_response = []).
  { unfold json_utils.secondary_json_format_pass.
    rewrite (findall_object_none _ (text_without "{" _ eq_refl Htext)).
    reflexivity. }
  assert (Hparse : exists v, parse_response raw_response = Ok (Some v) /\
                             cases_of_response v = Ok []).
  { unfold parse_response.
    rewrite Hextract, (repair_json_of_text t Ht').
    destruct (decode (Str.strip t)) as [v| |] eqn:Hloads.
    - exists v. split; [reflexivity|]. apply cases_of_flat.
      eapply decode_flat; [|exact Hloads]. apply all_chars_strip, Ht.
    - rewrite (aggressive_json_extraction_of_text _ Htext).
      exists (JArr []). split; reflexivity.
    - apply decode_prose_limit in Hloads; [|apply all_chars_strip, Ht].
      pose proof (digit_count_strip t).
      pose proof (digit_count_sub_from (Lit json_utils.STOP_TOKEN)
                    raw_response None 0) as Hsub.
      fold (Re.sub (Lit json_utils.STOP_TOKEN) (fun _ _ => EmptyString)
              raw_response) in Hsub. fold t in Hsub. lia. }
  destruct Hparse as (v & Hparse & Hcases).
  unfold normalize_response. rewrite Hparse. cbn [rbind].
  rewrite Hcases. cbn [rbind omap map].
  change (omap normalize_item []) with (@nil json). cbn [map].
  rewrite Hfallback, Hsecond. apply synthesize_within_limit.
Qed.

(** Above the limit the first [json.loads] raises a [ValueError] that no
    handler of the cascade catches. *)
Example long_integer_raises (prompt : string) (used_chunks : list Chunk) :
  normalize_response E AIML_AVAILABLE prompt (Str.replicate 4301 "7")
    used_chunks
  = Raise ValueError.
Proof. vm_compute. reflexivity. Qed.

End UnstructuredResponse.

Lemma unstructured_response_is_synthesized_witness :
  generate_test_cases.normalize_response example_externals true
    "Generate 1 test case" "I cannot help with that, sorry." [promo_chunk]
  = generate_test_cases.synthesize example_externals true
      "Generate 1 test case" "I cannot help with that, sorry." [promo_chunk].
Proof.
  apply (unstructured_response_is_synthesized example_externals true
           "Generate 1 test case" "I cannot help with that, sorry."
           [promo_chunk]).
  - reflexivity.
  - vm_compute. discriminate.
Defined.

(** ** The context builder: what is left out *)

Section ContextTruncation.
Import prompt_utils.

(** The loop stops at a chunk only when that chunk passes the budget. *)
Lemma select_chunks_stops (chunks : list Chunk) (max_tokens : Z) :
  forall total c rest,
  chunks = select_chunks chunks total max_tokens ++ c :: rest ->
  (total + total_tokens (select_chunks chunks total max_tokens) + tokens_of c
   > max_tokens)%Z.
Proof.
  induction chunks as [|c0 chunks IH]; intros total c rest Hsplit.
  - destruct (select_chunks [] total max_tokens); discriminate.
  - cbn [select_chunks] in *. fold (tokens_of c0) in *.
    destruct (Z.gtb_spec (total + tokens_of c0) max_tokens) as [Hgt|Hle].
    + simpl in Hsplit. injection Hsplit as <- _. simpl. lia.
    + simpl in Hsplit. injection Hsplit as Hsplit.
      specialize (IH _ _ _ Hsplit). cbn [total_tokens fold_right].
      fold (total_tokens (select_chunks chunks (total + tokens_of c0) max_tokens)).
      lia.
Qed.

Lemma select_chunks_all (chunks : list Chunk) (max_tokens : Z) :
  forall total,
  (total + total_tokens chunks <= max_tokens)%Z ->
  select_chunks chunks total max_tokens = chunks.
Proof.
  induction chunks as [|c chunks IH]; intros total Hfit; [reflexivity|].
  cbn [select_chunks]. fold (tokens_of c).
  cbn [total_tokens fold_right] in Hfit. fold (total_tokens chunks) in Hfit.
  pose proof (total_tokens_nonneg chunks).
  destruct (Z.gtb_spec (total + tokens_of c) max_tokens) as [Hgt|Hle]; [lia|].
  f_equal. apply IH. lia.
Qed.

(** X8. The flag says whether a chunk was left out; the first chunk left out is
    one that did not fit on top of those accepted; and where all the estimates
    fit the budget, every chunk is used. *)
Theorem truncate_context_smart_leaves_out (chunks : list Chunk)
    (max_tokens : Z) :
  let '(context, was_truncated, used_chunks) :=
    truncate_context_smart chunks max_tokens in
  context = Str.join nl (map context_part used_chunks)
  /\ (was_truncated = true <-> used_chunks <> chunks)
  /\ (forall c rest,
        chunks = used_chunks ++ c :: rest ->
        (total_tokens used_chunks + tokens_of c > max_tokens)%Z)
  /\ ((total_tokens chunks <= max_tokens)%Z ->
      used_chunks = chunks /\ was_truncated = false).
Proof.
  unfold truncate_context_smart. cbv zeta.
  set (used := select_chunks chunks 0 max_tokens).
  destruct (select_chunks_prefix chunks 0 max_tokens) as [rest Hrest].
  fold used in Hrest.
  split; [reflexivity|]. split; [|split].
  - rewrite Nat.ltb_lt. clearbody used. subst chunks.
    rewrite length_app. split.
    + intros Hlt Heq. apply (f_equal (@length _)) in Heq.
      rewrite length_app in Heq. lia.
    + intros Hne. destruct rest as [|c rest]; [|simpl; lia].
      rewrite app_nil_r in Hne. congruence.
  - intros c rest' Hsplit.
    pose proof (select_chunks_stops chunks max_tokens 0 c rest' Hsplit).
    fold used in H. lia.
  - intros Hfit. unfold used.
    rewrite (select_chunks_all chunks max_tokens 0) by lia.
    split; [reflexivity|]. apply Nat.ltb_irrefl.
Qed.

End ContextTruncation.

(** ** Duplicate chunks *)

Section DuplicateChunks.
Import prompt_utils.
Context (md5_hexdigest : string -> string).

#[local] Abbreviation digest := (prompt_utils.digest md5_hexdigest).
#[local] Abbreviation dedup_loop := (prompt_utils.dedup_loop md5_hexdigest).

Lemma dedup_loop_sublist (chunks : list Chunk) :
  forall seen, sublist (dedup_loop seen chunks) chunks.
Proof.
  induction chunks as [|c chunks IH]; intros seen; cbn [prompt_utils.dedup_loop].
  - constructor.
  - case_bool_decide.
    + apply sublist_cons, IH.
    + apply sublist_skip, IH.
Qed.

Lemma dedup_loop_unseen (chunks : list Chunk) :
  forall seen c,
  c ∈ dedup_loop seen chunks -> digest c ∉ seen.
Proof.
  induction chunks as [|c0 chunks IH]; intros seen c;
    cbn [prompt_utils.dedup_loop].
  - intros H. inversion H.
  - case_bool_decide as Hseen.
    + apply IH.
    + intros [->|Hc]%elem_of_cons; [exact Hseen|].
      apply IH in Hc. set_solver.
Qed.

Lemma dedup_loop_NoDup (chunks : list Chunk) :
  forall seen, NoDup (map digest (dedup_loop seen chunks)).
Proof.
  induction chunks as [|c0 chunks IH]; intros seen;
    cbn [prompt_utils.dedup_loop].
  - constructor.
  - case_bool_decide as Hseen; [apply IH|].
    cbn [map]. constructor; [|apply IH].
    intros Hin. apply list_elem_of_fmap in Hin as (c & Heq & Hc).
    apply dedup_loop_unseen in Hc. set_solver.
Qed.

Lemma dedup_loop_covers (chunks : list Chunk) :
  forall seen c,
  c ∈ chunks ->
  digest c ∈ seen \/ digest c ∈ map digest (dedup_loop seen chunks).
Proof.
  induction chunks as [|c0 chunks IH]; intros seen c Hc;
    cbn [prompt_utils.dedup_loop].
  - inversion Hc.
  - apply elem_of_cons in Hc as [->|Hc].
    + case_bool_decide as Hseen; [left; exact Hseen|].
      right. cbn [map]. left.
    + case_bool_decide as Hseen; [apply IH, Hc|].
      destruct (IH ({[digest c0]} ∪ seen) c Hc) as [Hin|Hin].
      * apply elem_of_union in Hin as [Hin|Hin]; [|left; exact Hin].
        right. cbn [map]. apply elem_of_singleton in Hin. rewrite Hin. left.
      * right. cbn [map]. right. exact Hin.
Qed.

Lemma dedup_loop_first (chunks : list Chunk) :
  forall seen pre c post,
  chunks = pre ++ c :: post ->
  digest c ∉ seen -> digest c ∉ map digest pre ->
  c ∈ dedup_loop seen chunks.
Proof.
  induction chunks as [|c0 chunks IH]; intros seen pre c post Hsplit Hseen Hpre.
  - destruct pre; discriminate.
  - cbn [prompt_utils.dedup_loop]. destruct pre as [|p pre].
    + simpl in Hsplit. injection Hsplit as Hc _. subst c0.
      rewrite bool_decide_eq_false_2 by exact Hseen. left.
    + simpl in Hsplit. injection Hsplit as Hp Hrest. subst c0 chunks.
      cbn [map] in Hpre. apply not_elem_of_cons in Hpre as [Hne Hpre].
      case_bool_decide.
      * eapply IH; eauto.
      * right. eapply IH; [reflexivity| |exact Hpre].
        apply not_elem_of_union. split; [|exact Hseen].
        intros Heq%elem_of_singleton. congruence.
Qed.

(** On chunks with distinct digests, none seen, the loop keeps all. *)
Lemma dedup_loop_fixed (chunks : list Chunk) :
  forall seen,
  NoDup (map digest chunks) ->
  (forall c, c ∈ chunks -> digest c ∉ seen) ->
  dedup_loop seen chunks = chunks.
Proof.
  induction chunks as [|c0 chunks IH]; intros seen Hnd Hseen; [reflexivity|].
  cbn [prompt_utils.dedup_loop]. cbn [map] in Hnd.
  apply NoDup_cons in Hnd as [Hc0 Hnd].
  rewrite bool_decide_eq_false_2 by (apply Hseen; left).
  f_equal. apply IH; [exact Hnd|].
  intros c Hc. apply not_elem_of_union. split.
  - intros Heq%elem_of_singleton. apply Hc0. rewrite <- Heq.
    apply list_elem_of_fmap. eauto.
  - apply Hseen. right. exact Hc.
Qed.

(** X9. The chunks kept are a subsequence of those given and no two of them have
    the same digest; every chunk given has its digest among the kept, and a
    chunk whose digest no earlier chunk has is kept; the count is the number
    left out; and a second pass leaves out nothing. *)
Theorem deduplicate_chunks_keeps_first (chunks : list Chunk) :
  let '(out, removed) := deduplicate_chunks md5_hexdigest chunks in
  sublist out chunks
  /\ NoDup (map digest out)
  /\ (forall c, c ∈ chunks -> digest c ∈ map digest out)
  /\ (forall pre c post,
        chunks = pre ++ c :: post -> digest c ∉ map digest pre -> c ∈ out)
  /\ (0 <= removed)%Z
  /\ Z.of_nat (length out) = (Z.of_nat (length chunks) - removed)%Z
  /\ deduplicate_chunks md5_hexdigest out = (out, 0%Z).
Proof.
  unfold deduplicate_chunks. cbv zeta.
  set (out := dedup_loop ∅ chunks).
  pose proof (dedup_loop_sublist chunks ∅) as Hsub. fold out in Hsub.
  pose proof (dedup_loop_NoDup chunks ∅) as Hnd. fold out in Hnd.
  split; [exact Hsub|]. split; [exact Hnd|]. split; [|split; [|split; [|split]]].
  - intros c Hc. destruct (dedup_loop_covers chunks ∅ c Hc) as [H|H];
      [set_solver|exact H].
  - intros pre c post Hsplit Hpre.
    eapply dedup_loop_first; [exact Hsplit|set_solver|exact Hpre].
  - apply sublist_length in Hsub. lia.
  - lia.
  - rewrite (dedup_loop_fixed out ∅ Hnd) by set_solver. f_equal. lia.
Qed.

End DuplicateChunks.

(** ** [sanitize_text] *)

Section Sanitize.
Import Re prompt_utils.

(** Whitespace only as one space between two other characters. *)
Fixpoint spaced (after_space : bool) (s : string) : bool :=
  match s with
  | EmptyString => negb after_space
  | String c s' =>
      if is_space c then is_char " " c && negb after_space && spaced true s'
      else spaced false s'
  end.

(** The texts that [sanitize_text] returns: no control character, no
    whitespace but single spaces, none of them first or last. *)
Definition sanitized (s : string) : bool :=
  all_chars (fun c => negb (control_class c)) s
  && match s with
     | EmptyString => true
     | String _ _ => spaced true s
     end.

(** *** The two substitutions *)

Lemma match_at_class (p : ascii -> bool) (prev : option ascii) (s : string) :
  match_at (Cls p) prev s
  = match s with
    | String c _ => if p c then Some (1, None) else None
    | EmptyString => None
    end.
Proof.
  unfold match_at. rewrite mt_cls. destruct s as [|c s]; [reflexivity|].
  destruct (p c); [|reflexivity]. f_equal. f_equal.
  change (Str.len (String c s)) with (S (Str.len s)). lia.
Qed.

(** A class replaced by a text: character by character. *)
Fixpoint replace_class (p : ascii -> bool) (w : string) (s : string) : string :=
  match s with
  | EmptyString => EmptyString
  | String c s' =>
      if p c then w +:+ replace_class p w s' else String c (replace_class p w s')
  end.

Lemma sub_class (p : ascii -> bool) (w : string) (s : string) :
  forall prev,
  sub_from (Cls p) (fun _ _ => w) prev 0 s = replace_class p w s.
Proof.
  induction s as [|c s IH]; intros prev; cbn [sub_from replace_class];
    rewrite match_at_class; [reflexivity|].
  destruct (p c).
  - cbn [Nat.eqb Nat.sub]. change (EmptyString +:+ ?t) with t.
    rewrite IH. reflexivity.
  - rewrite IH. reflexivity.
Qed.

Lemma replace_class_chars (p q : ascii -> bool) (w : string) (s : string) :
  all_chars q w = true ->
  (forall c, p c = false -> q c = true) ->
  all_chars q (replace_class p w s) = true.
Proof.
  intros Hw Hq. induction s as [|c s IH]; [reflexivity|].
  cbn [replace_class]. destruct (p c) eqn:Hc.
  - rewrite all_chars_app, Hw. exact IH.
  - cbn [all_chars]. rewrite (Hq c Hc). exact IH.
Qed.

Lemma replace_class_none (p : ascii -> bool) (w : string) (s : string) :
  all_chars (fun c => negb (p c)) s = true -> replace_class p w s = s.
Proof.
  induction s as [|c s IH]; [reflexivity|]. cbn [all_chars replace_class].
  intros [Hc Hs]%andb_true_iff. apply negb_true_iff in Hc. rewrite Hc.
  f_equal. exact (IH Hs).
Qed.

(** The greedy repetition of a class before the end of the match. *)
Lemma star_loop_run {A : Type} (p : ascii -> bool) (f : string -> A) :
  forall n s cap prev,
  run_of p s <= n ->
  star_loop (Cls p) (fun cap' _ s' => Some (f s', cap')) n cap prev s
  = Some (f (Str.drop (run_of p s) s), cap).
Proof.
  induction n as [|n IH]; intros s cap prev Hn.
  - assert (run_of p s = 0) as -> by lia. destruct s; reflexivity.
  - cbn [star_loop]. rewrite mt_cls. destruct s as [|c s]; [reflexivity|].
    cbn [run_of] in *. destruct (p c); [|reflexivity].
    assert ((Str.len s <? Str.len (String c s)) = true) as ->.
    { apply Nat.ltb_lt. change (Str.len (String c s)) with (S (Str.len s)). lia. }
    rewrite IH by lia. reflexivity.
Qed.

Lemma match_at_run (p : ascii -> bool) (prev : option ascii) (s : string) :
  match_at (Plus (Cls p)) prev s
  = match s with
    | String c s' => if p c then Some (S (run_of p s'), None) else None
    | EmptyString => None
    end.
Proof.
  unfold match_at, Plus. rewrite mt_cat, mt_cls.
  destruct s as [|c s]; [reflexivity|]. destruct (p c); [|reflexivity].
  rewrite mt_star, star_loop_run by apply run_of_le.
  f_equal. f_equal. rewrite len_drop.
  change (Str.len (String c s)) with (S (Str.len s)).
  pose proof (run_of_le p s). lia.
Qed.

(** Every run of the class replaced by one text. *)
Fixpoint collapse (p : ascii -> bool) (w : string) (skip : nat) (s : string)
    : string :=
  match skip with
  | S k =>
      match s with
      | String _ s' => collapse p w k s'
      | EmptyString => EmptyString
      end
  | 0 =>
      match s with
      | String c s' =>
          if p c then w +:+ collapse p w (run_of p s') s'
          else String c (collapse p w 0 s')
      | EmptyString => EmptyString
      end
  end.

Lemma sub_runs (p : ascii -> bool) (w : string) (s : string) :
  forall prev skip,
  sub_from (Plus (Cls p)) (fun _ _ => w) prev skip s = collapse p w skip s.
Proof.
  induction s as [|c s IH]; intros prev skip.
  - destruct skip; cbn [sub_from collapse]; [|reflexivity].
    rewrite match_at_run. reflexivity.
  - destruct skip as [|skip]; cbn [sub_from collapse]; [|apply IH].
    rewrite match_at_run. destruct (p c).
    + cbn [Nat.eqb Nat.sub]. change (EmptyString +:+ ?t) with t.
      rewrite Nat.sub_0_r, IH. reflexivity.
    + rewrite IH. reflexivity.
Qed.

Lemma collapse_chars (p q : ascii -> bool) (w : string) (s : string) :
  all_chars q w = true ->
  all_chars q s = true ->
  forall skip, all_chars q (collapse p w skip s) = true.
Proof.
  intros Hw. induction s as [|c s IH]; intros Hs skip.
  - destruct skip; reflexivity.
  - cbn [all_chars] in Hs. apply andb_true_iff in Hs as [Hc Hs].
    destruct skip as [|skip]; cbn [collapse]; [|apply IH, Hs].
    destruct (p c).
    + rewrite all_chars_app, Hw. apply IH, Hs.
    + cbn [all_chars]. rewrite Hc. apply IH, Hs.
Qed.

(** Single spaces, wherever the text starts and ends. *)
Fixpoint single_spaces (after_space : bool) (s : string) : bool :=
  match s with
  | EmptyString => true
  | String c s' =>
      if is_space c
      then is_char " " c && negb after_space && single_spaces true s'
      else single_spaces false s'
  end.

Lemma collapse_single_spaces (s : string) :
  single_spaces false (collapse is_space " " 0 s) = true
  /\ single_spaces true (collapse is_space " " (run_of is_space s) s) = true.
Proof.
  induction s as [|c s [IHa IHb]]; [split; reflexivity|].
  cbn [run_of collapse]. destruct (is_space c) eqn:Hc.
  - split; [|exact IHb].
    change (" " +:+ ?t) with (String " " t). cbn [single_spaces].
    exact IHb.
  - split; cbn [single_spaces]; rewrite Hc; exact IHa.
Qed.

(** *** The strip *)

Lemma lstrip_single_spaces (s : string) (b : bool) :
  single_spaces b s = true -> single_spaces true (Str.lstrip s) = true.
Proof.
  destruct s as [|c s]; [reflexivity|]. cbn [single_spaces Str.lstrip].
  destruct (is_space c) eqn:Hc.
  - intros H. apply andb_true_iff in H as [_ H].
    destruct s as [|d s]; [reflexivity|].
    cbn [single_spaces] in H. destruct (is_space d) eqn:Hd.
    + rewrite andb_false_r in H. discriminate.
    + cbn [Str.lstrip]. rewrite Hd. cbn [single_spaces]. rewrite Hd. exact H.
  - intros H. cbn [single_spaces]. rewrite Hc. exact H.
Qed.

Lemma rstrip_spaced (s : string) :
  forall b,
  single_spaces b s = true ->
  Str.rstrip s = EmptyString \/ spaced b (Str.rstrip s) = true.
Proof.
  induction s as [|c s IH]; intros b H; [left; reflexivity|].
  cbn [single_spaces] in H. cbn [Str.rstrip].
  destruct (is_space c) eqn:Hc.
  - apply andb_true_iff in H as [H Hs]. apply andb_true_iff in H as [Hsp Hb].
    destruct (IH true Hs) as [Hnil|Hsp'].
    + rewrite Hnil. left. reflexivity.
    + destruct (Str.rstrip s) as [|d t] eqn:Hr; [discriminate Hsp'|].
      right. cbn [spaced]. rewrite Hc, Hsp, Hb. exact Hsp'.
  - destruct (IH false H) as [Hnil|Hsp'].
    + rewrite Hnil. right. cbn [spaced]. rewrite Hc. reflexivity.
    + destruct (Str.rstrip s) as [|d t] eqn:Hr.
      * right. cbn [spaced]. rewrite Hc. reflexivity.
      * right. cbn [spaced]. rewrite Hc. exact Hsp'.
Qed.

Lemma spaced_single (s : string) :
  forall b, spaced b s = true -> single_spaces b s = true.
Proof.
  induction s as [|c s IH]; intros b; [reflexivity|].
  cbn [spaced single_spaces]. destruct (is_space c); [|apply IH].
  intros H. apply andb_true_iff in H as [H Hs]. rewrite H. apply IH, Hs.
Qed.

Lemma rstrip_of_spaced (s : string) :
  forall b, spaced b s = true -> Str.rstrip s = s.
Proof.
  induction s as [|c s IH]; intros b H; [reflexivity|].
  cbn [spaced] in H. cbn [Str.rstrip]. destruct (is_space c) eqn:Hc.
  - apply andb_true_iff in H as [_ Hs]. rewrite (IH true Hs).
    destruct s; [discriminate|reflexivity].
  - rewrite (IH false H). destruct s; reflexivity.
Qed.

Lemma collapse_of_spaced (s : string) :
  forall b, spaced b s = true -> collapse is_space " " 0 s = s.
Proof.
  induction s as [|c s IH]; intros b H; [reflexivity|].
  cbn [spaced] in H. cbn [collapse]. destruct (is_space c) eqn:Hc.
  - apply andb_true_iff in H as [H Hs]. apply andb_true_iff in H as [Hsp _].
    apply Ascii.eqb_eq in Hsp. subst c.
    destruct s as [|d s]; [discriminate|].
    pose proof Hs as Hd. cbn [spaced] in Hd. destruct (is_space d) eqn:Hdsp.
    { rewrite andb_false_r in Hd. discriminate. }
    cbn [run_of]. rewrite Hdsp. rewrite (IH true Hs). reflexivity.
  - rewrite (IH false H). reflexivity.
Qed.

Lemma sanitize_text_eq (t : string) :
  sanitize_text t
  = if String.eqb t EmptyString then EmptyString
    else Str.strip
           (collapse is_space " " 0 (replace_class control_class " " t)).
Proof.
  unfold sanitize_text, Re.sub. rewrite sub_class, sub_runs. reflexivity.
Qed.

(** X10. What [sanitize_text] returns has no control character and no whitespace
    but single spaces between other characters; a text of that form is returned
    as it is, so a second pass changes nothing. *)
Theorem sanitize_text_normal_form (t : string) :
  sanitized (sanitize_text t) = true
  /\ (sanitized t = true -> sanitize_text t = t)
  /\ sanitize_text (sanitize_text t) = sanitize_text t.
Proof.
  assert (Hnormal : forall s, sanitized (sanitize_text s) = true).
  { intros s. rewrite sanitize_text_eq.
    destruct (String.eqb s EmptyString); [reflexivity|].
    set (t1 := replace_class control_class " " s).
    set (t2 := collapse is_space " " 0 t1).
    assert (H1 : all_chars (fun c => negb (control_class c)) t1 = true).
    { apply replace_class_chars; [reflexivity|].
      intros c Hc. rewrite Hc. reflexivity. }
    assert (H2 : all_chars (fun c => negb (control_class c)) t2 = true)
      by (apply collapse_chars; [reflexivity|exact H1]).
    pose proof (proj1 (collapse_single_spaces t1)) as Hs2. fold t2 in Hs2.
    unfold sanitized. rewrite (all_chars_strip _ _ H2). cbn [andb].
    unfold Str.strip.
    apply lstrip_single_spaces in Hs2.
    destruct (rstrip_spaced _ true Hs2) as [-> | Hsp]; [reflexivity|].
    destruct (Str.rstrip (Str.lstrip t2)); [reflexivity|exact Hsp]. }
  assert (Hfixed : forall s, sanitized s = true -> sanitize_text s = s).
  { intros s Hs. rewrite sanitize_text_eq.
    destruct s as [|c s]; [reflexivity|].
    unfold sanitized in Hs. apply andb_true_iff in Hs as [Hc Hsp].
    change (String.eqb (String c s) EmptyString) with false. cbv iota.
    rewrite (replace_class_none control_class " " _ Hc).
    rewrite (collapse_of_spaced _ true Hsp).
    unfold Str.strip.
    assert (Str.lstrip (String c s) = String c s) as ->.
    { cbn [spaced] in Hsp. cbn [Str.lstrip]. destruct (is_space c);
        [rewrite andb_false_r in Hsp; discriminate|reflexivity]. }
    apply (rstrip_of_spaced _ true Hsp). }
  split; [apply Hnormal|]. split; [apply Hfixed|]. apply Hfixed, Hnormal.
Qed.

End Sanitize.

(** ** The order of the ranked chunks *)

Section RankedOrder.
Import ranking Heap.
Context (E : Externals).

(** The sort key of a chunk of the store. *)
Definition score_at (h : Store) (l : loc) : Q :=
  match dicts h !! l with
  | Some c => get (hybrid_score c) 0%Q
  | None => 0%Q
  end.

Lemma read_keys_scores (h : Store) (v : list loc) :
  (forall l, l ∈ v -> is_Some (dicts h !! l)) ->
  map_m (fun l => let! c := read_dict l in
                  ret (l, get (hybrid_score c) 0%Q)) v h
  = Some (map (fun l => (l, score_at h l)) v, h).
Proof.
  induction v as [|l v IH]; intros Halloc; [reflexivity|].
  destruct (Halloc l) as [c Hc]; [left|].
  cbn [map_m map]. unfold bind at 1. unfold bind at 1. unfold read_dict at 1.
  rewrite Hc. cbn [ret]. unfold bind at 1.
  rewrite IH by (intros l' Hl'; apply Halloc; right; exact Hl').
  unfold score_at. rewrite Hc. reflexivity.
Qed.

(** Descending order of the keys. *)
Definition desc {A : Type} (key : A -> Q) (x y : A) : Prop :=
  (key y <= key x)%Q.

Lemma insert_desc_sorted {A : Type} (key : A -> Q) (x : A) (l : list A) :
  StronglySorted (desc key) l -> StronglySorted (desc key) (insert_desc key x l).
Proof.
  induction 1 as [|y l Hl IH Hy]; cbn [insert_desc].
  - repeat constructor.
  - destruct (Qle_bool (key x) (key y)) eqn:Hxy.
    + apply Qle_bool_iff in Hxy. constructor; [exact IH|].
      rewrite (insert_desc_perm key x l). constructor; [exact Hxy|exact Hy].
    + assert (Hlt : (key y < key x)%Q).
      { apply Qnot_le_lt. intros Hle. apply Qle_bool_iff in Hle. congruence. }
      constructor; [constructor; assumption|].
      constructor; [apply Qlt_le_weak, Hlt|].
      eapply Forall_impl; [exact Hy|]. intros z Hz. unfold desc in *.
      apply Qlt_le_weak in Hlt. eapply Qle_trans; eassumption.
Qed.

Lemma sort_desc_sorted {A : Type} (key : A -> Q) (l : list A) :
  StronglySorted (desc key) (sort_desc key l).
Proof.
  unfold sort_desc.
  enough (forall acc, StronglySorted (desc key) acc ->
            StronglySorted (desc key)
              (fold_left (fun acc x => insert_desc key x acc) l acc)) as H
    by (apply H; constructor).
  induction l as [|x l IH]; intros acc Hacc; [exact Hacc|].
  cbn [fold_left]. apply IH, insert_desc_sorted, Hacc.
Qed.

Lemma strongly_sorted_map {A B : Type} (f : A -> B) (R : B -> B -> Prop)
    (l : list A) :
  StronglySorted (fun x y => R (f x) (f y)) l -> StronglySorted R (map f l).
Proof.
  induction 1 as [|x l Hl IH Hx]; cbn [map]; constructor; [exact IH|].
  apply Forall_fmap. exact Hx.
Qed.

(** X11. The list that [hybrid_rank_chunks] returns has one chunk per chunk
    given and is in descending order of the hybrid score: no chunk comes before
    a chunk with a higher score, and the first one has the highest score. *)
Theorem hybrid_rank_chunks_sorted (h : Store) (chunks : loc)
    (items : list loc) (cs : list Chunk) (query : string)
    (weights : option Weights) :
  lists h !! chunks = Some items ->
  Forall2 (fun l c => dicts h !! l = Some c) items cs ->
  exists ranked h' out,
    hybrid_rank_chunks E chunks query weights h = Some (ranked, h')
    /\ lists h' !! ranked = Some out
    /\ length out = length items
    /\ (forall l, l ∈ out -> exists c, dicts h' !! l = Some c)
    /\ StronglySorted (fun a b => (score_at h' b <= score_at h' a)%Q) out
    /\ (forall top rest l,
          out = top :: rest -> l ∈ out ->
          (score_at h' l <= score_at h' top)%Q).
Proof.
  intros Hitems Halloc. unfold hybrid_rank_chunks.
  set (w := get weights default_weights).
  set (r := fresh (dom (lists h))).
  assert (Hr : lists h !! r = None).
  { apply not_elem_of_dom. apply is_fresh. }
  set (h1 := mkStore (dicts h) (<[r := []]> (lists h))).
  assert (Hne : chunks <> r) by congruence.
  destruct (for_each_rank_one E w query r items h1 [] cs)
    as (h2 & copies & Hloop & Hsub & Hlists & Hr2 & Hcopies).
  { exact Halloc. }
  { simpl. apply lookup_insert_eq. }
  simpl in Hr2.
  assert (Hallocated : forall l, l ∈ copies -> is_Some (dicts h2 !! l)).
  { intros l Hl. apply list_elem_of_lookup in Hl as [i Hi].
    destruct (Forall2_lookup_r _ _ _ _ _ Hcopies Hi) as (c & _ & _ & Hc).
    eauto. }
  pose proof (read_keys_scores h2 copies Hallocated) as Hkeys.
  set (keyed := map (fun l => (l, score_at h2 l)) copies) in *.
  set (out := map fst (sort_desc snd keyed)).
  set (h' := mkStore (dicts h2) (<[r := out]> (lists h2))).
  assert (Hscore : forall l, score_at h' l = score_at h2 l) by reflexivity.
  assert (Hperm : Permutation out copies).
  { unfold out. rewrite sort_desc_perm. unfold keyed.
    rewrite map_map. cbn [fst]. rewrite map_id. reflexivity. }
  assert (Hsorted :
    StronglySorted (fun a b => (score_at h' b <= score_at h' a)%Q) out).
  { unfold out. apply strongly_sorted_map.
    pose proof (sort_desc_sorted snd keyed) as Hs.
    assert (Hin : Forall (fun p => snd p = score_at h2 (fst p))
                    (sort_desc snd keyed)).
    { rewrite sort_desc_perm. unfold keyed. apply Forall_fmap.
      apply Forall_forall. intros l _. reflexivity. }
    revert Hs Hin. generalize (sort_desc snd keyed) as sorted.
    induction 1 as [|p sorted Hs IH Hp]; intros Hin; constructor.
    - apply IH. apply Forall_cons in Hin. tauto.
    - apply Forall_cons in Hin as [Hp' Hin].
      rewrite Forall_forall in Hp, Hin |- *. intros q Hq.
      specialize (Hp q Hq). specialize (Hin q Hq). unfold desc in Hp.
      rewrite !Hscore, <- Hp', <- Hin. exact Hp. }
  exists r, h', out. split.
  { unfold bind at 1. unfold new_list. fold r. fold h1. simpl.
    unfold bind at 1. unfold read_list at 1. simpl.
    rewrite lookup_insert_ne by congruence. rewrite Hitems. simpl.
    unfold bind at 1. rewrite Hloop. simpl.
    unfold bind at 1. unfold sort_ranked. unfold bind at 1.
    unfold read_list at 1. rewrite Hr2. simpl.
    unfold bind at 1. rewrite Hkeys. simpl.
    unfold update_list. rewrite Hr2. reflexivity. }
  split; [simpl; apply lookup_insert_eq|]. split.
  { rewrite Hperm. apply Forall2_length in Hcopies, Halloc. lia. }
  split.
  { intros l Hl. rewrite Hperm in Hl. destruct (Hallocated l Hl) as [c Hc].
    exists c. exact Hc. }
  split; [exact Hsorted|].
  intros top rest l Hout Hl. rewrite Hout in Hsorted, Hl.
  apply StronglySorted_inv in Hsorted as [_ Htop].
  apply elem_of_cons in Hl as [->|Hl]; [apply Qle_refl|].
  rewrite Forall_forall in Htop. apply Htop, Hl.
Qed.

End RankedOrder.

Lemma hybrid_rank_chunks_sorted_witness :
  exists ranked h' out,
    ranking.hybrid_rank_chunks example_externals 1%positive "discount code"
      None example_store = Some (ranked, h')
    /\ Heap.lists h' !! ranked = Some out
    /\ length out = length [1%positive; 2%positive]
    /\ (forall l, l ∈ out -> exists c, Heap.dicts h' !! l = Some c)
    /\ StronglySorted (fun a b => (score_at h' b <= score_at h' a)%Q) out
    /\ (forall top rest l,
          out = top :: rest -> l ∈ out ->
          (score_at h' l <= score_at h' top)%Q).
Proof.
  apply (hybrid_rank_chunks_sorted example_externals example_store
           1%positive [1%positive; 2%positive] [promo_chunk; far_chunk]
           "discount code" None).
  - reflexivity.
  - repeat constructor.
Defined.

(** ** The ranked chunks by value, and the embedding component *)

Section RankedValues.
Import ranking Heap.
Context (E : Externals).

Lemma insert_desc_Forall2 {A B : Type} (R : A -> B -> Prop)
    (key_a : A -> Q) (key_b : B -> Q) :
  (forall a b, R a b -> key_a a = key_b b) ->
  forall x y l1 l2,
  R x y -> Forall2 R l1 l2 ->
  Forall2 R (insert_desc key_a x l1) (insert_desc key_b y l2).
Proof.
  intros Hkey x y l1 l2 Hxy Hall.
  induction Hall as [|a b l1 l2 Hab Hall IH]; cbn [insert_desc].
  - repeat constructor. exact Hxy.
  - rewrite (Hkey x y Hxy), (Hkey a b Hab).
    destruct (Qle_bool (key_b y) (key_b b)).
    + constructor; [exact Hab|exact IH].
    + constructor; [exact Hxy|]. constructor; [exact Hab|exact Hall].
Qed.

Lemma sort_desc_Forall2 {A B : Type} (R : A -> B -> Prop)
    (key_a : A -> Q) (key_b : B -> Q) (l1 : list A) (l2 : list B) :
  (forall a b, R a b -> key_a a = key_b b) ->
  Forall2 R l1 l2 ->
  Forall2 R (sort_desc key_a l1) (sort_desc key_b l2).
Proof.
  intros Hkey Hall. unfold sort_desc.
  enough (forall acc1 acc2, Forall2 R acc1 acc2 ->
            Forall2 R (fold_left (fun acc x => insert_desc key_a x acc) l1 acc1)
                      (fold_left (fun acc x => insert_desc key_b x acc) l2 acc2))
    as H by (apply H; constructor).
  induction Hall as [|a b l1 l2 Hab Hall IH]; intros acc1 acc2 Hacc;
    [exact Hacc|].
  cbn [fold_left]. apply IH. apply insert_desc_Forall2; assumption.
Qed.

(** The run of [hybrid_rank_chunks]: the copies it makes, and the list it
    returns, which holds the copies in the order of the sort. *)
Lemma hybrid_rank_chunks_run (h : Store) (chunks : loc) (items : list loc)
    (cs : list Chunk) (query : string) (weights : option Weights) :
  lists h !! chunks = Some items ->
  Forall2 (fun l c => dicts h !! l = Some c) items cs ->
  exists ranked h' copies,
    hybrid_rank_chunks E chunks query weights h = Some (ranked, h')
    /\ Forall2 (fresh_copy E (get weights default_weights) query h h')
               cs copies
    /\ lists h' !! ranked
       = Some (map fst (sort_desc snd
                          (map (fun l => (l, score_at h' l)) copies))).
Proof.
  intros Hitems Halloc. unfold hybrid_rank_chunks.
  set (w := get weights default_weights).
  set (r := fresh (dom (lists h))).
  assert (Hr : lists h !! r = None).
  { apply not_elem_of_dom. apply is_fresh. }
  set (h1 := mkStore (dicts h) (<[r := []]> (lists h))).
  assert (Hne : chunks <> r) by congruence.
  destruct (for_each_rank_one E w query r items h1 [] cs)
    as (h2 & copies & Hloop & Hsub & Hlists & Hr2 & Hcopies).
  { exact Halloc. }
  { simpl. apply lookup_insert_eq. }
  simpl in Hr2.
  assert (Hallocated : forall l, l ∈ copies -> is_Some (dicts h2 !! l)).
  { intros l Hl. apply list_elem_of_lookup in Hl as [i Hi].
    destruct (Forall2_lookup_r _ _ _ _ _ Hcopies Hi) as (c & _ & _ & Hc).
    eauto. }
  pose proof (read_keys_scores h2 copies Hallocated) as Hkeys.
  set (keyed := map (fun l => (l, score_at h2 l)) copies) in *.
  set (out := map fst (sort_desc snd keyed)).
  exists r, (mkStore (dicts h2) (<[r := out]> (lists h2))), copies.
  split.
  { unfold bind at 1. unfold new_list. fold r. fold h1. simpl.
    unfold bind at 1. unfold read_list at 1. simpl.
    rewrite lookup_insert_ne by congruence. rewrite Hitems. simpl.
    unfold bind at 1. rewrite Hloop. simpl.
    unfold bind at 1. unfold sort_ranked. unfold bind at 1.
    unfold read_list at 1. rewrite Hr2. simpl.
    unfold bind at 1. rewrite Hkeys. simpl.
    unfold update_list. rewrite Hr2. reflexivity. }
  split.
  { eapply Forall2_impl; [exact Hcopies|].
    intros c l [Hnone Hsome]. split; [exact Hnone|exact Hsome]. }
  simpl. apply lookup_insert_eq.
Qed.

(** The list that [hybrid_rank_chunks] returns holds, in its order, the
    chunks of [ranked_chunks]. *)
Lemma hybrid_rank_chunks_values (h : Store) (chunks : loc)
    (items : list loc) (cs : list Chunk) (query : string)
    (weights : option Weights) :
  lists h !! chunks = Some items ->
  Forall2 (fun l c => dicts h !! l = Some c) items cs ->
  exists ranked h' out,
    hybrid_rank_chunks E chunks query weights h = Some (ranked, h')
    /\ lists h' !! ranked = Some out
    /\ Forall2 (fun l c => dicts h' !! l = Some c) out
               (ranked_chunks E weights query cs).
Proof.
  intros Hitems Halloc.
  destruct (hybrid_rank_chunks_run h chunks items cs query weights
              Hitems Halloc) as (ranked & h' & copies & Hrun & Hcopies & Hout).
  eexists ranked, h', _. split; [exact Hrun|]. split; [exact Hout|].
  unfold ranked_chunks.
  set (w := get weights default_weights) in *.
  set (R := fun (p : loc * Q) (c : Chunk) =>
              dicts h' !! p.1 = Some c /\ p.2 = get (hybrid_score c) 0%Q).
  assert (Hkeyed : Forall2 R (map (fun l => (l, score_at h' l)) copies)
                     (map (ranked_copy E w query) cs)).
  { apply Forall2_fmap. apply Forall2_flip.
    eapply Forall2_impl; [exact Hcopies|].
    intros c l [_ Hsome]. unfold R. cbn [fst snd]. split; [exact Hsome|].
    unfold score_at. rewrite Hsome. reflexivity. }
  pose proof (sort_desc_Forall2 R snd (fun c => get (hybrid_score c) 0%Q)
                _ _ (fun p c HR => proj2 HR) Hkeyed) as Hsorted.
  rewrite <- (map_id (sort_desc (fun c => get (hybrid_score c) 0%Q) _)).
  apply Forall2_fmap.
  eapply Forall2_impl; [exact Hsorted|].
  intros p c [Hp _]. exact Hp.
Qed.

(** C6, as amended. For every chunk given to [hybrid_rank_chunks], the score
    written on its copy in the returned list is the weighted sum, times the
    document-type weight, in which the embedding component is the float
    difference of 1.0 and the supplied distance (1.0 when the chunk has
    none), taken as it is: nothing clamps it. *)
Theorem embedding_component_is_one_minus_distance (h : Store) (chunks : loc)
    (items : list loc) (cs : list Chunk) (query : string)
    (weights : option Weights) :
  lists h !! chunks = Some items ->
  Forall2 (fun l c => dicts h !! l = Some c) items cs ->
  exists ranked h' out copies,
    hybrid_rank_chunks E chunks query weights h = Some (ranked, h')
    /\ lists h' !! ranked = Some out
    /\ Permutation out copies
    /\ Forall2
         (fun chunk l =>
            exists ranked_chunk,
              dicts h' !! l = Some ranked_chunk
              /\ hybrid_score ranked_chunk
                 = Some
                     ((nearest_double E (1.0 - get (distance chunk) 1.0)
                       * w_embedding (get weights default_weights)
                       + Qmin 1.0 (calculate_bm25_score E query
                                     (get (text chunk) EmptyString) / 10.0)
                         * w_bm25 (get weights default_weights)
                       + metadata_score (get (text chunk) EmptyString)
                         * w_metadata (get weights default_weights)
                       + phrase_score query (get (text chunk) EmptyString)
                         * w_phrase (get weights default_weights))
                      * doc_type_weights
                          (classify_document_type E
                             (get (source chunk) EmptyString)))%Q)
         cs copies.
Proof.
  intros Hitems Halloc.
  destruct (hybrid_rank_chunks_run h chunks items cs query weights
              Hitems Halloc) as (ranked & h' & copies & Hrun & Hcopies & Hout).
  eexists ranked, h', _, copies. split; [exact Hrun|]. split; [exact Hout|].
  split.
  { rewrite sort_desc_perm, map_map. cbn [fst]. rewrite map_id. reflexivity. }
  eapply Forall2_impl; [exact Hcopies|].
  intros chunk l [_ Hsome]. eexists. split; [exact Hsome|]. reflexivity.
Qed.

End RankedValues.

Lemma embedding_component_is_one_minus_distance_witness :
  exists ranked h' out copies,
    ranking.hybrid_rank_chunks example_externals 1%positive "discount code"
      None example_store = Some (ranked, h')
    /\ Heap.lists h' !! ranked = Some out
    /\ Permutation out copies
    /\ Forall2
         (fun chunk l =>
            exists ranked_chunk,
              Heap.dicts h' !! l = Some ranked_chunk
              /\ hybrid_score ranked_chunk
                 = Some
                     ((nearest_double example_externals
                         (1.0 - get (distance chunk) 1.0)
                       * ranking.w_embedding (get None ranking.default_weights)
                       + Qmin 1.0 (ranking.calculate_bm25_score
                                     example_externals "discount code"
                                     (get (text chunk) EmptyString) / 10.0)
                         * ranking.w_bm25 (get None ranking.default_weights)
                       + ranking.metadata_score (get (text chunk) EmptyString)
                         * ranking.w_metadata
                             (get None ranking.default_weights)
                       + ranking.phrase_score "discount code"
                           (get (text chunk) EmptyString)
                         * ranking.w_phrase (get None ranking.default_weights))
                      * ranking.doc_type_weights
                          (ranking.classify_document_type example_externals
                             (get (source chunk) EmptyString)))%Q)
         [promo_chunk; far_chunk] copies.
Proof.
  apply (embedding_component_is_one_minus_distance example_externals
           example_store 1%positive [1%positive; 2%positive]
           [promo_chunk; far_chunk] "discount code" None).
  - reflexivity.
  - repeat constructor.
Defined.

(** The chunk supplied with distance 1.5 is ranked with the component -0.5:
    its score is negative. *)
Example far_chunk_ranked_below_zero :
  exists score,
    map hybrid_score
      (ranking.ranked_chunks example_externals None "discount code"
         [far_chunk])
    = [Some score]
    /\ (score == -0.175)%Q.
Proof. eexists. split; [vm_compute; reflexivity|reflexivity]. Qed.

(** ** The bands of the strategy selector *)

Section StrategyBands.
Import ranking Num.

Lemma Qltb_ge (x y : Q) : Qltb x y = false <-> (y <= x)%Q.
Proof.
  unfold Qltb. rewrite negb_false_iff. apply Qle_bool_iff.
Qed.

Lemma Qmin_le_l (x y : Q) : (Qmin x y <= x)%Q.
Proof.
  unfold Qmin. destruct (Qle_bool x y) eqn:H; [apply Qle_refl|].
  apply Qlt_le_weak, Qnot_le_lt. intros Hle.
  apply Qle_bool_iff in Hle. congruence.
Qed.

Lemma domain_overlap_ratio_bounds (chunks : list Chunk) (prompt : string) :
  (0 <= domain_overlap_ratio chunks prompt <= 1)%Q.
Proof.
  unfold domain_overlap_ratio.
  assert (Hle : matched_terms chunks prompt
                <= length (prompt_domain_terms prompt))
    by apply length_filter.
  generalize dependent (matched_terms chunks prompt). intros m Hle.
  destruct (prompt_domain_terms prompt) as [|t ts]; [split; discriminate|].
  set (n := length (t :: ts)) in *.
  assert (Hn : 0 < n) by (unfold n; simpl; lia).
  split.
  - apply Qle_shift_div_l.
    + unfold Qlt. simpl. lia.
    + unfold Qle. simpl. lia.
  - apply Qle_shift_div_r.
    + unfold Qlt. simpl. lia.
    + unfold Qle. simpl. lia.
Qed.

(** X12. The overlap ratio lies between 0 and 1 and the confidence is at most 1;
    the selector proceeds exactly when its strategy is not [abort], and then the
    ratio is at least 0.3 and the confidence at least 0.4; the strategy is
    [minimal] below 0.6, [standard] below 0.8 and [comprehensive] from 0.8 on. *)
Theorem adaptive_strategy_bands (chunks : list Chunk) (prompt : string) :
  let ratio := domain_overlap_ratio chunks prompt in
  let decision := adaptive_test_generation_strategy chunks prompt in
  (0 <= ratio <= 1)%Q
  /\ (confidence decision <= 1)%Q
  /\ (should_proceed decision = true <-> strategy decision <> "abort")
  /\ (should_proceed decision = true ->
      chunks <> [] /\ (0.3 <= ratio)%Q /\ (0.4 <= confidence decision)%Q
      /\ ((strategy decision = "minimal" /\ (confidence decision < 0.6)%Q)
          \/ (strategy decision = "standard"
              /\ (0.6 <= confidence decision < 0.8)%Q)
          \/ (strategy decision = "comprehensive"
              /\ (0.8 <= confidence decision)%Q))).
Proof.
  cbv zeta. split; [apply domain_overlap_ratio_bounds|].
  unfold adaptive_test_generation_strategy.
  destruct chunks as [|c cs].
  { cbn. split; [discriminate|]. split; [|discriminate].
    split; [discriminate|congruence]. }
  set (chunks := c :: cs).
  set (ratio := domain_overlap_ratio chunks prompt).
  destruct (Qltb ratio 0.3) eqn:Hratio.
  { cbn. split; [discriminate|]. split; [|discriminate].
    split; [discriminate|congruence]. }
  apply Qltb_ge in Hratio.
  match goal with
  | |- context [Qmin 1.0 ?x] => set (raw := x)
  end.
  set (conf := Qmin 1.0 raw).
  assert (Hconf : (conf <= 1)%Q).
  { apply Qle_trans with (1.0%Q); [apply Qmin_le_l|].
    unfold Qle. simpl. lia. }
  destruct (Qltb conf 0.4) eqn:H4.
  { cbn. split; [exact Hconf|]. split; [|discriminate].
    split; [discriminate|congruence]. }
  apply Qltb_ge in H4.
  destruct (Qltb conf 0.6) eqn:H6.
  { apply Qltb_lt in H6. cbn. split; [exact Hconf|]. split.
    - split; [discriminate|reflexivity].
    - intros _. split; [discriminate|]. split; [exact Hratio|].
      split; [exact H4|]. left. split; [reflexivity|exact H6]. }
  apply Qltb_ge in H6.
  destruct (Qltb conf 0.8) eqn:H8.
  { apply Qltb_lt in H8. cbn. split; [exact Hconf|]. split.
    - split; [discriminate|reflexivity].
    - intros _. split; [discriminate|]. split; [exact Hratio|].
      split; [exact H4|]. right. left. split; [reflexivity|].
      split; assumption. }
  apply Qltb_ge in H8. cbn. split; [exact Hconf|]. split.
  - split; [discriminate|reflexivity].
  - intros _. split; [discriminate|]. split; [exact Hratio|].
    split; [exact H4|]. right. right. split; [reflexivity|exact H8].
Qed.

End StrategyBands.

(** ** BM25 without a common term *)

Section Bm25.
Import ranking.
Context (E : Externals).

Lemma term_freq_absent (term : string) (doc_terms : list string) :
  term ∉ doc_terms -> term_freq term doc_terms = 0.
Proof.
  unfold term_freq. induction doc_terms as [|d doc_terms IH]; [reflexivity|].
  intros Hnot. apply not_elem_of_cons in Hnot as [Hne Hnot].
  rewrite filter_cons. destruct (decide _) as [Heq|_]; [|exact (IH Hnot)].
  apply Is_true_true, String.eqb_eq in Heq. congruence.
Qed.

(** X13. Where no word of the query is a word of the document, the BM25 score is
    0.0, whatever the corpus statistics. *)
Theorem bm25_without_common_term (query document : string) :
  (forall term,
     term ∈ Re.findall words_re (Str.lower query) ->
     term ∉ Re.findall words_re (Str.lower document)) ->
  calculate_bm25_score E query document = 0.0%Q.
Proof.
  intros Hdisjoint. unfold calculate_bm25_score. cbv zeta.
  set (doc_terms := Re.findall words_re (Str.lower document)) in *.
  assert (Hterms : forall term,
            term ∈ remove_dups (Re.findall words_re (Str.lower query)) ->
            term_freq term doc_terms = 0).
  { intros term Hterm. apply term_freq_absent, Hdisjoint.
    apply elem_of_remove_dups. exact Hterm. }
  revert Hterms.
  generalize (remove_dups (Re.findall words_re (Str.lower query))) as terms.
  generalize (0.0%Q) as score.
  intros score terms. revert score.
  induction terms as [|term terms IH]; intros score Hterms; [reflexivity|].
  cbn [fold_left]. rewrite (Hterms term) by left. cbn [Nat.ltb Nat.leb].
  apply IH. intros t Ht. apply Hterms. right. exact Ht.
Qed.

End Bm25.

Lemma bm25_without_common_term_witness :
  ranking.calculate_bm25_score example_externals "login password"
    "Discount code SAVE10 gives 10% off"
  = 0.0%Q.
Proof.
  apply (bm25_without_common_term example_externals "login password"
           "Discount code SAVE10 gives 10% off").
  apply Forall_forall. vm_compute.
  repeat constructor; intros H; apply list_elem_of_In in H; simpl in H;
    repeat (destruct H as [H|H]; [discriminate H|]); exact H.
Defined.

(** ** The document types *)

Section DocumentTypes.
Context (E : Externals).

Lemma best_intent_label (t : string) (intents : list (string * string)) :
  forall init label score,
  semantic_matcher.best_intent E t intents init = Some (label, score) ->
  (label, score) = init
  \/ (label ∈ map fst intents /\ Num.Qltb (snd init) score = true).
Proof.
  unfold semantic_matcher.best_intent.
  induction intents as [|item intents IH]; intros init label score.
  - cbn [fold_left]. intros [= <-]. left. reflexivity.
  - cbn [fold_left]. destruct init as [best_type best_score].
    destruct (similarity E t (snd item)) as [s|].
    + destruct (Num.Qltb best_score s) eqn:Hs; intros H; apply IH in H.
      * right. destruct H as [[= -> ->]|[Hin Hlt]].
        -- split; [left|exact Hs].
        -- split; [right; exact Hin|]. cbn [snd] in *.
           apply Qltb_lt in Hs, Hlt. apply Qltb_lt.
           eapply Qlt_trans; eassumption.
      * destruct H as [H|[Hin Hlt]]; [left; exact H|].
        right. split; [right; exact Hin|exact Hlt].
    + intros H. exfalso. revert H. clear.
      induction intents as [|i intents IH]; [discriminate|exact IH].
Qed.

Definition specific_types : list string :=
  [ "specification"; "validation_rules"; "api_documentation"; "ui_guidelines" ].

Lemma matcher_doc_type (source content_sample : string) :
  let r := semantic_matcher.classify_document_type E source content_sample in
  r = ("general", 0.3%Q)
  \/ (fst r ∈ specific_types /\ (0.38 <= snd r)%Q).
Proof.
  unfold semantic_matcher.classify_document_type. cbv zeta.
  destruct (semantic_matcher.best_intent E _ _ _) as [[best_type best_score]|]
    eqn:Hbest; [|left; reflexivity].
  destruct (Num.Qltb best_score config_semantic.threshold_document_classification)
    eqn:Hlow; [left; reflexivity|].
  right. apply best_intent_label in Hbest as [[= -> ->]|[Hin _]].
  - discriminate Hlow.
  - split; [exact Hin|].
    unfold Num.Qltb in Hlow. apply negb_false_iff, Qle_bool_iff in Hlow.
    exact Hlow.
Qed.

(** X14. The matcher classifies a document as [general] with the score 0.3, or
    as one of the four specific types with a score of at least 0.38. *)
Theorem classify_document_type_result (source content_sample : string) :
  let '(label, score) :=
    semantic_matcher.classify_document_type E source content_sample in
  (label = "general" /\ score = 0.3%Q)
  \/ (label ∈ specific_types /\ (0.38 <= score)%Q).
Proof.
  pose proof (matcher_doc_type source content_sample) as H. cbv zeta in H.
  destruct (semantic_matcher.classify_document_type E source content_sample)
    as [label score].
  destruct H as [[= -> ->]|H]; [left; split; reflexivity|right; exact H].
Qed.

Lemma keyword_doc_type_known (source : string) :
  ranking.keyword_doc_type source = "general"
  \/ ranking.keyword_doc_type source ∈ specific_types.
Proof.
  unfold ranking.keyword_doc_type. cbv zeta.
  repeat match goal with
         | |- context [if ?b then _ else _] => destruct b
         end;
    first [left; reflexivity
          |right; apply list_elem_of_In; simpl; tauto].
Qed.

(** X15. The type given to a ranked chunk is [general] or one of the four
    specific types, with the matcher or with the keyword fallback, and the
    multiplier of its score lies between 1 and 1.5. *)
Theorem ranked_doc_type_known (source : string) :
  let doc_type := ranking.classify_document_type E source in
  (doc_type = "general" \/ doc_type ∈ specific_types)
  /\ (1 <= ranking.doc_type_weights doc_type <= 1.5)%Q.
Proof.
  cbv zeta.
  assert (Hknown : ranking.classify_document_type E source = "general"
                   \/ ranking.classify_document_type E source ∈ specific_types).
  { unfold ranking.classify_document_type.
    destruct (matcher_available E); [|apply keyword_doc_type_known].
    pose proof (matcher_doc_type source EmptyString) as H. cbv zeta in H.
    destruct (semantic_matcher.classify_document_type E source EmptyString)
      as [label score].
    cbn [fst]. destruct H as [[= -> _]|[H _]]; auto. }
  split; [exact Hknown|].
  destruct Hknown as [->|Hin].
  - split; vm_compute; discriminate.
  - apply list_elem_of_In in Hin. simpl in Hin.
    destruct Hin as [<-|[<-|[<-|[<-|[]]]]]; split; vm_compute; discriminate.
Qed.

End DocumentTypes.

(** ** The matcher when the embedding model fails *)

Section MatcherFailure.
Import semantic_matcher.
Context (E : Externals).
Hypothesis model_fails : forall a b, similarity E a b = None.

Lemma max_similarity_fails (t intent : string) (intents : list string) :
  max_similarity E t (intent :: intents) = None.
Proof.
  unfold max_similarity. cbn [fold_left]. rewrite model_fails.
  induction intents as [|i intents IH]; [reflexivity|exact IH].
Qed.

Lemma best_intent_fails (t : string) (item : string * string)
    (intents : list (string * string)) (init : string * Q) :
  best_intent E t (item :: intents) init = None.
Proof.
  unfold best_intent. cbn [fold_left]. destruct init as [a b].
  rewrite model_fails.
  induction intents as [|i intents IH]; [reflexivity|exact IH].
Qed.

(** X16. When the embedding model raises, every detector gives its negative
    answer: no button or select action, no zero-cost context, the type
    [general]; a step is a verification only by one of the three literal
    phrases. *)
Theorem matcher_fails_closed (step_text : string) :
  match_button_action E step_text = (false, 0.0%Q)
  /\ match_select_action E step_text = (false, 0.0%Q)
  /\ is_validation_context_zero_cost E step_text = (false, 0.0%Q)
  /\ (forall sample, classify_document_type E step_text sample
                     = ("general", 0.3%Q))
  /\ is_verification_step E step_text
     = if existsb (fun pattern =>
                     Str.contains pattern (Str.strip (Str.lower step_text)))
                  literal_checks
       then (true, 0.95%Q) else (false, 0.0%Q).
Proof.
  split; [|split; [|split; [|split]]].
  - unfold match_button_action, button_intents.
    rewrite max_similarity_fails. reflexivity.
  - unfold match_select_action, select_intents.
    rewrite max_similarity_fails. reflexivity.
  - unfold is_validation_context_zero_cost, zero_cost_intents.
    rewrite max_similarity_fails. destruct (Re.search _ _); reflexivity.
  - intros sample. unfold classify_document_type, doc_type_intents.
    cbv zeta. rewrite best_intent_fails. reflexivity.
  - unfold is_verification_step, verification_intents. cbv zeta.
    rewrite max_similarity_fails. reflexivity.
Qed.

End MatcherFailure.

Definition failing_externals : Externals :=
  mkExternals (fun _ => 0%Q) (fun q => q) (fun _ _ => None) true ∅ 0.

Lemma matcher_fails_closed_witness :
  semantic_matcher.match_button_action failing_externals "Click the Pay button"
  = (false, 0.0%Q)
  /\ semantic_matcher.match_select_action failing_externals
       "Click the Pay button" = (false, 0.0%Q)
  /\ semantic_matcher.is_validation_context_zero_cost failing_externals
       "Click the Pay button" = (false, 0.0%Q)
  /\ (forall sample,
        semantic_matcher.classify_document_type failing_externals
          "Click the Pay button" sample = ("general", 0.3%Q))
  /\ semantic_matcher.is_verification_step failing_externals
       "Click the Pay button"
     = if existsb (fun pattern =>
                     Str.contains pattern
                       (Str.strip (Str.lower "Click the Pay button")))
                  semantic_matcher.literal_checks
       then (true, 0.95%Q) else (false, 0.0%Q).
Proof.
  apply (matcher_fails_closed failing_externals).
  intros a b. reflexivity.
Defined.

(** ** The steps of a step text *)

Section StepTexts.
Import validation.

Lemma rstrip_idempotent (s : string) : Str.rstrip (Str.rstrip s) = Str.rstrip s.
Proof.
  induction s as [|c s IH]; [reflexivity|]. cbn [Str.rstrip].
  destruct (Str.rstrip s) as [|d t] eqn:Hr.
  - destruct (is_space c) eqn:Hc; [reflexivity|].
    cbn [Str.rstrip]. rewrite Hc. reflexivity.
  - cbn [Str.rstrip] in *. rewrite IH. reflexivity.
Qed.

Definition starts_without_space (s : string) : Prop :=
  match s with
  | String c _ => is_space c = false
  | EmptyString => True
  end.

Lemma lstrip_starts (s : string) : starts_without_space (Str.lstrip s).
Proof.
  induction s as [|c s IH]; [exact I|]. cbn [Str.lstrip].
  destruct (is_space c) eqn:Hc; [exact IH|exact Hc].
Qed.

Lemma rstrip_starts (s : string) :
  starts_without_space s -> starts_without_space (Str.rstrip s).
Proof.
  destruct s as [|c s]; [trivial|]. cbn [starts_without_space Str.rstrip].
  intros Hc. destruct (Str.rstrip s); [rewrite Hc|]; exact Hc.
Qed.

Lemma lstrip_of_started (s : string) :
  starts_without_space s -> Str.lstrip s = s.
Proof.
  destruct s as [|c s]; [reflexivity|]. cbn [starts_without_space Str.lstrip].
  intros ->. reflexivity.
Qed.

Lemma strip_idempotent (s : string) : Str.strip (Str.strip s) = Str.strip s.
Proof.
  unfold Str.strip.
  rewrite (lstrip_of_started (Str.rstrip (Str.lstrip s)))
    by apply rstrip_starts, lstrip_starts.
  apply rstrip_idempotent.
Qed.

(** X17. A step text gives between one and six steps, each of them not empty and
    without whitespace at its ends; a text without any step gives the two
    placeholder steps. *)
Theorem split_steps_shape (raw : string) :
  let steps := split_steps raw in
  1 <= length steps <= 6
  /\ Forall (fun s => s <> EmptyString /\ Str.strip s = s) steps
  /\ (Forall (fun s => Str.strip s = EmptyString)
        (Re.split step_separator raw) ->
      steps = ["Step 1"; "Step 2"]).
Proof.
  cbv zeta. unfold split_steps.
  set (pieces := Re.split step_separator raw).
  set (kept := filter (fun s => negb (String.eqb (Str.strip s) EmptyString))
                 pieces).
  assert (Hkept : Forall (fun s => s <> EmptyString /\ Str.strip s = s)
                    (map Str.strip kept)).
  { apply Forall_fmap, Forall_forall. intros s Hs.
    apply list_elem_of_filter in Hs as [Hs _].
    apply Is_true_true, negb_true_iff, String.eqb_neq in Hs.
    split; [exact Hs|apply strip_idempotent]. }
  assert (Htake : Forall (fun s => s <> EmptyString /\ Str.strip s = s)
                    (take 6 (map Str.strip kept))).
  { apply Forall_take, Hkept. }
  split; [|split].
  - destruct (take 6 (map Str.strip kept)) as [|s parts] eqn:Hparts;
      [simpl; lia|].
    pose proof (f_equal (@length _) Hparts) as Hlen.
    rewrite length_take in Hlen. cbn [length] in Hlen |- *. lia.
  - destruct (take 6 (map Str.strip kept)) as [|s parts]; [|exact Htake].
    repeat constructor; discriminate.
  - intros Hnone.
    assert (kept = []) as ->; [|reflexivity].
    unfold kept. clearbody pieces. clear -Hnone.
    induction Hnone as [|s pieces Hs _ IH]; [reflexivity|].
    rewrite filter_cons. destruct (decide _) as [Hkeep|_]; [|exact IH].
    apply Is_true_true, negb_true_iff, String.eqb_neq in Hkeep. congruence.
Qed.

End StepTexts.

(** ** The schema after validation *)

Section Schema.
Import validation.

(** The form that schema enforcement gives a test case. *)
Definition schema_enforced (chunks : list Chunk) (tc : TestCase) : Prop :=
  truthy_text (test_id tc) = true
  /\ truthy_text (feature tc) = true
  /\ truthy_text (test_scenario tc) = true
  /\ truthy_text (expected_result tc) = true
  /\ (exists l, test_steps tc = Some (StepsList l) /\ l <> [])
  /\ (exists t, test_type tc = Some t
                /\ t ∈ ["positive"; "negative"; "boundary"; "edge_case"])
  /\ (exists p, priority tc = Some p /\ p ∈ ["high"; "medium"; "low"])
  /\ (truthy_text (grounded_in tc) = true
      \/ grounded_in tc = Some (default_grounding chunks)).

Lemma fill_text_truthy (f : string) (v : option string) :
  truthy_text (fst (fill_text f v)) = true.
Proof.
  unfold fill_text. destruct (truthy_text v) eqn:Hv; [exact Hv|].
  reflexivity.
Qed.

Lemma split_steps_not_nil (raw : string) : split_steps raw <> [].
Proof.
  unfold split_steps. destruct (take 6 _) as [|s parts] eqn:H; discriminate.
Qed.

Lemma coerce_filled_steps (v : option Steps) :
  coerce_steps (fst (fill_steps v)) <> [].
Proof.
  unfold fill_steps. destruct (truthy_steps v) eqn:Hv; cbn [fst].
  - destruct v as [[s|l]|]; cbn [coerce_steps truthy_steps] in *;
      try apply split_steps_not_nil.
    intros ->. discriminate.
  - apply split_steps_not_nil.
Qed.

Lemma coerce_test_type_known (v : option string) :
  coerce_test_type v ∈ ["positive"; "negative"; "boundary"; "edge_case"].
Proof.
  unfold coerce_test_type. destruct v as [t|]; [|left].
  destruct (existsb _ _) eqn:Hin; [|left].
  apply existsb_exists in Hin as (x & Hx & Heq).
  apply String.eqb_eq in Heq. subst x. apply list_elem_of_In. exact Hx.
Qed.

Lemma coerce_priority_known (v : option string) :
  coerce_priority v ∈ ["high"; "medium"; "low"].
Proof.
  unfold coerce_priority. destruct v as [p|]; [|right; left].
  destruct (existsb _ _) eqn:Hin; [|right; left].
  apply existsb_exists in Hin as (x & Hx & Heq).
  apply String.eqb_eq in Heq. subst x. apply list_elem_of_In. exact Hx.
Qed.

Lemma enforce_schema_enforced (tc : TestCase) (chunks : list Chunk) :
  schema_enforced chunks (fst (enforce_schema tc chunks)).
Proof.
  unfold enforce_schema, fill_required.
  pose proof (fill_text_truthy "test_id" (test_id tc)) as H1.
  pose proof (fill_text_truthy "feature" (feature tc)) as H2.
  pose proof (fill_text_truthy "test_scenario" (test_scenario tc)) as H3.
  pose proof (coerce_filled_steps (test_steps tc)) as H4.
  pose proof (fill_text_truthy "expected_result" (expected_result tc)) as H5.
  destruct (fill_text "test_id" _) as [v1 i1].
  destruct (fill_text "feature" _) as [v2 i2].
  destruct (fill_text "test_scenario" _) as [v3 i3].
  destruct (fill_steps _) as [v4 i4].
  destruct (fill_text "expected_result" _) as [v5 i5].
  destruct (fill_text "test_type" _) as [v6 i6].
  destruct (fill_text "priority" _) as [v7 i7].
  cbn [fst test_id feature test_scenario test_steps expected_result
       test_type priority grounded_in] in *.
  unfold schema_enforced.
  cbn [test_id feature test_scenario test_steps expected_result
       test_type priority grounded_in].
  repeat split; try assumption.
  - eexists. split; [reflexivity|exact H4].
  - eexists. split; [reflexivity|apply coerce_test_type_known].
  - eexists. split; [reflexivity|apply coerce_priority_known].
  - destruct (truthy_text (grounded_in tc)) eqn:Hg; [left; exact Hg|].
    right. reflexivity.
Qed.

Lemma fill_text_fixed (f : string) (v : option string) :
  truthy_text v = true -> fill_text f v = (v, []).
Proof. unfold fill_text. intros ->. reflexivity. Qed.

Lemma coerce_known (t : string) (known : list string) (default : string) :
  t ∈ known ->
  (if existsb (String.eqb t) known then t else default) = t.
Proof.
  intros Hin. destruct (existsb _ _) eqn:Hex; [reflexivity|].
  exfalso. apply list_elem_of_In in Hin.
  assert (existsb (String.eqb t) known = true); [|congruence].
  apply existsb_exists. exists t. split; [exact Hin|apply String.eqb_refl].
Qed.

(** Enforcing an enforced case changes nothing and reports nothing. *)
Lemma enforce_schema_fixed (tc : TestCase) (chunks : list Chunk) :
  schema_enforced chunks tc -> enforce_schema tc chunks = (tc, []).
Proof.
  intros (H1 & H2 & H3 & H5 & (l & Hl & Hne) & (t & Ht & Htin)
          & (p & Hp & Hpin) & Hg).
  unfold enforce_schema, fill_required.
  rewrite !fill_text_fixed by (assumption || (rewrite Ht || rewrite Hp;
    unfold truthy_text; apply negb_true_iff, String.eqb_neq; intros ->;
    apply list_elem_of_In in Htin, Hpin; simpl in Htin, Hpin;
    intuition discriminate)).
  assert (fill_steps (test_steps tc) = (test_steps tc, [])) as ->.
  { unfold fill_steps. rewrite Hl. cbn [truthy_steps].
    rewrite bool_decide_eq_false_2 by exact Hne. reflexivity. }
  cbn [test_id feature test_scenario test_steps expected_result test_type
       priority grounded_in needs_review _action _hallucination_warning
       _review_reason app].
  destruct tc as [a b c d e f g h i j k m]. cbn in *. subst d f g.
  cbn [coerce_steps]. unfold coerce_test_type, coerce_priority.
  rewrite (coerce_known t _ _ Htin), (coerce_known p _ _ Hpin).
  f_equal. f_equal.
  destruct Hg as [Hg|Hg]; [rewrite Hg; reflexivity|].
  destruct (truthy_text h); [reflexivity|]. congruence.
Qed.

Context (E : Externals).

(** The test case that validation returns differs from the enforced one
    in the two fields of the drop mark only. *)
Lemma validate_returns (tc tc' : TestCase) (chunks : list Chunk)
    (issues : list string) :
  validate_test_case_schema E tc chunks = Ok (tc', issues) ->
  exists fabricated,
    fabricated_all E (enforced tc chunks) (context_text chunks)
      (filter (fun p => config.enabled p) config.VALIDATION_PATTERNS)
    = Ok fabricated
    /\ tc' = match fabricated with
             | [] => enforced tc chunks
             | _ => mark_dropped (enforced tc chunks) fabricated
             end
    /\ issues = snd (enforce_schema tc chunks)
                ++ match fabricated with [] => [] | _ => ["hallucination"] end.
Proof.
  unfold validate_test_case_schema, enforced.
  destruct (enforce_schema tc chunks) as [tc1 issues1]. cbn [fst snd].
  destruct (fabricated_all E tc1 _ _) as [fabricated|e]; [|discriminate].
  cbn [rbind]. intros Hrun. exists fabricated. split; [reflexivity|].
  destruct fabricated as [|val rest]; injection Hrun as <- <-.
  - split; [reflexivity|]. rewrite app_nil_r. reflexivity.
  - split; reflexivity.
Qed.

Lemma schema_enforced_marked (chunks : list Chunk) (tc : TestCase)
    (fabricated : list string) :
  schema_enforced chunks tc ->
  schema_enforced chunks (mark_dropped tc fabricated).
Proof. intros H. exact H. Qed.

(** X18. A test case that validation returns, dropped or not, has its required
    texts filled, a list of steps that is not empty, one of the four test types,
    one of the three priorities and a grounding: its own or, in its absence, the
    source of the first chunk. *)
Theorem validated_case_has_schema (tc tc' : TestCase) (chunks : list Chunk)
    (issues : list string) :
  validate_test_case_schema E tc chunks = Ok (tc', issues) ->
  truthy_text (test_id tc') = true
  /\ truthy_text (feature tc') = true
  /\ truthy_text (test_scenario tc') = true
  /\ truthy_text (expected_result tc') = true
  /\ (exists l, test_steps tc' = Some (StepsList l) /\ l <> [])
  /\ (exists t, test_type tc' = Some t
                /\ t ∈ ["positive"; "negative"; "boundary"; "edge_case"])
  /\ (exists p, priority tc' = Some p /\ p ∈ ["high"; "medium"; "low"])
  /\ (truthy_text (grounded_in tc') = true
      \/ grounded_in tc' = Some (default_grounding chunks)).
Proof.
  intros Hrun. apply validate_returns in Hrun as (fabricated & _ & -> & _).
  pose proof (enforce_schema_enforced tc chunks) as Hschema.
  fold (enforced tc chunks) in Hschema.
  destruct fabricated; exact Hschema.
Qed.

Lemma is_fabricated_ext (a b : TestCase) (context : string)
    (p : config.ValidationPattern) (val : string) :
  test_type a = test_type b ->
  is_fabricated E a context p val = is_fabricated E b context p val.
Proof. intros H. unfold is_fabricated. rewrite H. reflexivity. Qed.

Lemma fabricated_of_ext (a b : TestCase) (context : string)
    (p : config.ValidationPattern) (vals : list string) :
  test_type a = test_type b ->
  fabricated_of E a context p vals = fabricated_of E b context p vals.
Proof.
  intros H. induction vals as [|val vals IH]; [reflexivity|].
  cbn [fabricated_of]. rewrite (is_fabricated_ext a b _ _ _ H), IH.
  reflexivity.
Qed.

Lemma fabricated_all_ext (a b : TestCase) (context : string)
    (patterns : list config.ValidationPattern) :
  test_type a = test_type b -> content_text a = content_text b ->
  fabricated_all E a context patterns = fabricated_all E b context patterns.
Proof.
  intros Ht Hc. induction patterns as [|p patterns IH]; [reflexivity|].
  cbn [fabricated_all]. rewrite Hc, (fabricated_of_ext a b _ _ _ Ht), IH.
  reflexivity.
Qed.

(** X19. Validating a validated case changes nothing: the case comes back as it
    is, with no issue but the hallucination of a dropped case. *)
Theorem validate_test_case_schema_idempotent (tc tc' : TestCase)
    (chunks : list Chunk) (issues : list string) :
  validate_test_case_schema E tc chunks = Ok (tc', issues) ->
  exists issues',
    validate_test_case_schema E tc' chunks = Ok (tc', issues')
    /\ (issues' = [] \/ issues' = ["hallucination"]).
Proof.
  intros Hrun.
  apply validate_returns in Hrun as (fabricated & Hfab & Htc' & _).
  pose proof (enforce_schema_enforced tc chunks) as Hschema.
  fold (enforced tc chunks) in Hschema.
  set (e := enforced tc chunks) in *.
  assert (Hschema' : schema_enforced chunks tc')
    by (subst tc'; destruct fabricated; exact Hschema).
  assert (Hfab' : fabricated_all E tc' (context_text chunks)
                    (filter (fun p => config.enabled p)
                            config.VALIDATION_PATTERNS)
                  = Ok fabricated).
  { rewrite <- Hfab. subst tc'.
    destruct fabricated; [reflexivity|]. apply fabricated_all_ext; reflexivity. }
  unfold validate_test_case_schema.
  rewrite (enforce_schema_fixed tc' chunks Hschema'), Hfab'. cbn [rbind].
  destruct fabricated as [|val rest].
  - exists []. split; [reflexivity|left; reflexivity].
  - exists ["hallucination"]. split; [|right; reflexivity].
    subst tc'. reflexivity.
Qed.

End Schema.

Definition sparse_case : TestCase :=
  mkTestCase None (Some "Cart") (Some "Apply the discount code")
    (Some (StepsText "Open the cart; Enter SAVE10; Click Apply"))
    None (Some "smoke") None None None None None None.

Definition sparse_case_validated : TestCase :=
  mkTestCase (Some "[MISSING: test_id]") (Some "Cart")
    (Some "Apply the discount code")
    (Some (StepsList ["Open the cart"; "Enter SAVE10"; "Click Apply"]))
    (Some "[MISSING: expected_result]") (Some "positive") (Some "medium")
    (Some "promo.md") None None None None.

Lemma sparse_case_run :
  validation.validate_test_case_schema example_externals sparse_case
    [promo_chunk]
  = Ok (sparse_case_validated,
        ["missing:test_id"; "missing:expected_result"; "missing:priority"]).
Proof. vm_compute. reflexivity. Qed.

Lemma validated_case_has_schema_witness :
  validation.truthy_text (test_id sparse_case_validated) = true
  /\ validation.truthy_text (feature sparse_case_validated) = true
  /\ validation.truthy_text (test_scenario sparse_case_validated) = true
  /\ validation.truthy_text (expected_result sparse_case_validated) = true
  /\ (exists l, test_steps sparse_case_validated = Some (StepsList l)
                /\ l <> [])
  /\ (exists t, test_type sparse_case_validated = Some t
                /\ t ∈ ["positive"; "negative"; "boundary"; "edge_case"])
  /\ (exists p, priority sparse_case_validated = Some p
                /\ p ∈ ["high"; "medium"; "low"])
  /\ (validation.truthy_text (grounded_in sparse_case_validated) = true
      \/ grounded_in sparse_case_validated
         = Some (validation.default_grounding [promo_chunk])).
Proof.
  apply (validated_case_has_schema example_externals sparse_case
           sparse_case_validated [promo_chunk]
           ["missing:test_id"; "missing:expected_result"; "missing:priority"]).
  vm_compute. reflexivity.
Defined.

Lemma validate_test_case_schema_idempotent_witness :
  exists issues',
    validation.validate_test_case_schema example_externals
      sparse_case_validated [promo_chunk]
    = Ok (sparse_case_validated, issues')
    /\ (issues' = [] \/ issues' = ["hallucination"]).
Proof.
  apply (validate_test_case_schema_idempotent example_externals sparse_case
           sparse_case_validated [promo_chunk]
           ["missing:test_id"; "missing:expected_result"; "missing:priority"]).
  vm_compute. reflexivity.
Defined.

(** ** What duplicate removal leaves *)

Section DistinctSignatures.
Import validation generate_test_cases.

(** The cases whose signature was not seen before, in one pass. *)
Fixpoint keep_first (seen : list (list string)) (cases : list TestCase)
    : list TestCase :=
  match cases with
  | [] => []
  | tc :: rest =>
      if bool_decide (signature tc ∈ seen) then keep_first seen rest
      else tc :: keep_first (signature tc :: seen) rest
  end.

Lemma detect_from_ge (cases : list TestCase) (i : nat)
    (seen : list (list string)) (k : nat) :
  k ∈ detect_from i seen cases -> i <= k.
Proof.
  intros H. apply detect_from_spec in H as (n & tc & -> & _). lia.
Qed.

Lemma without_indices_earlier (cases : list TestCase) :
  forall j i indices,
  i < j ->
  without_indices j (i :: indices) cases = without_indices j indices cases.
Proof.
  induction cases as [|tc cases IH]; intros j i indices Hlt; [reflexivity|].
  cbn [without_indices].
  assert (bool_decide (j ∈ i :: indices) = bool_decide (j ∈ indices)) as ->.
  { apply bool_decide_ext. rewrite elem_of_cons. split; [|tauto].
    intros [->|H]; [lia|exact H]. }
  rewrite IH by lia. reflexivity.
Qed.

Lemma without_detected (cases : list TestCase) :
  forall i seen,
  without_indices i (detect_from i seen cases) cases = keep_first seen cases.
Proof.
  induction cases as [|tc cases IH]; intros i seen; [reflexivity|].
  cbn [detect_from keep_first]. case_bool_decide as Hseen.
  - cbn [without_indices]. rewrite bool_decide_eq_true_2 by left.
    rewrite without_indices_earlier by lia. apply IH.
  - cbn [without_indices].
    rewrite bool_decide_eq_false_2.
    + f_equal. apply IH.
    + intros Hin. apply detect_from_ge in Hin. lia.
Qed.

Lemma remove_semantic_duplicates_eq (cases : list TestCase) :
  remove_semantic_duplicates cases = keep_first [] cases.
Proof.
  unfold remove_semantic_duplicates.
  rewrite <- (without_detected cases 0 []).
  fold (detect_semantic_duplicates cases).
  destruct (detect_semantic_duplicates cases) as [|i indices] eqn:Hd;
    [|reflexivity].
  clear. generalize 0 as i.
  induction cases as [|tc cases IH]; intros i; [reflexivity|].
  cbn [without_indices]. rewrite bool_decide_eq_false_2 by (intros H; inversion H).
  f_equal. apply IH.
Qed.

Lemma keep_first_sublist (cases : list TestCase) :
  forall seen, sublist (keep_first seen cases) cases.
Proof.
  induction cases as [|tc cases IH]; intros seen; cbn [keep_first].
  - constructor.
  - case_bool_decide; [apply sublist_cons|apply sublist_skip]; apply IH.
Qed.

Lemma keep_first_unseen (cases : list TestCase) :
  forall seen tc, tc ∈ keep_first seen cases -> signature tc ∉ seen.
Proof.
  induction cases as [|tc0 cases IH]; intros seen tc; cbn [keep_first].
  - intros H. inversion H.
  - case_bool_decide as Hseen; [apply IH|].
    intros [->|Hin]%elem_of_cons; [exact Hseen|].
    apply IH in Hin. apply not_elem_of_cons in Hin. tauto.
Qed.

Lemma keep_first_NoDup (cases : list TestCase) :
  forall seen, NoDup (map signature (keep_first seen cases)).
Proof.
  induction cases as [|tc0 cases IH]; intros seen; cbn [keep_first].
  - constructor.
  - case_bool_decide as Hseen; [apply IH|].
    cbn [map]. constructor; [|apply IH].
    intros Hin. apply list_elem_of_fmap in Hin as (tc & Heq & Hin).
    apply keep_first_unseen in Hin. apply Hin. rewrite Heq. left.
Qed.

Lemma keep_first_covers (cases : list TestCase) :
  forall seen tc,
  tc ∈ cases ->
  signature tc ∈ seen \/ signature tc ∈ map signature (keep_first seen cases).
Proof.
  induction cases as [|tc0 cases IH]; intros seen tc Hin; cbn [keep_first].
  - inversion Hin.
  - apply elem_of_cons in Hin as [->|Hin].
    + case_bool_decide as Hseen; [left; exact Hseen|]. right. left.
    + case_bool_decide as Hseen; [apply IH, Hin|].
      destruct (IH (signature tc0 :: seen) tc Hin) as [H|H].
      * apply elem_of_cons in H as [->|H]; [right; left|left; exact H].
      * right. right. exact H.
Qed.

Lemma keep_first_fixed (cases : list TestCase) :
  forall seen,
  NoDup (map signature cases) ->
  (forall tc, tc ∈ cases -> signature tc ∉ seen) ->
  keep_first seen cases = cases.
Proof.
  induction cases as [|tc0 cases IH]; intros seen Hnd Hseen; [reflexivity|].
  cbn [keep_first]. cbn [map] in Hnd. apply NoDup_cons in Hnd as [Hnew Hnd].
  rewrite bool_decide_eq_false_2 by (apply Hseen; left).
  f_equal. apply IH; [exact Hnd|].
  intros tc Hin. apply not_elem_of_cons. split.
  - intros Heq. apply Hnew. rewrite <- Heq. apply list_elem_of_fmap. eauto.
  - apply Hseen. right. exact Hin.
Qed.

(** X20. After duplicate removal no two cases have the same signature; the cases
    kept are a subsequence of those given, the first case among them, and every
    signature given is still there; a second removal removes nothing. *)
Theorem remove_semantic_duplicates_distinct (cases : list TestCase) :
  let kept := remove_semantic_duplicates cases in
  NoDup (map signature kept)
  /\ sublist kept cases
  /\ (forall tc, tc ∈ cases -> signature tc ∈ map signature kept)
  /\ (forall tc rest, cases = tc :: rest -> exists rest', kept = tc :: rest')
  /\ detect_semantic_duplicates kept = []
  /\ remove_semantic_duplicates kept = kept.
Proof.
  cbv zeta. rewrite remove_semantic_duplicates_eq.
  pose proof (keep_first_NoDup cases []) as Hnd.
  split; [exact Hnd|]. split; [apply keep_first_sublist|].
  split; [|split; [|split]].
  - intros tc Hin. destruct (keep_first_covers cases [] tc Hin) as [H|H];
      [inversion H|exact H].
  - intros tc rest ->. cbn [keep_first].
    rewrite bool_decide_eq_false_2 by (intros H; inversion H). eauto.
  - destruct (detect_semantic_duplicates (keep_first [] cases))
      as [|i indices] eqn:Hd; [reflexivity|].
    assert (Hi : i ∈ detect_semantic_duplicates (keep_first [] cases))
      by (rewrite Hd; left).
    apply detect_semantic_duplicates_spec in Hi
      as (j & a & b & Hlt & Ha & Hb & Heq).
    exfalso. pose proof (proj1 (NoDup_alt _) Hnd) as Hinj.
    assert (j = i); [|lia].
    apply (Hinj j i (signature a));
      change (map signature (keep_first [] cases))
        with (signature <$> keep_first [] cases);
      rewrite list_lookup_fmap.
    + rewrite Ha. reflexivity.
    + rewrite Hb, Heq. reflexivity.
  - rewrite remove_semantic_duplicates_eq.
    apply keep_first_fixed; [exact Hnd|]. intros tc _ H. inversion H.
Qed.

End DistinctSignatures.

(** ** The quality filter *)

Section QualityScore.
Import Num generate_test_cases.

Lemma Qmax_ge_l (x y : Q) : (x <= Qmax x y)%Q.
Proof.
  unfold Qmax. destruct (Qle_bool x y) eqn:H; [|apply Qle_refl].
  now apply Qle_bool_iff.
Qed.

Lemma Qmax_ge_r (x y : Q) : (y <= Qmax x y)%Q.
Proof.
  unfold Qmax. destruct (Qle_bool x y) eqn:H; [apply Qle_refl|].
  apply Qlt_le_weak, Qnot_le_lt. intros Hle.
  apply Qle_bool_iff in Hle. congruence.
Qed.

Lemma Qmax_le (x y hi : Q) : (x <= hi -> y <= hi -> Qmax x y <= hi)%Q.
Proof. unfold Qmax. now destruct (Qle_bool x y). Qed.

Lemma Qmin_le_r (x y : Q) : (Qmin x y <= y)%Q.
Proof.
  unfold Qmin. destruct (Qle_bool x y) eqn:H; [|apply Qle_refl].
  now apply Qle_bool_iff.
Qed.

Lemma Qmin_ge (x y lo : Q) : (lo <= x -> lo <= y -> lo <= Qmin x y)%Q.
Proof. unfold Qmin. now destruct (Qle_bool x y). Qed.

Lemma step_score_bounds (tc : TestCase) :
  (0.5 <= step_score tc <= 1)%Q.
Proof.
  unfold step_score.
  destruct (test_steps tc) as [[s|[|s l]]|]; try (split; discriminate).
  destruct (Qltb 30 _); [split; discriminate|].
  destruct (Qltb 15 _); split; discriminate.
Qed.

(** The five scores and the range of each. *)
Lemma quality_scores_ranges (tc : TestCase) :
  exists s1 s2 s3 s4 s5 : Q,
    quality_scores tc = [s1; s2; s3; s4; s5]
    /\ (0.5 <= s1 <= 1)%Q /\ (0.5 <= s2 <= 1)%Q /\ (0.25 <= s3 <= 1)%Q
    /\ (0.5 <= s4 <= 1)%Q /\ (0.3 <= s5 <= 1)%Q
    /\ (Str.lower (get (grounded_in tc) EmptyString) ∉ ungrounded ->
        (1 <= s5)%Q).
Proof.
  unfold quality_scores. do 5 eexists. split; [reflexivity|].
  repeat split.
  - apply Qle_trans with (2 := Qmax_ge_r _ _).
    destruct (_ <? 30)%nat, (_ <? 20)%nat; discriminate.
  - apply Qmax_le; [discriminate|].
    destruct (_ <? 30)%nat, (_ <? 20)%nat; discriminate.
  - apply Qmin_ge; [discriminate|].
    destruct (found dollar_re _), (found config.percentage_re _),
      (found capitals_re _); discriminate.
  - apply Qle_trans with (1 := Qmin_le_l _ _). discriminate.
  - apply Qle_trans with (2 := Qmax_ge_r _ _).
    match goal with |- context [length ?l] =>
      assert (Hk : length l <= 5)
        by (etransitivity; [apply length_filter|reflexivity]);
      generalize dependent (length l) end.
    intros k Hk.
    destruct k as [|[|[|[|[|[|k]]]]]]; try discriminate. lia.
  - apply Qmax_le; [discriminate|].
    match goal with |- context [length ?l] => generalize (length l) end.
    intros k. unfold Qle. simpl. lia.
  - apply step_score_bounds.
  - apply step_score_bounds.
  - destruct (bool_decide _); discriminate.
  - destruct (bool_decide _); discriminate.
  - intros H. rewrite bool_decide_eq_false_2 by exact H. discriminate.
Qed.

Lemma ensemble_bounds (s1 s2 s3 s4 s5 : Q) :
  (0.5 <= s1 <= 1)%Q -> (0.5 <= s2 <= 1)%Q -> (0.25 <= s3 <= 1)%Q ->
  (0.5 <= s4 <= 1)%Q -> (0.3 <= s5 <= 1)%Q ->
  let e := Qsum (zip_with Qmult [s1; s2; s3; s4; s5] quality_weights) in
  (0.41 <= Qmax 0.0 (Qmin 1.0 e) <= 1)%Q
  /\ ((1 <= s5)%Q -> (0.55 <= Qmax 0.0 (Qmin 1.0 e))%Q).
Proof.
  intros [H1 H1'] [H2 H2'] [H3 H3'] [H4 H4'] [H5 H5'] e.
  assert (He : (e == s1 * 0.2 + s2 * 0.25 + s3 * 0.2 + s4 * 0.15 + s5 * 0.2)%Q).
  { unfold e, Qsum, quality_weights. cbn [zip_with fold_left]. ring. }
  repeat split.
  - apply Qle_trans with (2 := Qmax_ge_r _ _).
    apply Qmin_ge; [discriminate|]. rewrite He. lra.
  - apply Qmax_le; [discriminate|].
    apply Qle_trans with (1 := Qmin_le_l _ _). discriminate.
  - intros H5''. apply Qle_trans with (2 := Qmax_ge_r _ _).
    apply Qmin_ge; [discriminate|]. rewrite He. lra.
Qed.

(** X21. The quality score of a test case lies between 0.41 and 1, whatever the
    case holds. *)
Theorem calculate_quality_score_bounds (tc : TestCase) :
  (0.41 <= calculate_quality_score tc <= 1)%Q.
Proof.
  destruct (quality_scores_ranges tc)
    as (s1 & s2 & s3 & s4 & s5 & Hs & H1 & H2 & H3 & H4 & H5 & _).
  unfold calculate_quality_score. rewrite Hs.
  apply (ensemble_bounds s1 s2 s3 s4 s5 H1 H2 H3 H4 H5).
Qed.

Lemma grounded_score (tc : TestCase) :
  Str.lower (get (grounded_in tc) EmptyString) ∉ ungrounded ->
  (0.55 <= calculate_quality_score tc)%Q.
Proof.
  intros Hg.
  destruct (quality_scores_ranges tc)
    as (s1 & s2 & s3 & s4 & s5 & Hs & H1 & H2 & H3 & H4 & H5 & H6).
  unfold calculate_quality_score. rewrite Hs.
  apply (ensemble_bounds s1 s2 s3 s4 s5 H1 H2 H3 H4 H5). auto.
Qed.

End QualityScore.

Section QualityFilter.
Import Num generate_test_cases.
Context (format_2f : Q -> string).

#[local] Abbreviation score := calculate_quality_score.

(** What the loop keeps and what it drops, as functions of its input. *)
Definition kept_of (used_chunks : list Chunk) (cases : list TestCase)
    : list (TestCase * Q) :=
  map (fun tc => (refine format_2f used_chunks (score tc) tc, score tc))
      (filter (fun tc => Qltb (score tc) 0.5 = false) cases).
Definition dropped_of (cases : list TestCase) : list TestCase :=
  filter (fun tc => Qltb (score tc) 0.5 = true) cases.
Definition id_text (tc : TestCase) : string := get (test_id tc) "unknown".

Lemma quality_loop_eq (used_chunks : list Chunk) (cases : list TestCase) :
  forall quality_filtered generic_dropped st,
    let '(kept, dropped, st') :=
      quality_loop format_2f used_chunks cases quality_filtered
                   generic_dropped st in
    kept = quality_filtered ++ kept_of used_chunks cases
    /\ dropped = generic_dropped ++ map id_text (dropped_of cases)
    /\ dropped_cases st'
       = dropped_cases st ++ map id_text (dropped_of cases)
    /\ length (dropped_details st')
       = length (dropped_details st) + length (dropped_of cases)
    /\ all_validation_issues st' = all_validation_issues st.
Proof.
  induction cases as [|tc rest IH]; intros qf gd st.
  - cbn. rewrite !app_nil_r. repeat split; lia.
  - cbn [quality_loop]. unfold kept_of, dropped_of.
    rewrite !filter_cons.
    destruct (Qltb (score tc) 0.5) eqn:Hs.
    + destruct (decide (true = false)) as [?|_]; [discriminate|].
      destruct (decide (true = true)) as [_|?]; [|congruence].
      specialize (IH qf (gd ++ [id_text tc])
        (mkValidation (validated_cases st) (all_validation_issues st)
           (dropped_cases st ++ [id_text tc])
           (dropped_details st
              ++ [(id_text tc,
                   "Low quality score: " +:+ format_2f (score tc))]))).
      unfold id_text in *.
      destruct (quality_loop _ _ _ _ _ _) as [[kept dropped] st'].
      destruct IH as (-> & -> & -> & -> & ->). cbn.
      rewrite <- !app_assoc, length_app. cbn.
      repeat split; try reflexivity. unfold dropped_of. lia.
    + destruct (decide (false = false)) as [_|?]; [|congruence].
      destruct (decide (false = true)) as [?|_]; [discriminate|].
      specialize (IH (qf ++ [(refine format_2f used_chunks (score tc) tc,
                              score tc)]) gd st).
      destruct (quality_loop _ _ _ _ _ _) as [[kept dropped] st'].
      destruct IH as (-> & -> & -> & -> & ->). cbn.
      rewrite <- !app_assoc. repeat split; first [reflexivity | lia].
Qed.

Lemma rstrip_before (b : string) (c : ascii) :
  is_space c = false ->
  Str.rstrip (b +:+ String c EmptyString) = b +:+ String c EmptyString.
Proof.
  intros Hc. induction b as [|d b IH].
  - change (Str.rstrip (EmptyString +:+ String c EmptyString))
      with (if is_space c then EmptyString else String c EmptyString).
    now rewrite Hc.
  - change (String d b +:+ String c EmptyString)
      with (String d (b +:+ String c EmptyString)).
    cbn [Str.rstrip]. rewrite IH.
    destruct b; reflexivity.
Qed.

Lemma lower_app (s t : string) :
  Str.lower (s +:+ t) = Str.lower s +:+ Str.lower t.
Proof.
  induction s as [|c s IH]; [reflexivity|].
  rewrite str_app_cons. cbn [Str.lower]. now rewrite IH, str_app_cons.
Qed.

Lemma lower_len (s : string) : Str.len (Str.lower s) = Str.len s.
Proof.
  unfold Str.len. induction s as [|c s IH]; [reflexivity|].
  cbn [Str.lower String.length]. now rewrite IH.
Qed.

(** A name that ends in [ Validation] is none of the generic ones. *)
Lemma validation_name_specific (a : string) :
  Str.lower (Str.strip (a +:+ " Validation")) ∉ generic_features.
Proof.
  unfold Str.strip.
  change (a +:+ " Validation") with (a +:+ String " " "Validation") in *.
  assert (Hl : exists b', Str.lstrip (a +:+ String " " "Validation")
                          = b' +:+ "Validation").
  { induction a as [|d a IH].
    - exists EmptyString. reflexivity.
    - rewrite str_app_cons. cbn [Str.lstrip].
      destruct (is_space d); [exact IH|].
      exists (String d a +:+ " ").
      rewrite str_app_assoc, str_app_cons. reflexivity. }
  destruct Hl as [b' ->].
  replace (b' +:+ "Validation")
    with ((b' +:+ "Validatio") +:+ String "n" EmptyString)
    by (rewrite str_app_assoc; reflexivity).
  rewrite rstrip_before by reflexivity.
  intros Hin.
  assert (Hlen : 10 <= Str.len (Str.lower
                   ((b' +:+ "Validatio") +:+ String "n" EmptyString))).
  { rewrite lower_len, !str_len_app. cbn. lia. }
  unfold generic_features in Hin.
  repeat (apply elem_of_cons in Hin as [Hin|Hin];
          [rewrite Hin in Hlen; cbn in Hlen; lia|]).
  inversion Hin.
Qed.

Lemma refine_feature (used_chunks : list Chunk) (q : Q) (tc : TestCase) :
  Str.lower (Str.strip (get (feature (refine format_2f used_chunks q tc))
                            EmptyString))
  ∉ generic_features.
Proof.
  unfold refine.
  match goal with |- context [bool_decide (Str.lower (Str.strip (get (feature ?t) _)) ∈ _)] =>
    set (tc2 := t) end.
  case_bool_decide as Hf; [|exact Hf].
  destruct (negb _ && negb _).
  - cbn [set_feature feature get]. apply validation_name_specific.
  - cbn [set_feature feature get].
    change "General Validation" with ("General" +:+ " Validation").
    apply validation_name_specific.
Qed.

Lemma refine_review (used_chunks : list Chunk) (q : Q) (tc : TestCase) :
  Qltb q 0.65 = true ->
  needs_review (refine format_2f used_chunks q tc) = Some true.
Proof.
  intros Hq. unfold refine. rewrite Hq.
  repeat match goal with
         | |- context [if ?b then _ else _] => destruct b
         | |- context [match ?l with [] => _ | _ :: _ => _ end] => destruct l
         end; reflexivity.
Qed.

Lemma refine_keeps (used_chunks : list Chunk) (q : Q) (tc : TestCase) :
  let tc' := refine format_2f used_chunks q tc in
  test_id tc' = test_id tc /\ test_scenario tc' = test_scenario tc
  /\ test_steps tc' = test_steps tc
  /\ expected_result tc' = expected_result tc
  /\ test_type tc' = test_type tc /\ priority tc' = priority tc.
Proof.
  unfold refine.
  repeat match goal with
         | |- context [if ?b then _ else _] => destruct b
         | |- context [match ?l with [] => _ | _ :: _ => _ end] => destruct l
         end; repeat split; reflexivity.
Qed.

(** X22. The quality filter keeps the cases that score 0.5 or more, in their
    order, and drops the others: each input case is kept or has its identifier
    in [generic_dropped] and in [dropped_cases]. A kept case carries its score,
    keeps its identifier, scenario, steps and expected result, is flagged for
    review when the score is below 0.65, and never has one of the generic
    feature names. *)
Theorem quality_filter_keeps (used_chunks : list Chunk) (st : Validation)
    (kept : list (TestCase * Q)) (generic_dropped : list string)
    (st' : Validation) :
  quality_filter format_2f used_chunks st = (kept, generic_dropped, st') ->
  length kept + length generic_dropped = length (validated_cases st)
  /\ validated_cases st' = map fst kept
  /\ dropped_cases st' = dropped_cases st ++ generic_dropped
  /\ Forall (fun k =>
       (0.5 <= snd k)%Q
       /\ ((snd k < 0.65)%Q -> needs_review (fst k) = Some true)
       /\ (Str.lower (Str.strip (get (feature (fst k)) EmptyString))
           ∉ generic_features)
       /\ exists tc, tc ∈ validated_cases st
            /\ snd k = calculate_quality_score tc
            /\ test_id (fst k) = test_id tc
            /\ test_scenario (fst k) = test_scenario tc
            /\ test_steps (fst k) = test_steps tc
            /\ expected_result (fst k) = expected_result tc) kept.
Proof.
  unfold quality_filter.
  pose proof (quality_loop_eq used_chunks (validated_cases st) [] [] st) as H.
  destruct (quality_loop _ _ _ _ _ _) as [[kept0 dropped0] st0].
  destruct H as (Hk & Hd & Hdc & _ & _).
  intros [= <- <- <-]. cbn [validated_cases dropped_cases].
  cbn in Hk, Hd. subst kept0 dropped0.
  repeat split.
  - unfold kept_of, dropped_of. rewrite !length_map. clear Hdc.
    induction (validated_cases st) as [|tc l IH]; [reflexivity|].
    rewrite !filter_cons.
    destruct (Qltb (score tc) 0.5).
    + destruct (decide (true = false)) as [?|_]; [discriminate|].
      destruct (decide (true = true)) as [_|?]; [|congruence].
      cbn [Datatypes.length]. lia.
    + destruct (decide (false = false)) as [_|?]; [|congruence].
      destruct (decide (false = true)) as [?|_]; [discriminate|].
      cbn [Datatypes.length]. lia.
  - exact Hdc.
  - apply Forall_forall. intros k Hin.
    unfold kept_of in Hin. apply list_elem_of_fmap in Hin as (tc & -> & Hin).
    apply list_elem_of_filter in Hin as [Hs Hin].
    cbn [fst snd]. repeat split.
    + now apply Qltb_ge.
    + intros Hlt. apply refine_review.
      unfold Qltb. apply negb_true_iff.
      destruct (Qle_bool 0.65 (score tc)) eqn:Hle; [|reflexivity].
      apply Qle_bool_iff in Hle. exfalso.
      exact (Qlt_not_le _ _ Hlt Hle).
    + apply refine_feature.
    + exists tc.
      pose proof (refine_keeps used_chunks (score tc) tc)
        as (H1 & H2 & H3 & H4 & _).
      repeat split; assumption.
Qed.

(** X23. A case grounded in a named document (anything but the generic
    [inference], [general], [document.txt], [n/a] or nothing) scores 0.55 or
    more, so the quality filter keeps it, whatever its text. *)
Theorem grounded_case_is_kept (used_chunks : list Chunk) (st : Validation)
    (tc : TestCase) :
  tc ∈ validated_cases st ->
  Str.lower (get (grounded_in tc) EmptyString) ∉ ungrounded ->
  (0.55 <= calculate_quality_score tc)%Q
  /\ (refine format_2f used_chunks (calculate_quality_score tc) tc,
      calculate_quality_score tc)
     ∈ (quality_filter format_2f used_chunks st).1.1.
Proof.
  intros Hin Hg. pose proof (grounded_score tc Hg) as Hs.
  split; [exact Hs|].
  unfold quality_filter.
  pose proof (quality_loop_eq used_chunks (validated_cases st) [] [] st) as H.
  destruct (quality_loop _ _ _ _ _ _) as [[kept0 dropped0] st0].
  destruct H as (-> & _). cbn [fst app].
  unfold kept_of.
  apply (list_elem_of_fmap_2
           (fun tc => (refine format_2f used_chunks (score tc) tc, score tc))).
  apply list_elem_of_filter. split; [|exact Hin].
  apply Qltb_ge. apply Qle_trans with (2 := Hs). discriminate.
Qed.

End QualityFilter.

Section TokenBudget.
Import generate_test_cases.

(** The response budget is at least 200 tokens. When the window leaves room
    for 200, prompt, response and the margin of 100 fit the window and the
    response gets 250 tokens a case plus 100 at most; when it does not, the
    budget is still 200. *)
Lemma num_predict_bounds (MODEL_WINDOW requested_count prompt_tokens : Z) :
  let n := num_predict MODEL_WINDOW requested_count prompt_tokens in
  (200 <= n)%Z
  /\ ((200 <= MODEL_WINDOW - prompt_tokens - 100)%Z ->
      (prompt_tokens + n + 100 <= MODEL_WINDOW)%Z
      /\ (n <= Z.max 200 (250 * requested_count + 100))%Z)
  /\ ((MODEL_WINDOW - prompt_tokens - 100 < 200)%Z -> n = 200%Z).
Proof.
  unfold num_predict. cbv zeta.
  destruct (Z.ltb_spec (Z.min (250 * requested_count + 100)
                              (MODEL_WINDOW - prompt_tokens - 100)) 200);
    repeat split; intros; lia.
Qed.

End TokenBudget.

(** A stand-in for the formatting of a score below 1 in the examples: its
    first two decimals. *)
Definition two_digits (q : Q) : string :=
  let cents := (Qnum q * 100 / Z.pos (Qden q))%Z in
  "0." +:+ chunker.decimal (Z.to_nat (cents / 10))
       +:+ chunker.decimal (Z.to_nat (cents mod 10)).

Definition grounded_case : TestCase :=
  mkTestCase (Some "TC-001") (Some "general")
    (Some "Apply the discount code SAVE15 at checkout")
    (Some (StepsList ["Enter SAVE15 in the discount field"; "Click Apply"]))
    (Some "The total drops by 15%") (Some "positive") (Some "high")
    (Some "docs/product_specs.md") None None None None.

Definition vague_case : TestCase :=
  mkTestCase (Some "TC-002") (Some "Checkout") (Some "Check the form")
    (Some (StepsList ["Step 1"; "Step 2"]))
    (Some "Verify and execute step 1 as expected") (Some "positive")
    (Some "medium") (Some "inference") None None None None.

Definition two_validated : generate_test_cases.Validation :=
  generate_test_cases.mkValidation [grounded_case; vague_case] [] [] [].

Definition two_filtered
    : list (TestCase * Q) * list string * generate_test_cases.Validation :=
  generate_test_cases.quality_filter two_digits [promo_chunk] two_validated.

Lemma quality_filter_keeps_witness :
  length two_filtered.1.1 + length two_filtered.1.2 = 2
  /\ generate_test_cases.validated_cases two_filtered.2
     = map fst two_filtered.1.1
  /\ generate_test_cases.dropped_cases two_filtered.2
     = [] ++ two_filtered.1.2
  /\ Forall (fun k =>
       (0.5 <= snd k)%Q
       /\ ((snd k < 0.65)%Q -> needs_review (fst k) = Some true)
       /\ (Str.lower (Str.strip (get (feature (fst k)) EmptyString))
           ∉ generate_test_cases.generic_features)
       /\ exists tc, tc ∈ [grounded_case; vague_case]
            /\ snd k = generate_test_cases.calculate_quality_score tc
            /\ test_id (fst k) = test_id tc
            /\ test_scenario (fst k) = test_scenario tc
            /\ test_steps (fst k) = test_steps tc
            /\ expected_result (fst k) = expected_result tc)
       two_filtered.1.1.
Proof.
  apply (quality_filter_keeps two_digits [promo_chunk] two_validated
           two_filtered.1.1 two_filtered.1.2 two_filtered.2).
  vm_compute. reflexivity.
Defined.

Lemma grounded_case_is_kept_witness :
  (0.55 <= generate_test_cases.calculate_quality_score grounded_case)%Q
  /\ (generate_test_cases.refine two_digits [promo_chunk]
        (generate_test_cases.calculate_quality_score grounded_case)
        grounded_case,
      generate_test_cases.calculate_quality_score grounded_case)
     ∈ two_filtered.1.1.
Proof.
  apply (grounded_case_is_kept two_digits [promo_chunk] two_validated
           grounded_case).
  - apply list_elem_of_here.
  - apply (bool_decide_unpack _). vm_compute. reflexivity.
Defined.

(** ** The chunker *)

Section Chunks.
Import chunker.

Lemma len_take (n : nat) (s : string) :
  Str.len (Str.take n s) = Nat.min n (Str.len s).
Proof.
  unfold Str.len. revert s.
  induction n as [|n IH]; intros [|c s]; cbn; auto.
Qed.

Lemma take_all (n : nat) (s : string) : Str.len s <= n -> Str.take n s = s.
Proof.
  unfold Str.len. revert s.
  induction n as [|n IH]; intros [|c s] H; cbn in *; try reflexivity;
    try lia.
  f_equal. apply IH. lia.
Qed.

Lemma drop_drop (a b : nat) (s : string) :
  Str.drop a (Str.drop b s) = Str.drop (b + a) s.
Proof.
  revert s. induction b as [|b IH]; intros s; [reflexivity|].
  destruct s as [|c s]; cbn [Str.drop Nat.add].
  - destruct a; reflexivity.
  - apply IH.
Qed.

Lemma drop_take (k n : nat) (s : string) :
  Str.drop k (Str.take n s) = Str.take (n - k) (Str.drop k s).
Proof.
  revert n s. induction k as [|k IH]; intros n s.
  - cbn [Str.drop]. now rewrite Nat.sub_0_r.
  - destruct n as [|n], s as [|c s]; cbn [Str.take Str.drop Nat.sub];
      try reflexivity; try (destruct (n - k); reflexivity); apply IH.
Qed.

Lemma take_extend (a b : nat) (s : string) :
  Str.take a s +:+ Str.take b (Str.drop a s) = Str.take (a + b) s.
Proof.
  revert s. induction a as [|a IH]; intros s; [reflexivity|].
  destruct s as [|c s]; cbn [Str.take Str.drop Nat.add].
  - destruct b; reflexivity.
  - rewrite str_app_cons. f_equal. apply IH.
Qed.

(** A slice inside the text. *)
Lemma slice_inside (s : string) (a b : Z) :
  (0 <= a <= b)%Z -> (b <= Z.of_nat (Str.len s))%Z ->
  slice s a b = Str.take (Z.to_nat (b - a)) (Str.drop (Z.to_nat a) s).
Proof.
  intros Ha Hb. unfold slice, clamp.
  destruct (Z.ltb_spec a 0); [lia|]. destruct (Z.ltb_spec b 0); [lia|].
  rewrite !Z.min_l by lia. reflexivity.
Qed.

Lemma len_slice (s : string) (a b : Z) :
  (0 <= a <= b)%Z -> (b <= Z.of_nat (Str.len s))%Z ->
  Z.of_nat (Str.len (slice s a b)) = (b - a)%Z.
Proof.
  intros Ha Hb. rewrite slice_inside by assumption.
  rewrite len_take, len_drop. lia.
Qed.

(** The chunks put back together: the first one, then each later one
    without the overlap it repeats. *)
Fixpoint fresh_parts (overlap : nat) (chunks : list string) : string :=
  match chunks with
  | [] => EmptyString
  | c :: rest => Str.drop overlap c +:+ fresh_parts overlap rest
  end.
Definition rejoin (overlap : nat) (chunks : list string) : string :=
  match chunks with
  | [] => EmptyString
  | c :: rest => c +:+ fresh_parts overlap rest
  end.

Lemma fresh_parts_snoc (overlap : nat) (chunks : list string) (c : string) :
  fresh_parts overlap (chunks ++ [c])
  = fresh_parts overlap chunks +:+ Str.drop overlap c.
Proof.
  induction chunks as [|d chunks IH]; cbn [app fresh_parts].
  - now rewrite str_app_empty_r.
  - now rewrite IH, str_app_assoc.
Qed.

Lemma rejoin_snoc (overlap : nat) (chunks : list string) (c : string) :
  chunks <> [] ->
  rejoin overlap (chunks ++ [c])
  = rejoin overlap chunks +:+ Str.drop overlap c.
Proof.
  destruct chunks as [|d chunks]; [congruence|]. intros _.
  cbn [app rejoin]. now rewrite fresh_parts_snoc, str_app_assoc.
Qed.

Section Loop.
Context (t : string) (chunk_size chunk_overlap : Z).
Hypothesis overlap_below_size : (0 <= chunk_overlap < chunk_size)%Z.

#[local] Abbreviation total := (Z.of_nat (Str.len t)).
#[local] Abbreviation ov := (Z.to_nat chunk_overlap).

Lemma chunk_loop_covers (fuel : nat) :
  forall (start : Z) (chunks : list string),
    (1 <= start)%Z -> (start + chunk_overlap < total)%Z ->
    (total - start <= Z.of_nat fuel)%Z ->
    chunks <> [] ->
    rejoin ov chunks = Str.take (Z.to_nat (start + chunk_overlap)) t ->
    Forall (fun c => Z.of_nat (Str.len c) = chunk_size) chunks ->
    exists full last,
      chunk_loop fuel t chunk_size chunk_overlap total start chunks
      = Some (full ++ [last])
      /\ Forall (fun c => Z.of_nat (Str.len c) = chunk_size) full
      /\ (chunk_overlap < Z.of_nat (Str.len last) <= chunk_size)%Z
      /\ rejoin ov (full ++ [last]) = t.
Proof.
  induction fuel as [|fuel IH]; intros start chunks Hs Hlt Hfuel Hne Hre Hall;
    [lia|].
  cbn [chunk_loop].
  destruct (Z.ltb_spec start total) as [_|?]; [|lia].
  set (end_ := Z.min (start + chunk_size) total).
  assert (Hend : (start + chunk_overlap < end_ <= total)%Z)
    by (unfold end_; lia).
  assert (Hlen : Z.of_nat (Str.len (slice t start end_)) = (end_ - start)%Z)
    by (apply len_slice; lia).
  assert (Hjoin : rejoin ov (chunks ++ [slice t start end_])
                  = Str.take (Z.to_nat end_) t).
  { rewrite rejoin_snoc by exact Hne. rewrite Hre.
    rewrite slice_inside by lia. rewrite drop_take, drop_drop.
    replace (Z.to_nat start + ov) with (Z.to_nat (start + chunk_overlap))
      by lia.
    rewrite take_extend. f_equal. lia. }
  destruct (Z.leb_spec total end_) as [Hdone|Hmore].
  - exists chunks, (slice t start end_). repeat split.
    + exact Hall.
    + lia.
    + unfold end_ in *. lia.
    + rewrite Hjoin. apply take_all. lia.
  - assert (He : end_ = (start + chunk_size)%Z) by (unfold end_ in *; lia).
    destruct (Z.leb_spec (end_ - chunk_overlap) 0) as [?|_]; [lia|].
    apply IH.
    + lia.
    + lia.
    + lia.
    + destruct chunks; discriminate.
    + rewrite Hjoin. f_equal. lia.
    + apply Forall_app. split; [exact Hall|].
      constructor; [lia|constructor].
Qed.

Lemma chunk_loop_first (fuel : nat) :
  (chunk_size < total)%Z -> (total <= Z.of_nat fuel)%Z ->
  exists full last,
    chunk_loop fuel t chunk_size chunk_overlap total 0 []
    = Some (full ++ [last])
    /\ Forall (fun c => Z.of_nat (Str.len c) = chunk_size) full
    /\ (chunk_overlap < Z.of_nat (Str.len last) <= chunk_size)%Z
    /\ rejoin ov (full ++ [last]) = t.
Proof.
  intros Hbig Hfuel. destruct fuel as [|fuel]; [lia|].
  cbn [chunk_loop app].
  destruct (Z.ltb_spec 0 total) as [_|?]; [|lia].
  rewrite Z.add_0_l, Z.min_l by lia.
  destruct (Z.leb_spec total chunk_size) as [?|_]; [lia|].
  destruct (Z.leb_spec (chunk_size - chunk_overlap) 0) as [?|_]; [lia|].
  assert (Hlen : Z.of_nat (Str.len (slice t 0 chunk_size)) = chunk_size)
    by (rewrite len_slice; lia).
  apply chunk_loop_covers.
  - lia.
  - lia.
  - lia.
  - discriminate.
  - cbn [rejoin fresh_parts]. rewrite str_app_empty_r.
    rewrite slice_inside by lia. cbn [Z.to_nat Str.drop].
    f_equal. lia.
  - constructor; [exact Hlen|constructor].
Qed.

End Loop.

Lemma chunk_loop_more_fuel (t : string) (chunk_size chunk_overlap total : Z)
    (fuel fuel' : nat) :
  fuel <= fuel' ->
  forall start chunks out,
    chunk_loop fuel t chunk_size chunk_overlap total start chunks = Some out ->
    chunk_loop fuel' t chunk_size chunk_overlap total start chunks = Some out.
Proof.
  revert fuel'. induction fuel as [|fuel IH]; intros fuel' Hle start chunks out;
    [discriminate|].
  destruct fuel' as [|fuel']; [lia|]. cbn [chunk_loop].
  destruct (_ <? _)%Z; [|auto].
  destruct (_ <=? _)%Z; [auto|].
  apply IH. lia.
Qed.

(** X24. With an overlap smaller than the chunk size, [chunk_text] returns: the
    chunks before the last have exactly [chunk_size] characters, the last has at
    most that many, and the chunks put back together, each after the first
    without the [chunk_overlap] characters it repeats, are the prepared text. *)
Theorem chunk_text_covers (text : string)
    (chunk_size chunk_overlap max_size : Z) :
  text <> EmptyString ->
  (0 <= chunk_overlap < chunk_size)%Z ->
  exists full last,
    (forall fuel, Str.len (prepared text max_size) <= fuel ->
       chunk_text fuel text chunk_size chunk_overlap max_size
       = Some (full ++ [last]))
    /\ Forall (fun c => Z.of_nat (Str.len c) = chunk_size) full
    /\ (Z.of_nat (Str.len last) <= chunk_size)%Z
    /\ rejoin (Z.to_nat chunk_overlap) (full ++ [last])
       = prepared text max_size.
Proof.
  intros Hne Hov. unfold chunk_text.
  destruct (String.eqb_spec text EmptyString) as [?|_]; [congruence|].
  set (t := prepared text max_size).
  destruct (Z.leb_spec (Z.of_nat (Str.len t)) chunk_size) as [Hsmall|Hbig].
  - exists [], t. repeat split; [constructor|exact Hsmall|].
    cbn. apply str_app_empty_r.
  - destruct (chunk_loop_first t chunk_size chunk_overlap Hov (Str.len t)
                Hbig (Z.le_refl _)) as (full & last & Hrun & Hall & Hlast & Hre).
    exists full, last. repeat split; [|exact Hall|lia|exact Hre].
    intros fuel Hfuel.
    exact (chunk_loop_more_fuel _ _ _ _ _ _ Hfuel _ _ _ Hrun).
Qed.

(** X25. With an overlap that is not smaller than the chunk size, [chunk_text]
    never returns on a text of more than [chunk_size + 1] characters: after the
    first chunk the loop starts every chunk at position 1. *)
Theorem chunk_text_never_returns (text : string)
    (chunk_size chunk_overlap max_size : Z) :
  text <> EmptyString ->
  (0 < chunk_size <= chunk_overlap)%Z ->
  (chunk_size + 1 < Z.of_nat (Str.len (prepared text max_size)))%Z ->
  forall fuel,
    chunk_text fuel text chunk_size chunk_overlap max_size = None.
Proof.
  intros Hne Hov Hlong fuel. unfold chunk_text.
  destruct (String.eqb_spec text EmptyString) as [?|_]; [congruence|].
  set (t := prepared text max_size) in *.
  destruct (Z.leb_spec (Z.of_nat (Str.len t)) chunk_size) as [?|_]; [lia|].
  assert (Hstuck : forall fuel chunks,
            chunk_loop fuel t chunk_size chunk_overlap
                       (Z.of_nat (Str.len t)) 1 chunks = None).
  { clear fuel. induction fuel as [|fuel IH]; intros chunks; [reflexivity|].
    cbn [chunk_loop].
    destruct (Z.ltb_spec 1 (Z.of_nat (Str.len t))) as [_|?]; [|lia].
    rewrite Z.min_l by lia.
    destruct (Z.leb_spec (Z.of_nat (Str.len t)) (1 + chunk_size))
      as [?|_]; [lia|].
    destruct (Z.leb_spec (1 + chunk_size - chunk_overlap) 0) as [_|?].
    - apply IH.
    - replace (1 + chunk_size - chunk_overlap)%Z with 1%Z by lia. apply IH. }
  destruct fuel as [|fuel]; [reflexivity|].
  cbn [chunk_loop].
  destruct (Z.ltb_spec 0 (Z.of_nat (Str.len t))) as [_|?]; [|lia].
  rewrite Z.add_0_l, Z.min_l by lia.
  destruct (Z.leb_spec (Z.of_nat (Str.len t)) chunk_size) as [?|_]; [lia|].
  destruct (Z.leb_spec (chunk_size - chunk_overlap) 0) as [_|?]; [|lia].
  apply Hstuck.
Qed.

Lemma decimal_inj (i j : nat) : decimal i = decimal j -> i = j.
Proof.
  unfold decimal. intros H.
  apply (f_equal NilEmpty.uint_of_string) in H.
  rewrite !NilEmpty.usu in H. injection H as H.
  apply (f_equal Nat.of_uint) in H.
  now rewrite !Unsigned.of_to in H.
Qed.

Lemma str_app_inv_head (p s t : string) : p +:+ s = p +:+ t -> s = t.
Proof.
  induction p as [|c p IH]; [auto|].
  rewrite !str_app_cons. intros [= H]. auto.
Qed.

(** X26. The records of one document: the chunks of [chunk_text] in order, each
    with the source, and with chunk identifiers that are pairwise distinct. *)
Theorem chunks_with_metadata_ids (fuel : nat) (document name : string)
    (chunk_size chunk_overlap : Z) (records : list Chunk) :
  chunks_with_metadata fuel document name chunk_size chunk_overlap
  = Some records ->
  chunk_text fuel document chunk_size chunk_overlap 5000000
  = Some (map (fun r => get (text r) EmptyString) records)
  /\ Forall (fun r => source r = Some name) records
  /\ (forall i r, records !! i = Some r ->
        chunk_id r = Some (name +:+ "__" +:+ decimal (S i)))
  /\ NoDup (map chunk_id records).
Proof.
  unfold chunks_with_metadata.
  destruct (chunk_text _ _ _ _ _) as [chunks|]; [|discriminate].
  intros [= <-].
  assert (Hi : forall i r,
             imap (fun i chunk =>
                     mkChunk (Some chunk) (Some name)
                       (Some (name +:+ "__" +:+ decimal (S i)))
                       None None None None) chunks !! i = Some r ->
             exists chunk, chunks !! i = Some chunk
               /\ r = mkChunk (Some chunk) (Some name)
                        (Some (name +:+ "__" +:+ decimal (S i)))
                        None None None None).
  { intros i r H. rewrite list_lookup_imap in H.
    destruct (chunks !! i) as [chunk|]; [|discriminate].
    injection H as <-. eauto. }
  repeat split.
  - f_equal. clear Hi. rewrite fmap_imap.
    induction chunks as [|c chunks IH] using rev_ind; [reflexivity|].
    rewrite imap_app. cbn. rewrite IH at 1. reflexivity.
  - apply Forall_forall. intros r Hr.
    apply list_elem_of_lookup in Hr as [i Hr].
    apply Hi in Hr as (chunk & _ & ->). reflexivity.
  - intros i r Hr. apply Hi in Hr as (chunk & _ & ->). reflexivity.
  - apply NoDup_alt. intros i j x Hx Hy.
    change (map chunk_id ?l) with (chunk_id <$> l) in Hx, Hy.
    rewrite list_lookup_fmap in Hx, Hy.
    destruct (_ !! i) as [r|] eqn:Hr; [|discriminate].
    destruct (_ !! j) as [r'|] eqn:Hr'; [|discriminate].
    apply Hi in Hr as (chunk & _ & ->).
    apply Hi in Hr' as (chunk' & _ & ->).
    cbn [chunk_id] in Hx, Hy. rewrite <- Hy in Hx. injection Hx as Hx.
    apply str_app_inv_head in Hx.
    apply (str_app_inv_head "__") in Hx.
    apply decimal_inj in Hx. lia.
Qed.

End Chunks.

Lemma chunk_text_covers_witness :
  exists full last,
    (forall fuel,
       Str.len (chunker.prepared "abcdefghij" 100) <= fuel ->
       chunker.chunk_text fuel "abcdefghij" 4 1 100 = Some (full ++ [last]))
    /\ Forall (fun c => Z.of_nat (Str.len c) = 4%Z) full
    /\ (Z.of_nat (Str.len last) <= 4)%Z
    /\ rejoin (Z.to_nat 1) (full ++ [last])
       = chunker.prepared "abcdefghij" 100.
Proof.
  apply (chunk_text_covers "abcdefghij" 4 1 100); [discriminate|lia].
Defined.

Lemma chunk_text_never_returns_witness :
  chunker.chunk_text 1000 "abcdef" 2 2 100 = None.
Proof.
  apply (chunk_text_never_returns "abcdef" 2 2 100);
    [discriminate|lia|vm_compute; reflexivity].
Defined.

Definition three_records : list Chunk :=
  default [] (chunker.chunks_with_metadata 10 "abcdefghij" "spec.md" 4 1).

Lemma chunks_with_metadata_ids_witness :
  chunker.chunk_text 10 "abcdefghij" 4 1 5000000
  = Some (map (fun r => get (text r) EmptyString) three_records)
  /\ Forall (fun r => source r = Some "spec.md") three_records
  /\ (forall i r, three_records !! i = Some r ->
        chunk_id r = Some ("spec.md" +:+ "__" +:+ chunker.decimal (S i)))
  /\ NoDup (map chunk_id three_records).
Proof.
  apply (chunks_with_metadata_ids 10 "abcdefghij" "spec.md" 4 1).
  vm_compute. reflexivity.
Defined.

(** ** The fill order of a form: the topological sort of its graph *)

Section Dicts.
Import html_dependency_analyzer.
Context {V : Type}.
Implicit Types (d : list (string * V)) (k : string) (v : V).

Lemma dict_get_set_eq k v d : dict_get k (dict_set k v d) = Some v.
Proof.
  induction d as [|[k' v'] d IH]; cbn.
  - now rewrite String.eqb_refl.
  - destruct (String.eqb k k') eqn:E; cbn; rewrite ?E, ?String.eqb_refl; auto.
Qed.

Lemma dict_get_set_ne k k' v d :
  k <> k' -> dict_get k' (dict_set k v d) = dict_get k' d.
Proof.
  intros Hne. induction d as [|[k0 v0] d IH]; cbn.
  - destruct (String.eqb_spec k' k); congruence.
  - destruct (String.eqb_spec k k0) as [->|?]; cbn.
    + destruct (String.eqb_spec k' k0); congruence.
    + destruct (String.eqb_spec k' k0); auto.
Qed.

Lemma dict_get_None k d : dict_get k d = None <-> k ∉ map fst d.
Proof.
  induction d as [|[k' v'] d IH]; cbn.
  - split; [intros _; apply not_elem_of_nil|auto].
  - rewrite not_elem_of_cons.
    destruct (String.eqb_spec k k') as [->|?]; [|tauto].
    split; [discriminate|tauto].
Qed.

Lemma dict_get_Some k d : k ∈ map fst d -> exists v, dict_get k d = Some v.
Proof.
  intros Hin. destruct (dict_get k d) as [v|] eqn:E; [eauto|].
  now apply dict_get_None in E.
Qed.

Lemma keys_set_present k v d :
  k ∈ map fst d -> map fst (dict_set k v d) = map fst d.
Proof.
  induction d as [|[k' v'] d IH]; cbn; intros Hin.
  - now apply elem_of_nil in Hin.
  - destruct (String.eqb_spec k k') as [->|Hne]; [reflexivity|].
    cbn. f_equal. apply IH.
    apply elem_of_cons in Hin as [?|?]; [congruence|assumption].
Qed.

Lemma keys_set_absent k v d :
  k ∉ map fst d -> map fst (dict_set k v d) = map fst d ++ [k].
Proof.
  induction d as [|[k' v'] d IH]; cbn; intros Hin; [reflexivity|].
  apply not_elem_of_cons in Hin as [Hne Hin].
  destruct (String.eqb_spec k k'); [congruence|].
  cbn. f_equal. now apply IH.
Qed.

End Dicts.

Section FillOrder.
Import html_dependency_analyzer.
Context (g : FormDependencyGraph).

#[local] Abbreviation keys := (map fst (in_degrees g)).

(** The edges into [n], and those among them whose source is not in
    [done]. *)
Definition into (n : string) (es : list Edge) : list Edge :=
  filter (fun e => to e = n) es.
Definition pending (done : list string) (n : string) (es : list Edge)
    : list Edge :=
  filter (fun e => to e = n /\ from e ∉ done) es.
Definition from_here (node_id n : string) (es : list Edge) : list Edge :=
  filter (fun e => to e = n /\ from e = node_id) es.

Lemma zero_degrees_spec (ns : list string) :
  forall d0 : list (string * Z),
    NoDup (map fst d0) ->
    (forall k v, dict_get k d0 = Some v -> v = 0%Z) ->
    let d := fold_left (fun d node_id => dict_set node_id 0%Z d) ns d0 in
    NoDup (map fst d)
    /\ (forall k, k ∈ map fst d <-> k ∈ map fst d0 \/ k ∈ ns)
    /\ (forall k v, dict_get k d = Some v -> v = 0%Z)
    /\ length (map fst d) <= length (map fst d0) + length ns.
Proof.
  induction ns as [|n ns IH]; intros d0 Hnd Hz; cbn [fold_left].
  - split; [assumption|]. split; [|split; [assumption|cbn; lia]].
    intros k. split; [auto|].
    intros [?|H]; [assumption|now apply elem_of_nil in H].
  - destruct (IH (dict_set n 0%Z d0)) as (H1 & H2 & H3 & H4).
    + destruct (decide (n ∈ map fst d0)) as [Hin|Hout].
      * now rewrite keys_set_present.
      * rewrite keys_set_absent by assumption.
        apply NoDup_app. repeat split; [assumption| |apply NoDup_singleton].
        intros x Hx Hx'. apply list_elem_of_singleton in Hx'. congruence.
    + intros k v. destruct (decide (n = k)) as [->|Hne].
      * rewrite dict_get_set_eq. congruence.
      * rewrite dict_get_set_ne by assumption. apply Hz.
    + split; [assumption|]. split; [|split; [assumption|]].
      * intros k. rewrite H2, elem_of_cons.
        destruct (decide (n ∈ map fst d0)) as [Hin|Hout].
        -- rewrite keys_set_present by assumption.
           split; [tauto|]. intros [?|[->|?]]; auto.
        -- rewrite keys_set_absent, elem_of_app, list_elem_of_singleton
             by assumption.
           split; [intros [[?|?]|?]; auto|intros [?|[?|?]]; auto].
      * cbn [length]. etransitivity; [exact H4|].
        destruct (decide (n ∈ map fst d0)) as [Hin|Hout].
        -- rewrite keys_set_present by assumption. lia.
        -- rewrite keys_set_absent, length_app by assumption. cbn. lia.
Qed.

Lemma count_edges_spec (es : list Edge) :
  forall d : list (string * Z),
    let d' := fold_left count_edge es d in
    map fst d' = map fst d
    /\ forall n v, dict_get n d = Some v ->
         dict_get n d' = Some (v + Z.of_nat (length (into n es)))%Z.
Proof.
  induction es as [|e es IH]; intros d; cbn [fold_left].
  - split; [reflexivity|]. intros n v ->. cbn. f_equal. lia.
  - destruct (IH (count_edge d e)) as [Hk Hv]. split.
    + rewrite Hk. unfold count_edge.
      destruct (dict_get (to e) d) as [x|] eqn:E; [|reflexivity].
      apply keys_set_present.
      destruct (decide (to e ∈ map fst d)) as [?|Hout]; [assumption|].
      apply dict_get_None in Hout. congruence.
    + intros n v Hn. unfold into. rewrite filter_cons.
      destruct (decide (to e = n)) as [Heq|Hne].
      * assert (Hc : dict_get n (count_edge d e) = Some (v + 1)%Z)
          by (unfold count_edge; rewrite Heq, Hn; apply dict_get_set_eq).
        rewrite (Hv _ _ Hc). cbn [length]. f_equal. unfold into. lia.
      * assert (Hc : dict_get n (count_edge d e) = Some v).
        { unfold count_edge. destruct (dict_get (to e) d); [|assumption].
          now rewrite dict_get_set_ne. }
        now rewrite (Hv _ _ Hc).
Qed.

Lemma dict_get_elem (d : list (string * Z)) (k : string) (v : Z) :
  NoDup (map fst d) -> ((k, v) ∈ d <-> dict_get k d = Some v).
Proof.
  induction d as [|[k' v'] d IH]; cbn; intros Hnd.
  - split; [intros H; now apply elem_of_nil in H|discriminate].
  - apply NoDup_cons in Hnd as [Hout Hnd]. rewrite elem_of_cons.
    destruct (String.eqb_spec k k') as [->|Hne].
    + split; [|intros [= ->]; now left].
      intros [[= ->]|Hin]; [reflexivity|].
      exfalso. apply Hout. apply (list_elem_of_fmap_2 fst) in Hin. exact Hin.
    + rewrite <- IH by assumption. split; [|tauto].
      intros [[= ? ?]|?]; [congruence|assumption].
Qed.

Lemma length_from_here_cons (node_id n : string) (e : Edge)
    (es : list Edge) :
  length (from_here node_id n (e :: es))
  = (if bool_decide (to e = n /\ from e = node_id) then 1 else 0)
    + length (from_here node_id n es).
Proof.
  unfold from_here. rewrite filter_cons.
  destruct (decide _) as [H|H].
  - now rewrite bool_decide_eq_true_2.
  - now rewrite bool_decide_eq_false_2.
Qed.

(** Taking [node_id] off the pending sources: the edges it releases. *)
Lemma pending_split (done : list string) (node_id n : string)
    (es : list Edge) :
  node_id ∉ done ->
  length (pending done n es)
  = length (pending (done ++ [node_id]) n es)
    + length (from_here node_id n es).
Proof.
  intros Hout. unfold pending, from_here.
  induction es as [|e es IH]; [reflexivity|].
  rewrite !filter_cons.
  assert (Happ : from e ∈ done ++ [node_id]
                 <-> from e ∈ done \/ from e = node_id)
    by (rewrite elem_of_app, list_elem_of_singleton; reflexivity).
  destruct (decide (to e = n /\ from e ∉ done)) as [[H1 H2]|H];
    destruct (decide (to e = n /\ from e ∉ done ++ [node_id])) as [[H3 H4]|H'];
    destruct (decide (to e = n /\ from e = node_id)) as [[H5 H6]|H''];
    cbn [length]; try lia; exfalso; try tauto.
  rewrite H6 in *. tauto.
Qed.

Section Release.
Context (K : list string) (node_id : string) (done : list string)
        (base : string -> nat).

Lemma release_spec (rest : list Edge) :
  forall (d : list (string * Z)) (q : list string),
    map fst d = K ->
    (forall n, n ∈ K ->
       dict_get n d
       = Some (Z.of_nat (base n + length (from_here node_id n rest)))) ->
    NoDup (done ++ q) ->
    (forall n, n ∈ done ++ q -> n ∈ K) ->
    (forall n, n ∈ K ->
       (n ∈ done ++ q <-> base n + length (from_here node_id n rest) = 0)) ->
    map fst (release node_id rest d q).1 = K
    /\ (forall n, n ∈ K ->
          dict_get n (release node_id rest d q).1 = Some (Z.of_nat (base n)))
    /\ NoDup (done ++ (release node_id rest d q).2)
    /\ (forall n, n ∈ done ++ (release node_id rest d q).2 -> n ∈ K)
    /\ (forall n, n ∈ K ->
          (n ∈ done ++ (release node_id rest d q).2 <-> base n = 0)).
Proof.
  induction rest as [|e rest IH]; intros d q Hk Hv Hnd Hin Hiff.
  - cbn [release fst snd]. split; [assumption|].
    split; [|split; [assumption|split; [assumption|]]].
    + intros n Hn. rewrite (Hv n Hn). cbn. do 2 f_equal. lia.
    + intros n Hn. rewrite (Hiff n Hn). cbn. lia.
  - cbn [release].
    assert (Hother : forall n, to e <> n \/ from e <> node_id ->
              length (from_here node_id n (e :: rest))
              = length (from_here node_id n rest)).
    { intros n Hn. rewrite length_from_here_cons.
      rewrite bool_decide_eq_false_2; [reflexivity|]. tauto. }
    destruct (String.eqb_spec (from e) node_id) as [Hfrom|Hfrom].
    + destruct (dict_get (to e) d) as [x|] eqn:Hx.
      * assert (Hto : to e ∈ K).
        { rewrite <- Hk.
          destruct (decide (to e ∈ map fst d)) as [?|Hout]; [assumption|].
          apply dict_get_None in Hout. congruence. }
        assert (Hx' : x = Z.of_nat (S (base (to e)
                        + length (from_here node_id (to e) rest)))).
        { rewrite (Hv _ Hto) in Hx. injection Hx as <-.
          rewrite length_from_here_cons, bool_decide_eq_true_2 by auto.
          f_equal. lia. }
        assert (Hfresh : to e ∉ done ++ q).
        { intros Hc. apply (Hiff _ Hto) in Hc.
          rewrite length_from_here_cons, bool_decide_eq_true_2 in Hc by auto.
          lia. }
        assert (Hk1 : map fst (dict_set (to e) (x - 1)%Z d) = K).
        { rewrite keys_set_present; [assumption|]. now rewrite Hk. }
        assert (Hv1 : forall n, n ∈ K ->
                  dict_get n (dict_set (to e) (x - 1)%Z d)
                  = Some (Z.of_nat (base n
                                    + length (from_here node_id n rest)))).
        { intros n Hn. destruct (decide (to e = n)) as [<-|Hne].
          - rewrite dict_get_set_eq. f_equal. lia.
          - rewrite dict_get_set_ne by assumption.
            rewrite (Hv n Hn), Hother by auto. reflexivity. }
        destruct (Z.eqb_spec (x - 1) 0) as [Hzero|Hpos].
        -- apply IH; try assumption.
           ++ rewrite app_assoc. apply NoDup_app.
              split; [assumption|]. split; [|apply NoDup_singleton].
              intros y Hy Hy'. apply list_elem_of_singleton in Hy'.
              congruence.
           ++ intros n. rewrite app_assoc, elem_of_app,
                list_elem_of_singleton.
              intros [? | ->]; auto.
           ++ intros n Hn. rewrite app_assoc, elem_of_app,
                list_elem_of_singleton.
              destruct (decide (to e = n)) as [<-|Hne].
              ** split; [lia|auto].
              ** rewrite (Hiff n Hn), Hother by auto.
                 split; [intros [?|?]; [assumption|congruence]|auto].
        -- apply IH; try assumption.
           intros n Hn. destruct (decide (to e = n)) as [<-|Hne].
           ++ split; [intros Hc; now apply Hfresh in Hc|lia].
           ++ rewrite (Hiff n Hn), Hother by auto. reflexivity.
      * assert (Hto : to e ∉ K).
        { rewrite <- Hk. now apply dict_get_None. }
        apply IH; try assumption.
        -- intros n Hn. rewrite (Hv n Hn), Hother; [reflexivity|].
           left. congruence.
        -- intros n Hn. rewrite (Hiff n Hn), Hother; [reflexivity|].
           left. congruence.
    + apply IH; try assumption.
      * intros n Hn. rewrite (Hv n Hn), Hother by auto. reflexivity.
      * intros n Hn. rewrite (Hiff n Hn), Hother by auto. reflexivity.
Qed.

End Release.

(** What the loop keeps true of the degrees, the queue and the result. *)
Definition sorting (d : list (string * Z)) (q r : list string) : Prop :=
  map fst d = keys
  /\ (forall n, n ∈ keys ->
        dict_get n d = Some (Z.of_nat (length (pending r n (edges g)))))
  /\ NoDup (r ++ q)
  /\ (forall n, n ∈ r ++ q -> n ∈ keys)
  /\ (forall n, n ∈ keys ->
        (n ∈ r ++ q <-> length (pending r n (edges g)) = 0))
  /\ (forall e r1 r2, e ∈ edges g -> r = r1 ++ to e :: r2 -> from e ∈ r1).

Lemma pending_none (done : list string) (n : string) (es : list Edge) :
  length (pending done n es) = 0 ->
  forall e, e ∈ es -> to e = n -> from e ∈ done.
Proof.
  intros Hlen e He Hto.
  destruct (decide (from e ∈ done)) as [?|Hout]; [assumption|].
  assert (Hin : e ∈ pending done n es)
    by (apply list_elem_of_filter; auto).
  destruct (pending done n es); [now apply elem_of_nil in Hin|discriminate].
Qed.

Lemma none_pending (done : list string) (n : string) (es : list Edge) :
  (forall e, e ∈ es -> to e = n -> from e ∈ done) ->
  length (pending done n es) = 0.
Proof.
  intros H. destruct (pending done n es) as [|e l] eqn:E; [reflexivity|].
  assert (Hin : e ∈ pending done n es) by (rewrite E; left).
  apply list_elem_of_filter in Hin as [[Hto Hout] Hin].
  exfalso. apply Hout. auto.
Qed.

Lemma sorting_step (d : list (string * Z)) (node_id : string)
    (q r : list string) :
  sorting d (node_id :: q) r ->
  sorting (release node_id (edges g) d q).1
          (release node_id (edges g) d q).2 (r ++ [node_id]).
Proof.
  intros (Hk & Hv & Hnd & Hin & Hiff & Hord).
  assert (Hout : node_id ∉ r).
  { apply NoDup_app in Hnd as (_ & Hd & _). intros Hc.
    apply (Hd _ Hc). left. }
  assert (Hmem : forall n, n ∈ (r ++ [node_id]) ++ q
                           <-> n ∈ r ++ node_id :: q).
  { intros n. rewrite <- app_assoc. reflexivity. }
  destruct (release_spec keys node_id (r ++ [node_id])
              (fun n => length (pending (r ++ [node_id]) n (edges g)))
              (edges g) d q) as (H1 & H2 & H3 & H4 & H5).
  - exact Hk.
  - intros n Hn. rewrite (Hv n Hn). do 2 f_equal.
    now apply pending_split.
  - rewrite <- app_assoc. exact Hnd.
  - intros n Hn. apply Hin, Hmem, Hn.
  - intros n Hn. rewrite Hmem, (Hiff n Hn).
    now rewrite (pending_split r node_id n (edges g) Hout).
  - split; [exact H1|]. split; [exact H2|]. split; [exact H3|].
    split; [exact H4|]. split; [exact H5|].
    intros e r1 r2 He Heq.
    assert (Hlast : r2 = [] \/ exists r2' x, r2 = r2' ++ [x])
      by (clear; destruct r2 using rev_ind; eauto).
    destruct Hlast as [->|(r2' & x & ->)].
    + apply (app_inj_tail r r1) in Heq as [-> Hto].
      assert (Hq : node_id ∈ keys) by (apply Hin, elem_of_app; right; left).
      assert (Hzero : length (pending r1 node_id (edges g)) = 0).
      { apply (Hiff _ Hq). apply elem_of_app. right. left. }
      exact (pending_none _ _ _ Hzero e He (eq_sym Hto)).
    + change (r1 ++ to e :: r2' ++ [x]) with (r1 ++ (to e :: r2') ++ [x])
        in Heq.
      rewrite app_assoc in Heq.
      apply app_inj_tail in Heq as [Heq _].
      exact (Hord e r1 r2' He Heq).
Qed.

Lemma sort_loop_spec (fuel : nat) :
  forall (d : list (string * Z)) (q r : list string),
    sorting d q r ->
    length keys - length r <= fuel ->
    exists out d',
      sort_loop fuel (edges g) d q r = Some out /\ sorting d' [] out.
Proof.
  induction fuel as [|fuel IH]; intros d q r Hs Hfuel.
  - destruct q as [|node_id q]; [exists r, d; auto|].
    exfalso. destruct Hs as (_ & _ & Hnd & Hin & _).
    assert (Hle : length (r ++ node_id :: q) <= length keys).
    { apply NoDup_incl_length; [now apply NoDup_ListNoDup|].
      intros x Hx. apply list_elem_of_In, Hin, list_elem_of_In, Hx. }
    rewrite length_app in Hle. cbn in Hle. lia.
  - destruct q as [|node_id q]; [exists r, d; auto|].
    cbn [sort_loop].
    pose proof (sorting_step d node_id q r Hs) as Hs'.
    destruct (release node_id (edges g) d q) as [d' q'].
    apply (IH d' q' (r ++ [node_id]) Hs').
    rewrite length_app. cbn. lia.
Qed.

Lemma sort_loop_more_fuel (es : list Edge) (fuel fuel' : nat) :
  fuel <= fuel' ->
  forall d q r out,
    sort_loop fuel es d q r = Some out ->
    sort_loop fuel' es d q r = Some out.
Proof.
  revert fuel'. induction fuel as [|fuel IH]; intros fuel' Hle d q r out.
  - destruct q; [|discriminate]. destruct fuel'; auto.
  - destruct fuel' as [|fuel']; [lia|].
    destruct q as [|node_id q]; [auto|]. cbn [sort_loop].
    destruct (release node_id es d q) as [d' q'].
    apply IH. lia.
Qed.

Lemma keys_nodes :
  NoDup keys
  /\ (forall n, n ∈ keys <-> n ∈ map fst (nodes g))
  /\ length keys <= length (nodes g)
  /\ forall n, n ∈ keys ->
       dict_get n (in_degrees g)
       = Some (Z.of_nat (length (into n (edges g)))).
Proof.
  destruct (zero_degrees_spec (map fst (nodes g)) [])
    as (Hnd & Hmem & Hzero & Hlen).
  { constructor. }
  { discriminate. }
  fold (zero_degrees g) in Hnd, Hmem, Hzero, Hlen.
  destruct (count_edges_spec (edges g) (zero_degrees g)) as [Hk Hv].
  fold (in_degrees g) in Hk, Hv.
  rewrite Hk. split; [exact Hnd|]. split; [|split].
  - intros n. rewrite Hmem. split; [|auto].
    intros [H|H]; [now apply elem_of_nil in H|assumption].
  - rewrite !length_map in *. cbn in Hlen. lia.
  - intros n Hn. destruct (dict_get_Some n (zero_degrees g) Hn) as [v Hv0].
    rewrite (Hv n v Hv0). rewrite (Hzero n v Hv0). reflexivity.
Qed.

Lemma sorting_initial :
  sorting (in_degrees g)
    (map fst (filter (fun item => (snd item =? 0)%Z) (in_degrees g))) [].
Proof.
  destruct keys_nodes as (Hnd & Hmem & Hlen & Hv).
  assert (Hpend : forall n, pending [] n (edges g) = into n (edges g)).
  { intros n. apply list_filter_iff. intros e. split; [tauto|].
    intros H. split; [assumption|apply not_elem_of_nil]. }
  assert (Hq : forall n,
             n ∈ map fst (filter (fun item => (snd item =? 0)%Z)
                                 (in_degrees g))
             <-> dict_get n (in_degrees g) = Some 0%Z).
  { intros n. rewrite <- (dict_get_elem _ _ _ Hnd). split.
    - intros Hin. apply list_elem_of_fmap in Hin as ([k v] & -> & Hin).
      apply list_elem_of_filter in Hin as [Hz Hin]. cbn in *.
      apply Is_true_true in Hz. apply Z.eqb_eq in Hz. now subst.
    - intros Hin. apply (list_elem_of_fmap_2' fst _ (n, 0%Z)); [|reflexivity].
      apply list_elem_of_filter. split; [|assumption].
      exact I. }
  split; [reflexivity|]. split; [|split; [|split; [|split]]].
  - intros n Hn. rewrite Hpend. now apply Hv.
  - cbn [app]. apply (sublist_NoDup _ keys); [exact Hnd|].
    apply fmap_sublist, sublist_filter.
  - intros n Hn. cbn [app] in Hn. apply Hq in Hn.
    destruct (decide (n ∈ keys)) as [?|Hout]; [assumption|].
    apply dict_get_None in Hout. congruence.
  - intros n Hn. cbn [app]. rewrite Hq, Hpend, (Hv n Hn).
    split; [intros [= H]; lia|intros ->; reflexivity].
  - intros e r1 r2 _ Heq. destruct r1; discriminate.
Qed.

(** A chain of edges from one element to another. *)
Inductive chain (es : list Edge) : string -> string -> Prop :=
| chain_edge e : e ∈ es -> chain es (from e) (to e)
| chain_step e m : e ∈ es -> chain es m (from e) -> chain es m (to e).

Lemma chain_before (es : list Edge) (result : list string) :
  (forall e r1 r2, e ∈ es -> result = r1 ++ to e :: r2 -> from e ∈ r1) ->
  forall m n, chain es m n ->
    forall r1 r2, result = r1 ++ n :: r2 -> m ∈ r1.
Proof.
  intros Hord m n Hchain.
  induction Hchain as [e He|e m He Hchain IH]; intros r1 r2 Heq.
  - exact (Hord e r1 r2 He Heq).
  - pose proof (Hord e r1 r2 He Heq) as Hfrom.
    apply list_elem_of_split in Hfrom as (a & b & ->).
    rewrite <- app_assoc in Heq. cbn [app] in Heq.
    apply elem_of_app. left. exact (IH a _ Heq).
Qed.

Lemma fill_order :
  exists result,
    (forall fuel, length (nodes g) <= fuel ->
       topological_sort fuel g = Some result)
    /\ NoDup result
    /\ (forall n, n ∈ result -> n ∈ map fst (nodes g))
    /\ (forall n, n ∈ map fst (nodes g) ->
          (n ∈ result
           <-> forall e, e ∈ edges g -> to e = n -> from e ∈ result))
    /\ (forall e r1 r2,
          e ∈ edges g -> result = r1 ++ to e :: r2 -> from e ∈ r1).
Proof.
  destruct keys_nodes as (_ & Hmem & Hlen & _).
  destruct (sort_loop_spec (length (nodes g)) _ _ _ sorting_initial)
    as (out & d' & Hrun & Hk & Hv & Hnd & Hin & Hiff & Hord).
  { cbn. lia. }
  rewrite app_nil_r in Hnd.
  exists out. split; [|split; [exact Hnd|split; [|split; [|exact Hord]]]].
  - intros fuel Hfuel. unfold topological_sort.
    exact (sort_loop_more_fuel _ _ _ Hfuel _ _ _ _ Hrun).
  - intros n Hn. apply Hmem, Hin. now rewrite app_nil_r.
  - intros n Hn. apply Hmem in Hn.
    specialize (Hiff n Hn). rewrite app_nil_r in Hiff. rewrite Hiff.
    split; [apply pending_none|apply none_pending].
Qed.

(** X27. The fill order. [topological_sort] returns, with as much fuel as
    the graph has nodes; no node is listed twice and only nodes are listed;
    a node is listed exactly when the source of every edge into it is
    listed; every element from which a chain of edges leads to a listed
    node comes before that node; so no listed node lies on a cycle. *)
Theorem topological_sort_order :
  exists result,
    (forall fuel, length (nodes g) <= fuel ->
       topological_sort fuel g = Some result)
    /\ NoDup result
    /\ (forall n, n ∈ result -> n ∈ map fst (nodes g))
    /\ (forall n, n ∈ map fst (nodes g) ->
          (n ∈ result
           <-> forall e, e ∈ edges g -> to e = n -> from e ∈ result))
    /\ (forall m n r1 r2,
          chain (edges g) m n -> result = r1 ++ n :: r2 -> m ∈ r1)
    /\ (forall n, chain (edges g) n n -> n ∉ result).
Proof.
  destruct fill_order as (result & Hrun & Hnd & Hin & Hiff & Hord).
  exists result. split; [exact Hrun|]. split; [exact Hnd|].
  split; [exact Hin|]. split; [exact Hiff|]. split.
  - intros m n r1 r2 Hchain. exact (chain_before _ _ Hord m n Hchain r1 r2).
  - intros n Hchain Hn.
    apply list_elem_of_split in Hn as (r1 & r2 & Heq).
    pose proof (chain_before _ _ Hord n n Hchain r1 r2 Heq) as Hbefore.
    rewrite Heq in Hnd. apply NoDup_app in Hnd as (_ & Hd & _).
    apply (Hd n Hbefore). left.
Qed.

End FillOrder.

(** ** The corpus statistics *)

Section DocumentFrequencies.
Import corpus_stats_builder.

(** A count raised by [k]. *)
Definition raised (k : nat) (count : option Z) : option Z :=
  match k with
  | 0 => count
  | S _ => Some (get count 0 + Z.of_nat k)%Z
  end.

Lemma raised_raised (a b : nat) (count : option Z) :
  raised a (raised b count) = raised (b + a) count.
Proof.
  destruct a as [|a], b as [|b]; cbn [raised Nat.add get]; try reflexivity.
  - now rewrite Nat.add_0_r.
  - f_equal. lia.
Qed.

Lemma count_terms_lookup (terms : list string) (term : string) :
  NoDup terms ->
  forall df_map,
    count_terms df_map terms !! term
    = raised (if bool_decide (term ∈ terms) then 1 else 0)
             (df_map !! term).
Proof.
  unfold count_terms.
  induction terms as [|t terms IH]; intros Hnd df_map; [reflexivity|].
  apply NoDup_cons in Hnd as [Hout Hnd]. cbn [fold_left].
  rewrite (IH Hnd). destruct (decide (t = term)) as [->|Hne].
  - rewrite lookup_insert_eq.
    rewrite (bool_decide_eq_false_2 _ Hout).
    rewrite bool_decide_eq_true_2 by left. reflexivity.
  - rewrite lookup_insert_ne by assumption.
    destruct (decide (term ∈ terms)) as [Hin|Hin].
    + rewrite !bool_decide_eq_true_2; [reflexivity|now right|assumption].
    + rewrite !bool_decide_eq_false_2; [reflexivity| |assumption].
      rewrite not_elem_of_cons. auto.
Qed.

(** The chunks in which [term] occurs as a word. *)
Definition holding (term : string) (chunks : list Chunk) : list Chunk :=
  filter (fun chunk =>
            term ∈ Re.findall ranking.words_re
                     (Str.lower (get (text chunk) EmptyString)))
         chunks.

Lemma build_lookup (term : string) (chunks : list Chunk) :
  forall df_map,
    fold_left (fun m chunk => count_terms m (terms_of chunk)) chunks df_map
      !! term
    = raised (length (holding term chunks)) (df_map !! term).
Proof.
  induction chunks as [|c chunks IH]; intros df_map; [reflexivity|].
  cbn [fold_left]. rewrite IH, count_terms_lookup
    by apply NoDup_remove_dups.
  rewrite raised_raised. f_equal.
  unfold holding. rewrite filter_cons. unfold terms_of.
  destruct (decide (term ∈ Re.findall _ _)) as [Hin|Hin].
  - rewrite bool_decide_eq_true_2 by (now apply elem_of_remove_dups).
    reflexivity.
  - rewrite bool_decide_eq_false_2; [reflexivity|].
    now rewrite elem_of_remove_dups.
Qed.

(** X28. The document frequency written for a term is the number of chunks in
    which it occurs as a word; a term that occurs in none has no entry. So every
    frequency in the map is at least 1 and at most [total_docs]. *)
Theorem document_frequencies (chunks : list Chunk) (term : string) :
  let n := length (holding term chunks) in
  (build_corpus_statistics chunks).2 !! term
  = (if decide (n = 0) then None else Some (Z.of_nat n))
  /\ (Z.of_nat n <= (build_corpus_statistics chunks).1)%Z.
Proof.
  cbn [build_corpus_statistics fst snd]. unfold build_df_map. split.
  - rewrite build_lookup, lookup_empty.
    destruct (length (holding term chunks)) as [|k]; [reflexivity|].
    destruct (decide _); [discriminate|]. cbn [raised get]. f_equal.
  - apply Nat2Z.inj_le. apply length_filter.
Qed.

End DocumentFrequencies.

(** ** The cases returned: quality filter, duplicate removal, renumbering *)

Section ReturnedCases.
Import Num validation generate_test_cases.
Context (format_2f : Q -> string).

Lemma renumber_from_signatures (cases : list TestCase) :
  forall i, map signature (renumber_from i cases) = map signature cases.
Proof.
  induction cases as [|tc cases IH]; intros i; [reflexivity|].
  cbn [renumber_from map]. now rewrite IH.
Qed.

Lemma renumber_from_Forall (P : TestCase -> Prop) (cases : list TestCase) :
  (forall v tc, P tc -> P (set_test_id v tc)) ->
  Forall P cases -> forall i, Forall P (renumber_from i cases).
Proof.
  intros Hset Hall. induction Hall as [|tc cases Htc _ IH]; intros i;
    cbn [renumber_from]; constructor; auto.
Qed.

(** What holds of a case the quality filter kept, and still holds once its
    identifier is rewritten. *)
Definition passed (st : Validation) (tc : TestCase) : Prop :=
  (Str.lower (Str.strip (get (feature tc) EmptyString)) ∉ generic_features)
  /\ exists tc0,
       tc0 ∈ validated_cases st
       /\ (0.5 <= calculate_quality_score tc0)%Q
       /\ test_scenario tc = test_scenario tc0
       /\ test_steps tc = test_steps tc0
       /\ expected_result tc = expected_result tc0.

Lemma kept_passed (used_chunks : list Chunk) (st : Validation) :
  Forall (passed st)
    (map fst (kept_of format_2f used_chunks (validated_cases st))).
Proof.
  apply Forall_forall. intros tc Hin.
  apply list_elem_of_fmap in Hin as ([tc' q] & -> & Hin).
  apply list_elem_of_fmap in Hin as (tc0 & [= -> ->] & Hin).
  apply list_elem_of_filter in Hin as [Hs Hin]. cbn [fst]. split.
  - apply refine_feature.
  - exists tc0.
    pose proof (refine_keeps format_2f used_chunks
                  (calculate_quality_score tc0) tc0) as (_ & H2 & H3 & H4 & _).
    split; [exact Hin|]. split; [now apply Qltb_ge|]. auto.
Qed.

(** X29. The cases that leave the pipeline after the quality filter, the
    duplicate removal and the renumbering are at most as many as the validated
    ones; no two of them have the same signature; none has a generic feature
    name; and each is, up to its identifier, grounding, feature and review flag,
    a validated case that scored 0.5 or more. *)
Theorem returned_cases_passed (used_chunks : list Chunk) (st : Validation) :
  let returned :=
    finish (map fst (quality_filter format_2f used_chunks st).1.1) in
  length returned <= length (validated_cases st)
  /\ NoDup (map signature returned)
  /\ Forall (fun tc =>
       (Str.lower (Str.strip (get (feature tc) EmptyString))
        ∉ generic_features)
       /\ exists tc0,
            tc0 ∈ validated_cases st
            /\ (0.5 <= calculate_quality_score tc0)%Q
            /\ test_scenario tc = test_scenario tc0
            /\ test_steps tc = test_steps tc0
            /\ expected_result tc = expected_result tc0) returned.
Proof.
  cbv zeta. unfold quality_filter.
  pose proof (quality_loop_eq format_2f used_chunks (validated_cases st)
                [] [] st) as H.
  destruct (quality_loop _ _ _ _ _ _) as [[kept0 dropped0] st0].
  destruct H as (-> & _). cbn [fst app].
  set (cases := map fst (kept_of format_2f used_chunks (validated_cases st))).
  unfold finish, ensure_unique_test_ids.
  rewrite remove_semantic_duplicates_eq.
  pose proof (keep_first_sublist cases []) as Hsub.
  split; [|split].
  - rewrite renumber_from_length.
    etransitivity; [exact (sublist_length _ _ Hsub)|].
    unfold cases, kept_of. rewrite !length_map. apply length_filter.
  - rewrite renumber_from_signatures. apply keep_first_NoDup.
  - apply (renumber_from_Forall (passed st)).
    + intros v tc Htc. exact Htc.
    + apply Forall_forall. intros tc Hin.
      apply (elem_of_sublist _ _ _ Hin) in Hsub.
      exact (proj1 (Forall_forall _ _) (kept_passed used_chunks st) tc Hsub).
Qed.

End ReturnedCases.
